(* ===== verification/_CoqProject ===== *)
-Q . S2P
Prelude.v
Value.v
Descendants.v
Machine.v
System.v
Arrays.v
Misc.v
Matching.v
Constraints.v
Object.v
Logic.v
RefCount.v
Destroy.v
Copy.v
Table.v
Reach.v
GC.v
Scanning.v
GCMark.v
GCScan.v
GCTrace.v
GCCollect.v
Conv.v
Access.v
Lookup.v
Callable.v
Errors.v
Signal.v
Roots.v
Cxx.v
Promise.v
Event.v
Spawn.v
Log.v
Main.v
File.v
DBus.v
Deserial.v
DBusConn.v
Keymap.v
Xcb.v
XKey.v
XInput.v
Randr.v
Xorg.v
Devices.v
LuaApi.v
Lua.v
LuaCalls.v
LuaModule.v
Demo.v
Backtrace.v
Ownership.v
Conversions.v
Members.v
Closures.v
Typed.v
Signals.v
ObjectAt.v
PromiseFacts.v
DBusFacts.v
Lines.v
Logging.v
Signature.v
RootSet.v
Reading.v
Collector.v
Startup.v
XFacts.v
LuaFacts.v
MiscFacts.v
Chains.v
Rings.v
Uthash.v
UthashLogic.v
UthashFacts.v
MemberTable.v
Siblings.v
KeyPress.v
