(* ===== verification/Prelude.v ===== *)
(** * deai: a verification development

    deai is an event-driven automation daemon written in C around a small object system:
    objects with named members, values with a type tag, signals and listeners, promises,
    closures, and a collector for cycles of references. Plugins and scripts (Lua) see
    everything through this object system. This development models the object system and
    the components built directly on it, and proves what makes them correct.

    ** The model

    A C function is a function of type [M A = world -> outcome A] ([Machine]): it returns a
    result and a new world, throws a deai error object (the C++ exception behind
    [di_throw]), or gets stuck in a [fault]: a failed [assert], an [abort] ([DI_CHECK],
    [DI_PANIC]), an access to freed memory, a NULL or wild pointer, undefined behaviour. A
    world is the heap of objects with the few static variables of the program. The end of the
    process is a fault too ([Exited], [Replaced]): nothing returns from it. A variable
    with a cleanup attribute is a [scoped] block, whose cleanup runs on both ways out. An
    out-parameter [error] that may be NULL is a flag [catch] and an optional object in the
    result; a function that returns an error code and stores a result has the type
    [rc_or A], [inl rc] for a code other than 0.

    The code outside the object layer is a parameter: [Env] ([Machine]) for the functions
    behind [call] and [dtor] pointers and for the log, [Ffi] ([Callable]) for libffi,
    [Libev] ([Event]) for libev, [Libdbus] ([DBus]) and [LibdbusConn] ([DBusConn]) for
    libdbus, [Xkb] ([Keymap]) for libxkbcommon, [Xcb] ([Xcb]) for libxcb, [Lua] ([LuaApi]) for
    liblua, [Devices] ([Devices]) for libudev, libdisplay-info and input devices, [System] for
    the operating system and the few functions of the C library that are not modelled. Their answers may depend on the trace of all calls, which is part of
    the world. What a destructor may do is a hypothesis ([Destroy.env_ok]): it preserves the
    invariant of references, does not revive what is condemned and, in the strict form,
    leaves alone what is still referenced. [Demo] has
    instances of all of these, with which the hypotheses of the theorems are discharged on
    concrete stores.

    Choices that hold throughout: asserts are enabled; [TRACK_OBJECTS] and
    [ENABLE_STACK_TRACE] are off ([Backtrace] has what the latter adds); the platform is LP64; addresses are positive numbers and
    are not reused while the program runs, so that a use after free is always noticed;
    allocation does not fail; members of an object are identified by their name and are in
    the order of uthash, the order of insertion ([MemberTable] has the table behind them, on a
    memory of its own, where allocation may fail and addresses are used again); strings are byte strings, and a [di_string]
    is [None] when its data is NULL; in [bindings/c++/conv.cc] the implicit conversion of a
    checked integer to [std::optional<T>] goes through the converting constructor and
    [operator double], as overload resolution picks it.

    Recursion that C bounds by nothing (nested destructions, loops that run foreign code,
    the traversals of the collector) is bounded by [env_fuel], and running out is the fault
    [OutOfFuel] (so do the loops that retry a request, drain a queue of events or walk a
    table of Lua), which no theorem about a run admits: the bound that is enough is a
    hypothesis, the number of live objects for destructions ([alive w < N <= env_fuel]),
    since each nested destruction has one live object less, and twice that number for the
    collector, each round of which visits an object at most twice. Parsers and scans of
    strings compute their own bound from the length of the string, the walk over the
    processes has the number of processes, the search for a matching one more than there are
    nodes, the queue of constraints twice the steps it is given and one for each variable, the
    lists of keycodes one more than an array has elements, the loops over a hash table one more
    than there are handles. Code on arrays without other
    effects ([Arrays]) is a function into [or_fault], or into [cxx] when it throws exceptions
    of the C++ library; an access outside of an array is undefined behaviour.

    Errors of Lua jump out of C functions past their cleanups: code that may raise one is in
    [LM] ([LuaApi]), and an error that leaves a function Lua did not call ends the program.
    Exceptions of the C++ library are values ([CM], [Cxx]) up to the handlers of
    [exception.cc]; those of deai are exceptions of the machine everywhere.

    ** The files

    - [Prelude]: machine integers, errno values, multisets of references as counts, sums
      over finite maps.
    - [Value], [Machine], [Object]: [include/deai/object.h], [di_internal.h] and the first
      half of [object.c]: types, values, strings; objects, store, effects; allocation,
      reference counts, weak references, destruction, copying and freeing values, the raw
      member table.
    - [Logic]: [wp], total correctness of a run, with its structural rules; [looks], for
      computations that change nothing.
    - [RefCount], [Destroy], [Copy], [Table], [Lookup]: the invariant [Inv ext extw pin w] of
      a store whose holders own the strong references [ext] and the weak references [extw]
      (every count is the number of references there are, nothing dangles, a dead object
      is empty), and the lemmas that each operation preserves it.
    - [Reach], [Scanning], [GCMark], [GCScan], [GCTrace], [GCCollect]: what is reachable, the
      traversal of the collector as a depth-first search, and the invariants of its passes:
      the counts of references from inside, the marks, the condemned objects.
    - [System], [Descendants]: the operating system as an interface; the tree of processes of
      [main.c].
    - [GC]: [di_collect_garbage]. [Conv]: [bindings/c++/conv.cc]. [Access]: properties,
      getters, setters, enumeration. [Callable]: closures, [callable.c]. [Errors], [Signal]:
      error objects, signals and listeners of [object.c]. [Roots]: the roots object of
      [main.c]. [Promise], [Event]: [event.c]. [Spawn]: [string_buf.c], [spawn.c]. [Log]:
      [log.c], [os.c]. [Main]: the rest of [main.c]. [File]: [plugins/file/file.c]. [DBus],
      [Deserial]: [plugins/dbus/signature.c], [plugins/dbus/sedes.c]. [DBusConn]:
      [plugins/dbus/dbus.c].
    - [Keymap], [Xcb], [Xorg], [XKey], [XInput], [Randr]: [plugins/xorg]: the tables made from
      a keymap; the connection with its atoms and the references between it and its
      extensions; connecting, the dispatch of events, resources and the keymap; key bindings;
      input devices; outputs, views and modes.
    - [LuaApi], [Lua], [LuaCalls], [LuaModule]: [plugins/lua/lua.c]: liblua; values in both
      directions and proxies; calls, errors, signals and metamethods; states, scripts and the
      module.
    - [Chains], [Uthash], [UthashLogic], [UthashFacts], [MemberTable]: [uthash.h]: doubly linked
      lists; the macros as functions on handles, tables and bucket arrays ([HM]); their
      postconditions ([hwp]); the representation of a table ([table_inv], [rep]) and what each
      macro does to it; the operations of [object.c] on a table.
    - [Rings]: [list.h]: the functions on nodes with two pointers, and what they do to the rings
      in a memory; its loops. [Siblings]: the lists of unreferred and isolated objects of
      [object.c] as two such rings, beside the lists that the world has for them.
    - [ObjectAt]: objects followed through many operations on their members and counts.
    - [Arrays]; [Cxx]: the C++ bindings and [exception.cc]; [Misc]: the two algorithms of
      [plugins/misc]; [Devices]: the modules of misc, udev, evdev and hwinfo.
    - [Demo]: concrete instances and stores.
    - [Backtrace]: [stacktrace.c], over what libunwind and libdw say ([stack_frame], [Libdw]), and
      the blocks of [object.c] that give a new error its stack and print it.
    - [Ownership], [Conversions], [Members], [Closures], [Typed], [Signals], [PromiseFacts], [DBusFacts],
      [Lines], [Logging], [Signature], [Reading], [RootSet], [Collector], [Startup], [XFacts],
      [KeyPress], [LuaFacts], [Matching], [Constraints], [MiscFacts], [MemberTable], [Siblings] and the ends of
      [Descendants] and [Keymap]: the theorems.

    ** The theorems

    - [Collector]: a collection ends without a fault and leaves what can be reached from
      outside as it was; and when every object that lost a reference is on the list of
      suspects and no reference is stored as an empty object, exactly what can be reached is
      alive afterwards. Destructors are those of [env_ok True], the counts are below the
      largest 64-bit number.
    - [Ownership]: dropping a reference, freeing and copying values, adding, setting and
      deleting members run to completion through any cascade of destructions and account
      for every reference; weak references are upgraded exactly when they may be.
    - [Conversions]: what type conversion does to ownership, which integers survive it, and
      the cases in which it is wrong.
    - [Members]: enumeration, lookup order and assignment of properties.
    - [Closures]: creation of closures. [Typed]: what crosses a typed boundary has its type.
    - [Signals]: a signal is a list of handlers; emission goes through a snapshot of it.
    - [PromiseFacts]: a promise is a settlement, a list of handlers and a place in the queue of
      the event module; a dispatch calls each handler once; the idle callback takes the last
      promise of the queue first. The case in which the queue was empty, where the roots
      object is called before the promise is entered, is left out.
    - [DBusFacts]: a reply settles the promise of its serial and no other, and takes it off the
      connection, when that waits for more than this reply.
    - [Lines]: the lines a child writes are emitted independently of how they were read.
    - [Logging]: levels, threshold, filter; the environment is a map.
    - [Signature]: the D-Bus signature parser against a grammar, in both directions, and the
      signatures of values.
    - [Reading]: received messages are read as the values they stand for, and the messages
      that end the program instead.
    - [RootSet]: anonymous roots refine a set.
    - [Descendants]: the processes that are signalled on exit are the descendants, parents
      first. [Startup]: the command line, the process title.
    - [Keymap], [KeyPress], [XFacts]: the table of modifiers against the rows it should have
      and the table of keysyms within its bounds; which bindings a key event makes emit; the
      mask of events is the set of events with listeners; the cache of atoms.
    - [Backtrace]: the stack of an error is filled, trimmed and printed within the bounds of its
      arrays, from the caller to [main]; [print_stack_trace] logs the frames it should.
    - [LuaFacts]: over what the manual says of liblua ([LuaLaws], with an instance that
      replays the calls), plain data goes through Lua unchanged and arrays are recognised
      exactly.
    - [MiscFacts], with [Matching] and [Constraints]: [bipartite_match] finds a maximum
      matching, [difference_constraints] decides systems of difference constraints.
    - [MemberTable]: the hash table refines the list of members that [Machine] has in its place,
      and gives all its memory back; names are shorter than 4 GiB, and no array of 64 GiB can
      be allocated ([MallocLaws]).
    - [Siblings]: the rings of nodes refine the lists of unreferred and isolated objects,
      through the lives of objects and the rounds and loops of the collector.

    ** Not modelled

    The compile-time part of the C++ templates ([typeinfo.hh]); the macros of uthash that the program never expands, and in [list.h]
    [list_replace], [list_cut_position] and the loops that go another way. Of the
    modelled files, what is compiled out on Linux without the debugging options (the FreeBSD
    variants, [TRACK_OBJECTS], unit tests), what is under [#if 0] in the X11 plugin, and
    [plugins/lua/compat.c], which is for versions of Lua before 5.3. The text of the builtins
    in Lua. A keymap whose bounds are crossed is read as one without keys. *)

From Stdlib Require Export ZArith Lia Bool.
From stdpp Require Export base gmap list strings pretty sorting.

#[global] Set Default Proof Using "Type".

(** ** Machine integers *)

Declare Scope cint_scope.
Delimit Scope cint_scope with cint.

Definition u8 (z : Z) : Z := (z mod 2 ^ 8)%Z.
Definition u16 (z : Z) : Z := (z mod 2 ^ 16)%Z.
Definition u32 (z : Z) : Z := (z mod 2 ^ 32)%Z.
Definition u64 (z : Z) : Z := (z mod 2 ^ 64)%Z.

(** two's complement reading of the low [n] bits *)
Definition sN (n : Z) (z : Z) : Z :=
  let r := (z mod 2 ^ n)%Z in if (r <? 2 ^ (n - 1))%Z then r else (r - 2 ^ n)%Z.
Definition s32 (z : Z) : Z := sN 32 z.
Definition s64 (z : Z) : Z := sN 64 z.

Notation "x +u64 y" := (u64 (x + y)) (at level 50, left associativity) : cint_scope.
Notation "x -u64 y" := (u64 (x - y)) (at level 50, left associativity) : cint_scope.

Definition in_range (lo hi z : Z) : bool := ((lo <=? z) && (z <=? hi))%Z.

Lemma in_range_spec lo hi z : in_range lo hi z = true <-> (lo <= z <= hi)%Z.
Proof. unfold in_range. rewrite andb_true_iff, !Z.leb_le. tauto. Qed.

Lemma u64_small z : (0 <= z < 2 ^ 64)%Z -> u64 z = z.
Proof. intros H. unfold u64. by apply Z.mod_small. Qed.

Lemma sN_small n z : (0 < n)%Z -> (- 2 ^ (n - 1) <= z < 2 ^ (n - 1))%Z -> sN n z = z.
Proof.
  intros Hn Hz. unfold sN.
  assert (Hp : (2 ^ n = 2 * 2 ^ (n - 1))%Z).
  { rewrite <- Z.pow_succ_r by lia. f_equal; lia. }
  assert (0 < 2 ^ (n - 1))%Z by (apply Z.pow_pos_nonneg; lia).
  destruct (decide (0 <= z)%Z).
  - rewrite Z.mod_small by lia.
    destruct (Z.ltb_spec z (2 ^ (n - 1))); lia.
  - assert (Hm : (z mod 2 ^ n = z + 2 ^ n)%Z).
    { rewrite <- (Z_mod_plus_full z 1), Z.mul_1_l. apply Z.mod_small; lia. }
    rewrite Hm. destruct (Z.ltb_spec (z + 2 ^ n) (2 ^ (n - 1))); lia.
Qed.
Lemma s32_small z : (- 2 ^ 31 <= z < 2 ^ 31)%Z -> s32 z = z.
Proof. intros H. unfold s32. by apply sN_small. Qed.

(** ** errno values of the C library, as the source names them *)
Definition EPERM : Z := 1.
Definition ENOENT : Z := 2.
Definition E2BIG : Z := 7.
Definition ENOMEM : Z := 12.
Definition EEXIST : Z := 17.
Definition EINVAL : Z := 22.
Definition ERANGE : Z := 34.

(** ** Counting occurrences *)

Section cnt.
Context {A : Type} `{EqDecision A}.

Fixpoint cnt (x : A) (l : list A) : Z :=
  match l with
  | [] => 0
  | y :: l' => (if decide (x = y) then 1 else 0) + cnt x l'
  end%Z.

Lemma cnt_nil x : cnt x [] = 0%Z.
Proof. done. Qed.

Lemma cnt_cons_eq x l : cnt x (x :: l) = (1 + cnt x l)%Z.
Proof. simpl. by rewrite decide_True. Qed.

Lemma cnt_cons_ne x y l : x <> y -> cnt x (y :: l) = cnt x l.
Proof. intros. simpl. rewrite decide_False by done. lia. Qed.

Lemma cnt_app x l1 l2 : cnt x (l1 ++ l2) = (cnt x l1 + cnt x l2)%Z.
Proof. induction l1 as [|y l1 IH]; simpl; lia. Qed.

Lemma cnt_nonneg x l : (0 <= cnt x l)%Z.
Proof. induction l as [|y l IH]; simpl; [lia|]. case_decide; lia. Qed.

Lemma cnt_pos x l : (0 < cnt x l)%Z <-> x ∈ l.
Proof.
  induction l as [|y l IH]; simpl.
  { split; [lia|]. by intros ?%not_elem_of_nil. }
  rewrite elem_of_cons. pose proof (cnt_nonneg x l).
  case_decide; split; intros; try lia; [by left| |]; tauto || lia.
Qed.

Lemma cnt_zero x l : cnt x l = 0%Z <-> x ∉ l.
Proof. rewrite <- cnt_pos. pose proof (cnt_nonneg x l). lia. Qed.
End cnt.

(** ** Sums over finite maps *)

Section msum.
Context {K V : Type} `{Countable K}.

Definition msum (f : V -> Z) (m : gmap K V) : Z :=
  map_fold (fun _ x acc => (f x + acc)%Z) 0%Z m.

Lemma msum_empty f : msum f ∅ = 0%Z.
Proof. done. Qed.

Lemma msum_insert_new f m k x : m !! k = None -> msum f (<[k:=x]> m) = (f x + msum f m)%Z.
Proof.
  intros Hk. unfold msum. rewrite (map_fold_insert_L _ _ k x m); [done| |done].
  intros. lia.
Qed.

Lemma msum_delete f m k x : m !! k = Some x -> msum f m = (f x + msum f (delete k m))%Z.
Proof.
  intros Hk. unfold msum. rewrite (map_fold_delete_L _ _ k x m); [done| |done].
  intros. lia.
Qed.

Lemma msum_update f m k x y : m !! k = Some x ->
  msum f (<[k:=y]> m) = (msum f m - f x + f y)%Z.
Proof.
  intros Hk. rewrite <- (insert_delete_eq m k y), msum_insert_new by apply lookup_delete_eq.
  rewrite (msum_delete f m k x Hk). lia.
Qed.

Lemma msum_nonneg f m : (forall k x, m !! k = Some x -> 0 <= f x)%Z -> (0 <= msum f m)%Z.
Proof.
  induction m as [|k x m Hk IH] using map_ind; intros Hf; [by rewrite msum_empty|].
  rewrite msum_insert_new by done.
  assert (0 <= f x)%Z by (apply (Hf k); apply lookup_insert_eq).
  assert (0 <= msum f m)%Z; [|lia].
  apply IH. intros k' x' Hk'. apply (Hf k'). rewrite lookup_insert_ne; [done|congruence].
Qed.

Lemma msum_ext f g m : (forall k x, m !! k = Some x -> f x = g x) -> msum f m = msum g m.
Proof.
  induction m as [|k x m Hk IH] using map_ind; intros Hf; [done|].
  rewrite !msum_insert_new by done. f_equal.
  - apply (Hf k), lookup_insert_eq.
  - apply IH. intros k' x' Hk'. apply (Hf k'). rewrite lookup_insert_ne; [done|congruence].
Qed.

Lemma msum_zero_inv f m k x : (forall k x, m !! k = Some x -> 0 <= f x)%Z ->
  msum f m = 0%Z -> m !! k = Some x -> f x = 0%Z.
Proof.
  intros Hf H0 Hk. rewrite (msum_delete f m k x Hk) in H0.
  assert (0 <= f x)%Z by eauto.
  assert (0 <= msum f (delete k m))%Z; [|lia].
  apply msum_nonneg. intros k' x' [_ ?]%lookup_delete_Some. eauto.
Qed.

Lemma msum_pos_inv f m : (0 < msum f m)%Z -> exists k x, m !! k = Some x /\ (0 < f x)%Z.
Proof.
  induction m as [|k x m Hk IH] using map_ind; [rewrite msum_empty; lia|].
  rewrite msum_insert_new by done. intros Hp.
  destruct (decide (0 < f x)%Z) as [|Hn].
  - exists k, x. by rewrite lookup_insert_eq.
  - destruct IH as (k' & x' & Hk' & ?); [lia|].
    exists k', x'. split; [|done]. rewrite lookup_insert_ne; [done|congruence].
Qed.
End msum.

(** ** Strings *)

(** bytes of a C string end at the first NUL *)
Fixpoint c_str (s : string) : string :=
  match s with
  | EmptyString => EmptyString
  | String c s' => if Ascii.eqb c Ascii.zero then EmptyString else String c (c_str s')
  end.

Definition nul_free (s : string) : Prop := c_str s = s.

#[global] Instance nul_free_dec s : Decision (nul_free s).
Proof. unfold nul_free. apply _. Defined.

(** ** Automation shared by the files *)

Create HintDb deai discriminated.

(** case analysis on the innermost [match]/[if] of the goal or a hypothesis *)
Ltac case_step :=
  match goal with
  | |- context [match ?x with _ => _ end] => destruct x eqn:?
  | H : context [match ?x with _ => _ end] |- _ => destruct x eqn:?
  end.

(** case analysis on the integer comparisons of the goal *)
Ltac compare_cases :=
  repeat match goal with
  | |- context [(?a <? ?b)%Z] => destruct (Z.ltb_spec a b)
  | |- context [(?a <=? ?b)%Z] => destruct (Z.leb_spec a b)
  | |- context [(?a =? ?b)%Z] => destruct (Z.eqb_spec a b)
  end.
