(* ===== verification/Value.v ===== *)
(** * The value model: [include/deai/object.h]

    The types ([di_type]), the strings ([di_string]) and the values ([di_value] together
    with the tag that travels with it) of the object system, and the string helpers the
    header defines inline.

    A pair (type, pointer to a [di_value] of that type) of the source is one term of
    [val]; [type_of] gives back the tag.  An object or weak reference is the address of
    the object ([oid]).  The storage pointer of an array is represented by one bit,
    because [di_free_array] tests it. *)

From S2P Require Export Prelude.
From Stdlib Require Import SpecFloat.

(** addresses of objects *)
Abbreviation oid := positive.

(** [typedef enum di_type] *)
Inductive di_type :=
  | DI_TYPE_NIL
  | DI_TYPE_ANY
  | DI_TYPE_EMPTY_OBJECT
  | DI_TYPE_BOOL
  | DI_TYPE_NINT
  | DI_TYPE_NUINT
  | DI_TYPE_INT
  | DI_TYPE_UINT
  | DI_TYPE_FLOAT
  | DI_TYPE_POINTER
  | DI_TYPE_OBJECT
  | DI_TYPE_WEAK_OBJECT
  | DI_TYPE_STRING
  | DI_TYPE_STRING_LITERAL
  | DI_TYPE_ARRAY
  | DI_TYPE_TUPLE
  | DI_TYPE_VARIANT
  | DI_LAST_TYPE.

#[global] Instance di_type_eq_dec : EqDecision di_type.
Proof. solve_decision. Defined.

(** The numeric value of the enumerator. *)
Definition di_type_to_Z (t : di_type) : Z :=
  match t with
  | DI_TYPE_NIL => 0 | DI_TYPE_ANY => 1 | DI_TYPE_EMPTY_OBJECT => 2 | DI_TYPE_BOOL => 3
  | DI_TYPE_NINT => 4 | DI_TYPE_NUINT => 5 | DI_TYPE_INT => 6 | DI_TYPE_UINT => 7
  | DI_TYPE_FLOAT => 8 | DI_TYPE_POINTER => 9 | DI_TYPE_OBJECT => 10
  | DI_TYPE_WEAK_OBJECT => 11 | DI_TYPE_STRING => 12 | DI_TYPE_STRING_LITERAL => 13
  | DI_TYPE_ARRAY => 14 | DI_TYPE_TUPLE => 15 | DI_TYPE_VARIANT => 16 | DI_LAST_TYPE => 17
  end.

(** [di_type_names] *)
Definition di_type_names (t : di_type) : string :=
  match t with
  | DI_TYPE_NIL => "nil" | DI_TYPE_ANY => "any" | DI_TYPE_EMPTY_OBJECT => "empty_object"
  | DI_TYPE_BOOL => "bool" | DI_TYPE_NINT => "nint" | DI_TYPE_NUINT => "nuint"
  | DI_TYPE_INT => "int" | DI_TYPE_UINT => "uint" | DI_TYPE_FLOAT => "float"
  | DI_TYPE_POINTER => "pointer" | DI_TYPE_OBJECT => "object"
  | DI_TYPE_WEAK_OBJECT => "weak_object" | DI_TYPE_STRING => "string"
  | DI_TYPE_STRING_LITERAL => "string_literal" | DI_TYPE_ARRAY => "array"
  | DI_TYPE_TUPLE => "tuple" | DI_TYPE_VARIANT => "variant" | DI_LAST_TYPE => "invalid"
  end.

(** [di_sizeof_type] on an LP64 platform; [None] is [abort()]. *)
Definition di_sizeof_type (t : di_type) : option Z :=
  match t with
  | DI_TYPE_NIL => Some 0
  | DI_TYPE_ANY | DI_LAST_TYPE => None
  | DI_TYPE_FLOAT => Some 8
  | DI_TYPE_ARRAY => Some 24
  | DI_TYPE_TUPLE => Some 16
  | DI_TYPE_VARIANT => Some 16
  | DI_TYPE_UINT | DI_TYPE_INT => Some 8
  | DI_TYPE_NUINT => Some 4
  | DI_TYPE_NINT => Some 4
  | DI_TYPE_STRING => Some 16
  | DI_TYPE_STRING_LITERAL | DI_TYPE_OBJECT | DI_TYPE_EMPTY_OBJECT | DI_TYPE_POINTER => Some 8
  | DI_TYPE_WEAK_OBJECT => Some 8
  | DI_TYPE_BOOL => Some 1
  end%Z.

(** ** Strings *)

(** [di_string]: a pointer and a length.  [None] is the string whose data is NULL (its
    length is 0, as in [DI_STRING_INIT]); [Some s] a non-NULL pointer to the bytes [s],
    which need not be NUL terminated and may contain NULs. *)
Abbreviation di_string := (option string).

Definition DI_STRING_INIT : di_string := None.

Definition di_string_bytes (s : di_string) : string := default EmptyString s.
Definition di_string_length (s : di_string) : nat := String.length (di_string_bytes s).

(** [di_string_ndup (str, length)] never returns NULL data ([malloc(0)] is non-NULL). *)
Definition di_string_ndup (bytes : string) : di_string := Some bytes.
Definition di_clone_string (other : di_string) : di_string := di_string_ndup (di_string_bytes other).

(** [di_string_dup]: [None] is the NULL argument *)
Definition di_string_dup (s : option string) : di_string := c_str <$> s.

(** [di_string_borrow] *)
Definition di_string_borrow (s : string) : di_string := Some (c_str s).

(** [di_string_to_chars (str, output, capacity)]: the bytes written before the NUL *)
Definition di_string_to_chars (s : di_string) (capacity : nat) : option string :=
  if (capacity <? di_string_length s + 1)%nat then None else Some (di_string_bytes s).

(** [di_string_to_chars_alloc]: NULL for a string of length 0 *)
Definition di_string_to_chars_alloc (s : di_string) : option string :=
  if (di_string_length s =? 0)%nat then None
  else di_string_to_chars s (di_string_length s + 1).

(** [di_string_split_once]: [Some (head, rest)] when [sep] is found *)
Fixpoint split_once (sep : Ascii.ascii) (s : string) : option (string * string) :=
  match s with
  | EmptyString => None
  | String c s' =>
      if Ascii.eqb c sep then Some (EmptyString, s')
      else match split_once sep s' with
           | Some (h, r) => Some (String c h, r)
           | None => None
           end
  end.
Definition di_string_split_once (s : di_string) (sep : Ascii.ascii) : option (di_string * di_string) :=
  match split_once sep (di_string_bytes s) with
  | Some (h, r) => Some (Some h, Some r)
  | None => None
  end.

(** [tolower] in the C locale *)
Definition c_tolower (c : Ascii.ascii) : Ascii.ascii :=
  let n := Ascii.nat_of_ascii c in
  if (65 <=? n)%nat && (n <=? 90)%nat then Ascii.ascii_of_nat (n + 32) else c.
Fixpoint string_map (f : Ascii.ascii -> Ascii.ascii) (s : string) : string :=
  match s with
  | EmptyString => EmptyString
  | String c s' => String (f c) (string_map f s')
  end.
Definition di_string_tolower (s : di_string) : di_string := Some (string_map c_tolower (di_string_bytes s)).

(** [di_string_starts_with (str, pat)] with a NUL terminated [pat]; [strncmp] stops at a
    NUL of both operands, and [pat] has none before its end. *)
Definition di_string_starts_with (s : di_string) (pat : string) : bool :=
  String.prefix pat (di_string_bytes s).

Definition di_string_starts_with_string (s pat : di_string) : bool :=
  String.prefix (di_string_bytes pat) (di_string_bytes s).

Definition di_string_concat (a b : di_string) : di_string :=
  Some (di_string_bytes a +:+ di_string_bytes b).

(** [di_string_join] over the elements of an array of strings *)
Fixpoint join_bytes (sep : string) (l : list string) : string :=
  match l with
  | [] => EmptyString
  | [s] => s
  | s :: l' => s +:+ sep +:+ join_bytes sep l'
  end.
Definition di_string_join (strs : list di_string) (sep : di_string) : di_string :=
  match strs with
  | [] => DI_STRING_INIT
  | _ => Some (join_bytes (di_string_bytes sep) (di_string_bytes <$> strs))
  end.

Definition di_string_eq (a b : di_string) : bool :=
  String.eqb (di_string_bytes a) (di_string_bytes b).

Definition di_suffix (s : di_string) (start : nat) : di_string :=
  if (di_string_length s <=? start)%nat then DI_STRING_INIT
  else Some (String.substring start (di_string_length s - start) (di_string_bytes s)).

Definition di_substring (s : di_string) (start len : nat) : di_string :=
  if (di_string_length s <=? start)%nat || (len =? 0)%nat then DI_STRING_INIT
  else
    let len := if (di_string_length s <? start + len)%nat then (di_string_length s - start)%nat else len in
    Some (String.substring start len (di_string_bytes s)).

(** ** Values *)

(** [union di_value] with its tag. [VArray et nonnull l] is
    [{ .length = length l, .arr = (nonnull ? p : NULL), .elem_type = et }]; the elements of
    a tuple are its [di_variant]s, and [VVariant v] a variant whose pointer leads to [v].
    [VLast] is the variant [{NULL, DI_LAST_TYPE}] of the getters. *)
Inductive val :=
  | VNil
  | VBool (b : bool)
  | VNint (z : Z)
  | VNuint (z : Z)
  | VInt (z : Z)
  | VUint (z : Z)
  | VFloat (f : spec_float)
  | VPointer (p : Z)
  | VObject (o : oid)
  | VEmptyObject (o : oid)
  | VWeak (o : oid)
  | VString (s : di_string)
  | VStringLiteral (s : string)
  | VArray (et : di_type) (nonnull : bool) (l : list val)
  | VTuple (l : list val)
  | VVariant (v : val)
  | VLast.

(** the induction principle that goes through the elements of arrays and tuples *)
Section val_induction.
Variable P : val -> Prop.
Hypothesis Hleaf : forall v,
  match v with VArray _ _ _ | VTuple _ | VVariant _ => False | _ => True end -> P v.
Hypothesis Harr : forall et nn l, Forall P l -> P (VArray et nn l).
Hypothesis Htup : forall l, Forall P l -> P (VTuple l).
Hypothesis Hvar : forall v, P v -> P (VVariant v).

Fixpoint val_ind' (v : val) : P v :=
  let fix go (l : list val) : Forall P l :=
    match l with
    | [] => @List.Forall_nil _ P
    | x :: l' => @List.Forall_cons _ P x l' (val_ind' x) (go l')
    end in
  match v with
  | VArray et nn l => Harr et nn l (go l)
  | VTuple l => Htup l (go l)
  | VVariant v => Hvar v (val_ind' v)
  | VNil => Hleaf VNil I | VBool b => Hleaf (VBool b) I
  | VNint z => Hleaf (VNint z) I | VNuint z => Hleaf (VNuint z) I
  | VInt z => Hleaf (VInt z) I | VUint z => Hleaf (VUint z) I
  | VFloat f => Hleaf (VFloat f) I | VPointer p => Hleaf (VPointer p) I
  | VObject o => Hleaf (VObject o) I | VEmptyObject o => Hleaf (VEmptyObject o) I
  | VWeak o => Hleaf (VWeak o) I | VString s => Hleaf (VString s) I
  | VStringLiteral s => Hleaf (VStringLiteral s) I | VLast => Hleaf VLast I
  end.
End val_induction.

Definition type_of (v : val) : di_type :=
  match v with
  | VNil => DI_TYPE_NIL | VBool _ => DI_TYPE_BOOL
  | VNint _ => DI_TYPE_NINT | VNuint _ => DI_TYPE_NUINT
  | VInt _ => DI_TYPE_INT | VUint _ => DI_TYPE_UINT
  | VFloat _ => DI_TYPE_FLOAT | VPointer _ => DI_TYPE_POINTER
  | VObject _ => DI_TYPE_OBJECT | VEmptyObject _ => DI_TYPE_EMPTY_OBJECT
  | VWeak _ => DI_TYPE_WEAK_OBJECT | VString _ => DI_TYPE_STRING
  | VStringLiteral _ => DI_TYPE_STRING_LITERAL | VArray _ _ _ => DI_TYPE_ARRAY
  | VTuple _ => DI_TYPE_TUPLE | VVariant _ => DI_TYPE_VARIANT | VLast => DI_LAST_TYPE
  end.

Definition DI_ARRAY_INIT : val := VArray DI_TYPE_ANY false [].
Definition DI_TUPLE_INIT : val := VTuple [].
Definition DI_BOTTOM_VARIANT : val := VLast.

(** The owned strong references inside a value, in the order of the memory. *)
Fixpoint strong_refs (v : val) : list oid :=
  match v with
  | VObject o | VEmptyObject o => [o]
  | VArray _ _ l | VTuple l => concat (map strong_refs l)
  | VVariant v => strong_refs v
  | _ => []
  end.

(** The owned weak references inside a value. *)
Fixpoint weak_refs (v : val) : list oid :=
  match v with
  | VWeak o => [o]
  | VArray _ _ l | VTuple l => concat (map weak_refs l)
  | VVariant v => weak_refs v
  | _ => []
  end.

(** The references the cycle collector follows ([di_scan_type] looks at the tag
    [DI_TYPE_OBJECT] only). *)
Fixpoint scan_refs (v : val) : list oid :=
  match v with
  | VObject o => [o]
  | VArray _ _ l | VTuple l => concat (map scan_refs l)
  | VVariant v => scan_refs v
  | _ => []
  end.

(** A value that can be stored as a member and freed: no bottom inside, elements of an
    array all have its element type, and the storage of an array is NULL exactly when it
    is empty. *)
Fixpoint val_ok (v : val) : bool :=
  match v with
  | VLast => false
  | VArray et nn l =>
      forallb (fun x => bool_decide (type_of x = et)) l && Bool.eqb nn (negb (length l =? 0)%nat)
      && forallb val_ok l
  | VTuple l => forallb val_ok l
  | VVariant v => val_ok v
  | _ => true
  end.

Lemma cnt_concat_le {A} `{EqDecision A} (x : A) {B} (f g : B -> list A) (l : list B) :
  Forall (fun b => cnt x (f b) <= cnt x (g b))%Z l ->
  (cnt x (concat (map f l)) <= cnt x (concat (map g l)))%Z.
Proof. induction 1; simpl; rewrite ?cnt_app; lia. Qed.

(** the collector never counts more references than there are *)
Lemma scan_refs_strong v o : (cnt o (scan_refs v) <= cnt o (strong_refs v))%Z.
Proof.
  induction v as [v Hl|et nn l IH|l IH|v IH] using val_ind'.
  - destruct v; try done; simpl; case_decide; lia.
  - by apply cnt_concat_le.
  - by apply cnt_concat_le.
  - done.
Qed.
