(* ===== verification/Descendants.v ===== *)
(** * Killing the descendants of the process: [kill_all_descendants] of [main.c]

    The process tree is read from /proc and linked, with the list macros, into one circular
    list that is meant to be a pre-order traversal; the walk that starts at the process
    itself ends at the first process whose parent was not visited. *)

From S2P Require Export Prelude.
From stdpp Require Export strings gmap.
From Stdlib Require Import Ascii.
#[local] Open Scope string_scope.

(** ** /proc *)

(** [atoi] of a decimal number without a sign; it stops at the first other character *)
Fixpoint atoi_go (acc : Z) (s : string) : Z :=
  match s with
  | EmptyString => acc
  | String c s =>
      let n := Z.of_N (Ascii.N_of_ascii c) in
      if ((48 <=? n) && (n <=? 57))%Z then atoi_go (acc * 10 + (n - 48))%Z s else acc
  end.
Definition atoi (s : string) : Z :=
  match s with
  | String "-"%char s => (- atoi_go 0 s)%Z
  | _ => atoi_go 0 s
  end.

(** [strchr], [strrchr]: the string from the first, or the last, [c] *)
Fixpoint strchr (c : Ascii.ascii) (s : string) : option string :=
  match s with
  | EmptyString => None
  | String d s' => if Ascii.eqb d c then Some s else strchr c s'
  end.
Fixpoint strrchr (c : Ascii.ascii) (s : string) : option string :=
  match s with
  | EmptyString => None
  | String d s' =>
      match strrchr c s' with
      | Some r => Some r
      | None => if Ascii.eqb d c then Some s else None
      end
  end.
(** the string up to, without, the first [c] *)
Fixpoint before (c : Ascii.ascii) (s : string) : string :=
  match s with
  | EmptyString => EmptyString
  | String d s' => if Ascii.eqb d c then EmptyString else String d (before c s')
  end.
(** [p + n] for a pointer into a string *)
Fixpoint advance (n : nat) (s : string) : option string :=
  match n, s with
  | O, _ => Some s
  | S n, String _ s => advance n s
  | S _, EmptyString => None
  end.

(** the parent of the process, from the text of /proc/<pid>/stat; [None]: the text has not
    the shape that is taken for granted, and a NULL or wild pointer is dereferenced *)
Definition stat_ppid (stattext : string) : option Z :=
  match strrchr ")"%char stattext with
  | None => None
  | Some sep1 =>
      match advance 4 sep1 with
      | None => None
      | Some f =>
          match strchr " "%char f with
          | None => None
          | Some _ => Some (atoi (before " "%char f))
          end
      end
  end.

Definition isdigit (c : Ascii.ascii) : bool :=
  let n := Ascii.N_of_ascii c in ((48 <=? n) && (n <=? 57))%N.
Fixpoint all_digits (s : string) : bool :=
  match s with EmptyString => true | String c s => isdigit c && all_digits s end.

(** an entry of /proc: its name, whether it is a directory, and what is read from its
    [stat] file; [None] when it cannot be opened or is empty *)
Record proc_entry := ProcEntry { d_name : string; is_dir : bool; stat_text : option string }.

(** the loop over the entries: the processes (pid, ppid), in the order they are read *)
Fixpoint read_proc (l : list proc_entry) : option (list (Z * Z)) :=
  match l with
  | [] => Some []
  | e :: l =>
      if negb (is_dir e) then read_proc l
      else if negb (all_digits (d_name e)) then read_proc l
      else
        match stat_text e with
        | None => read_proc l
        | Some text =>
            ppid ← stat_ppid text; rest ← read_proc l; Some ((atoi (d_name e), ppid) :: rest)
        end
  end.

(** ** The linked list

    A node is a process or, [None], the sentinel. *)
Abbreviation node := (option Z).

Record links := Links {
  next : node -> node;
  prev : node -> node;
  (** the field [pp]; that of the sentinel is never set *)
  pp : Z -> node
}.

Definition upd (f : node -> node) (x y : node) : node -> node := fun z => if decide (z = x) then y else f z.
Definition set_next (x y : node) (s : links) : links := Links (upd (next s) x y) (prev s) (pp s).
Definition set_prev (x y : node) (s : links) : links := Links (next s) (upd (prev s) x y) (pp s).
Definition set_pp (i : Z) (p : node) (s : links) : links :=
  Links (next s) (prev s) (fun z => if decide (z = i) then p else pp s z).

(** every node is a list of its own after [INIT_LIST_HEAD] *)
Definition unlinked : links := Links (fun x => x) (fun x => x) (fun _ => None).

(** [__list_splice (list, prev, next)] *)
Definition list_splice (list prv nxt : node) (s : links) : links :=
  let first := next s list in
  let last := prev s list in
  let s := set_prev first prv s in
  let s := set_next prv first s in
  let s := set_next last nxt s in
  set_prev nxt last s.

(** the loop that links a process after its parent, or after the sentinel when the parent
    is not known *)
Definition link_one (ps : list (Z * Z)) (s : links) (i : Z * Z) : links :=
  let parent : node := if bool_decide (snd i ∈ map fst ps) then Some (snd i) else None in
  let s := set_pp (fst i) parent s in
  list_splice (Some (fst i)) parent (next s parent) s.
Definition link_all (ps : list (Z * Z)) : links := foldl (link_one ps) unlinked ps.

(** how the walk ends *)
Inductive walked :=
  | Killed (l : list Z)            (** the processes that got SIGTERM, in this order *)
  | WildParent (l : list Z)        (** it reached the sentinel, whose [pp] is not initialised *)
  | TooLong.                       (** the model's bound *)

(** [while (1)]; [visited] starts with the process itself, the sentinel is never visited *)
Fixpoint walk (fuel : nat) (s : links) (curr : Z) (visited killed : list Z) : walked :=
  match fuel with
  | O => TooLong
  | S fuel =>
      match next s (Some curr) with
      | None => WildParent killed
      | Some c =>
          match pp s c with
          | Some p => if bool_decide (p ∈ visited) then walk fuel s c (c :: visited) (killed ++ [c]) else Killed killed
          | None => Killed killed
          end
      end
  end.

(** the processes killed, from the list of processes and our own pid; [None]: we are not in
    the list, and a NULL pointer is dereferenced *)
Definition kill_tree (ps : list (Z * Z)) (self : Z) : option walked :=
  if bool_decide (self ∈ map fst ps) then
    Some (walk (S (length ps)) (link_all ps) self [self] [])
  else None.

(** two trees: in the first the process is not the first child of init *)
Example kill_tree_ex :
  kill_tree [(1, 0); (10, 1); (20, 1); (21, 20); (22, 21); (23, 20); (30, 10)]%Z 20 = Some (Killed [23; 21; 22]%Z).
Proof. vm_compute. reflexivity. Qed.
(** the first branch of the tree leads to the sentinel *)
Example kill_tree_first : kill_tree [(1, 0); (10, 1); (11, 10)]%Z 10 = Some (WildParent [11%Z]).
Proof. vm_compute. reflexivity. Qed.
(** a child that is listed before its parent, as after the pids wrap around, drops the
    parent from the list: neither is killed *)
Example kill_tree_wrapped :
  kill_tree [(1, 0); (10, 1); (5, 30); (20, 1); (30, 20)]%Z 20 = Some (Killed []).
Proof. vm_compute. reflexivity. Qed.

(** ** The linked list as a list *)

#[local] Close Scope string_scope.

(** consecutive elements are linked *)
Fixpoint chain (f : node -> node) (l : list node) : Prop :=
  match l with
  | x :: ((y :: _) as l') => f x = y /\ chain f l'
  | _ => True
  end.

Lemma chain_app f l1 x l2 : chain f (l1 ++ x :: l2) <-> chain f (l1 ++ [x]) /\ chain f (x :: l2).
Proof.
  induction l1 as [|y l1 IH]; simpl; [tauto|].
  destruct l1 as [|z l1]; simpl in *; [tauto|]. rewrite IH. tauto.
Qed.

Lemma chain_head f x (l : list Z) : chain f (x :: map Some l ++ [None]) -> f x = head l.
Proof. by destruct l; intros [? _]. Qed.

Lemma chain_upd f x y l z : x ∉ l -> chain (upd f x y) (l ++ [z]) <-> chain f (l ++ [z]).
Proof.
  induction l as [|u l IH]; [done|]. intros [Hu Hl]%not_elem_of_cons. specialize (IH Hl).
  assert (upd f x y u = f u) as Hf by (unfold upd; by rewrite decide_False).
  destruct l as [|v l]; simpl in *; rewrite Hf; tauto.
Qed.

Definition ring (L : list Z) : list node := None :: map Some L ++ [None].

(** the place of a process after its parent *)
Fixpoint insert_after (p i : Z) (L : list Z) : list Z :=
  match L with
  | [] => []
  | x :: L => if decide (x = p) then x :: i :: L else x :: insert_after p i L
  end.
Definition place (p : node) (i : Z) (L : list Z) : list Z :=
  match p with None => i :: L | Some p => insert_after p i L end.

Lemma insert_after_split p i l1 l2 : p ∉ l1 -> insert_after p i (l1 ++ p :: l2) = l1 ++ p :: i :: l2.
Proof.
  induction l1 as [|x l1 IH]; simpl; [by rewrite decide_True|].
  intros [Hx Hl]%not_elem_of_cons. rewrite decide_False by done. by rewrite IH.
Qed.

Lemma upd_eq f x y : upd f x y x = y.
Proof. unfold upd. by rewrite decide_True. Qed.
Lemma upd_ne f x y z : z <> x -> upd f x y z = f z.
Proof. unfold upd. intros. by rewrite decide_False. Qed.

Lemma splice_chain f parent i c1 l2 : parent ∉ c1 -> Some i ∉ c1 -> parent ∉ map Some l2 -> i ∉ l2 ->
  parent <> Some i -> chain f (c1 ++ parent :: map Some l2 ++ [None]) ->
  chain (upd (upd f parent (Some i)) (Some i) (f parent)) (c1 ++ parent :: Some i :: map Some l2 ++ [None]).
Proof.
  intros Hp1 Hi1 Hp2 Hi2 Hne [H1 H2]%chain_app. apply chain_app. split.
  { by rewrite !chain_upd. }
  assert (Hi2' : Some i ∉ map Some l2) by (intros (x & [= ->] & ?)%list_elem_of_fmap; done).
  split; [by rewrite upd_ne, upd_eq|].
  assert (H3 : chain f (map Some l2 ++ [None]) /\ f parent = hd None (map Some l2 ++ [None])).
  { destruct l2 as [|x l2]; simpl in *; tauto. }
  destruct H3 as [H3 H4]. rewrite <- (chain_upd f parent (Some i)) in H3 by done.
  rewrite <- (chain_upd _ (Some i) (f parent)) in H3 by done.
  destruct l2 as [|x l2]; simpl in *; rewrite upd_eq; done.
Qed.

(** ** Linking in order *)

Section order.
Variable ps : list (Z * Z).
Hypothesis Hnd : NoDup (map fst ps).
(** the parents are listed before their children *)
Definition parents_first : Prop :=
  forall l1 i p l2, ps = l1 ++ (i, p) :: l2 -> p ∈ map fst ps -> p ∈ map fst l1.
Hypothesis Hpf : parents_first.

Definition parent_of (i : Z * Z) : node := if bool_decide (snd i ∈ map fst ps) then Some (snd i) else None.

Definition order (l : list (Z * Z)) : list Z := foldl (fun L i => place (parent_of i) (fst i) L) [] l.

Lemma order_snoc l i : order (l ++ [i]) = place (parent_of i) (fst i) (order l).
Proof. unfold order. by rewrite foldl_app. Qed.

(** the next process of the list finds its parent in place *)
Lemma place_split l1 i l2 : ps = l1 ++ i :: l2 -> (forall x, x ∈ order l1 <-> x ∈ map fst l1) -> NoDup (order l1) ->
  fst i ∉ order l1 /\
  exists u v, order l1 = u ++ v /\ order (l1 ++ [i]) = u ++ fst i :: v /\
    match parent_of i with
    | None => u = []
    | Some p => exists u', u = u' ++ [p] /\ p ∉ u' /\ p ∉ v /\ p = snd i
    end.
Proof using Hnd Hpf.
  intros Hps Hin HndL.
  assert (Hi : fst i ∉ order l1).
  { rewrite Hin. rewrite Hps, map_app in Hnd. apply NoDup_app in Hnd as (_ & Hd & _). intros Hx.
    apply (Hd _ Hx). by left. }
  split; [done|]. rewrite order_snoc. unfold parent_of. destruct i as [i p]. simpl in *. case_bool_decide as Hp.
  - pose proof (Hpf _ _ _ _ Hps Hp) as Hp1. apply Hin in Hp1.
    apply list_elem_of_split in Hp1 as (u & v & Hu). rewrite Hu in HndL.
    apply NoDup_app in HndL as (_ & Hd & [Hv _]%NoDup_cons).
    assert (p ∉ u) as Hpu by (intros Hx; apply (Hd _ Hx); by left).
    exists (u ++ [p]), v. rewrite Hu, <- !app_assoc. simpl. rewrite insert_after_split by done.
    split_and!; [done..|]. by exists u.
  - by exists [], (order l1).
Qed.

Lemma order_elems l : forall l2, ps = l ++ l2 -> (forall x, x ∈ order l <-> x ∈ map fst l) /\ NoDup (order l).
Proof using Hnd Hpf.
  induction l as [|i l IH] using rev_ind; intros l2 Hps.
  { split; [done|constructor]. }
  rewrite <- app_assoc in Hps. simpl in Hps. destruct (IH _ Hps) as [Hin HndL].
  destruct (place_split _ _ _ Hps Hin HndL) as (Hi & u & v & Hu & -> & _). split.
  - intros x. rewrite map_app. simpl. rewrite !elem_of_app, <- Hin, Hu, !elem_of_app, elem_of_cons, list_elem_of_singleton. tauto.
  - rewrite Hu in HndL, Hi. apply NoDup_app in HndL as (Hnu & Hd & Hnv). apply not_elem_of_app in Hi as [Hiu Hiv].
    apply NoDup_app. split_and!; [done| |by apply NoDup_cons].
    intros x Hx [->|Hxv]%elem_of_cons; [done|]. by apply (Hd x).
Qed.

(** the links after a part of the list *)
Definition linked (l : list (Z * Z)) : links := foldl (link_one ps) unlinked l.

Lemma linked_snoc l i : linked (l ++ [i]) =
  list_splice (Some (fst i)) (parent_of i) (next (linked l) (parent_of i)) (set_pp (fst i) (parent_of i) (linked l)).
Proof. unfold linked. by rewrite foldl_app. Qed.

Record linked_ok (l : list (Z * Z)) : Prop := {
  lk_chain : chain (next (linked l)) (ring (order l));
  lk_fresh : forall j, j ∉ map fst l -> next (linked l) (Some j) = Some j /\ prev (linked l) (Some j) = Some j;
  lk_pp : forall i, i ∈ l -> pp (linked l) (fst i) = parent_of i
}.

Lemma ring_next l : chain (next (linked l)) (ring (order l)) -> forall p, p ∈ None :: map Some (order l) ->
  next (linked l) p ∈ None :: map Some (order l).
Proof.
  unfold ring. generalize (next (linked l)) as f. intros f Hc p Hp.
  apply list_elem_of_split in Hp as (c1 & c2 & Hc12).
  assert (Hring : None :: map Some (order l) ++ [None] = c1 ++ p :: c2 ++ [None]).
  { rewrite app_comm_cons, Hc12, <- app_assoc. done. }
  rewrite Hring in Hc. apply chain_app in Hc as [_ Hc]. rewrite Hc12.
  destruct c2 as [|y c2]; simpl in Hc; destruct Hc as [-> _].
  - rewrite <- Hc12. by left.
  - apply elem_of_app. right. right. by left.
Qed.

Lemma linked_correct l : forall l2, ps = l ++ l2 -> linked_ok l.
Proof using Hnd Hpf.
  induction l as [|i l IH] using rev_ind; intros l2 Hps.
  { constructor; simpl; [done|done|]. by intros i ?%not_elem_of_nil. }
  rewrite <- app_assoc in Hps. simpl in Hps. destruct (IH _ Hps) as [Hc Hfr Hpp].
  destruct (order_elems _ _ Hps) as [Hin HndL].
  destruct (place_split _ _ _ Hps Hin HndL) as (Hi & u & v & Hu & Ho & Hpar).
  destruct (Hfr (fst i)) as [Hfi Hpi]; [by rewrite <- Hin|].
  pose proof (linked_snoc l i) as Hsn.
  set (parent := parent_of i) in *.
  assert (Hpn : parent <> Some (fst i)).
  { intros Hpe. rewrite Hpe in Hpar. destruct Hpar as (u' & -> & _). apply Hi. rewrite Hu.
    apply elem_of_app. left. apply elem_of_app. right. by left. }
  assert (Hparin : parent ∈ None :: map Some (order l)).
  { destruct parent as [p|]; [|by left]. right. destruct Hpar as (u' & -> & _). rewrite Hu.
    apply list_elem_of_fmap. exists p. split; [done|]. rewrite !elem_of_app. left. right. by left. }
  assert (Hnext : next (linked (l ++ [i])) =
            upd (upd (next (linked l)) parent (Some (fst i))) (Some (fst i)) (next (linked l) parent)).
  { rewrite Hsn. unfold list_splice. simpl. by rewrite Hfi, Hpi. }
  constructor.
  - rewrite Hnext, Ho. rewrite Hu in Hc, Hi, HndL. unfold ring in *.
    apply not_elem_of_app in Hi as [Hiu Hiv].
    assert (Hsm : forall (x : Z) L, x ∉ L -> Some x ∉ (None : node) :: map Some L).
    { intros x L Hx [?|(y & [= ->] & ?)%list_elem_of_fmap]%elem_of_cons; done. }
    destruct parent as [p|].
    + destruct Hpar as (u' & -> & Hpu & Hpv & _).
      assert (Hsplit : forall w, None :: map Some ((u' ++ [p]) ++ w) ++ [None]
        = (None :: map Some u') ++ (Some p : node) :: map Some w ++ [None]).
      { intros w. by rewrite !map_app, <- !app_assoc. }
      rewrite Hsplit in *. apply not_elem_of_app in Hiu as [Hiu _].
      apply splice_chain; [by apply Hsm|by apply Hsm| |done|congruence|done].
      intros Hx. apply (Hsm p v Hpv). by right.
    + subst u. simpl in *. apply (splice_chain _ None (fst i) []); try done.
      * apply not_elem_of_nil.
      * apply not_elem_of_nil.
      * by intros (x & ? & _)%list_elem_of_fmap.
  - intros j Hj. rewrite map_app, not_elem_of_app in Hj. simpl in Hj. destruct Hj as [Hj Hji].
    rewrite list_elem_of_singleton in Hji. destruct (Hfr j Hj) as [Hnj Hpj].
    assert (Hjo : Some j ∉ None :: map Some (order l)).
    { intros [?|(y & [= ->] & ?)%list_elem_of_fmap]%elem_of_cons; [done|]. apply Hj. by apply Hin. }
    split.
    + rewrite Hnext, !upd_ne; [done| |congruence]. intros <-. done.
    + rewrite Hsn. unfold list_splice. simpl. rewrite Hfi, Hpi. rewrite !upd_ne; [done|congruence|].
      intros Hx. apply Hjo. rewrite Hx. by apply ring_next.
  - intros j Hj. rewrite Hsn. unfold list_splice. simpl.
    apply elem_of_app in Hj as [Hj| ->%list_elem_of_singleton]; [|by rewrite decide_True].
    rewrite decide_False; [by apply Hpp|]. intros Hji. apply Hi, Hin. rewrite <- Hji.
    apply list_elem_of_fmap. by exists j.
Qed.

(** ** The order is pre-order *)

(** [p] is the parent of [x]; descendants are its transitive closure *)
Definition child_of (p x : Z) : Prop := (x, p) ∈ ps.
Definition descends : Z -> Z -> Prop := tc child_of.

Lemma child_pid p x : child_of p x -> x ∈ map fst ps.
Proof using ps. intros H. apply list_elem_of_fmap. by exists (x, p). Qed.

Lemma child_parent p q x : child_of p x -> child_of q x -> p = q.
Proof using Hnd.
  unfold child_of. intros Hp Hq. apply list_elem_of_split in Hp as (l1 & l2 & Hl). rewrite Hl in Hnd, Hq.
  rewrite map_app in Hnd. simpl in Hnd. apply NoDup_app in Hnd as (_ & Hd & [Hn _]%NoDup_cons).
  apply elem_of_app in Hq as [Hq|[Hq|Hq]%elem_of_cons].
  - exfalso. apply (Hd x); [|by left]. apply list_elem_of_fmap. by exists (x, q).
  - congruence.
  - exfalso. apply Hn. apply list_elem_of_fmap. by exists (x, q).
Qed.

Lemma descends_pid a x : descends a x -> x ∈ map fst ps.
Proof using ps. induction 1 as [? ? H|]; [by apply child_pid in H|done]. Qed.

Lemma descends_inv a p x : child_of p x -> descends a x -> a = p \/ descends a p.
Proof using Hnd.
  intros Hc H.
  assert (exists q, rtc child_of a q /\ child_of q x) as (q & Hq & Hqx).
  { clear Hc. induction H as [a x H|a b x H1 H2 IH]; [by exists a|].
    destruct IH as (q & Hq & Hqx). exists q. split; [by eapply rtc_l|done]. }
  rewrite <- (child_parent _ _ _ Hc Hqx) in Hq. apply rtc_tc in Hq. tauto.
Qed.

(** a process of the list whose parent is not there descends from none *)
Lemma orphan a i p : (i, p) ∈ ps -> p ∉ map fst ps -> a ∈ map fst ps -> ~ descends a i.
Proof using Hnd.
  intros Hi Hp Ha H. destruct (descends_inv a p i Hi H) as [->|H']; [done|]. by apply descends_pid in H'.
Qed.

(** parents and ancestors come earlier in the list *)
Lemma earlier_parent l1 i l2 p x : ps = l1 ++ i :: l2 -> x ∈ map fst (l1 ++ [i]) -> child_of p x ->
  p ∈ map fst ps -> p ∈ map fst l1.
Proof using Hnd Hpf.
  intros Hps Hx Hc Hp. apply list_elem_of_fmap in Hx as ([x' q] & -> & Hq).
  assert (q = p) as ->.
  { apply (child_parent q p x'); [|done]. unfold child_of. rewrite Hps, cons_middle, app_assoc.
    apply elem_of_app. by left. }
  apply elem_of_app in Hq as [Hq| <-%list_elem_of_singleton]; [|by eapply Hpf].
  apply list_elem_of_split in Hq as (u & v & ->). rewrite <- app_assoc in Hps. simpl in Hps.
  apply (Hpf _ _ _ _ Hps) in Hp. rewrite map_app. apply elem_of_app. by left.
Qed.

Lemma earlier_ancestor l1 i l2 a x : ps = l1 ++ i :: l2 -> descends a x -> a ∈ map fst ps ->
  x ∈ map fst (l1 ++ [i]) -> a ∈ map fst l1.
Proof using Hnd Hpf.
  intros Hps H. induction H as [a x H|a b x H1 H2 IH]; intros Ha Hx; [by eapply earlier_parent|].
  specialize (IH (child_pid _ _ H1) Hx). eapply (earlier_parent _ _ _ a b Hps); try done.
  rewrite map_app. apply elem_of_app. by left.
Qed.

Lemma listed_at l1 i l2 : ps = l1 ++ i :: l2 -> fst i ∈ map fst ps /\ fst i ∉ map fst l1.
Proof using Hnd.
  intros Hps. rewrite Hps, map_app in *. simpl in *. apply NoDup_app in Hnd as (_ & Hd & _). split.
  - apply elem_of_app. right. by left.
  - intros Hi. apply (Hd _ Hi). by left.
Qed.

Lemma no_self_descent a : a ∈ map fst ps -> ~ descends a a.
Proof using Hnd Hpf.
  intros Ha. apply list_elem_of_fmap in Ha as (i & -> & (l1 & l2 & Hps)%list_elem_of_split) .
  destruct (listed_at _ _ _ Hps) as [Hi Hn]. intros H. apply Hn. apply (earlier_ancestor _ _ _ _ _ Hps H Hi).
  rewrite map_app. apply elem_of_app. right. by left.
Qed.

(** after a process comes the block of its descendants, and there are no others *)
Definition preorder (L : list Z) : Prop :=
  forall u a v, L = u ++ a :: v ->
  (forall x, x ∈ u -> ~ descends a x) /\
  exists b c, v = b ++ c /\ (forall x, x ∈ b -> descends a x) /\ (forall x, x ∈ c -> ~ descends a x).

(** a new element whose ancestors are its left neighbour and the ancestors of that *)
Definition below (u : list Z) (a : Z) : Prop := exists u' p, u = u' ++ [p] /\ (a = p \/ descends a p).

Lemma below_cons u1 a k : (forall x, x ∈ k -> descends a x) -> below (u1 ++ a :: k) a.
Proof.
  intros Hk. destruct k as [|p k _] using rev_ind; [by exists u1, a; auto|].
  exists (u1 ++ a :: k), p. split; [by rewrite <- app_assoc|]. right. apply Hk, elem_of_app. right. by left.
Qed.

Lemma not_below_cons u1 a k p : NoDup (u1 ++ a :: k ++ [p]) -> ~ descends a p -> ~ below (u1 ++ a :: k ++ [p]) a.
Proof.
  intros HN Hp (u' & q & Hu & Hq). rewrite (app_comm_cons k), app_assoc in Hu.
  apply app_inj_tail in Hu as [_ <-]. destruct Hq as [<-|Hq]; [|done].
  apply NoDup_app in HN as (_ & _ & [Hn _]%NoDup_cons). apply Hn, elem_of_app. right. by left.
Qed.

Lemma preorder_insert u v i : preorder (u ++ v) -> NoDup (u ++ v) ->
  (forall x, x ∈ u ++ v -> ~ descends i x) ->
  (forall a, a ∈ u ++ v -> descends a i <-> below u a) -> preorder (u ++ i :: v).
Proof.
  intros Hpre HN Hno Hdesc u1 a v1 He.
  assert (Hself : (forall x, x ∈ u -> ~ descends i x) /\
    exists b c, v = b ++ c /\ (forall x, x ∈ b -> descends i x) /\ (forall x, x ∈ c -> ~ descends i x)).
  { split; [intros x Hx; apply Hno, elem_of_app; by left|]. exists [], v.
    split_and!; [done|by intros x ?%not_elem_of_nil|]. intros x Hx. apply Hno, elem_of_app. by right. }
  apply app_eq_inv in He as [([|a' k] & Hu & Hv)|([|i' k] & Hu & Hv)]; simplify_eq/=;
    rewrite ?app_nil_r in *; try done.
  - rewrite <- app_assoc in Hpre, HN. simpl in Hpre, HN. destruct (Hpre u1 a' (k ++ v) eq_refl) as (H1 & b & c & Hkv & Hb & Hc).
    assert (Ha : a' ∈ (u1 ++ a' :: k) ++ v).
    { rewrite !elem_of_app, elem_of_cons. tauto. }
    specialize (Hdesc a' Ha).
    split; [done|].
    assert (Hin : forall k2, b = k ++ k2 -> v = k2 ++ c -> exists b c, k ++ i :: v = b ++ c /\
      (forall x, x ∈ b -> descends a' x) /\ (forall x, x ∈ c -> ~ descends a' x)).
    { intros k2 -> ->. exists (k ++ i :: k2), c. split; [by rewrite <- app_assoc|]. split; [|done].
      intros x [Hx|[->|Hx]%elem_of_cons]%elem_of_app; [apply Hb, elem_of_app; by left| |apply Hb, elem_of_app; by right].
      apply Hdesc, below_cons. intros y Hy. apply Hb, elem_of_app. by left. }
    apply app_eq_inv in Hkv as [(k2 & -> & ->)|(k2 & -> & ->)]; [|by apply (Hin k2)].
    destruct k2 as [|p k2 _] using rev_ind; [apply (Hin []); by rewrite ?app_nil_r|]. clear Hin.
    exists b, ((k2 ++ [p]) ++ i :: v). split; [by rewrite <- !app_assoc|]. split; [done|].
    intros x [Hx|[->|Hx]%elem_of_cons]%elem_of_app; [apply Hc, elem_of_app; by left| |apply Hc, elem_of_app; by right].
    rewrite Hdesc. rewrite app_assoc. apply not_below_cons.
    + rewrite <- app_assoc. rewrite app_comm_cons, app_assoc in HN. by apply NoDup_app in HN as [HN _].
    + apply Hc. rewrite !elem_of_app, list_elem_of_singleton. tauto.
  - rewrite app_assoc in Hpre, HN. destruct (Hpre _ _ _ eq_refl) as (H1 & H2). split; [|done].
    intros x [Hx|[->|Hx]%elem_of_cons]%elem_of_app; [apply H1, elem_of_app; by left| |apply H1, elem_of_app; by right].
    rewrite Hdesc; [|rewrite !elem_of_app, elem_of_cons; tauto].
    intros (u' & p & -> & [->|Hp]).
    + apply NoDup_app in HN as (_ & Hd & _). apply (Hd p); [rewrite !elem_of_app, list_elem_of_singleton; tauto|by left].
    + apply (H1 p); [rewrite !elem_of_app, list_elem_of_singleton; tauto|done].
Qed.

Lemma order_preorder l : forall l2, ps = l ++ l2 -> preorder (order l).
Proof using Hnd Hpf.
  induction l as [|i l IH] using rev_ind; intros l2 Hps.
  { intros u a v Hu. by destruct u. }
  rewrite <- app_assoc in Hps. simpl in Hps. destruct (order_elems _ _ Hps) as [Hin HndL].
  destruct (place_split _ _ _ Hps Hin HndL) as (Hi & u & v & Hu & -> & Hpar).
  specialize (IH _ Hps). rewrite Hu in *. destruct (listed_at _ _ _ Hps) as [Hip Hil].
  apply preorder_insert; try done.
  - intros x Hx Hd. apply Hil, (earlier_ancestor _ _ _ _ _ Hps Hd Hip). rewrite map_app. apply elem_of_app. left.
    by apply Hin.
  - intros a Ha. assert (Hap : a ∈ map fst ps).
    { rewrite Hps, map_app. apply elem_of_app. left. by apply Hin. }
    assert (Hci : child_of (snd i) (fst i)).
    { unfold child_of. rewrite <- surjective_pairing, Hps. apply elem_of_app. right. by left. }
    unfold parent_of in Hpar. case_bool_decide as Hp.
    + destruct Hpar as (u' & -> & _). split.
      * intros Hd. exists u', (snd i). split; [done|]. by apply (descends_inv a (snd i) (fst i)).
      * intros (u2 & p & [-> <-]%app_inj_tail & [->|Hd]); [by apply tc_once|by eapply tc_r].
    + subst u. split; [|by intros (u2 & p & ?%app_cons_not_nil & _)].
      intros Hd. by destruct (orphan a (fst i) (snd i) Hci Hp Hap).
Qed.

(** ** The walk *)

(** from the last of the visited processes [w], with [b] the rest of the block *)
Lemma walk_block u b : forall fuel w curr visited c killed,
  order ps = u ++ w ++ curr :: b ++ c -> (forall x, x ∈ visited <-> x ∈ w ++ [curr]) ->
  (forall b1 x b2, b = b1 ++ x :: b2 -> exists p, child_of p x /\ p ∈ map fst ps /\ p ∈ w ++ curr :: b1) ->
  (forall x p, x ∈ c -> child_of p x -> p ∉ w ++ curr :: b) ->
  length b < fuel ->
  walk fuel (link_all ps) curr visited killed = Killed (killed ++ b) \/
  walk fuel (link_all ps) curr visited killed = WildParent (killed ++ b).
Proof using Hnd Hpf.
  change (link_all ps) with (linked ps).
  destruct (linked_correct ps [] ltac:(by rewrite app_nil_r)) as [Hc _ Hpp].
  assert (Hppc : forall p x, child_of p x -> pp (linked ps) x = if bool_decide (p ∈ map fst ps) then Some p else None).
  { intros p x Hpx. apply (Hpp (x, p) Hpx). }
  destruct (order_elems ps [] ltac:(by rewrite app_nil_r)) as [Hin _].
  assert (Hnext : forall w curr v, order ps = u ++ w ++ curr :: v -> next (linked ps) (Some curr) = head v).
  { intros w curr v Hl. apply chain_head. unfold ring in Hc.
    rewrite Hl, !map_app, <- !app_assoc, app_comm_cons, app_assoc in Hc. by apply chain_app in Hc as [_ ?]. }
  induction b as [|x b IH]; intros [|fuel] w curr visited c killed Hl Hv Hb Hcc Hf; simpl in Hf; try lia;
    pose proof (Hnext _ _ _ Hl) as Hn; simpl in Hn |- *; rewrite ?app_nil_r.
  - destruct c as [|y c]; simpl in Hn; rewrite Hn; [by right|]. left.
    assert (Hy : y ∈ order ps) by (rewrite Hl; simpl; rewrite !elem_of_app, !elem_of_cons; tauto).
    apply Hin, list_elem_of_fmap in Hy as ([y' p] & -> & Hy). cbn [fst] in *. rewrite (Hppc p y' Hy).
    case_bool_decide; [|done]. rewrite bool_decide_false; [done|]. rewrite Hv.
    apply (Hcc y' p); [by left|done].
  - rewrite Hn. destruct (Hb [] x b eq_refl) as (p & Hpx & Hp & Hpw). rewrite (Hppc p x Hpx).
    rewrite !bool_decide_true by (done || by apply Hv).
    assert (killed ++ x :: b = (killed ++ [x]) ++ b) as -> by (by rewrite <- app_assoc).
    apply (IH fuel (w ++ [curr]) x (x :: visited) c); [by rewrite Hl, <- app_assoc| | | |lia].
    + intros y. rewrite elem_of_cons, Hv, (elem_of_app (w ++ [curr])), list_elem_of_singleton. tauto.
    + intros b1 y b2 ->. rewrite <- app_assoc. apply (Hb (x :: b1) y b2 eq_refl).
    + intros y q Hy Hq. rewrite <- app_assoc. by apply (Hcc y q).
Qed.

Lemma kill_tree_order self : self ∈ map fst ps -> exists u b c, order ps = u ++ self :: b ++ c /\
  (forall x, x ∈ b <-> descends self x) /\ NoDup b /\
  (forall b1 x b2, b = b1 ++ x :: b2 -> exists p, child_of p x /\ p ∈ self :: b1) /\
  (kill_tree ps self = Some (Killed b) \/ kill_tree ps self = Some (WildParent b)).
Proof using Hnd Hpf.
  intros Hself. assert (Hps : ps = ps ++ []) by (by rewrite app_nil_r).
  destruct (order_elems ps [] Hps) as [Hin HN]. pose proof (order_preorder ps [] Hps) as Hpre.
  assert (Hs : self ∈ order ps) by (by apply Hin). apply list_elem_of_split in Hs as (u & v & Hl).
  destruct (Hpre _ _ _ Hl) as (Hu & b & c & -> & Hb & Hc).
  assert (Hiff : forall x, x ∈ b <-> descends self x).
  { intros x. split; [by apply Hb|]. intros Hd. pose proof (descends_pid _ _ Hd) as Hx. apply Hin in Hx.
    rewrite Hl, !elem_of_app, elem_of_cons, elem_of_app in Hx. destruct Hx as [Hx|[->|[?|Hx]]]; [|..|done|].
    - by apply Hu in Hx.
    - by apply no_self_descent in Hd.
    - by apply Hc in Hx. }
  assert (HNb : NoDup b).
  { rewrite Hl in HN. apply NoDup_app in HN as (_ & _ & [_ HN]%NoDup_cons). by apply NoDup_app in HN as (? & _). }
  assert (Hpar : forall b1 x b2, b = b1 ++ x :: b2 -> exists p, child_of p x /\ p ∈ map fst ps /\ p ∈ self :: b1).
  { intros b1 x b2 Hbx. assert (Hd : descends self x) by (apply Hiff; rewrite Hbx, elem_of_app, elem_of_cons; tauto).
    pose proof (descends_pid _ _ Hd) as Hx. apply list_elem_of_fmap in Hx as ([x' p] & -> & Hx). simpl in *.
    exists p. split; [done|]. destruct (descends_inv self p x' Hx Hd) as [<-|Hdp]; [split; [done|by left]|].
    split; [by eapply descends_pid|]. right. pose proof Hdp as Hpb. apply Hiff in Hpb. rewrite Hbx in Hpb.
    rewrite elem_of_app in Hpb. destruct Hpb as [?|[->|Hpb]%elem_of_cons]; [done| |].
    - exfalso. apply (no_self_descent x'); [by eapply child_pid|by apply tc_once].
    - exfalso. apply list_elem_of_split in Hpb as (b3 & b4 & ->).
      destruct (Hpre (u ++ self :: b1 ++ x' :: b3) p (b4 ++ c)) as [Hno _].
      { rewrite Hl, Hbx. repeat (rewrite <- ?app_assoc; simpl). done. }
      apply (Hno x'); [rewrite elem_of_app, elem_of_cons, elem_of_app, elem_of_cons; tauto|by apply tc_once]. }
  exists u, b, c. split_and!; [done..| |].
  { intros b1 x b2 Hx. destruct (Hpar _ _ _ Hx) as (p & ? & _ & ?). by exists p. }
  unfold kill_tree. rewrite bool_decide_true by done.
  destruct (walk_block u b (S (length ps)) [] self [self] c []) as [-> | ->]; try by auto.
  - intros x p Hx Hpx Hpb. apply (Hc x Hx). simpl in Hpb. apply elem_of_cons in Hpb as [->|Hpb]; [by apply tc_once|].
    apply Hiff in Hpb. by eapply tc_r.
  - assert (length b <= length (order ps)) as Hle by (rewrite Hl; rewrite !length_app; simpl; rewrite length_app; lia).
    assert (length (order ps) <= length (map fst ps)); [|rewrite length_map in *; lia].
    apply submseteq_length, NoDup_submseteq; [done|]. intros x Hx. by apply Hin.
Qed.
End order.


(** the parents come first in this list *)
Definition pf_tree : list (Z * Z) := [(1, 0); (10, 1); (20, 1); (21, 20); (22, 21); (23, 20); (30, 10)]%Z.
Definition pf_check (ps : list (Z * Z)) : bool :=
  forallb (fun n => match ps !! n with
                    | Some (i, p) => negb (bool_decide (p ∈ map fst ps)) || bool_decide (p ∈ map fst (take n ps))
                    | None => true end) (seq 0 (length ps)).
Lemma pf_check_sound ps : pf_check ps = true -> parents_first ps.
Proof.
  unfold pf_check. intros H l1 i p l2 Hps Hp. rewrite forallb_forall in H.
  assert (Hlk : ps !! length l1 = Some (i, p)) by (by rewrite Hps, list_lookup_middle).
  specialize (H (length l1)). rewrite Hlk, bool_decide_true in H by done. simpl in H.
  rewrite Hps, take_app_length in H. rewrite <- Hps in H. eapply bool_decide_eq_true_1, H.
  apply in_seq. apply lookup_lt_Some in Hlk. lia.
Qed.
