(* ===== verification/Machine.v ===== *)
(** * The machine: objects, the store, effects

    [object] is [di_object_internal] of [di_internal.h] together with the fields of the
    struct it is embedded in ([payload]); [world] is the memory the program owns; [M] is
    the effect of a C function: it may return, throw a deai error object (the C++
    exception of [di_throw]) or get stuck on a failed assertion, an [abort], a memory
    error or, in this model only, on exhausted fuel. *)

From S2P Require Export Value.
From Stdlib Require Import SpecFloat.

(** C functions are named by their symbol. *)
Abbreviation fnptr := string.

(** ** Objects *)

(** [struct di_member]: the position in the list is uthash's insertion order *)
Abbreviation member := (string * val)%type.

(** where a string of the command line or of the environment is: in the memory the kernel
    put it in, in the copy that [setproctitle_init] makes of it, or elsewhere *)
Inductive title_ptr :=
  | AtTitle (off : nat)
  | AtCopy (off : nat)
  | Elsewhere (s : string).

(** fields of [struct deai]: [proctitle] is the memory up to [proctitle_end], [environ] the
    variable of the C library *)
Record deai_fields := DeaiFields {
  deai_argv : list title_ptr;
  deai_environ : list title_ptr;
  proctitle : string;
  orig_proctitle : string
}.

(** fields of the extensions of an X connection, [struct di_xorg_ext] and the structs that
    begin with it: [mask] is an array of bytes *)
Inductive xext_fields :=
  | XInputFields (mask : list Z) (listener_count : list Z)
  | RandrFields (evbase cts : Z)
  | KeyFields (keysyms next_binding_key : Z).
Record xorg_ext := XorgExt {
  extname : string;
  ext_nsignals : Z;
  opcode : Z;
  handle_event_fn : option fnptr;
  ext_fields : xext_fields
}.

(** the fields that follow [di_object_internal] in the structs of the program *)
Inductive payload :=
  | PObject
  | PSignal (nhandlers : Z)                                    (* struct di_signal *)
  | PRawClosure (raw_fn : fnptr)                               (* struct di_raw_closure *)
  | PClosure (raw_fn fn : fnptr) (nargs : Z) (rtype : di_type) (atypes : list di_type)
                                                               (* struct di_closure *)
  | PFieldGetter (type : di_type) (offset : Z)                 (* struct di_field_getter *)
  | PRoots (anonymous_roots : list oid)                        (* struct di_roots *)
  | PIoev (fd events : Z) (running : bool)                     (* struct di_ioev *)
  | PTimer (at_ : spec_float) (spent : bool)                   (* struct di_timer *)
  | PPeriodic (offset interval : spec_float)                   (* struct di_periodic *)
  | PEventModule                                               (* di_event_module *)
  | PLog (log_level : Z)                                       (* struct di_log *)
  | PLogFile (f : string)                                      (* struct log_file *)
  | PChild (pid : Z) (fd0 fd1 : Z) (buf0 buf1 : option (list (string * Z)))
                                                               (* struct child *)
  | PFileWatch (fd nsignals : Z) (entries : list (string * Z)) (* di_file_watch *)
  | PDBusConnection (conn : option Z) (nsignals : Z)           (* di_dbus_connection *)
  | PDBusMethod (method interface : option string)             (* di_dbus_method *)
  | PDBusShutdown (conn : Z)                                   (* struct di_dbus_shutdown_handler *)
  | PXorgConnection (c : option Z) (dflt_scrn nsignals : Z) (xkb_ctx : option Z) (atoms : list (Z * string))
                                                               (* di_xorg_connection *)
  | PXorgExt (e : xorg_ext)                                    (* struct di_xorg_ext *)
  | PKeybinding (keysym : Z) (keycodes : option (list Z)) (modifiers : Z) (intercept : bool)
                                                               (* struct keybinding *)
  | PXInputDevice (deviceid : Z) (xi : oid)                    (* struct di_xorg_xinput_device *)
  | PXScreen (width height : Z)                                (* struct xscreen *)
  | PXOutput (id : Z)                                          (* struct di_xorg_output *)
  | PXOutputInfo (mm_width mm_height connection subpixel_order num_preferred : Z) (name : string)
                                                               (* struct di_xorg_output_info *)
  | PXView (id : Z)                                            (* struct di_xorg_view *)
  | PXMode (id width height : Z) (fps : spec_float) (interlaced double_scan : bool)
                                                               (* struct di_xorg_mode *)
  | PXViewConfig (x y width height rotation reflection : Z)    (* struct di_xorg_view_config *)
  | PLuaState (lua : option Z)                                 (* di_lua_state *)
  | PLuaRef (tref : Z)                                         (* struct di_lua_ref *)
  | PUdevContext (context : Z)                                 (* udev.cc: Context *)
  | PUdevEnumerator (raw : Z)                                  (* udev.cc: Enumerator *)
  | PInputId (vendor product bustype version : Z)              (* evdev.cc: InputId *)
  | PInputDevice (fd : Z)                                      (* evdev.cc: Device *)
  | PDisplayInfo (info : Z)                                    (* display.hh: DisplayInfo *)
  | PDeai (d : deai_fields).                                   (* struct deai *)

Record object := Object {
  members : list member;
  dtor : option fnptr;
  call : option fnptr;
  ref_count : Z;
  weak_ref_count : Z;
  ref_count_scan : Z;
  mark : Z;
  destroyed : bool;
  extra : payload
}.

Definition set_members (l : list member) (ob : object) : object :=
  Object l (dtor ob) (call ob) (ref_count ob) (weak_ref_count ob) (ref_count_scan ob)
    (mark ob) (destroyed ob) (extra ob).
Definition set_dtor (d : option fnptr) (ob : object) : object :=
  Object (members ob) d (call ob) (ref_count ob) (weak_ref_count ob) (ref_count_scan ob)
    (mark ob) (destroyed ob) (extra ob).
Definition set_call (c : option fnptr) (ob : object) : object :=
  Object (members ob) (dtor ob) c (ref_count ob) (weak_ref_count ob) (ref_count_scan ob)
    (mark ob) (destroyed ob) (extra ob).
Definition set_ref_count (n : Z) (ob : object) : object :=
  Object (members ob) (dtor ob) (call ob) n (weak_ref_count ob) (ref_count_scan ob)
    (mark ob) (destroyed ob) (extra ob).
Definition set_weak_ref_count (n : Z) (ob : object) : object :=
  Object (members ob) (dtor ob) (call ob) (ref_count ob) n (ref_count_scan ob)
    (mark ob) (destroyed ob) (extra ob).
Definition set_scan (n : Z) (ob : object) : object :=
  Object (members ob) (dtor ob) (call ob) (ref_count ob) (weak_ref_count ob) n
    (mark ob) (destroyed ob) (extra ob).
Definition set_mark (n : Z) (ob : object) : object :=
  Object (members ob) (dtor ob) (call ob) (ref_count ob) (weak_ref_count ob)
    (ref_count_scan ob) n (destroyed ob) (extra ob).
Definition set_destroyed (b : bool) (ob : object) : object :=
  Object (members ob) (dtor ob) (call ob) (ref_count ob) (weak_ref_count ob)
    (ref_count_scan ob) (mark ob) b (extra ob).
Definition set_extra (p : payload) (ob : object) : object :=
  Object (members ob) (dtor ob) (call ob) (ref_count ob) (weak_ref_count ob)
    (ref_count_scan ob) (mark ob) (destroyed ob) p.

(** [HASH_FIND], [HASH_DEL] and the [hh.next] pointer over the member table *)
Fixpoint find_member (name : string) (l : list member) : option val :=
  match l with
  | [] => None
  | (n, v) :: l' => if String.eqb n name then Some v else find_member name l'
  end.
Fixpoint del_member (name : string) (l : list member) : list member :=
  match l with
  | [] => []
  | (n, v) :: l' => if String.eqb n name then l' else (n, v) :: del_member name l'
  end.
Fixpoint next_member (name : string) (l : list member) : option string :=
  match l with
  | [] => None
  | (n, _) :: l' => if String.eqb n name then fst <$> head l' else next_member name l'
  end.
Definition first_member (l : list member) : option string := fst <$> head l.

(** the data of an existing member is replaced in place *)
Fixpoint put_member (name : string) (v : val) (l : list member) : list member :=
  match l with
  | [] => []
  | (n, w) :: l' => if String.eqb n name then (n, v) :: l' else (n, w) :: put_member name v l'
  end.

(** ** The store *)

(** a call of a function of another library, in the order of the calls (newest first) *)
Record extcall := ExtCall { ext_fn : string; ext_args : list val }.

Record world := World {
  heap : gmap oid object;
  next_addr : oid;
  (** [unreferred_objects]; [None] is the zero-initialised list head *)
  unreferred : option (list oid);
  (** [isolated_roots] of a running [di_collect_garbage] *)
  isolated : list oid;
  roots : option oid;
  log_module : option oid;
  saved_log_level : Z;
  exit_code : Z;
  quit : bool;
  trace : list extcall
}.

Definition set_heap (h : gmap oid object) (w : world) : world :=
  World h (next_addr w) (unreferred w) (isolated w) (roots w) (log_module w)
    (saved_log_level w) (exit_code w) (quit w) (trace w).
Definition set_unreferred (l : option (list oid)) (w : world) : world :=
  World (heap w) (next_addr w) l (isolated w) (roots w) (log_module w)
    (saved_log_level w) (exit_code w) (quit w) (trace w).
Definition set_isolated (l : list oid) (w : world) : world :=
  World (heap w) (next_addr w) (unreferred w) l (roots w) (log_module w)
    (saved_log_level w) (exit_code w) (quit w) (trace w).
Definition set_next_addr (a : oid) (w : world) : world :=
  World (heap w) a (unreferred w) (isolated w) (roots w) (log_module w)
    (saved_log_level w) (exit_code w) (quit w) (trace w).
Definition set_roots (r : option oid) (w : world) : world :=
  World (heap w) (next_addr w) (unreferred w) (isolated w) r (log_module w)
    (saved_log_level w) (exit_code w) (quit w) (trace w).
Definition set_log_module (r : option oid) (w : world) : world :=
  World (heap w) (next_addr w) (unreferred w) (isolated w) (roots w) r
    (saved_log_level w) (exit_code w) (quit w) (trace w).
Definition set_saved_log_level (n : Z) (w : world) : world :=
  World (heap w) (next_addr w) (unreferred w) (isolated w) (roots w) (log_module w)
    n (exit_code w) (quit w) (trace w).
Definition set_exit_code (n : Z) (w : world) : world :=
  World (heap w) (next_addr w) (unreferred w) (isolated w) (roots w) (log_module w)
    (saved_log_level w) n (quit w) (trace w).
Definition set_quit (b : bool) (w : world) : world :=
  World (heap w) (next_addr w) (unreferred w) (isolated w) (roots w) (log_module w)
    (saved_log_level w) (exit_code w) b (trace w).
Definition add_trace (c : extcall) (w : world) : world :=
  World (heap w) (next_addr w) (unreferred w) (isolated w) (roots w) (log_module w)
    (saved_log_level w) (exit_code w) (quit w) (c :: trace w).

(** ** Effects *)

Inductive fault :=
  | AssertFailed          (* assert, DI_ASSERT: debug builds *)
  | Aborted               (* DI_CHECK, DI_CHECK_OK, DI_PANIC, abort *)
  | UseAfterFree          (* access to an object or member that is not allocated *)
  | NullDereference
  | WildPointer           (* dereference of an integer that is no address *)
  | UndefinedBehaviour    (* a conversion the C++ standard leaves undefined *)
  | Terminated            (* an exception leaves a cleanup during unwinding *)
  | Exited (status : Z)   (* exit, _exit *)
  | Replaced (argv : list string)                  (* exec *)
  | OutOfFuel.            (* the model's recursion bound, not a behaviour of the code *)

Inductive outcome (A : Type) :=
  | Ret (a : A) (w : world)
  | Throw (err : oid) (w : world)
  | Stuck (f : fault).
Arguments Ret {_} _ _.
Arguments Throw {_} _ _.
Arguments Stuck {_} _.

Definition M (A : Type) : Type := world -> outcome A.

Definition ret {A} (a : A) : M A := fun w => Ret a w.
Definition bind {A B} (m : M A) (k : A -> M B) : M B := fun w =>
  match m w with
  | Ret a w' => k a w'
  | Throw e w' => Throw e w'
  | Stuck f => Stuck f
  end.
Definition stuck {A} (f : fault) : M A := fun _ => Stuck f.
(** [di_throw] *)
Definition di_throw {A} (err : oid) : M A := fun w => Throw err w.

Declare Scope m_scope.
Delimit Scope m_scope with M.
Bind Scope m_scope with M.
Notation "x <- m1 ;; m2" := (bind m1 (fun x => m2))
  (at level 100, m1 at next level, right associativity) : m_scope.
Notation "m1 ;; m2" := (bind m1 (fun _ => m2))
  (at level 100, right associativity) : m_scope.
Notation "'let*' p ':=' m1 'in' m2" := (bind m1 (fun p => m2))
  (at level 10, p strict pattern, m1 at level 200, m2 at level 200) : m_scope.
#[global] Open Scope m_scope.

(** variables with a cleanup attribute: the cleanup runs on both ways out *)
Definition scoped {A} (body : M A) (cleanup : M unit) : M A := fun w =>
  match body w with
  | Ret a w' => bind cleanup (fun _ => ret a) w'
  | Throw e w' =>
      match cleanup w' with
      | Ret _ w'' => Throw e w''
      | Throw _ _ => Stuck Terminated
      | Stuck f => Stuck f
      end
  | Stuck f => Stuck f
  end.

Definition check (f : fault) (b : bool) : M unit := if b then ret tt else stuck f.
Definition assert (b : bool) : M unit := check AssertFailed b.
Definition DI_CHECK (b : bool) : M unit := check Aborted b.
Definition DI_CHECK_OK (rc : Z) : M unit := check Aborted (rc =? 0)%Z.

Definition gets {A} (f : world -> A) : M A := fun w => Ret (f w) w.
Definition modify (f : world -> world) : M unit := fun w => Ret tt (f w).
Definition when (b : bool) (m : M unit) : M unit := if b then m else ret tt.

Fixpoint mapM_ {A} (f : A -> M unit) (l : list A) : M unit :=
  match l with
  | [] => ret tt
  | x :: l' => f x ;; mapM_ f l'
  end.
Fixpoint mapM {A B} (f : A -> M B) (l : list A) : M (list B) :=
  match l with
  | [] => ret []
  | x :: l' => y <- f x ;; ys <- mapM f l' ;; ret (y :: ys)
  end.

(** ** Memory accesses *)

Definition get_obj (o : oid) : M object := fun w =>
  match heap w !! o with
  | Some ob => Ret ob w
  | None => Stuck UseAfterFree
  end.
Definition put_obj (o : oid) (ob : object) : M unit :=
  modify (fun w => set_heap (<[o:=ob]> (heap w)) w).
Definition upd_obj (o : oid) (f : object -> object) : M unit :=
  ob <- get_obj o ;; put_obj o (f ob).
(** [free(obj)] *)
Definition free_obj (o : oid) : M unit :=
  modify (fun w => set_heap (delete o (heap w)) w).

(** calls into other libraries are recorded *)
Definition call_ext (fn : string) (args : list val) : M unit :=
  modify (add_trace (ExtCall fn args)).

(** ** Results of functions that return an error code and an out parameter *)

(** [inl rc]: the function returned the non-zero code [rc]; [inr a]: it returned 0 and
    stored [a]. *)
Abbreviation rc_or A := (Z + A)%type.
Definition rc_of {A} (r : rc_or A) : Z := match r with inl rc => rc | inr _ => 0%Z end.

(** ** Printing *)

(** digits of [%p], [%x] *)
Definition hex_digit (d : N) : Ascii.ascii :=
  Ascii.ascii_of_N (if (d <? 10)%N then 48 + d else 87 + d).
Fixpoint hex_pos_go (fuel : nat) (n : N) (acc : string) : string :=
  match fuel with
  | O => acc
  | S fuel' =>
      let acc := String (hex_digit (n mod 16)) acc in
      if (n / 16 =? 0)%N then acc else hex_pos_go fuel' (n / 16) acc
  end.
Definition hex (p : positive) : string :=
  hex_pos_go (Pos.size_nat p) (Npos p) EmptyString.
(** glibc's [%p] of a non-NULL pointer *)
Definition fmt_p (p : positive) : string := "0x" +:+ hex p.
(** [%d], [%ld], [%zu] *)
Definition fmt_d (z : Z) : string := pretty z.

(** [enum di_log_level] *)
Definition DI_LOG_ERROR : Z := 0.
Definition DI_LOG_WARN : Z := 1.
Definition DI_LOG_INFO : Z := 2.
Definition DI_LOG_DEBUG : Z := 3.

(** ** The code outside the object layer

    What [object.c] calls through function pointers, as an interface: [di_call_fn]s and
    destructors, by symbol, and the log module. The files that model the callees give
    instances. *)
Class Env := {
  (** bound on the nesting of destructions and on loops that run foreign code *)
  env_fuel : nat;
  (** [call(obj, &rtype, &ret, args)] *)
  env_call : fnptr -> oid -> list val -> M (rc_or val);
  (** [dtor(obj)] *)
  env_dtor : fnptr -> oid -> M unit;
  (** [di_log_va(log_module, level, ...)] with the formatted message *)
  env_log : Z -> string -> M unit
}.
