(* ===== verification/System.v ===== *)
(** * The operating system and the C library

    What the program asks of them, as an interface: the results of the calls may depend on
    all that was called before, which is in the trace of the world. *)

From S2P Require Import Descendants.
From S2P Require Export Machine.
From Stdlib Require Import SpecFloat.

(** [d_type] of a directory entry, as far as it is looked at *)
Inductive d_type := DT_REG | DT_LNK | DT_UNKNOWN | DT_OTHER.
Record dirent := DirEnt { de_name : string; de_type : d_type }.

Class System := {
  (** the result of a call: a negative number is a negated errno value *)
  sys : string -> list val -> world -> Z;
  (** the two ends of a new pipe *)
  sys_pipe : world -> option (Z * Z);
  (** [opendir] and [readdir]: the entries of a directory; [None]: it cannot be opened *)
  sys_readdir : string -> world -> option (list dirent);
  sys_realpath : string -> world -> option string;
  (** [fstatat]: is the file with this name in the directory regular *)
  sys_is_regular : string -> string -> world -> option bool;
  sys_getenv : string -> world -> option string;
  (** the node name of [uname] *)
  sys_uname : world -> option string;
  (** [dlopen], and [dlsym] of the function the program looks for *)
  sys_dlopen : string -> world -> option (option fnptr);
  (** a call of the function of type [init_fn_t] of a plugin *)
  call_init_fn : fnptr -> oid -> M unit;
  (** what /proc shows; [None]: it is not there *)
  sys_proc : world -> option (list proc_entry);
  (** [strtod]: the number, and the rest of the string *)
  strtod : string -> spec_float * string;
  (** [ev_run (loop, 0)]: the callbacks of the watchers, until the loop is broken or none
      is active *)
  ev_run : M unit;
  (** [DI_PLUGIN_INSTALL_DIR], [DI_RESOURCES_DIR] *)
  plugin_install_dir : string;
  resources_dir : string
}.

Section System.
Context {Y : System}.

Definition syscall (fn : string) (args : list val) : M Z :=
  r <- gets (sys fn args) ;; call_ext fn args ;; ret r.
(** a message on stderr *)
Definition eprint (msg : string) : M unit := call_ext "fprintf" [VStringLiteral msg].
(** [exit], [_exit] *)
Definition exit {A} (status : Z) : M A := stuck (Exited status).
End System.

Definition SIGTERM : Z := 15.
Definition EXIT_FAILURE : Z := 1.

(** [p + n] for a pointer into the memory [s] *)
Definition drop_bytes (n : nat) (s : string) : string := String.substring n (String.length s - n) s.
Fixpoint zeros (n : nat) : string :=
  match n with O => EmptyString | S n => String Ascii.zero (zeros n) end.
