(* ===== verification/Arrays.v ===== *)
(** * Code on arrays

    Code without effects that may fail, and the elements of an array: an access outside of
    it is undefined. *)

From S2P Require Export Machine.

(** results of code that has no effect but may fail *)
Abbreviation or_fault A := (fault + A)%type.
Definition fbind {A B} (m : or_fault A) (k : A -> or_fault B) : or_fault B :=
  match m with inl f => inl f | inr a => k a end.
Definition fcheck (f : fault) (b : bool) : or_fault unit := if b then inr tt else inl f.
Definition of_fault {A} (m : or_fault A) : M A := match m with inl f => stuck f | inr a => ret a end.

(** the elements of an array: reading, writing *)
Definition aread {A} (l : list A) (i : nat) : or_fault A :=
  match l !! i with Some x => inr x | None => inl UndefinedBehaviour end.
Definition awrite {A} (l : list A) (i : nat) (x : A) : or_fault (list A) :=
  if decide (i < length l) then inr (<[i := x]> l) else inl UndefinedBehaviour.

(** ** Laws *)

Lemma aread_eq {A} (l : list A) i x : l !! i = Some x -> aread l i = inr x.
Proof. unfold aread. by intros ->. Qed.
Lemma awrite_eq {A} (l : list A) i (x : A) : i < length l -> awrite l i x = inr (<[i := x]> l).
Proof. intros H. unfold awrite. by rewrite decide_True. Qed.
Lemma awrite_out {A} (l : list A) i (x : A) : length l <= i -> awrite l i x = inl UndefinedBehaviour.
Proof. intros H. unfold awrite. by rewrite decide_False by lia. Qed.

Lemma awrite_inv {A} (l : list A) i (x : A) l' : awrite l i x = inr l' -> i < length l /\ l' = <[i := x]> l.
Proof. unfold awrite. by case_decide; intros [= <-]. Qed.
Lemma aread_inv {A} (l : list A) i (x : A) : aread l i = inr x -> l !! i = Some x.
Proof. unfold aread. destruct (l !! i); by intros [= ->]. Qed.
Lemma fbind_inv {A B} (m : or_fault A) (k : A -> or_fault B) b : fbind m k = inr b -> exists a, m = inr a /\ k a = inr b.
Proof. destruct m as [f|a]; [done|]. by exists a. Qed.
Lemma fcheck_inv f b u : fcheck f b = inr u -> b = true.
Proof. by destruct b. Qed.

(** ** Exceptions of C++

    The exceptions of the standard library that are thrown, and code without effects that
    may throw one. *)
Inductive std_exception :=
  | invalid_argument (what : string) | out_of_range (what : string) | runtime_error (what : string)
  | length_error | bad_optional_access.
Abbreviation cxx A := (or_fault (std_exception + A)).
Definition cret {A} (a : A) : cxx A := inr (inr a).
Definition cthrow {A} (e : std_exception) : cxx A := inr (inl e).
Definition cbind {A B} (m : cxx A) (k : A -> cxx B) : cxx B :=
  fbind m (fun r => match r with inl e => cthrow e | inr a => k a end).
Definition clift {A} (m : or_fault A) : cxx A := fbind m cret.

Lemma cbind_inv {A B} (m : cxx A) (k : A -> cxx B) b : cbind m k = inr (inr b) -> exists a, m = inr (inr a) /\ k a = inr (inr b).
Proof. destruct m as [f|[e|a]]; [done|done|]. by exists a. Qed.
