(* ===== verification/Misc.v ===== *)
(** * The misc plugin: [plugins/misc/misc.cc]

    Two algorithms on arrays: a maximum matching of a bipartite graph, and the solution of a
    system of difference constraints. Vectors are lists; an access outside of a vector is
    undefined, as is an overflow of a signed integer. A loop whose counter of 32 bits
    cannot reach its bound does not end. *)

From S2P Require Export Arrays.

(** the bound of a loop over an [unsigned int] *)
Definition counted {A} (n : nat) (m : or_fault A) : or_fault A :=
  fbind (fcheck OutOfFuel (Z.of_nat n <? 2 ^ 32)%Z) (fun _ => m).
(** [a + b] of type [int64_t] *)
Definition add_int64 (a b : Z) : or_fault Z :=
  let c := (a + b)%Z in fbind (fcheck UndefinedBehaviour ((- 2 ^ 63 <=? c) && (c <? 2 ^ 63))%Z) (fun _ => inr c).

(** ** Matching *)

(** [std::vector<int64_t>::max_size()] *)
Definition max_size : Z := 2 ^ 60 - 1.
(** [right] gets an element for every node on the right *)
Fixpoint grow_right (right : list Z) (js : list Z) : cxx (list Z) :=
  match js with
  | [] => cret right
  | j :: js =>
      if (j <? 0)%Z then cthrow (invalid_argument "Invalid graph, index out of bounds")
      else if (Z.of_nat (length right) <=? j)%Z then
        cbind (clift (add_int64 j 1)) (fun n =>
        if (max_size <? n)%Z then cthrow length_error
        else grow_right (right ++ replicate (Z.to_nat n - length right) (-1)%Z) js)
      else grow_right right js
  end.

Record match_state := MatchState { m_visited : list bool; m_right : list Z; m_ret : list Z }.

Section dfs.
Variable dfs : nat -> match_state -> or_fault (bool * match_state).
(** the loop of [dfs] over the edges of [curr] *)
Fixpoint try_edges (curr : nat) (js : list Z) (s : match_state) : or_fault (bool * match_state) :=
  match js with
  | [] => inr (false, s)
  | j :: js =>
      let j := Z.to_nat j in
      fbind (aread (m_visited s) j) (fun seen =>
      if (seen : bool) then try_edges curr js s
      else
        fbind (awrite (m_visited s) j true) (fun visited =>
        let s := MatchState visited (m_right s) (m_ret s) in
        fbind (aread (m_right s) j) (fun owner =>
        fbind (if (owner =? -1)%Z then inr (true, s) else dfs (Z.to_nat (u32 owner)) s) (fun '(found, s) =>
        if (found : bool) then
          fbind (awrite (m_ret s) curr (Z.of_nat j)) (fun ret =>
          fbind (awrite (m_right s) j (Z.of_nat curr)) (fun right =>
          inr (true, MatchState (m_visited s) right ret)))
        else try_edges curr js s))))
  end.
End dfs.
Fixpoint dfs (fuel : nat) (graph : list (list Z)) (curr : nat) (s : match_state) : or_fault (bool * match_state) :=
  match fuel with
  | O => inl OutOfFuel
  | S fuel => fbind (aread graph curr) (fun js => try_edges (dfs fuel graph) curr js s)
  end.

(** the nodes on the left one after the other *)
Fixpoint match_nodes (graph : list (list Z)) (nodes : list nat) (right ret : list Z) : or_fault (list Z) :=
  match nodes with
  | [] => inr ret
  | i :: nodes =>
      let n := length graph in
      fbind (dfs (S n) graph i (MatchState (replicate n false) right ret)) (fun '(_, s) =>
      match_nodes graph nodes (m_right s) (m_ret s))
  end.
(** [bipartite_match] *)
Definition bipartite_match (graph : list (list Z)) : cxx (list Z) :=
  let n := length graph in
  counted n (
    cbind (grow_right [] (concat graph)) (fun right =>
    clift (match_nodes graph (seq 0 n) right (replicate n (-1)%Z)))).

(** ** Difference constraints *)

(** the array of a variable, read in steps of two *)
Fixpoint constraint_pairs (l : list Z) : list (Z * Z) :=
  match l with
  | j :: k :: l => (j, k) :: constraint_pairs l
  | _ => []
  end.
Definition impossible (i : nat) (k : Z) : string :=
  "Invalid constraints: x_" +:+ fmt_d (Z.of_nat i) +:+ " - x_" +:+ fmt_d (Z.of_nat i) +:+ " <= " +:+ fmt_d k +:+ " is impossible".
Fixpoint check_pairs (n i : nat) (ps : list (Z * Z)) : cxx unit :=
  match ps with
  | [] => cret tt
  | (j, k) :: ps =>
      if (Z.of_nat n <=? j)%Z || (j <? 0)%Z then cthrow (invalid_argument "Invalid constraints, index out of bounds")
      else if (j =? Z.of_nat i)%Z && (k <? 0)%Z then cthrow (invalid_argument (impossible i k))
      else check_pairs n i ps
  end.
(** the first loop, from number [i] on: [nedges] *)
Fixpoint count_edges (n i : nat) (nedges : Z) (cl : list (list Z)) : cxx Z :=
  match cl with
  | [] => cret nedges
  | l :: cl =>
      if Nat.odd (length l) then cthrow (invalid_argument "Invalid constraints, must be pairs of integers")
      else cbind (check_pairs n i (constraint_pairs l)) (fun _ =>
           count_edges n (S i) (u32 (nedges + Z.of_nat (length l / 2))) cl)
  end.

Record relax_state := RelaxState { x_ret : list Z; x_inqueue : list bool; x_queue : list nat; x_iter : Z }.
Definition pop_front (i : nat) (q : list nat) (s : relax_state) : or_fault relax_state :=
  fbind (awrite (x_inqueue s) i false) (fun inq => inr (RelaxState (x_ret s) inq q (x_iter s))).
(** the constraints of variable [i] *)
Fixpoint relax_pairs (i : nat) (ps : list (Z * Z)) (s : relax_state) : or_fault relax_state :=
  match ps with
  | [] => inr s
  | (j, k) :: ps =>
      if negb (0 <? x_iter s)%Z then inr s
      else
        let j := Z.to_nat (u32 j) in
        let s := RelaxState (x_ret s) (x_inqueue s) (x_queue s) (x_iter s - 1) in
        fbind (aread (x_ret s) j) (fun rj =>
        fbind (aread (x_ret s) i) (fun ri =>
        fbind (add_int64 ri k) (fun sum =>
        if (sum <? rj)%Z then
          fbind (awrite (x_ret s) j sum) (fun ret =>
          fbind (aread (x_inqueue s) j) (fun queued =>
          if (queued : bool) then relax_pairs i ps (RelaxState ret (x_inqueue s) (x_queue s) (x_iter s))
          else fbind (awrite (x_inqueue s) j true) (fun inq =>
               relax_pairs i ps (RelaxState ret inq (x_queue s ++ [j]) (x_iter s)))))
        else relax_pairs i ps s)))
  end.
Fixpoint relax_queue (fuel : nat) (cl : list (list Z)) (s : relax_state) : or_fault relax_state :=
  match fuel with
  | O => inl OutOfFuel
  | S fuel =>
      match x_queue s with
      | i :: q =>
          if negb (0 <? x_iter s)%Z then inr s
          else
            fbind (pop_front i q s) (fun s =>
            fbind (aread cl i) (fun l =>
            fbind (counted (length l) (relax_pairs i (constraint_pairs l) s)) (fun s =>
            relax_queue fuel cl s)))
      | [] => inr s
      end
  end.

(** the last loop *)
Fixpoint verify_pairs (ret : list Z) (i : nat) (ps : list (Z * Z)) : cxx unit :=
  match ps with
  | [] => cret tt
  | (j, k) :: ps =>
      cbind (clift (aread ret i)) (fun ri =>
      cbind (clift (add_int64 ri k)) (fun sum =>
      cbind (clift (aread ret (Z.to_nat (u32 j)))) (fun rj =>
      if (sum <? rj)%Z then cthrow (invalid_argument "Failed to satisfy all constraints")
      else verify_pairs ret i ps)))
  end.
Fixpoint verify_all (ret : list Z) (i : nat) (cl : list (list Z)) : cxx unit :=
  match cl with
  | [] => cret tt
  | l :: cl => cbind (counted (length l) (verify_pairs ret i (constraint_pairs l))) (fun _ => verify_all ret (S i) cl)
  end.

(** the number of steps the queue may take, [(size - 1) * nedges] *)
Definition relax_steps (n : nat) (nedges : Z) : Z := u32 (u64 (u64 (Z.of_nat n - 1) * nedges)).
(** [difference_constraints]; the queue loses an element or [iter] is decremented, and what is
    decremented adds one element at most *)
Definition difference_constraints (constraints_list : list (list Z)) : cxx (list Z) :=
  let n := length constraints_list in
  counted n (
    cbind (count_edges n 0 0 constraints_list) (fun nedges =>
    let iter := relax_steps n nedges in
    cbind (clift (relax_queue (S (n + 2 * Z.to_nat iter)) constraints_list
                    (RelaxState (replicate n 0%Z) (replicate n true) (seq 0 n) iter))) (fun s =>
    cbind (verify_all (x_ret s) 0 constraints_list) (fun _ =>
    cret (x_ret s))))).

Example bipartite_match_example : bipartite_match [[0; 1]; [0]; [1; 2]]%Z = cret [1; 0; 2]%Z.
Proof. reflexivity. Qed.
(** [visited] has an element for every node on the left, and is indexed by nodes on the right *)
Example bipartite_match_outside : bipartite_match [[1]]%Z = inl UndefinedBehaviour.
Proof. reflexivity. Qed.
Example difference_constraints_example : difference_constraints [[1; -3]; [2; 1]; [0; 2]]%Z = cret [0; -3; -2]%Z.
Proof. reflexivity. Qed.
Example difference_constraints_cycle :
  difference_constraints [[1; -3]; [2; 1]; [0; 1]]%Z = cthrow (invalid_argument "Failed to satisfy all constraints").
Proof. reflexivity. Qed.
