(* ===== verification/Matching.v ===== *)
(** * [bipartite_match] computes a maximum matching

    The search from a node on the left is an augmenting path; a search that fails leaves a
    set of nodes on the right that no later search leaves, which bounds every matching. *)

From S2P Require Export Misc.

Definition edge (graph : list (list Z)) (i j : nat) : Prop := exists js, graph !! i = Some js /\ Z.of_nat j ∈ js.
(** every node on the right has a number below the number of nodes on the left *)
Definition edges_in_range (graph : list (list Z)) : Prop :=
  Forall (fun js => Forall (fun j => 0 <= j < Z.of_nat (length graph))%Z js) graph.
(** a matching: pairs of a node on the left and one on the right *)
Record matching (graph : list (list Z)) (l : list (nat * nat)) : Prop := {
  matching_edges : Forall (fun p => edge graph p.1 p.2) l;
  matching_left : NoDup l.*1;
  matching_right : NoDup l.*2
}.
(** the pairs in the result *)
Definition matched (r : list Z) : list (nat * nat) :=
  omap (fun i => j ← r !! i; if (j <? 0)%Z then None else Some (i, Z.to_nat j)) (seq 0 (length r)).

(** ** Lists *)

Definition unvisited (l : list bool) : nat := length (filter (fun b => b = false) l).
Lemma unvisited_visit l j : l !! j = Some false -> S (unvisited (<[j := true]> l)) = unvisited l.
Proof.
  unfold unvisited. revert j. induction l as [|b l IH]; intros [|j] Hj; try done; simpl in *; simplify_eq; [done|].
  rewrite !filter_cons. case_decide; simpl; rewrite <- (IH j Hj); done.
Qed.
Lemma insert_permutation {A} (l : list A) j x y : l !! j = Some y -> y :: <[j := x]> l ≡ₚ x :: l.
Proof.
  revert j. induction l as [|a l IH]; intros [|j] Hj; simplify_eq/=; [by apply Permutation_swap|].
  rewrite Permutation_swap, (IH j Hj). apply Permutation_swap.
Qed.

Lemma grow_right_spec n js m : Forall (fun j => 0 <= j < Z.of_nat n)%Z js -> m <= n -> (Z.of_nat n < 2 ^ 32)%Z ->
  exists m', grow_right (replicate m (-1)%Z) js = cret (replicate m' (-1)%Z) /\ m <= m' <= n /\
    Forall (fun j => j < Z.of_nat m')%Z js.
Proof.
  intros Hjs. revert m. induction Hjs as [|j js Hj Hjs IH]; intros m Hm Hn; [by exists m|].
  assert (Hstep : exists m1, m <= m1 <= n /\ (j < Z.of_nat m1)%Z /\
            grow_right (replicate m (-1)%Z) (j :: js) = grow_right (replicate m1 (-1)%Z) js).
  { cbn [grow_right]. rewrite (proj2 (Z.ltb_ge _ _)) by lia. rewrite length_replicate.
    destruct (Z.leb_spec (Z.of_nat m) j); [|exists m; split_and!; auto with lia].
    exists (Z.to_nat (j + 1)). split_and!; [lia|lia|lia|]. unfold add_int64.
    rewrite (proj2 (andb_true_iff _ _)) by (split; [apply Z.leb_le|apply Z.ltb_lt]; lia). cbn.
    rewrite (proj2 (Z.ltb_ge _ _)) by (unfold max_size; lia). rewrite <- replicate_add. do 3 f_equal. lia. }
  destruct Hstep as (m1 & H1 & H2 & ->). destruct (IH m1) as (m' & -> & H3 & H4); [lia|done|].
  exists m'. split_and!; [done|lia|lia|]. constructor; [lia|done].
Qed.

Section search.
Context (graph : list (list Z)) (m : nat).
Let n := length graph.
Context (Hn : (Z.of_nat n < 2 ^ 32)%Z) (Hmn : m <= n).
Context (Hm : forall i j, edge graph i j -> j < m).
Context (Hnonneg : forall i js j, graph !! i = Some js -> j ∈ js -> (0 <= j)%Z).

Definition vis (s : match_state) (j : nat) : Prop := m_visited s !! j = Some true.
Record ok (s : match_state) : Prop := {
  ok_visited : length (m_visited s) = n;
  ok_right : length (m_right s) = m;
  ok_ret : length (m_ret s) = n;
  ok_owner j o : m_right s !! j = Some o -> o = (-1)%Z \/ exists i j', o = Z.of_nat i /\ edge graph i j /\ m_ret s !! i = Some (Z.of_nat j');
  ok_values i v : m_ret s !! i = Some v -> v = (-1)%Z \/ exists j, v = Z.of_nat j;
  ok_matched i j : m_ret s !! i = Some (Z.of_nat j) -> m_right s !! j = Some (Z.of_nat i)
}.
(** no search leaves these nodes: they are matched, with nodes that have no other edges *)
Definition closed (right : list Z) (W : nat -> Prop) : Prop :=
  forall j, W j -> exists i, right !! j = Some (Z.of_nat i) /\ forall j', edge graph i j' -> W j'.

Record failed (c : nat) (js : list Z) (s s' : match_state) : Prop := {
  failed_right : m_right s' = m_right s;
  failed_ret : m_ret s' = m_ret s;
  failed_edges j : j ∈ js -> vis s' (Z.to_nat j);
  failed_new j : vis s' j -> vis s j \/ exists i, m_right s !! j = Some (Z.of_nat i) /\ forall j', edge graph i j' -> vis s' j'
}.
Record found (c : nat) (s s' : match_state) : Prop := {
  found_right : (-1)%Z :: m_right s' ≡ₚ Z.of_nat c :: m_right s;
  found_ret : exists j, m_ret s' !! c = Some (Z.of_nat j) /\ ~ vis s j;
  found_others i : i <> c -> m_ret s' !! i = Some (-1)%Z <-> m_ret s !! i = Some (-1)%Z;
  found_outside W : closed (m_right s) W -> exists j, edge graph c j /\ ~ W j;
  found_kept W j : closed (m_right s) W -> W j -> m_right s' !! j = m_right s !! j
}.
Record searched (c : nat) (js : list Z) (s : match_state) (r : bool) (s' : match_state) : Prop := {
  searched_ok : ok s';
  searched_less : unvisited (m_visited s') <= unvisited (m_visited s);
  searched_more j : vis s j -> vis s' j;
  searched_same j : vis s j -> m_right s' !! j = m_right s !! j;
  searched_result : if r then found c s s' else failed c js s s'
}.

Lemma vis_dec s j : vis s j \/ ~ vis s j.
Proof using All. unfold vis. destruct (m_visited s !! j) as [[]|]; auto. Qed.
Definition visit (j : nat) (s : match_state) : match_state := MatchState (<[j := true]> (m_visited s)) (m_right s) (m_ret s).
Lemma ok_visit s j : ok s -> ok (visit j s).
Proof using All. intros [? ? ? ? ? ?]. by constructor; cbn; rewrite ?length_insert. Qed.
Lemma vis_visit s j j' : ok s -> j < n -> vis (visit j s) j' <-> j' = j \/ vis s j'.
Proof using All.
  intros Hok Hj. unfold vis. cbn. destruct (decide (j' = j)) as [->|Hne].
  - rewrite list_lookup_insert_eq by (rewrite (ok_visited _ Hok); done). tauto.
  - rewrite list_lookup_insert_ne by done. tauto.
Qed.
Lemma visit_less s j : ok s -> j < n -> ~ vis s j -> S (unvisited (m_visited (visit j s))) = unvisited (m_visited s).
Proof using All.
  intros Hok Hj Hv. cbn. apply unvisited_visit. unfold vis in Hv.
  destruct (lookup_lt_is_Some_2 (m_visited s) j) as [[] Hb]; [by rewrite (ok_visited _ Hok)|done|done].
Qed.

(** an edge to [j] can be used: its owner has found another node *)
Record freed (j : nat) (s s' : match_state) : Prop := {
  freed_right o : m_right s !! j = Some o -> (-1)%Z :: m_right s' ≡ₚ o :: m_right s;
  freed_ret i : m_ret s' !! i <> Some (Z.of_nat j);
  freed_others i : m_ret s' !! i = Some (-1)%Z <-> m_ret s !! i = Some (-1)%Z;
  freed_outside W : closed (m_right s) W -> ~ W j;
  freed_kept W j' : closed (m_right s) W -> W j' -> m_right s' !! j' = m_right s !! j'
}.
Lemma freed_free j s : ok s -> m_right s !! j = Some (-1)%Z -> freed j s s.
Proof using All.
  intros Hok Hj. constructor; try done.
  - intros o Ho. by simplify_eq.
  - intros i Hi. apply (ok_matched _ Hok) in Hi. simplify_eq. lia.
  - intros W HW Hw. destruct (HW j Hw) as (i & Hi & _). simplify_eq. lia.
Qed.
Lemma freed_found i js j s s' : ok s -> m_right s !! j = Some (Z.of_nat i) -> vis s j ->
  searched i js s true s' -> freed j s s'.
Proof using All.
  intros Hok Hj Hv [Hok' Hl Hmore Hsame [Hr (j2 & Hj2 & Hnv) Ho Hout Hk]]. constructor; try done.
  - intros o Ho'. by simplify_eq.
  - intros i' Hi'. pose proof (ok_matched _ Hok' _ _ Hi') as Hown. rewrite (Hsame j Hv), Hj in Hown.
    assert (i' = i) as -> by (apply Nat2Z.inj; congruence). assert (j2 = j) as -> by (apply Nat2Z.inj; congruence). done.
  - intros i'. destruct (decide (i' = i)) as [->|]; [|auto]. rewrite Hj2.
    destruct (ok_owner _ Hok _ _ Hj) as [|(i' & j' & ->%Nat2Z.inj & _ & Hret)]; [lia|]. rewrite Hret.
    split; intros [=]; lia.
  - intros W HW Hw. destruct (HW j Hw) as (i' & Hi' & Hc). assert (i' = i) as -> by (apply Nat2Z.inj; congruence).
    destruct (Hout W HW) as (j' & Hj' & Hn'). auto.
Qed.

(** the owner changes *)
Definition assign (c j : nat) (s : match_state) : match_state :=
  MatchState (m_visited s) (<[j := Z.of_nat c]> (m_right s)) (<[c := Z.of_nat j]> (m_ret s)).
Lemma ok_assign c j s : ok s -> c < n -> j < m -> edge graph c j -> (forall i, m_ret s !! i <> Some (Z.of_nat j)) -> ok (assign c j s).
Proof using All.
  intros [H1 H2 H3 H4 H5 H6] Hc Hj He Hfree. constructor; cbn; rewrite ?length_insert; try done.
  - intros j' o. destruct (decide (j' = j)) as [->|Hne].
    + rewrite list_lookup_insert_eq by lia. intros [= <-]. right. exists c, j. split_and!; [done|done|]. by apply list_lookup_insert_eq; lia.
    + rewrite list_lookup_insert_ne by done. intros Ho. destruct (H4 j' o Ho) as [|(i & j2 & -> & He2 & Hr)]; [by left|right].
      destruct (decide (i = c)) as [->|]; [exists c, j; split_and!; [done|done|by apply list_lookup_insert_eq; lia]|].
      exists i, j2. split_and!; [done|done|]. by rewrite list_lookup_insert_ne.
  - intros i v. destruct (decide (i = c)) as [->|].
    + rewrite list_lookup_insert_eq by lia. intros [= <-]. eauto.
    + rewrite list_lookup_insert_ne by done. apply H5.
  - intros i j'. destruct (decide (i = c)) as [->|].
    + rewrite list_lookup_insert_eq by lia. intros [= Heq]. assert (j' = j) as -> by lia. by rewrite list_lookup_insert_eq by lia.
    + rewrite list_lookup_insert_ne by done. intros Hi. destruct (decide (j' = j)) as [->|]; [by destruct (Hfree i)|].
      rewrite list_lookup_insert_ne by done. by apply H6.
Qed.

(** ** The search *)

Definition searches (fuel : nat) (d : nat -> match_state -> or_fault (bool * match_state)) : Prop :=
  forall i s, ok s -> unvisited (m_visited s) < fuel -> i < n ->
    exists js r s', graph !! i = Some js /\ d i s = inr (r, s') /\ searched i js s r s'.

Lemma searched_skip c j js s r s' : vis s (Z.to_nat j) -> searched c js s r s' -> searched c (j :: js) s r s'.
Proof using All.
  intros Hv [H1 H2 H3 H4 H5]. constructor; try done. destruct r; [done|]. destruct H5 as [H5 H6 H7 H8].
  constructor; try done. intros j' [->|Hj']%elem_of_cons; auto.
Qed.
(** the owner of [j] has found nothing *)
Lemma searched_continue c j js s i js' s1 r s' : ok s -> Z.to_nat j < n -> ~ vis s (Z.to_nat j) ->
  m_right s !! Z.to_nat j = Some (Z.of_nat i) -> graph !! i = Some js' ->
  searched i js' (visit (Z.to_nat j) s) false s1 -> searched c js s1 r s' -> searched c (j :: js) s r s'.
Proof using All.
  intros Hok Hj Hv Hown Hjs [A1 A2 A3 A4 [A5 A6 A7 A8]] [B1 B2 B3 B4 B5]. cbn [visit m_right m_ret] in A5, A6, A8.
  pose proof (visit_less s _ Hok Hj Hv) as Hless.
  assert (Hmore : forall j', vis s j' -> vis s1 j') by (intros; apply A3, vis_visit; auto).
  constructor; [done|lia|auto| |].
  - intros j' Hj'. rewrite (B4 j' (Hmore _ Hj')). by rewrite A5.
  - destruct r.
    + destruct B5 as [C1 C2 C3 C4 C5]. constructor.
      * by rewrite <- A5.
      * destruct C2 as (j2 & ? & ?). exists j2. auto.
      * intros i' Hi'. rewrite <- A6. by apply C3.
      * intros W HW. apply C4. by rewrite A5.
      * intros W j' HW Hj'. rewrite (C5 W j'); [by rewrite A5|by rewrite A5|done].
    + destruct B5 as [C1 C2 C3 C4]. constructor; [congruence|congruence| |].
      * intros j' [->|Hj']%elem_of_cons; [|auto]. apply B3, A3, vis_visit; auto.
      * intros j' Hj'. destruct (C4 j' Hj') as [Hj1|(i' & ? & ?)]; [|right; exists i'; rewrite <- A5; auto].
        destruct (A8 j' Hj1) as [[->|]%vis_visit|(i' & ? & Hi')]; [|by left|done|done|right; exists i'; split; [done|]; intros j2 Hj2; apply B3, Hi'; done].
        right. exists i. split; [done|]. intros j2 (js2 & Hjs2 & Hin). simplify_eq. apply B3.
        rewrite <- (Nat2Z.id j2). by apply A7.
Qed.
(** [j] is taken *)
Lemma searched_take c j js s s2 : ok s -> Z.to_nat j < n -> ~ vis s (Z.to_nat j) -> c < n ->
  edge graph c (Z.to_nat j) -> is_Some (m_right s !! Z.to_nat j) ->
  ok s2 -> unvisited (m_visited s2) <= unvisited (m_visited (visit (Z.to_nat j) s)) ->
  (forall j', vis (visit (Z.to_nat j) s) j' -> vis s2 j') ->
  (forall j', vis (visit (Z.to_nat j) s) j' -> m_right s2 !! j' = m_right s !! j') ->
  freed (Z.to_nat j) (visit (Z.to_nat j) s) s2 ->
  searched c (j :: js) s true (assign c (Z.to_nat j) s2).
Proof using All.
  intros Hok Hj Hv Hc He [o Ho] Hok2 Hless Hmore Hsame [F1 F2 F3 F4 F5]. set (j0 := Z.to_nat j) in *.
  cbn [visit m_right m_ret] in F1, F3, F4, F5.
  pose proof (visit_less s _ Hok Hj Hv) as Hlt. pose proof (Hm _ _ He) as Hjm.
  assert (Hj2 : m_right s2 !! j0 = Some o) by (rewrite Hsame; [done|apply vis_visit; auto]).
  constructor; cbn [assign m_visited m_right m_ret].
  - by apply ok_assign.
  - lia.
  - intros j' Hj'. apply Hmore, vis_visit; auto.
  - intros j' Hj'. rewrite list_lookup_insert_ne by (intros ->; done). apply Hsame, vis_visit; auto.
  - constructor; cbn [assign m_visited m_right m_ret].
    + apply (Permutation_cons_inv (a := o)).
      trans ((-1)%Z :: Z.of_nat c :: m_right s2); [rewrite Permutation_swap; constructor; by apply insert_permutation|].
      trans (Z.of_nat c :: o :: m_right s); [rewrite Permutation_swap; constructor; by apply F1|apply Permutation_swap].
    + exists j0. split; [apply list_lookup_insert_eq; rewrite (ok_ret _ Hok2); done|done].
    + intros i Hi. rewrite list_lookup_insert_ne by done. apply F3.
    + intros W HW. exists j0. split; [done|by apply F4].
    + intros W j' HW Hj'. rewrite list_lookup_insert_ne by (intros <-; by destruct (F4 W HW)). by apply F5 with W.
Qed.

Lemma owner_edge s j o : ok s -> m_right s !! j = Some o -> o = (-1)%Z \/ exists i, o = Z.of_nat i /\ i < n /\ Z.to_nat (u32 o) = i.
Proof using All.
  intros Hok Ho. destruct (ok_owner _ Hok _ _ Ho) as [|(i & j' & -> & _ & Hi)]; [by left|]. right. exists i.
  apply lookup_lt_Some in Hi. rewrite (ok_ret _ Hok) in Hi. split_and!; [done|done|].
  unfold u32. rewrite Z.mod_small by lia. lia.
Qed.
Lemma try_edges_spec fuel d c js s : searches fuel d -> c < n -> Forall (fun j => edge graph c (Z.to_nat j)) js ->
  ok s -> unvisited (m_visited s) <= fuel -> exists r s', try_edges d c js s = inr (r, s') /\ searched c js s r s'.
Proof using All.
  intros Hd Hc Hjs. revert s. induction Hjs as [|j js He Hjs IH]; intros s Hok Hfuel; cbn [try_edges].
  { exists false, s. split; [done|]. constructor; auto. constructor; auto. intros j Hj. by apply not_elem_of_nil in Hj. }
  pose proof (Hm _ _ He) as Hjm. set (j0 := Z.to_nat j) in *. assert (Hj : j0 < n) by lia.
  destruct (lookup_lt_is_Some_2 (m_visited s) j0) as [seen Hseen]; [by rewrite (ok_visited _ Hok)|].
  rewrite (aread_eq _ _ _ Hseen). cbn [fbind]. destruct seen.
  { destruct (IH s Hok Hfuel) as (r & s' & -> & Hs'). exists r, s'. split; [done|]. by apply searched_skip. }
  assert (Hv : ~ vis s j0) by (unfold vis; by rewrite Hseen).
  rewrite awrite_eq by (rewrite (ok_visited _ Hok); done). cbn [fbind].
  change (MatchState (<[j0 := true]> (m_visited s)) (m_right s) (m_ret s)) with (visit j0 s).
  pose proof (ok_visit s j0 Hok) as Hok1. pose proof (visit_less s j0 Hok Hj Hv) as Hless.
  destruct (lookup_lt_is_Some_2 (m_right (visit j0 s)) j0) as [o Ho]; [by rewrite (ok_right _ Hok1)|].
  rewrite (aread_eq _ _ _ Ho). cbn [fbind].
  assert (Htake : forall s2, ok s2 -> unvisited (m_visited s2) <= unvisited (m_visited (visit j0 s)) ->
    (forall j', vis (visit j0 s) j' -> vis s2 j') -> (forall j', vis (visit j0 s) j' -> m_right s2 !! j' = m_right s !! j') ->
    freed j0 (visit j0 s) s2 ->
    exists r s', fbind (awrite (m_ret s2) c (Z.of_nat j0)) (fun ret => fbind (awrite (m_right s2) j0 (Z.of_nat c)) (fun right =>
      inr (true, MatchState (m_visited s2) right ret))) = inr (r, s') /\ searched c (j :: js) s r s').
  { intros s2 Hok2 Hl2 Hmore2 Hsame2 Hfreed. exists true, (assign c j0 s2).
    rewrite !awrite_eq by (rewrite ?(ok_ret _ Hok2), ?(ok_right _ Hok2); lia). cbn [fbind].
    split; [done|]. apply searched_take; try done; eauto. }
  destruct (owner_edge _ _ _ Hok1 Ho) as [->|(i & -> & Hi & Hu)].
  { rewrite Z.eqb_refl. cbn [fbind]. apply Htake; auto. by apply freed_free. }
  rewrite (proj2 (Z.eqb_neq _ _)) by lia. rewrite Hu.
  destruct (Hd i (visit j0 s) Hok1) as (js' & r & s1 & Hjs' & -> & Hs1); [lia|done|]. cbn [fbind]. destruct r.
  { destruct Hs1 as [S1 S2 S3 S4 S5]. apply Htake; auto. apply freed_found with i js'; auto; [apply vis_visit; auto|by constructor]. }
  destruct (IH s1) as (r & s' & -> & Hs'); [apply Hs1|pose proof (searched_less _ _ _ _ _ Hs1); lia|].
  exists r, s'. split; [done|]. by apply searched_continue with i js' s1.
Qed.
Lemma dfs_spec fuel : searches fuel (dfs fuel graph).
Proof using All.
  induction fuel as [|fuel IH]; intros c s Hok Hfuel Hc; [lia|]. cbn [dfs].
  destruct (lookup_lt_is_Some_2 graph c Hc) as [js Hjs]. rewrite (aread_eq _ _ _ Hjs). cbn [fbind].
  destruct (try_edges_spec fuel (dfs fuel graph) c js s IH Hc) as (r & s' & -> & Hs'); [|done|lia|by exists js, r, s'].
  apply Forall_forall. intros j Hj. exists js. split; [done|]. by rewrite Z2Nat.id by eauto.
Qed.

(** ** All nodes *)

(** before the search from node [k]: the nodes on the left without a match lead to [W] only *)
Record matched_until (k : nat) (right ret : list Z) (W : gset nat) : Prop := {
  until_ok : ok (MatchState (replicate n false) right ret);
  until_owners : NoDup (filter (fun o => o <> (-1)%Z) right);
  until_later i : k <= i < n -> ret !! i = Some (-1)%Z;
  until_closed : closed right (fun j => j ∈ W);
  until_unmatched i j : i < k -> ret !! i = Some (-1)%Z -> edge graph i j -> j ∈ W
}.

Lemma not_visited right ret j : ~ vis (MatchState (replicate n false) right ret) j.
Proof using All. unfold vis. cbn. intros Hj. by apply lookup_replicate in Hj as []. Qed.
Lemma ok_restart s : ok s -> ok (MatchState (replicate n false) (m_right s) (m_ret s)).
Proof using All. intros [H1 H2 H3 H4 H5 H6]. constructor; cbn; rewrite ?length_replicate; try done. Qed.

Lemma matched_step k right ret W js r s' : k < n -> matched_until k right ret W -> graph !! k = Some js ->
  searched k js (MatchState (replicate n false) right ret) r s' -> exists W', matched_until (S k) (m_right s') (m_ret s') W'.
Proof using All.
  intros Hk [H1 H2 H3 H4 H5] Hjs [S1 S2 S3 S4 S5]. destruct r.
  - destruct S5 as [F1 (j2 & F2 & _) F3 F4 F5]. cbn [m_right m_ret] in *. exists W. constructor.
    + by apply ok_restart.
    + apply (filter_Permutation (fun o => o <> (-1)%Z)) in F1. rewrite !filter_cons in F1.
      rewrite decide_False in F1 by tauto. rewrite decide_True in F1 by lia. rewrite F1. constructor; [|done].
      intros [_ Hin]%list_elem_of_filter. apply list_elem_of_lookup in Hin as [j Hj].
      destruct (ok_owner _ H1 _ _ Hj) as [|(i & j' & ->%Nat2Z.inj & _ & Hr)]; [lia|]. cbn in Hr. rewrite H3 in Hr by lia. simplify_eq; lia.
    + intros i Hi. apply F3; [lia|]. apply H3. lia.
    + intros j Hj. destruct (H4 j Hj) as (i & Hi & He). exists i. split; [|done]. by rewrite (F5 _ j H4 Hj).
    + intros i j Hi Hr He. destruct (decide (i = k)) as [->|Hne]; [rewrite F2 in Hr; simplify_eq; lia|].
      apply (H5 i j); [lia|by apply F3|done].
  - destruct S5 as [F1 F2 F3 F4]. cbn [m_right m_ret] in *. rewrite F1, F2.
    set (V := filter (fun j => m_visited s' !! j = Some true) (set_seq 0 n : gset nat)).
    assert (HV : forall j, j ∈ V <-> vis s' j).
    { intros j. unfold V. rewrite elem_of_filter, elem_of_set_seq. split; [tauto|]. intros Hj. split; [done|].
      apply lookup_lt_Some in Hj. rewrite (ok_visited _ S1) in Hj. lia. }
    exists (W ∪ V). constructor.
    + rewrite <- F1, <- F2. by apply ok_restart.
    + done.
    + intros i Hi. apply H3. lia.
    + intros j [Hj|Hj%HV]%elem_of_union.
      * destruct (H4 j Hj) as (i & Hi & He). exists i. split; [done|]. set_solver.
      * destruct (F4 j Hj) as [Hv|(i & Hi & He)]; [by apply not_visited in Hv|]. exists i. split; [done|].
        intros j' He'. apply elem_of_union_r, HV, He, He'.
    + intros i j Hi Hr He. destruct (decide (i = k)) as [->|Hne].
      * apply elem_of_union_r, HV. destruct He as (js2 & Hjs2 & Hin). simplify_eq. rewrite <- (Nat2Z.id j). by apply F3.
      * apply elem_of_union_l, (H5 i j); [lia|done|done].
Qed.

Lemma match_nodes_spec len k right ret W : k + len = n -> matched_until k right ret W ->
  exists ret' right' W', match_nodes graph (seq k len) right ret = inr ret' /\ matched_until n right' ret' W'.
Proof using All.
  revert k right ret W. induction len as [|len IH]; intros k right ret W Hk HW; cbn [seq match_nodes].
  { exists ret, right, W. split; [done|]. by replace n with k by lia. }
  destruct (dfs_spec (S n) k (MatchState (replicate n false) right ret)) as (js & r & s' & Hjs & Hr & Hs');
    [apply HW| |lia|].
  { cbn. unfold unvisited. pose proof (length_filter (fun b => b = false) (replicate n false)) as Hl. rewrite length_replicate in Hl. lia. }
  fold n. rewrite Hr. cbn [fbind]. destruct (matched_step k right ret W js r s') as (W' & HW'); [lia|done|done|done|].
  apply (IH (S k) _ _ W'); [lia|done].
Qed.
End search.

(** ** The result *)

Lemma elem_of_matched r i j : (i, j) ∈ matched r <-> r !! i = Some (Z.of_nat j).
Proof.
  unfold matched. rewrite list_elem_of_omap. setoid_rewrite elem_of_seq. split.
  - intros (i' & _ & H). destruct (r !! i') as [v|] eqn:Hv; [|done]. simpl in H.
    destruct (Z.ltb_spec v 0); [done|]. simplify_eq. rewrite Hv. f_equal. lia.
  - intros Hi. exists i. split; [apply lookup_lt_Some in Hi; lia|]. rewrite Hi. simpl.
    rewrite (proj2 (Z.ltb_ge _ _)) by lia. by rewrite Nat2Z.id.
Qed.
Lemma matched_left r : NoDup (matched r).*1.
Proof.
  unfold matched. pose proof (NoDup_seq 0 (length r)) as Hnd. revert Hnd. generalize (seq 0 (length r)). intros l.
  set (f := fun i => j ← r !! i; if (j <? 0)%Z then None else Some (i, Z.to_nat j)).
  assert (Hf : forall i p, f i = Some p -> p.1 = i).
  { intros i p. unfold f. destruct (r !! i); simpl; [|done]. by case_match; intros [= <-]. }
  induction l as [|i l IH]; intros Hnd; [constructor|]. apply NoDup_cons in Hnd as [Hi Hnd]. simpl.
  destruct (f i) as [p|] eqn:Hp; [|auto]. simpl. constructor; [|auto]. rewrite (Hf _ _ Hp).
  intros (q & -> & (i' & Hi' & Hq)%list_elem_of_omap)%list_elem_of_fmap. by rewrite (Hf _ _ Hq) in Hi.
Qed.

(** disjoint pairs are no more than the nodes on either side of them *)
Lemma length_bound {A} `{Countable A} (l : list (nat * nat)) (f : nat * nat -> A) (X : gset A) :
  NoDup (f <$> l) -> (forall p, p ∈ l -> f p ∈ X) -> length l <= size X.
Proof.
  intros Hnd Hin. rewrite <- (length_fmap f), <- (size_list_to_set (C := gset A)) by done. apply subseteq_size.
  intros x. rewrite elem_of_list_to_set, list_elem_of_fmap. intros (p & -> & Hp). auto.
Qed.

(** nodes that only lead to [W], and are more than [W] by the unmatched ones, leave no room
    for a larger matching *)
Lemma matching_bound graph l (U R W : gset nat) :
  matching graph l -> U ## R -> size R = size W -> U ∪ R ⊆ set_seq 0 (length graph) ->
  (forall i j, i ∈ U ∪ R -> edge graph i j -> j ∈ W) -> length l + size U <= length graph.
Proof.
  intros [He H1 H2] Hdisj Hsize Hsub Hlead. rewrite Forall_forall in He.
  set (P := fun p : nat * nat => p.1 ∈ U ∪ R).
  assert (Hin : length (filter P l) <= size W).
  { apply (length_bound _ snd); [eapply sublist_NoDup; [done|]; apply fmap_sublist, sublist_filter|].
    intros [i j] [Hp Hl]%list_elem_of_filter. apply (Hlead i j); [done|by apply (He (i, j))]. }
  assert (Hout : length (filter (fun p => ~ P p) l) <= size (set_seq 0 (length graph) ∖ (U ∪ R) : gset nat)).
  { apply (length_bound _ fst); [eapply sublist_NoDup; [exact H1|]; apply fmap_sublist, sublist_filter|].
    intros [i j] [Hp Hl]%list_elem_of_filter. apply elem_of_difference. split; [|done].
    destruct (He (i, j) Hl) as (js & Hjs & _). apply lookup_lt_Some in Hjs. apply elem_of_set_seq. simpl in *. lia. }
  rewrite size_difference, size_set_seq, size_union in Hout by done.
  apply subseteq_size in Hsub. rewrite size_set_seq, size_union in Hsub by done.
  pose proof (Permutation_length (filter_app_complement P l)) as Hl. rewrite length_app in Hl. lia.
Qed.

Lemma in_range_edge graph : edges_in_range graph -> forall i js j, graph !! i = Some js -> j ∈ js -> (0 <= j < Z.of_nat (length graph))%Z.
Proof. unfold edges_in_range. rewrite Forall_lookup. intros Hr i js j Hjs Hj. specialize (Hr i js Hjs). rewrite Forall_forall in Hr. auto. Qed.

Lemma NoDup_filter_lookup {A} (P : A -> Prop) `{forall x, Decision (P x)} (l : list A) i j x :
  NoDup (filter P l) -> P x -> l !! i = Some x -> l !! j = Some x -> i = j.
Proof.
  intros Hnd Hx. revert i j. induction l as [|y l IH]; intros i j Hi Hj; [done|]. rewrite filter_cons in Hnd.
  assert (Hin : forall k, l !! k = Some x -> x ∈ filter P l).
  { intros k Hk. apply list_elem_of_filter. split; [done|]. by apply list_elem_of_lookup_2 with k. }
  destruct i as [|i], j as [|j]; simplify_eq/=; try done.
  - rewrite decide_True in Hnd by done. apply NoDup_cons in Hnd as [Hn _]. by destruct (Hn (Hin _ Hj)).
  - rewrite decide_True in Hnd by done. apply NoDup_cons in Hnd as [Hn _]. by destruct (Hn (Hin _ Hi)).
  - f_equal. apply IH; [|done|done]. case_decide; [by apply NoDup_cons in Hnd as [_ ?]|done].
Qed.

(** the start of the loop, and what it ends with *)
Lemma matched_until_start graph m : m <= length graph -> matched_until graph m 0 (replicate m (-1)%Z) (replicate (length graph) (-1)%Z) ∅.
Proof.
  intros Hm. constructor; cbn.
  - constructor; cbn; rewrite ?length_replicate; try done.
    + intros j o Ho. apply lookup_replicate in Ho as [-> _]. by left.
    + intros i v Hv. apply lookup_replicate in Hv as [-> _]. by left.
    + intros i j Hi. apply lookup_replicate in Hi as [Hi _]. lia.
  - clear. induction m as [|m IH]; [constructor|]. simpl. rewrite filter_cons, decide_False by tauto. done.
  - intros i Hi. apply lookup_replicate_2. lia.
  - intros j Hj. by apply not_elem_of_empty in Hj.
  - lia.
Qed.
Lemma matched_until_end graph m right ret W : matched_until graph m (length graph) right ret W ->
  length ret = length graph /\ matching graph (matched ret) /\
  forall l, matching graph l -> length l <= length (matched ret).
Proof.
  intros [Hok Hnd _ Hc Hun]. pose proof (ok_ret _ _ _ Hok) as Hlen. cbn in Hlen.
  assert (Hval : forall i j, ret !! i = Some (Z.of_nat j) -> right !! j = Some (Z.of_nat i)) by apply Hok.
  split; [done|]. split.
  { constructor; [|apply matched_left|].
    - apply Forall_forall. intros [i j] Hr%elem_of_matched%Hval. cbn.
      destruct (ok_owner _ _ _ Hok _ _ Hr) as [|(i' & j' & ->%Nat2Z.inj & He & _)]; [lia|done].
    - apply NoDup_fmap_2_strong; [|eapply NoDup_fmap_1, matched_left].
      intros [i j] [i' j'] Hr%elem_of_matched%Hval Hr'%elem_of_matched%Hval. cbn. intros <-. f_equal. apply Nat2Z.inj. congruence. }
  intros l Hl. set (Mt := list_to_set (matched ret).*1 : gset nat).
  assert (HMt : forall i, i ∈ Mt <-> exists j, ret !! i = Some (Z.of_nat j)).
  { intros i. unfold Mt. rewrite elem_of_list_to_set, list_elem_of_fmap. setoid_rewrite <- elem_of_matched. split.
    - intros ([i' j] & -> & Hp). by exists j.
    - intros [j Hp]. by exists (i, j). }
  assert (HMsub : Mt ⊆ set_seq 0 (length graph)).
  { intros i [j Hj]%HMt. apply lookup_lt_Some in Hj. apply elem_of_set_seq. lia. }
  assert (Hun' : forall i, i ∈ (set_seq 0 (length graph) : gset nat) ∖ Mt -> i < length graph /\ ret !! i = Some (-1)%Z).
  { intros i [Hi%elem_of_set_seq Hn]%elem_of_difference. split; [lia|]. destruct (lookup_lt_is_Some_2 ret i) as [v Hv]; [lia|].
    destruct (ok_values _ _ _ Hok _ _ Hv) as [->|[j ->]]; [done|]. destruct Hn. apply HMt. by exists j. }
  set (owner := fun j => Z.to_nat (default (-1)%Z (right !! j))).
  assert (Hown : forall j, j ∈ W -> right !! j = Some (Z.of_nat (owner j)) /\ owner j ∈ Mt /\ forall j', edge graph (owner j) j' -> j' ∈ W).
  { intros j Hj. destruct (Hc j Hj) as (i & Hi & He). unfold owner. rewrite Hi. cbn. rewrite Nat2Z.id. split_and!; [done| |done].
    apply HMt. destruct (ok_owner _ _ _ Hok _ _ Hi) as [|(i' & j' & ->%Nat2Z.inj & _ & Hr)]; [lia|by exists j']. }
  assert (Hbound : length l + size ((set_seq 0 (length graph) : gset nat) ∖ Mt) <= length graph).
  { apply (matching_bound graph l _ (list_to_set (owner <$> elements W)) W Hl).
    - intros i [_ Hi]%elem_of_difference (j & -> & Hj%elem_of_elements)%elem_of_list_to_set%list_elem_of_fmap. by apply Hi, Hown.
    - rewrite size_list_to_set, length_fmap; [done|]. apply NoDup_fmap_2_strong; [|apply NoDup_elements].
      intros j j' [Hj _]%elem_of_elements%Hown [Hj' _]%elem_of_elements%Hown Heq. rewrite <- Heq in Hj'.
      apply (NoDup_filter_lookup _ _ _ _ (Z.of_nat (owner j)) Hnd); [lia|done|done].
    - intros i [[Hi _]%elem_of_difference|(j & -> & Hj%elem_of_elements)%elem_of_list_to_set%list_elem_of_fmap]%elem_of_union; [done|].
      by apply HMsub, Hown.
    - intros i j [Hi|(j0 & -> & Hj0%elem_of_elements)%elem_of_list_to_set%list_elem_of_fmap]%elem_of_union He; [|by apply (Hown j0)].
      destruct (Hun' i Hi) as [Hlt Hr]. by apply (Hun i j). }
  rewrite size_difference, size_set_seq in Hbound by done. apply subseteq_size in HMsub. rewrite size_set_seq in HMsub.
  unfold Mt in *. rewrite size_list_to_set, length_fmap in * by apply matched_left. lia.
Qed.

(** For every graph in which no node on the right has a number that is not one of a node on
    the left, [bipartite_match] ends, without an access outside of its vectors, with a
    matching that no other matching is larger than: one entry for each node on the left,
    either -1 or a node on the right that it has an edge to and no other node is matched
    with. *)
Lemma bipartite_match_spec graph : edges_in_range graph -> (Z.of_nat (length graph) < 2 ^ 32)%Z ->
  exists r, bipartite_match graph = cret r /\ length r = length graph /\ matching graph (matched r) /\
    (forall l, matching graph l -> length l <= length (matched r)).
Proof.
  intros Hr Hn. unfold bipartite_match, counted. rewrite (proj2 (Z.ltb_lt _ _)) by done. cbn [fcheck fbind].
  destruct (grow_right_spec (length graph) (concat graph) 0) as (m & Hg & Hm & Hall); [|lia|done|].
  { apply Forall_forall. intros j (js & Hjs & Hj)%list_elem_of_In%in_concat. apply list_elem_of_In, list_elem_of_lookup in Hjs as [i Hi].
    apply (in_range_edge graph Hr i js j Hi). by apply list_elem_of_In. }
  change (replicate 0 (-1)%Z) with (@nil Z) in Hg. rewrite Hg. cbn [cbind fbind cret].
  assert (Hedge : forall i j, edge graph i j -> j < m).
  { intros i j (js & Hjs & Hj). rewrite Forall_forall in Hall. apply Nat2Z.inj_lt, Hall, list_elem_of_In, in_concat.
    exists js. split; apply list_elem_of_In; [by apply list_elem_of_lookup_2 with i|done]. }
  assert (Hpos : forall i js j, graph !! i = Some js -> j ∈ js -> (0 <= j)%Z) by (intros; by eapply in_range_edge).
  destruct (match_nodes_spec graph m Hn ltac:(lia) Hedge Hpos (length graph) 0 (replicate m (-1)%Z)
              (replicate (length graph) (-1)%Z) ∅) as (ret & right & W & -> & HW); [lia|apply matched_until_start; lia|].
  exists ret. split; [done|]. by apply (matched_until_end graph m right ret W).
Qed.
