(* ===== verification/Constraints.v ===== *)
(** * [difference_constraints] decides systems of difference constraints

    The values are weights of walks in the graph of the constraints. The queue is taken apart
    into passes; after as many passes as there are variables, less one, no walk is lighter,
    unless there is no solution. *)

From S2P Require Export Misc.

(** [x_j - x_i <= k] is one of the constraints *)
Definition constr (cl : list (list Z)) (i j : nat) (k : Z) : Prop :=
  exists l, cl !! i = Some l /\ (Z.of_nat j, k) ∈ constraint_pairs l.
Definition solves (cl : list (list Z)) (x : nat -> Z) : Prop := forall i j k, constr cl i j k -> (x j - x i <= k)%Z.
Definition value (r : list Z) (i : nat) : Z := default 0%Z (r !! i).
(** pairs of a variable and a number *)
Definition well_formed (cl : list (list Z)) : Prop :=
  Forall (fun l => Nat.odd (length l) = false /\ Forall (fun p => 0 <= p.1 < Z.of_nat (length cl))%Z (constraint_pairs l)) cl.
Definition total (cl : list (list Z)) : nat := sum_list_with (length ∘ constraint_pairs) cl.
(** the counters do not wrap around, and the sums do not overflow *)
Record small (B : Z) (cl : list (list Z)) : Prop := {
  small_variables : (Z.of_nat (length cl) < 2 ^ 32)%Z;
  small_lists : Forall (fun l => Z.of_nat (length l) < 2 ^ 32)%Z cl;
  small_edges : (Z.of_nat (total cl) < 2 ^ 32)%Z;
  small_steps : (Z.of_nat (length cl - 1) * Z.of_nat (total cl) < 2 ^ 32)%Z;
  small_numbers i j k : constr cl i j k -> (- B <= k <= B)%Z;
  small_sums : ((Z.of_nat (length cl - 1) * Z.of_nat (total cl) + 1) * B < 2 ^ 63)%Z
}.

(** ** Numbers *)

Lemma add_int64_eq a b : (- 2 ^ 63 <= a + b < 2 ^ 63)%Z -> add_int64 a b = inr (a + b)%Z.
Proof.
  intros H. unfold add_int64. by rewrite (proj2 (andb_true_iff _ _)) by (split; [apply Z.leb_le|apply Z.ltb_lt]; lia).
Qed.
Lemma aread_value r j : j < length r -> aread r j = inr (value r j).
Proof. intros Hj. unfold value. destruct (lookup_lt_is_Some_2 r j Hj) as [v Hv]. rewrite Hv. by apply aread_eq. Qed.

Lemma value_insert r i v j : i < length r -> value (<[i := v]> r) j = if decide (j = i) then v else value r j.
Proof.
  intros Hi. unfold value. case_decide as Hji; [subst j; by rewrite list_lookup_insert_eq|by rewrite list_lookup_insert_ne].
Qed.
(** ** Walks *)

Section constraints.
Context (cl : list (list Z)).
Let n := length cl.
Let m := total cl.

(** the variables of a walk, the last one first, and its weight *)
Inductive walk : list nat -> Z -> Prop :=
  | walk_start i : i < n -> walk [i] 0
  | walk_step i j k l w : walk (i :: l) w -> constr cl i j k -> walk (j :: i :: l) (w + k).

Lemma walk_telescope x l2 : solves cl x -> forall u v l3 w, walk (l2 ++ v :: l3) w -> head (l2 ++ [v]) = Some u ->
  exists w3, walk (v :: l3) w3 /\ (x u - x v <= w - w3)%Z.
Proof.
  intros Hx. induction l2 as [|a l2 IH]; intros u v l3 w Hw Hu; simplify_eq/=; [exists w; split; [done|lia]|].
  inversion Hw as [|i j k l w' Hw' Hc]; subst; [by destruct l2|].
  destruct (IH i v l3 w') as (w3 & Hw3 & Hle).
  - by replace (l2 ++ v :: l3) with (i :: l).
  - destruct l2; by simplify_eq/=.
  - exists w3. split; [done|]. specialize (Hx _ _ _ Hc). lia.
Qed.
Lemma walk_cut x l1 : solves cl x -> forall v l2 l3 w, walk (l1 ++ v :: l2 ++ v :: l3) w ->
  exists w', walk (l1 ++ v :: l3) w' /\ (w' <= w)%Z.
Proof.
  intros Hx. induction l1 as [|a l1 IH]; intros v l2 l3 w Hw; simpl in *.
  - destruct (walk_telescope x (v :: l2) Hx v v l3 w Hw) as (w3 & ? & ?); [done|]. exists w3. split; [done|lia].
  - inversion Hw as [|i j k l w' Hw' Hc Heq]; subst; [by destruct l1|].
    destruct (IH v l2 l3 w') as (w1 & Hw1 & Hle); [by replace (l1 ++ v :: l2 ++ v :: l3) with (i :: l)|].
    exists (w1 + k)%Z. split; [|lia]. destruct l1 as [|b l1]; simplify_eq/=; by constructor.
Qed.
Lemma not_NoDup_split (l : list nat) : ~ NoDup l -> exists l1 v l2 l3, l = l1 ++ v :: l2 ++ v :: l3.
Proof.
  induction l as [|a l IH]; intros Hn; [by destruct Hn; constructor|].
  destruct (decide (a ∈ l)) as [(l2 & l3 & ->)%list_elem_of_split|Ha]; [by exists [], a, l2, l3|].
  destruct IH as (l1 & v & l2 & l3 & ->); [|by exists (a :: l1), v, l2, l3]. intros Hnd. apply Hn. by constructor.
Qed.
Lemma walk_shorten x j l w : solves cl x -> walk (j :: l) w -> exists l' w', walk (j :: l') w' /\ (w' <= w)%Z /\ NoDup (j :: l').
Proof.
  intros Hx. revert w. induction (well_founded_ltof _ (@length nat) l) as [l _ IH]. intros w Hw.
  destruct (decide (NoDup (j :: l))) as [|Hn]; [by exists l, w|].
  apply not_NoDup_split in Hn as (l1 & v & l2 & l3 & Heq). rewrite Heq in Hw.
  destruct (walk_cut x l1 Hx v l2 l3 w Hw) as (w1 & Hw1 & Hle).
  assert (Hl : exists l', l1 ++ v :: l3 = j :: l' /\ length l' < length l).
  { apply (f_equal (@length nat)) in Heq as Hlen. rewrite ?length_app in Hlen. cbn in Hlen. rewrite ?length_app in Hlen. cbn in Hlen.
    destruct l1 as [|a l1]; simplify_eq/=; eexists; split; try done; rewrite ?length_app in *; cbn in *; lia. }
  destruct Hl as (l' & Hl' & Hlt). rewrite Hl' in Hw1. destruct (IH l' Hlt w1 Hw1) as (l4 & w4 & ? & ? & ?).
  exists l4, w4. split_and!; [done|lia|done].
Qed.

Context (Hwf : well_formed cl).
Lemma constr_range i j k : constr cl i j k -> i < n /\ j < n.
Proof using Hwf.
  intros (l & Hl & Hp). split; [by apply lookup_lt_Some in Hl|]. unfold well_formed in Hwf. rewrite Forall_lookup in Hwf.
  destruct (Hwf i l Hl) as [_ Hf]. rewrite Forall_forall in Hf. specialize (Hf _ Hp). cbn in Hf. lia.
Qed.
Lemma walk_range l w : walk l w -> Forall (fun i => i < n) l.
Proof using Hwf.
  induction 1 as [i Hi|i j k l w Hw IH Hc]; [by constructor|]. constructor; [by apply (constr_range i j k)|done].
Qed.
Lemma walk_short x j l w : solves cl x -> walk (j :: l) w -> exists l' w', walk (j :: l') w' /\ (w' <= w)%Z /\ length l' <= n - 1.
Proof using Hwf.
  intros Hx Hw. destruct (walk_shorten x j l w Hx Hw) as (l' & w' & Hw' & Hle & Hnd). exists l', w'. split_and!; [done|done|].
  assert (length (j :: l') <= length (seq 0 n)) as Hlen; [|rewrite length_seq in Hlen; cbn in Hlen; lia].
  apply submseteq_length, NoDup_submseteq; [done|]. intros i Hi. apply elem_of_seq.
  pose proof (walk_range _ _ Hw') as Hf. rewrite Forall_forall in Hf. specialize (Hf i Hi). lia.
Qed.

(** ** The invariant *)

Definition deg (i : nat) : nat := length (constraint_pairs (default [] (cl !! i))).
Definition degs (q : list nat) : nat := sum_list_with deg q.
Lemma degs_all : degs (seq 0 n) = m.
Proof.
  unfold degs, deg, m, n, total. clear. induction cl as [|l cl' IH] using rev_ind; [done|].
  rewrite length_app, seq_app, !sum_list_with_app, <- IH. cbn. rewrite list_lookup_middle by lia. cbn. f_equal.
  assert (Hq : Forall (fun i => i < length cl') (seq 0 (length cl'))) by (apply Forall_seq; lia). clear IH. revert Hq.
  induction 1 as [|i q Hi _ IH]; [done|]. cbn. rewrite IH. by rewrite lookup_app_l.
Qed.
Lemma degs_total q : NoDup q -> Forall (fun i => i < n) q -> degs q <= m.
Proof.
  intros Hnd Hq. rewrite <- degs_all. assert (q ⊆+ seq 0 n) as [q' Hp]%submseteq_Permutation.
  { apply NoDup_submseteq; [done|]. intros i Hi. rewrite Forall_forall in Hq. apply elem_of_seq. specialize (Hq i Hi). lia. }
  unfold degs. rewrite Hp, sum_list_with_app. lia.
Qed.

Context (B steps : Z) (Hsmall : small B cl) (Hsteps : steps = (Z.of_nat (n - 1) * Z.of_nat m)%Z).

(** variable [i] is being looked at, with the constraints [ps] to come; [q1] is the rest of
    the pass, [q2] the next one; [p] passes are over *)
Record relaxed (i : nat) (ps : list (Z * Z)) (p : nat) (q1 q2 : list nat) (s : relax_state) : Prop := {
  relaxed_ret : length (x_ret s) = n;
  relaxed_inqueue : length (x_inqueue s) = n;
  relaxed_queue : x_queue s = q1 ++ q2;
  relaxed_queued j : j ∈ q1 ++ q2 <-> x_inqueue s !! j = Some true;
  relaxed_once : NoDup (q1 ++ q2);
  relaxed_walk j : j < n -> exists l, walk (j :: l) (value (x_ret s) j);
  relaxed_bound j : j < n -> (- (steps - x_iter s) * B <= value (x_ret s) j <= 0)%Z;
  relaxed_edge i' j k : constr cl i' j k ->
    i' ∈ q1 ++ q2 \/ (value (x_ret s) j <= value (x_ret s) i' + k)%Z \/ i' = i /\ (Z.of_nat j, k) ∈ ps;
  relaxed_past j l w : walk (j :: l) w -> length l <= p -> (value (x_ret s) j <= w)%Z;
  relaxed_pass i' j k l w : constr cl i' j k -> walk (i' :: l) w -> length l <= p ->
    i' ∈ q1 \/ (value (x_ret s) j <= w + k)%Z \/ i' = i /\ (Z.of_nat j, k) ∈ ps;
  relaxed_iter : (0 <= x_iter s <= steps)%Z;
  relaxed_steps : ((Z.of_nat n - 1 - Z.of_nat p) * Z.of_nat m + Z.of_nat (degs q1) + Z.of_nat (length ps) <= x_iter s + Z.of_nat m)%Z
}.

(** a pass is over *)
Lemma next_pass i p q2 s : relaxed i [] p [] q2 s -> relaxed i [] (S p) q2 [] s.
Proof using All.
  intros [H1 H2 H3 H4 H5 H6 H7 H8 H9 H10 H11 H12]. simpl in *.
  assert (Hpast : forall j l w, walk (j :: l) w -> length l <= S p -> (value (x_ret s) j <= w)%Z).
  { intros j l w Hw Hl. destruct (decide (length l <= p)); [by apply (H9 j l w)|].
    inversion Hw as [|i' j' k l' w' Hw' Hc]; subst; [simpl in *; lia|]. simpl in Hl.
    destruct (H10 i' j k l' w' Hc Hw') as [Hin|[Hle|[_ Hin]]]; [lia|by apply not_elem_of_nil in Hin|done|by apply not_elem_of_nil in Hin]. }
  constructor; try done; rewrite ?app_nil_r; try done.
  - intros i' j k l w Hc Hw Hl. destruct (H8 i' j k Hc) as [Hin|[Hle|[_ Hin]]]; [by left| |by apply not_elem_of_nil in Hin].
    right; left. specialize (Hpast i' l w Hw Hl). lia.
  - assert (degs q2 <= m); [|simpl in *; lia]. apply degs_total; [done|]. apply Forall_forall. intros j Hj%H4.
    apply lookup_lt_Some in Hj. lia.
Qed.
(** the first variable of the queue *)
Lemma pop_relaxed i j p q1 q2 s : relaxed i [] p (j :: q1) q2 s ->
  exists s', pop_front j (q1 ++ q2) s = inr s' /\ x_iter s' = x_iter s /\
    relaxed j (constraint_pairs (default [] (cl !! j))) p q1 q2 s'.
Proof using All.
  intros [H1 H2 H3 H4 H5 H6 H7 H8 H9 H10 H11 H12]. simpl in *.
  assert (Hj : j < n) by (rewrite <- H2; eapply lookup_lt_Some, H4; left).
  unfold pop_front. rewrite awrite_eq by lia. cbn [fbind]. eexists. split; [done|]. split; [done|].
  apply NoDup_cons in H5 as [Hn5 H5].
  assert (Hin : forall i' j' k, constr cl i' j' k -> i' = j -> (Z.of_nat j', k) ∈ constraint_pairs (default [] (cl !! j))).
  { intros i' j' k (l & Hl & Hp) ->. by rewrite Hl. }
  constructor; cbn [x_ret x_inqueue x_queue x_iter]; try done.
  - by rewrite length_insert.
  - intros j'. destruct (decide (j' = j)) as [->|Hne].
    + rewrite list_lookup_insert_eq by lia. split; [done|intros [=]].
    + rewrite list_lookup_insert_ne by done. rewrite <- H4, elem_of_cons. tauto.
  - intros i' j' k Hc. destruct (H8 i' j' k Hc) as [[->|Hq]%elem_of_cons|[Hle|[_ Hq]]]; [right; right; eauto|by left|by right; left|by apply not_elem_of_nil in Hq].
  - intros i' j' k l w Hc Hw Hl. destruct (H10 i' j' k l w Hc Hw Hl) as [[->|Hq]%elem_of_cons|[Hle|[_ Hq]]];
      [right; right; eauto|by left|by right; left|by apply not_elem_of_nil in Hq].
  - unfold degs in *. simpl in H12. fold (deg j). lia.
Qed.

(** ** One constraint *)

(** the constraint is satisfied, or was made so *)
Lemma satisfied_relaxed i j k ps p q1 q2 s : constr cl i j k -> relaxed i ((Z.of_nat j, k) :: ps) p q1 q2 s -> (0 < x_iter s)%Z ->
  (value (x_ret s) j <= value (x_ret s) i + k)%Z ->
  relaxed i ps p q1 q2 (RelaxState (x_ret s) (x_inqueue s) (x_queue s) (x_iter s - 1)).
Proof using All.
  intros Hc [H1 H2 H3 H4 H5 H6 H7 H8 H9 H10 H11 H12] Hpos Hle. pose proof (small_numbers _ _ Hsmall _ _ _ Hc) as HB.
  constructor; cbn [x_ret x_inqueue x_queue x_iter]; try done.
  - intros j' Hj'. specialize (H7 j' Hj'). nia.
  - intros i' j' k' Hc'. destruct (H8 i' j' k' Hc') as [Hq|[Hs|[-> Hin]]]; [by left|by right; left|].
    apply elem_of_cons in Hin as [[= ->%Nat2Z.inj ->]|Hin]; [by right; left|by right; right].
  - intros i' j' k' l w Hc' Hw Hl. destruct (H10 i' j' k' l w Hc' Hw Hl) as [Hq|[Hs|[-> Hin]]]; [by left|by right; left|].
    apply elem_of_cons in Hin as [[= ->%Nat2Z.inj ->]|Hin]; [|by right; right].
    right; left. specialize (H9 i l w Hw Hl). lia.
  - lia.
  - simpl in *. lia.
Qed.
(** variable [j] gets a smaller value, and is in the queue afterwards *)
Lemma lowered_relaxed i j k ps p q1 q2 q2' inq s : constr cl i j k -> relaxed i ((Z.of_nat j, k) :: ps) p q1 q2 s -> (0 < x_iter s)%Z ->
  (value (x_ret s) i + k < value (x_ret s) j)%Z ->
  length inq = n -> (forall j', j' ∈ q1 ++ q2' <-> inq !! j' = Some true) -> NoDup (q1 ++ q2') ->
  (forall j', j' ∈ q1 ++ q2' <-> j' ∈ q1 ++ q2 \/ j' = j) ->
  relaxed i ps p q1 q2' (RelaxState (<[j := (value (x_ret s) i + k)%Z]> (x_ret s)) inq (q1 ++ q2') (x_iter s - 1)).
Proof using All.
  intros Hc [H1 H2 H3 H4 H5 H6 H7 H8 H9 H10 H11 H12] Hpos Hlt Hinq Hqueued Hnd Hq.
  pose proof (small_numbers _ _ Hsmall _ _ _ Hc) as HB. destruct (constr_range _ _ _ Hc) as [Hi Hj]. 
  assert (Hval : forall j', value (<[j := (value (x_ret s) i + k)%Z]> (x_ret s)) j' =
            if decide (j' = j) then (value (x_ret s) i + k)%Z else value (x_ret s) j') by (intros; apply value_insert; lia).
  assert (Hmono : forall j', (value (<[j := (value (x_ret s) i + k)%Z]> (x_ret s)) j' <= value (x_ret s) j')%Z).
  { intros j'. rewrite Hval. case_decide as Heq; [subst; lia|lia]. }
  constructor; cbn [x_ret x_inqueue x_queue x_iter]; try done.
  - by rewrite length_insert.
  - intros j' Hj'. rewrite Hval. case_decide as Heq; [|by apply H6]. subst j'. destruct (H6 i Hi) as [l Hl].
    exists (i :: l). by constructor.
  - intros j' Hj'. rewrite Hval. pose proof (H7 i Hi). pose proof (H7 j Hj). case_decide as Heq; [nia|]. specialize (H7 j' Hj'). nia.
  - intros i' j' k' Hc'. destruct (decide (i' = j)) as [->|Hne]; [left; apply Hq; by right|].
    destruct (H8 i' j' k' Hc') as [Hin|[Hs|[-> Hin]]]; [left; apply Hq; by left| |].
    + right; left. specialize (Hmono j'). rewrite (Hval i'), decide_False by done. lia.
    + apply elem_of_cons in Hin as [[= ->%Nat2Z.inj ->]|Hin]; [|by right; right].
      right; left. rewrite !Hval, decide_True, decide_False by done. lia.
  - intros j' l w Hw Hl. specialize (Hmono j'). specialize (H9 j' l w Hw Hl). lia.
  - intros i' j' k' l w Hc' Hw Hl. destruct (H10 i' j' k' l w Hc' Hw Hl) as [Hin|[Hs|[-> Hin]]]; [by left| |].
    + right; left. specialize (Hmono j'). lia.
    + apply elem_of_cons in Hin as [[= ->%Nat2Z.inj ->]|Hin]; [|by right; right].
      right; left. rewrite Hval, decide_True by done. specialize (H9 i l w Hw Hl). lia.
  - lia.
  - simpl in *. lia.
Qed.
Lemma relax_pairs_spec i ps : forall p q1 q2 s, (forall j k, (Z.of_nat j, k) ∈ ps -> constr cl i j k) ->
  Forall (fun pr => 0 <= pr.1)%Z ps -> relaxed i ps p q1 q2 s ->
  exists s' ps' q2', relax_pairs i ps s = inr s' /\ relaxed i ps' p q1 q2' s' /\ (ps' = [] \/ x_iter s' = 0%Z) /\
    length (x_queue s') + 2 * Z.to_nat (x_iter s') <= length (x_queue s) + 2 * Z.to_nat (x_iter s).
Proof using All.
  induction ps as [|[j0 k] ps IH]; intros p q1 q2 s Hps Hpos Hs; cbn [relax_pairs].
  { exists s, [], q2. split_and!; auto. }
  apply Forall_cons in Hpos as [Hj0 Hpos]. destruct (Z_of_nat_complete j0 Hj0) as [j ->].
  pose proof (relaxed_iter _ _ _ _ _ _ Hs) as Hiter.
  destruct (Z.ltb_spec 0 (x_iter s)) as [Hlt|Hge]; cbn [negb].
  2:{ exists s, ((Z.of_nat j, k) :: ps), q2. split_and!; [done|done|right; lia|done]. }
  assert (Hc : constr cl i j k) by (apply Hps; left).
  destruct (constr_range _ _ _ Hc) as [Hi Hj]. 
  pose proof (small_numbers _ _ Hsmall _ _ _ Hc) as HB.
  pose proof (small_variables _ _ Hsmall) as Hvars. fold n in Hvars.
  assert (HsumB : ((steps + 1) * B < 2 ^ 63)%Z) by (rewrite Hsteps; apply (small_sums _ _ Hsmall)).
  unfold u32. rewrite Z.mod_small by lia. rewrite Nat2Z.id.
  cbn [x_ret x_inqueue x_queue x_iter]. rewrite !aread_value by (rewrite (relaxed_ret _ _ _ _ _ _ Hs); done). cbn [fbind].
  pose proof (relaxed_bound _ _ _ _ _ _ Hs i Hi) as Hbi.
  rewrite add_int64_eq by nia. cbn [fbind].
  assert (Hps' : forall j k, (Z.of_nat j, k) ∈ ps -> constr cl i j k) by (intros; apply Hps; by right).
  destruct (Z.ltb_spec (value (x_ret s) i + k) (value (x_ret s) j)) as [Hless|Hle].
  2:{ destruct (IH p q1 q2 (RelaxState (x_ret s) (x_inqueue s) (x_queue s) (x_iter s - 1)) Hps' Hpos) as (s' & ps' & q2' & -> & H1 & H2 & H3);
        [by apply satisfied_relaxed with j k|]. exists s', ps', q2'. split_and!; [done|done|done|]. cbn [x_queue x_iter] in H3. lia. }
  rewrite awrite_eq by (rewrite (relaxed_ret _ _ _ _ _ _ Hs); done). cbn [fbind].
  destruct (lookup_lt_is_Some_2 (x_inqueue s) j) as [queued Hqd]; [by rewrite (relaxed_inqueue _ _ _ _ _ _ Hs)|].
  rewrite (aread_eq _ _ _ Hqd). cbn [fbind].
  pose proof (relaxed_queued _ _ _ _ _ _ Hs) as Hqueued. pose proof (relaxed_queue _ _ _ _ _ _ Hs) as Hqueue.
  destruct queued.
  - destruct (IH p q1 q2 (RelaxState (<[j := (value (x_ret s) i + k)%Z]> (x_ret s)) (x_inqueue s) (x_queue s) (x_iter s - 1)) Hps' Hpos)
      as (s' & ps' & q2' & -> & H1 & H2 & H3).
    + rewrite Hqueue. apply lowered_relaxed with q2; try done; [apply Hs|apply Hs|]. intros j'. split; [by left|]. intros [?| ->]; [done|by apply Hqueued].
    + exists s', ps', q2'. split_and!; [done|done|done|]. cbn [x_queue x_iter] in H3. lia.
  - rewrite awrite_eq by (rewrite (relaxed_inqueue _ _ _ _ _ _ Hs); done). cbn [fbind].
    assert (Hnj : j ∉ q1 ++ q2) by (intros Hin%Hqueued; congruence).
    destruct (IH p q1 (q2 ++ [j]) (RelaxState (<[j := (value (x_ret s) i + k)%Z]> (x_ret s)) (<[j := true]> (x_inqueue s)) (x_queue s ++ [j]) (x_iter s - 1)) Hps' Hpos)
      as (s' & ps' & q2' & -> & H1 & H2 & H3).
    + rewrite Hqueue, <- app_assoc. apply lowered_relaxed with q2; try done.
      * rewrite length_insert. apply Hs.
      * intros j'. rewrite app_assoc, elem_of_app, list_elem_of_singleton. destruct (decide (j' = j)) as [->|].
        -- rewrite list_lookup_insert_eq by (rewrite (relaxed_inqueue _ _ _ _ _ _ Hs); done). tauto.
        -- rewrite list_lookup_insert_ne by done. rewrite <- Hqueued. tauto.
      * rewrite app_assoc. apply NoDup_app. split_and!; [apply Hs|intros x Hx ->%list_elem_of_singleton; done|apply NoDup_singleton].
      * intros j'. by rewrite app_assoc, elem_of_app, list_elem_of_singleton.
    + exists s', ps', q2'. split_and!; [done|done|done|]. cbn [x_queue x_iter] in H3. rewrite length_app in H3. simpl in H3. lia.
Qed.

(** ** The queue *)

(** the pass of the first variable in the queue *)
Lemma relaxed_front i p q1 q2 s j q : relaxed i [] p q1 q2 s -> x_queue s = j :: q ->
  exists p' q1' q2', relaxed i [] p' (j :: q1') q2' s /\ q = q1' ++ q2'.
Proof using All.
  intros Hs Hq. rewrite (relaxed_queue _ _ _ _ _ _ Hs) in Hq. destruct q1 as [|j' q1]; simplify_eq/=.
  - exists (S p), q, []. rewrite app_nil_r. split; [by apply next_pass|done].
  - by exists p, q1, q2.
Qed.
Lemma relax_queue_spec fuel : forall i p q1 q2 s, relaxed i [] p q1 q2 s -> length (x_queue s) + 2 * Z.to_nat (x_iter s) < fuel ->
  exists s' i' ps' p' q1' q2', relax_queue fuel cl s = inr s' /\ relaxed i' ps' p' q1' q2' s' /\
    (x_iter s' = 0%Z \/ ps' = [] /\ q1' ++ q2' = []).
Proof using All.
  induction fuel as [|fuel IH]; intros i p q1 q2 s Hs Hfuel; [lia|]. cbn [relax_queue].
  destruct (x_queue s) as [|j q] eqn:Hq.
  { exists s, i, [], p, q1, q2. split_and!; [done|done|right]. by rewrite <- (relaxed_queue _ _ _ _ _ _ Hs). }
  pose proof (relaxed_iter _ _ _ _ _ _ Hs) as Hiter.
  destruct (Z.ltb_spec 0 (x_iter s)); cbn [negb]; [|exists s, i, [], p, q1, q2; split_and!; [done|done|left; lia]].
  destruct (relaxed_front _ _ _ _ _ _ _ Hs Hq) as (p' & q1' & q2' & Hs1 & ->).
  destruct (pop_relaxed _ _ _ _ _ _ Hs1) as (s1 & -> & Hit & Hs2). cbn [fbind].
  assert (Hj : j < n).
  { rewrite <- (relaxed_inqueue _ _ _ _ _ _ Hs1). eapply lookup_lt_Some, (relaxed_queued _ _ _ _ _ _ Hs1). left. }
  destruct (lookup_lt_is_Some_2 cl j Hj) as [l Hl]. rewrite (aread_eq _ _ _ Hl). cbn [fbind]. rewrite Hl in Hs2. cbn [default] in Hs2.
  unfold counted. pose proof (small_lists _ _ Hsmall) as Hlists. rewrite Forall_lookup in Hlists.
  rewrite (proj2 (Z.ltb_lt _ _)) by (by apply (Hlists j)). cbn [fcheck fbind].
  destruct (relax_pairs_spec j (constraint_pairs l) p' q1' q2' s1) as (s2 & ps' & q2'' & -> & Hs3 & Hend & Hm); [| |done|].
  { intros j' k Hin. by exists l. }
  { unfold well_formed in Hwf. rewrite Forall_lookup in Hwf. destruct (Hwf j l Hl) as [_ Hf]. eapply Forall_impl; [exact Hf|]. simpl. lia. }
  cbn [fbind]. rewrite (relaxed_queue _ _ _ _ _ _ Hs2) in Hm. cbn [length] in Hfuel. rewrite Hit in Hm.
  destruct Hend as [->|H0]; [by apply (IH j p' q1' q2''); [|lia]|].
  exists s2, j, ps', p', q1', q2''. split_and!; [|done|by left].
  destruct fuel as [|fuel]; [lia|]. cbn [relax_queue]. rewrite H0. by destruct (x_queue s2).
Qed.

(** at the end nothing is violated, if there is a solution at all *)
Lemma relaxed_walks i ps p q1 q2 s : relaxed i ps p q1 q2 s -> x_iter s = 0%Z ->
  forall j l w, walk (j :: l) w -> length l <= n - 1 -> (value (x_ret s) j <= w)%Z.
Proof using All.
  intros Hs H0 j l w Hw Hl. pose proof (relaxed_steps _ _ _ _ _ _ Hs) as Hst. rewrite H0 in Hst.
  assert (Hn : 0 < n) by (pose proof (walk_range _ _ Hw) as Hf; apply Forall_cons in Hf as [Hf _]; fold n in Hf; lia).
  destruct (decide (length l <= p)) as [|Hp]; [by apply (relaxed_past _ _ _ _ _ _ Hs _ l)|].
  inversion Hw as [|i' j' k l' w' Hw' Hc]; subst; [simpl in *; lia|]. simpl in Hl, Hp.
  assert (0 < deg i').
  { destruct Hc as (l0 & Hl0 & Hin). unfold deg. rewrite Hl0. simpl. destruct (constraint_pairs l0); [by apply not_elem_of_nil in Hin|simpl; lia]. }
  assert (deg i' <= m).
  { transitivity (degs [i']); [unfold degs; simpl; lia|]. apply degs_total; [apply NoDup_singleton|]. constructor; [|done].
    by destruct (constr_range _ _ _ Hc). }
  assert (Hlast : length l' = p).
  { destruct (decide (length l' = p)); [done|]. assert (2 * Z.of_nat m <= (Z.of_nat n - 1 - Z.of_nat p) * Z.of_nat m)%Z; [|lia].
    apply Z.mul_le_mono_nonneg_r; lia. }
  assert (Z.of_nat m <= (Z.of_nat n - 1 - Z.of_nat p) * Z.of_nat m)%Z by (rewrite <- (Z.mul_1_l (Z.of_nat m)) at 1; apply Z.mul_le_mono_nonneg_r; lia).
  destruct (relaxed_pass _ _ _ _ _ _ Hs i' j k l' w' Hc Hw') as [Hin|[Hle|[-> Hin]]]; [lia| |done|].
  - assert (deg i' <= degs q1) by (unfold degs; by apply (sum_list_with_in i' deg q1)). lia.
  - destruct ps; [by apply not_elem_of_nil in Hin|simpl in Hst; lia].
Qed.
Lemma relaxed_solves i ps p q1 q2 s x : relaxed i ps p q1 q2 s -> (x_iter s = 0%Z \/ ps = [] /\ q1 ++ q2 = []) ->
  solves cl x -> solves cl (value (x_ret s)).
Proof using All.
  intros Hs [H0|[-> Hq]] Hx i' j k Hc.
  - destruct (constr_range _ _ _ Hc) as [Hi _]. destruct (relaxed_walk _ _ _ _ _ _ Hs i' Hi) as [l Hl].
    destruct (walk_short x j (i' :: l) _ Hx (walk_step _ _ _ _ _ Hl Hc)) as (l' & w' & Hw' & Hle & Hlen).
    pose proof (relaxed_walks _ _ _ _ _ _ Hs H0 _ _ _ Hw' Hlen). lia.
  - destruct (relaxed_edge _ _ _ _ _ _ Hs i' j k Hc) as [Hin|[Hle|[_ Hin]]]; [|lia|by apply not_elem_of_nil in Hin].
    rewrite Hq in Hin. by apply not_elem_of_nil in Hin.
Qed.
(** no solution below zero is larger anywhere *)
Lemma relaxed_greatest i ps p q1 q2 s x : relaxed i ps p q1 q2 s -> solves cl x -> (forall j, (x j <= 0)%Z) ->
  forall j, j < n -> (x j <= value (x_ret s) j)%Z.
Proof using All.
  intros Hs Hx H0 j Hj. destruct (relaxed_walk _ _ _ _ _ _ Hs j Hj) as [l Hl]. revert Hl. generalize (value (x_ret s) j). clear Hj.
  revert j. induction l as [|i' l IH]; intros j w Hw; inversion Hw as [|i0 j' k l' w' Hw' Hc]; subst; [done|].
  specialize (IH _ _ Hw'). specialize (Hx _ _ _ Hc). lia.
Qed.
End constraints.

(** ** The first and the last loop *)

Lemma constraint_pairs_length : forall l, Nat.odd (length l) = false -> length (constraint_pairs l) = length l / 2.
Proof.
  fix IH 1. intros [|j [|k l]] Hodd; [done|done|]. cbn [constraint_pairs length]. rewrite IH by exact Hodd.
  change (S (S (length l))) with (2 + length l). replace (2 + length l) with (length l + 1 * 2) by lia. rewrite Nat.div_add by done. lia.
Qed.
Definition pairs_in (n : nat) (ps : list (Z * Z)) : Prop := Forall (fun p => 0 <= p.1 < Z.of_nat n)%Z ps.
Lemma check_pairs_spec n i ps :
  check_pairs n i ps = cret tt /\ pairs_in n ps \/
  exists e, check_pairs n i ps = cthrow e /\ (~ pairs_in n ps \/ exists k, (k < 0)%Z /\ (Z.of_nat i, k) ∈ ps).
Proof.
  induction ps as [|[j k] ps IH]; [left; split; [done|constructor]|]. cbn [check_pairs].
  destruct (Z.leb_spec (Z.of_nat n) j), (Z.ltb_spec j 0); cbn [orb];
    try (right; eexists; split; [done|]; left; intros [? _]%Forall_cons; simpl in *; lia).
  destruct (Z.eqb_spec j (Z.of_nat i)) as [->|]; cbn [andb].
  1: destruct (Z.ltb_spec k 0); [right; eexists; split; [done|]; right; exists k; split; [done|left]|].
  all: destruct IH as [[-> Hin]|(e & -> & He)]; [left; split; [done|]; constructor; [simpl; lia|done]|].
  all: right; exists e; split; [done|]; destruct He as [Hn|(k' & ? & ?)];
    [left; intros [_ ?]%Forall_cons; done|right; exists k'; split; [done|by right]].
Qed.
Lemma count_edges_spec cl suf : forall pre z, cl = pre ++ suf ->
  count_edges (length cl) (length pre) (u32 z) suf = cret (u32 (z + Z.of_nat (total suf))) /\
    Forall (fun l => Nat.odd (length l) = false /\ pairs_in (length cl) (constraint_pairs l)) suf \/
  exists e, count_edges (length cl) (length pre) (u32 z) suf = cthrow e /\ (well_formed cl -> forall x, ~ solves cl x).
Proof.
  induction suf as [|l suf IH]; intros pre z Hcl; cbn [count_edges].
  { left. split; [|constructor]. do 2 f_equal. unfold total. simpl. lia. }
  assert (Hl : cl !! length pre = Some l) by (rewrite Hcl; by apply list_lookup_middle).
  assert (Hwf : well_formed cl -> Nat.odd (length l) = false /\ pairs_in (length cl) (constraint_pairs l)).
  { unfold well_formed. rewrite Forall_lookup. intros Hf. by apply (Hf (length pre)). }
  destruct (Nat.odd (length l)) eqn:Hodd; [right; eexists; split; [done|]; intros H; by destruct (Hwf H)|].
  destruct (check_pairs_spec (length cl) (length pre) (constraint_pairs l)) as [[-> Hin]|(e & -> & He)].
  2:{ right. exists e. split; [done|]. intros H x Hx. destruct (Hwf H) as [_ Hin]. destruct He as [|(k & Hk & Hp)]; [done|].
      assert (constr cl (length pre) (length pre) k) as Hc by (by exists l). specialize (Hx _ _ _ Hc). lia. }
  cbn [cbind fbind cret]. assert (Hu : u32 (u32 z + Z.of_nat (length l / 2)) = u32 (z + Z.of_nat (length l / 2))).
  { unfold u32. by rewrite Z.add_mod_idemp_l. }
  rewrite Hu. replace (S (length pre)) with (length (pre ++ [l])) by (rewrite length_app; simpl; lia).
  destruct (IH (pre ++ [l]) (z + Z.of_nat (length l / 2))%Z) as [[-> Hf]|He]; [by rewrite <- app_assoc|left|by right].
  split; [|by constructor]. change (total (l :: suf)) with (length (constraint_pairs l) + total suf).
  rewrite constraint_pairs_length, Nat2Z.inj_add, Z.add_assoc by done. done.
Qed.

Lemma verify_pairs_spec r i ps : (Z.of_nat (length r) < 2 ^ 32)%Z -> i < length r -> pairs_in (length r) ps ->
  Forall (fun p => - 2 ^ 63 <= value r i + p.2 < 2 ^ 63)%Z ps ->
  verify_pairs r i ps = cret tt /\ (forall j k, (Z.of_nat j, k) ∈ ps -> (value r j - value r i <= k)%Z) \/
  verify_pairs r i ps = cthrow (invalid_argument "Failed to satisfy all constraints") /\
    exists j k, (Z.of_nat j, k) ∈ ps /\ (value r i + k < value r j)%Z.
Proof.
  intros Hr Hi Hin. induction Hin as [|[j0 k] ps Hj Hin IH]; intros Hb; cbn [verify_pairs].
  { left. split; [done|]. intros j k Hp. by apply not_elem_of_nil in Hp. }
  apply Forall_cons in Hb as [Hk Hb]. simpl in Hj, Hk. destruct (Z_of_nat_complete j0) as [j ->]; [lia|].
  rewrite (aread_value r i) by done. cbn [clift cbind fbind cret]. rewrite add_int64_eq by done. cbn [clift cbind fbind cret].
  unfold u32. rewrite Z.mod_small, Nat2Z.id, aread_value by lia. cbn [clift cbind fbind cret].
  destruct (Z.ltb_spec (value r i + k) (value r j)); [right; split; [done|]; exists j, k; split; [left|done]|].
  destruct (IH Hb) as [[-> Hok]|[-> (j' & k' & ? & ?)]]; [left|right; split; [done|]; exists j', k'; split; [by right|done]].
  split; [done|]. intros j' k' [[= ->%Nat2Z.inj ->]|Hp]%elem_of_cons; [lia|auto].
Qed.
Lemma verify_all_spec cl r : length r = length cl -> (Z.of_nat (length cl) < 2 ^ 32)%Z -> well_formed cl ->
  Forall (fun l => Z.of_nat (length l) < 2 ^ 32)%Z cl ->
  (forall i j k, constr cl i j k -> - 2 ^ 63 <= value r i + k < 2 ^ 63)%Z ->
  verify_all r 0 cl = cret tt /\ solves cl (value r) \/
  verify_all r 0 cl = cthrow (invalid_argument "Failed to satisfy all constraints") /\ ~ solves cl (value r).
Proof.
  intros Hlen Hn Hwf Hlists Hb.
  enough (H : forall suf pre, cl = pre ++ suf ->
    verify_all r (length pre) suf = cret tt /\ (forall i l j k, suf !! i = Some l -> (Z.of_nat j, k) ∈ constraint_pairs l ->
        (value r j - value r (length pre + i) <= k)%Z) \/
    verify_all r (length pre) suf = cthrow (invalid_argument "Failed to satisfy all constraints") /\ ~ solves cl (value r)).
  { destruct (H cl [] eq_refl) as [[Hv Hs]|Hv]; [left|by right]. split; [done|]. intros i j k (l & Hl & Hp). by apply (Hs i l). }
  induction suf as [|l suf IH]; intros pre Hcl; cbn [verify_all]; [left; split; [done|]; intros i l j k Hl; done|].
  assert (Hl : cl !! length pre = Some l) by (rewrite Hcl; by apply list_lookup_middle).
  unfold well_formed in Hwf. rewrite Forall_lookup in Hwf, Hlists. destruct (Hwf _ _ Hl) as [_ Hin].
  unfold counted. rewrite (proj2 (Z.ltb_lt _ _)) by (by apply (Hlists (length pre))). cbn [fcheck fbind].
  apply lookup_lt_Some in Hl as Hlt. fold (pairs_in (length cl) (constraint_pairs l)) in Hin. rewrite <- Hlen in Hin, Hlt.
  destruct (verify_pairs_spec r (length pre) (constraint_pairs l)) as [[-> Hok]|[-> (j & k & Hp & Hv)]]; [lia|done|done| | |].
  { apply Forall_forall. intros [j0 k] Hp. unfold pairs_in in Hin. rewrite Forall_forall in Hin. specialize (Hin _ Hp). simpl in *.
    destruct (Z_of_nat_complete j0) as [j ->]; [lia|]. apply (Hb _ j). by exists l. }
  2:{ right. split; [done|]. intros Hs. assert (constr cl (length pre) j k) as Hc by (by exists l). specialize (Hs _ _ _ Hc). lia. }
  cbn [cbind fbind cret]. replace (S (length pre)) with (length (pre ++ [l])) by (rewrite length_app; simpl; lia).
  destruct (IH (pre ++ [l])) as [[-> Hs]|Hs]; [by rewrite <- app_assoc|left|by right].
  split; [done|]. intros [|i] l' j k Hl' Hp; simplify_eq/=; [rewrite Nat.add_0_r; by apply Hok|].
  specialize (Hs i l' j k Hl' Hp). rewrite length_app in Hs. simpl in Hs. by replace (length pre + S i) with (length pre + 1 + i) by lia.
Qed.

(** ** The result *)

(** the start of the loop *)
Lemma relaxed_start cl (Hwf : well_formed cl) B steps : small B cl ->
  steps = (Z.of_nat (length cl - 1) * Z.of_nat (total cl))%Z ->
  relaxed cl B steps 0 [] 0 (seq 0 (length cl)) [] (RelaxState (replicate (length cl) 0%Z) (replicate (length cl) true) (seq 0 (length cl)) steps).
Proof.
  intros Hs Hsteps.
  assert (Hv : forall j, value (replicate (length cl) 0%Z) j = 0%Z).
  { intros j. unfold value. destruct (_ !! j) as [v|] eqn:Hj; [|done]. by apply lookup_replicate in Hj as [-> _]. }
  constructor; cbn [x_ret x_inqueue x_queue x_iter]; rewrite ?length_replicate, ?app_nil_r; try done.
  - intros j. rewrite elem_of_seq. split; [intros; apply lookup_replicate_2; lia|]. intros Hj. apply lookup_replicate in Hj as [_ ?]. lia.
  - apply NoDup_seq.
  - intros j Hj. exists []. rewrite Hv. by constructor.
  - intros j Hj. rewrite Hv. lia.
  - intros i j k Hc. left. apply elem_of_seq. destruct (constr_range cl Hwf _ _ _ Hc). lia.
  - intros j l w Hw Hl. rewrite Hv. destruct l; [|simpl in Hl; lia]. by inversion Hw.
  - intros i j k l w Hc _ _. left. apply elem_of_seq. destruct (constr_range cl Hwf _ _ _ Hc). lia.
  - nia.
  - rewrite degs_all. cbn [length]. subst steps. destruct cl as [|l cl]; [cbn; lia|]. cbn [length]. rewrite Nat.sub_succ, Nat.sub_0_r. lia.
Qed.

Lemma relax_steps_exact n m : (Z.of_nat n < 2 ^ 32)%Z -> (Z.of_nat m < 2 ^ 32)%Z ->
  (Z.of_nat (n - 1) * Z.of_nat m < 2 ^ 32)%Z -> (n = 0 -> m = 0) ->
  relax_steps n (u32 (Z.of_nat m)) = (Z.of_nat (n - 1) * Z.of_nat m)%Z.
Proof.
  intros Hn Hm Hnm H0. unfold relax_steps, u32. rewrite (Z.mod_small (Z.of_nat m)) by lia.
  destruct n as [|n]; [by rewrite H0|]. rewrite Nat.sub_succ, Nat.sub_0_r in *. replace (Z.of_nat (S n) - 1)%Z with (Z.of_nat n) by lia.
  rewrite (u64_small (Z.of_nat n)) by lia. rewrite u64_small by lia. apply Z.mod_small. lia.
Qed.

(** When the counters have room, [difference_constraints] answers for every input, without an
    overflow or an access outside of its vectors: it returns the largest of the solutions
    without positive values, or throws an exception, which for a well-formed input it does
    only when there is no solution at all. *)
Lemma difference_constraints_spec cl B : small B cl ->
  match difference_constraints cl with
  | inr (inr r) => well_formed cl /\ length r = length cl /\ solves cl (value r) /\
      forall x, solves cl x -> (forall i, x i <= 0)%Z -> forall i, i < length cl -> (x i <= value r i)%Z
  | inr (inl _) => well_formed cl -> forall x, ~ solves cl x
  | inl _ => False
  end.
Proof.
  intros Hs. unfold difference_constraints, counted at 1. pose proof (small_variables _ _ Hs) as Hn.
  rewrite (proj2 (Z.ltb_lt _ _)) by done. cbn [fcheck fbind].
  destruct (count_edges_spec cl cl [] 0 eq_refl) as [[Hc Hwf]|(e & Hc & Hwf)]; change (u32 0) with 0%Z in Hc; cbn [length] in Hc; rewrite Hc;
    cbn [cbind fbind cret cthrow]; [|done].
  fold (well_formed cl) in Hwf. rewrite Z.add_0_l.
  pose proof (small_edges _ _ Hs) as Hm. pose proof (small_steps _ _ Hs) as Hst.
  assert (Hsteps : relax_steps (length cl) (u32 (Z.of_nat (total cl))) = (Z.of_nat (length cl - 1) * Z.of_nat (total cl))%Z).
  { apply relax_steps_exact; [done|done|done|]. intros H0. by apply nil_length_inv in H0 as ->. }
  rewrite Hsteps. set (steps := (_ * _)%Z) in *.
  pose proof (relaxed_start cl Hwf B steps Hs eq_refl) as Hstart.
  destruct (relax_queue_spec cl Hwf B steps Hs eq_refl (S (length cl + 2 * Z.to_nat steps)) _ _ _ _ _ Hstart)
    as (s & i & ps & p & q1 & q2 & -> & Hend & Hdone); [cbn [x_queue x_iter]; rewrite length_seq; lia|].
  cbn [clift cbind fbind cret].
  pose proof (relaxed_ret _ _ _ _ _ _ _ _ _ Hend) as Hlen.
  destruct (verify_all_spec cl (x_ret s) Hlen Hn Hwf (small_lists _ _ Hs)) as [[-> Hok]|[-> Hno]].
  - intros i' j k Hcs. destruct (constr_range cl Hwf _ _ _ Hcs) as [Hi _].
    pose proof (relaxed_bound _ _ _ _ _ _ _ _ _ Hend i' Hi) as Hb. pose proof (small_numbers _ _ Hs _ _ _ Hcs).
    pose proof (small_sums _ _ Hs) as Hsum. fold steps in Hsum. pose proof (relaxed_iter _ _ _ _ _ _ _ _ _ Hend). nia.
  - cbn [cbind fbind cret]. split_and!; [done|done|done|]. intros x Hx H0. by apply (relaxed_greatest cl Hwf B steps Hs eq_refl _ _ _ _ _ _ x Hend).
  - cbn [cbind fbind cret cthrow]. intros _ x Hx. apply Hno. by apply (relaxed_solves cl Hwf B steps Hs eq_refl _ _ _ _ _ _ x Hend).
Qed.
