(* ===== verification/Object.v ===== *)
(** * Object lifetime and the member table: the core of [object.c]

    Reference counting ([di_ref_object], [di_unref_object], weak references), destruction
    ([di_finalize_object_inner], [di_destroy_object]), ownership of values
    ([di_free_value], [di_copy_value]) and the raw member table. *)

From S2P Require Export Machine.

(** ** The two intrusive lists of [unreferred_siblings]

    A node is linked into [unreferred_objects] or into [isolated_roots]; a node that is in
    neither list is self-linked, which is what [list_empty(&obj->unreferred_siblings)]
    tests. *)

Definition list_remove_oid (o : oid) (l : list oid) : list oid :=
  filter (fun x => x <> o) l.

Definition list_empty_node (o : oid) : M bool :=
  gets (fun w => negb (bool_decide (o ∈ default [] (unreferred w))) && negb (bool_decide (o ∈ isolated w))).

(** [list_del_init(&obj->unreferred_siblings)] *)
Definition list_del_init (o : oid) : M unit :=
  modify (fun w => set_unreferred (list_remove_oid o <$> unreferred w)
                     (set_isolated (list_remove_oid o (isolated w)) w)).

(** ** Allocation *)

(** [di_init_object] *)
Definition di_init_object (p : payload) : object :=
  Object [] None None 1 1 0 0 false p.

(** [dead_weakly_referenced_object], a static object, at its address [dead_weak_ref] *)
Definition dead_weakly_referenced_object : object := Object [] None None 0 1 0 0 false PObject.
Definition dead_weak_ref : oid := 1.

(** [di_new_object (sizeof (struct p), alignof (struct p))] *)
Definition di_new_object (p : payload) : M oid := fun w =>
  let o := next_addr w in
  Ret o (set_next_addr (Pos.succ o) (set_heap (<[o:=di_init_object p]> (heap w)) w)).

(** ** References *)

Definition di_ref_object (o : oid) : M oid :=
  upd_obj o (fun ob => set_ref_count (u64 (ref_count ob + 1)) ob) ;;
  ret o.

Definition di_weakly_ref_object (o : oid) : M oid :=
  upd_obj o (fun ob => set_weak_ref_count (u64 (weak_ref_count ob + 1)) ob) ;;
  ret o.

Definition di_upgrade_weak_ref (weak : oid) : M (option oid) :=
  obj <- get_obj weak ;;
  assert ((mark obj =? 0) || (mark obj =? 2) || (mark obj =? 3))%Z ;;
  if ((0 <? ref_count obj) && negb (destroyed obj) && negb (mark obj =? 2) && negb (mark obj =? 3))%Z
  then o <- di_ref_object weak ;; ret (Some o)
  else ret None.

Definition di_decrement_weak_ref_count (o : oid) : M unit :=
  upd_obj o (fun obj => set_weak_ref_count (u64 (weak_ref_count obj - 1)) obj) ;;
  obj <- get_obj o ;;
  if (weak_ref_count obj =? 0)%Z then
    assert (ref_count obj =? 0)%Z ;;
    free_obj o
  else ret tt.

(** [di_drop_weak_ref]; the pointer of the caller is poisoned, which the model leaves to
    the caller *)
Definition di_drop_weak_ref (weak : oid) : M unit := di_decrement_weak_ref_count weak.

(** ** Freeing values, finalizing and destroying objects

    Dropping a reference can destroy an object, which frees its members, which drops
    references: the functions below take [di_unref_object] as an argument, and the knot is
    tied by recursion on the nesting depth of destructions. *)
Section with_unref.
Context {E : Env}.
Variable unref : oid -> M unit.

(** [di_free_value], [di_free_tuple] and [di_free_array] *)
Fixpoint free_value_with (v : val) : M unit :=
  match v with
  | VNil => ret tt
  | VArray _ nonnull [] => DI_CHECK (negb nonnull)
  | VArray _ _ l => mapM_ free_value_with l
  | VTuple l => mapM_ free_value_with l
  | VString _ => ret tt
  | VObject obj | VEmptyObject obj => unref obj
  | VWeak obj => di_drop_weak_ref obj
  | VVariant v => free_value_with v
  | VLast => DI_CHECK false
  | VBool _ | VInt _ | VUint _ | VNint _ | VNuint _ | VFloat _ | VPointer _
  | VStringLiteral _ => ret tt
  end.

(** [di_remove_member_raw_impl(obj, m)] for the member [name] *)
Definition di_remove_member_raw_impl (obj : oid) (name : string) : M val :=
  ob <- get_obj obj ;;
  match find_member name (members ob) with
  | None => stuck UseAfterFree
  | Some v => put_obj obj (set_members (del_member name (members ob)) ob) ;; ret v
  end.

(** the [while (m)] loop of [di_finalize_object_inner]; [m] is the member the pointer
    leads to, [next_m] is read before the member is freed *)
Fixpoint finalize_members (fuel : nat) (obj : oid) (m : option string) : M unit :=
  match m with
  | None => ret tt
  | Some name =>
      match fuel with
      | O => stuck OutOfFuel
      | S fuel =>
          ob <- get_obj obj ;;
          let next_m := next_member name (members ob) in
          v <- di_remove_member_raw_impl obj name ;;
          free_value_with v ;;
          finalize_members fuel obj next_m
      end
  end.

Definition finalize_object_inner_with (o : oid) : M unit :=
  obj <- get_obj o ;;
  match dtor obj with
  | Some tmp => upd_obj o (set_dtor None) ;; env_dtor tmp o
  | None => ret tt
  end ;;
  obj <- get_obj o ;;
  finalize_members (length (members obj) + env_fuel) o (first_member (members obj)).

(** [di_destroy_object] *)
Definition destroy_object_with (o : oid) : M unit :=
  obj <- get_obj o ;;
  assert (ref_count obj =? 0)%Z ;;
  when (destroyed obj) (env_log DI_LOG_WARN "warning: destroy object multiple times") ;;
  upd_obj o (set_destroyed true) ;;
  finalize_object_inner_with o ;;
  di_decrement_weak_ref_count o.
End with_unref.

Section Object.
Context {E : Env}.

Fixpoint unref_object_fuel (n : nat) (o : oid) : M unit :=
  match n with
  | O => stuck OutOfFuel
  | S n =>
      obj <- get_obj o ;;
      assert (0 <? ref_count obj)%Z ;;
      assert (negb (destroyed obj)) ;;
      upd_obj o (fun obj => set_ref_count (u64 (ref_count obj - 1)) obj) ;;
      obj <- get_obj o ;;
      assert ((mark obj =? 0) || (mark obj =? 2) || (mark obj =? 3))%Z ;;
      if (ref_count obj =? 0)%Z then
        list_del_init o ;;
        destroy_object_with (unref_object_fuel n) o
      else
        unlinked <- list_empty_node o ;;
        if unlinked && (mark obj =? 0)%Z then
          modify (fun w => set_unreferred (Some (o :: default [] (unreferred w))) w)
        else ret tt
  end.

Definition di_unref_object (o : oid) : M unit := unref_object_fuel env_fuel o.

Definition di_free_value : val -> M unit := free_value_with di_unref_object.
Definition di_finalize_object_inner : oid -> M unit := finalize_object_inner_with di_unref_object.
Definition di_destroy_object : oid -> M unit := destroy_object_with di_unref_object.
Definition di_finalize_object (o : oid) : M unit := di_finalize_object_inner o.

(** [di_sizeof_type(t) == 0]; the types without a size abort *)
Definition sizeof_is_zero (t : di_type) : M bool :=
  match di_sizeof_type t with
  | None => stuck Aborted
  | Some n => ret (n =? 0)%Z
  end.

(** ** Copying *)

(** [di_copy_value]: the copy that is stored at [dst] *)
Fixpoint di_copy_value (v : val) : M val :=
  match v with
  | VArray et nn [] => ret (VArray et nn [])
  | VArray et _ l =>
      z <- sizeof_is_zero et ;;
      assert (negb z) ;;
      l' <- mapM di_copy_value l ;; ret (VArray et true l')
  | VTuple l => l' <- mapM (fun v => match type_of v with
                                     | DI_LAST_TYPE => stuck Aborted
                                     | _ => di_copy_value v
                                     end) l ;; ret (VTuple l')
  | VVariant v =>
      match type_of v with
      | DI_LAST_TYPE => stuck Aborted                     (* di_sizeof_type aborts *)
      | _ => v' <- di_copy_value v ;; ret (VVariant v')
      end
  | VString s => ret (VString (di_clone_string s))
  | VEmptyObject o => o <- di_ref_object o ;; ret (VEmptyObject o)
  | VObject o => o <- di_ref_object o ;; ret (VObject o)
  | VWeak o => o <- di_weakly_ref_object o ;; ret (VWeak o)
  | VNil => ret VNil
  | VLast => stuck Aborted
  | VBool _ | VInt _ | VUint _ | VNint _ | VNuint _ | VFloat _ | VPointer _
  | VStringLiteral _ => ret v
  end.

(** ** The member table *)

(** [di_lookup]: the data of the member the returned pointer leads to *)
Definition di_lookup (o : oid) (name : di_string) : M (option val) :=
  match name with
  | None => ret None
  | Some name => ob <- get_obj o ;; ret (find_member name (members ob))
  end.

(** [check_new_member] *)
Definition check_new_member (o : oid) (name : di_string) : M Z :=
  match name with
  | None => ret (- EINVAL)%Z
  | Some n =>
      ob <- get_obj o ;;
      ret (match find_member n (members ob) with Some _ => - EEXIST | None => 0 end)%Z
  end.

(** [di_insert_member] *)
Definition di_insert_member (o : oid) (name : di_string) (v : val) : M Z :=
  rc <- check_new_member o name ;;
  if (rc =? 0)%Z then
    upd_obj o (fun ob => set_members (members ob ++ [(di_string_bytes name, v)]) ob) ;;
    ret 0%Z
  else ret rc.

(** [di_add_member]: the value is owned; [inr] carries the name of the new member *)
Definition di_add_member (o : oid) (name : di_string) (v : val) : M (rc_or string) :=
  match name with
  | None => ret (inl (- EINVAL)%Z)
  | Some n =>
      rc <- di_insert_member o (di_clone_string name) v ;;
      if (rc =? 0)%Z then ret (inr n)
      else di_free_value v ;; ret (inl rc)
  end.

Definition di_add_member_clone2 (o : oid) (name : di_string) (v : val) : M (rc_or string) :=
  z <- sizeof_is_zero (type_of v) ;;
  if z then ret (inl (- EINVAL)%Z)
  else copy <- di_copy_value v ;; di_add_member o name copy.

Definition di_add_member_clone (o : oid) (name : di_string) (v : val) : M Z :=
  r <- di_add_member_clone2 o name v ;; ret (rc_of r).

Definition di_add_member_clonev (o : oid) (name : di_string) (v : val) : M Z :=
  z <- sizeof_is_zero (type_of v) ;;
  if z then ret (- EINVAL)%Z else di_add_member_clone o name v.

Definition di_add_member_move2 (o : oid) (name : di_string) (v : val) : M (rc_or string) :=
  z <- sizeof_is_zero (type_of v) ;;
  if z then ret (inl (- EINVAL)%Z) else di_add_member o name v.

Definition di_add_member_move (o : oid) (name : di_string) (v : val) : M Z :=
  r <- di_add_member_move2 o name v ;; ret (rc_of r).

(** [di_remove_member_raw]: ownership moves to the caller *)
Definition di_remove_member_raw (o : oid) (name : di_string) : M (rc_or val) :=
  m <- di_lookup o name ;;
  match m with
  | None => ret (inl (- ENOENT)%Z)
  | Some _ => v <- di_remove_member_raw_impl o (di_string_bytes name) ;; ret (inr v)
  end.

Definition di_delete_member_raw (o : oid) (name : di_string) : M Z :=
  m <- di_lookup o name ;;
  match m with
  | None => ret (- ENOENT)%Z
  | Some _ => v <- di_remove_member_raw_impl o (di_string_bytes name) ;; di_free_value v ;; ret 0%Z
  end.

(** [di_rawsetx]: delete, then add a clone *)
Definition di_rawsetx (o : oid) (prop : di_string) (v : val) : M Z :=
  rc <- di_delete_member_raw o prop ;;
  if (negb (rc =? 0) && negb (rc =? - ENOENT))%Z then ret rc
  else di_add_member_clone o prop v.

(** [di_refrawgetx]: the member, borrowed *)
Definition di_refrawgetx (o : oid) (prop : di_string) : M (rc_or val) :=
  m <- di_lookup o prop ;;
  match m with
  | None => ret (inl (- ENOENT)%Z)
  | Some v =>
      z <- sizeof_is_zero (type_of v) ;;
      assert (negb z) ;;
      ret (inr v)
  end.

Definition di_rawgetx (o : oid) (prop : di_string) : M (rc_or val) :=
  r <- di_refrawgetx o prop ;;
  match r with
  | inl rc => ret (inl rc)
  | inr tmp => v <- di_copy_value tmp ;; ret (inr v)
  end.

(** [di_rawget_borrowed2(o, prop, r)] where the variable [r] has type [t] *)
Definition di_rawget_borrowed2 (o : oid) (prop : di_string) (t : di_type) : M (rc_or val) :=
  r <- di_refrawgetx o prop ;;
  match r with
  | inl rc => ret (inl rc)
  | inr v => if decide (type_of v = t) then ret (inr v) else ret (inl (- ERANGE)%Z)
  end.

(** the common case: a borrowed object member *)
Definition rawget_object (o : oid) (prop : string) : M (option oid) :=
  r <- di_rawget_borrowed2 o (Some prop) DI_TYPE_OBJECT ;;
  ret (match r with inr (VObject x) => Some x | _ => None end).

Definition di_has_member (o : oid) (name : string) : M bool :=
  m <- di_lookup o (di_string_borrow name) ;; ret (bool_decide (is_Some m)).

(** ** Iterating over members: [HASH_ITER(hh, obj->members, i, ni)]

    [ni] is read when the iteration on [i] starts. *)
Section hash_iter.
Variable body : string -> val -> M unit.
Fixpoint hash_iter_go (fuel : nat) (o : oid) (i : option string) : M unit :=
  match i with
  | None => ret tt
  | Some name =>
      match fuel with
      | O => stuck OutOfFuel
      | S fuel =>
          ob <- get_obj o ;;
          match find_member name (members ob) with
          | None => stuck UseAfterFree
          | Some v => body name v ;; hash_iter_go fuel o (next_member name (members ob))
          end
      end
  end.
Definition hash_iter (o : oid) : M unit :=
  ob <- get_obj o ;;
  hash_iter_go (length (members ob) + env_fuel) o (first_member (members ob)).
End hash_iter.

(** [di_get_all_member_names_raw] *)
Definition di_get_all_member_names_raw (o : oid) : M val :=
  ob <- get_obj o ;;
  names <- mapM (fun m => di_copy_value (VString (Some (fst m)))) (members ob) ;;
  ret (VArray DI_TYPE_STRING true names).

(** [di_foreach_member_raw]: the callback stops the loop by returning true *)
Section foreach.
Variable cb : string -> val -> M bool.
Fixpoint foreach_go (fuel : nat) (o : oid) (i : option string) : M bool :=
  match i with
  | None => ret false
  | Some name =>
      match fuel with
      | O => stuck OutOfFuel
      | S fuel =>
          ob <- get_obj o ;;
          match find_member name (members ob) with
          | None => stuck UseAfterFree
          | Some v =>
              stop <- cb name v ;;
              if stop then ret true else foreach_go fuel o (next_member name (members ob))
          end
      end
  end.
Definition di_foreach_member_raw (o : oid) : M bool :=
  ob <- get_obj o ;;
  foreach_go (length (members ob) + env_fuel) o (first_member (members ob)).
End foreach.

Definition di_set_object_dtor (o : oid) (d : option fnptr) : M unit := upd_obj o (set_dtor d).
Definition di_set_object_call (o : oid) (c : option fnptr) : M unit := upd_obj o (set_call c).
Definition di_is_object_callable (o : oid) : M bool :=
  ob <- get_obj o ;; ret (bool_decide (is_Some (call ob))).
Definition di_is_empty_object (o : oid) : M bool :=
  ob <- get_obj o ;; ret (match members ob with [] => true | _ => false end).

(** ** Calling *)

(** [di_call_object] *)
Definition di_call_object (obj : oid) (args : list val) : M (rc_or val) :=
  ob <- get_obj obj ;;
  match call ob with
  | None => stuck NullDereference
  | Some f => env_call f obj args
  end.

(** [di_call_object_catch]: the second component is [*err] *)
Definition di_call_object_catch (obj : oid) (args : list val) : M (rc_or val * option oid) :=
  fun w =>
    match di_call_object obj args w with
    | Ret r w' => Ret (r, None) w'
    | Throw e w' => Ret (inr VNil, Some e) w'
    | Stuck f => Stuck f
    end.
End Object.
