(* ===== verification/Logic.v ===== *)
(** * Reasoning about effects

    [wp m Q w]: run from [w], [m] returns (it neither throws nor gets stuck, so in
    particular no assertion fails, no freed memory is touched and the fuel suffices) and
    the result satisfies [Q].  The lemmas follow the structure of programs; [wp_step]
    applies the one that fits. *)

From S2P Require Export Object.

Definition wp {A} (m : M A) (Q : A -> world -> Prop) (w : world) : Prop :=
  match m w with Ret a w' => Q a w' | _ => False end.

Section wp.
Context {A B : Type}.
Implicit Types (Q : A -> world -> Prop) (w : world).

Lemma wp_ret (a : A) Q w : Q a w -> wp (ret a) Q w.
Proof. done. Qed.

Lemma wp_bind (m : M B) (k : B -> M A) Q w :
  wp m (fun b w' => wp (k b) Q w') w -> wp (bind m k) Q w.
Proof. unfold wp, bind. by destruct (m w). Qed.

Lemma wp_bind_inv (m : M B) (k : B -> M A) Q w :
  wp (bind m k) Q w -> wp m (fun b w' => wp (k b) Q w') w.
Proof. unfold wp, bind. by destruct (m w). Qed.

Lemma wp_mono (m : M A) Q Q' w :
  wp m Q w -> (forall a w', Q a w' -> Q' a w') -> wp m Q' w.
Proof. unfold wp. destruct (m w); naive_solver. Qed.

Lemma wp_conj (m : M A) Q Q' w :
  wp m Q w -> wp m Q' w -> wp m (fun a w' => Q a w' /\ Q' a w') w.
Proof. unfold wp. by destruct (m w). Qed.

Lemma wp_check f b (Q : unit -> world -> Prop) w : b = true -> Q tt w -> wp (check f b) Q w.
Proof. by intros ->. Qed.

Lemma wp_gets (f : world -> A) Q w : Q (f w) w -> wp (gets f) Q w.
Proof. done. Qed.

Lemma wp_modify f (Q : unit -> world -> Prop) w : Q tt (f w) -> wp (modify f) Q w.
Proof. done. Qed.

Lemma wp_get_obj o ob (Q : object -> world -> Prop) w :
  heap w !! o = Some ob -> Q ob w -> wp (get_obj o) Q w.
Proof. unfold wp, get_obj. by intros ->. Qed.

Lemma wp_put_obj o ob (Q : unit -> world -> Prop) w :
  Q tt (set_heap (<[o:=ob]> (heap w)) w) -> wp (put_obj o ob) Q w.
Proof. done. Qed.

Lemma wp_when (b : bool) m (Q : unit -> world -> Prop) w :
  (b = true -> wp m Q w) -> (b = false -> Q tt w) -> wp (when b m) Q w.
Proof. destruct b; simpl; intros H1 H2; [by apply H1 | by apply H2]. Qed.

(** what a [wp] proof says of the run *)
Lemma wp_run (m : M A) Q w : wp m Q w -> exists a w', m w = Ret a w' /\ Q a w'.
Proof. unfold wp. destruct (m w); naive_solver. Qed.

Lemma wp_of_run (m : M A) Q w a w' : m w = Ret a w' -> Q a w' -> wp m Q w.
Proof. unfold wp. by intros ->. Qed.
End wp.

Lemma wp_upd_obj o f ob (Q : unit -> world -> Prop) w :
  heap w !! o = Some ob ->
  Q tt (set_heap (<[o:=f ob]> (heap w)) w) -> wp (upd_obj o f) Q w.
Proof. intros Ho HQ. unfold upd_obj. apply wp_bind. by eapply wp_get_obj. Qed.

(** the equations of runs that do not depend on a postcondition *)
Lemma bind_get_obj {A} o ob (k : object -> M A) w :
  heap w !! o = Some ob -> bind (get_obj o) k w = k ob w.
Proof. unfold bind, get_obj. by intros ->. Qed.
Lemma bind_assert_true {A} (k : unit -> M A) w : bind (assert true) k w = k tt w.
Proof. done. Qed.
Lemma bind_ret_run {A B} (m : M A) (k : A -> M B) w a w' :
  m w = Ret a w' -> bind m k w = k a w'.
Proof. unfold bind. by intros ->. Qed.

(** a loop over a list with an invariant indexed by what remains to be done *)
Lemma wp_mapM_ {A} (f : A -> M unit) (I : list A -> world -> Prop) l w :
  I l w ->
  (forall x l' w, I (x :: l') w -> wp (f x) (fun _ w' => I l' w') w) ->
  wp (mapM_ f l) (fun _ w' => I [] w') w.
Proof.
  intros H0 Hf. revert w H0. induction l as [|x l IH]; intros w H0; [done|]; cbn [mapM_].
  apply wp_bind. eapply wp_mono; [by apply Hf|]. intros ? w1 HI. by apply IH.
Qed.

(** ** Computations that only look

    [looks faults P m w]: [m] ends in the world it started from with a result that satisfies
    [P], or gets stuck in one of the ways [faults]. *)
Definition looks {A} (faults : fault -> Prop) (P : A -> Prop) (m : M A) (w : world) : Prop :=
  match m w with
  | Ret a w' => w' = w /\ P a
  | Throw _ _ => False
  | Stuck f => faults f
  end.

Section looks.
Variable faults : fault -> Prop.

Lemma looks_ret {A} (P : A -> Prop) a w : P a -> looks faults P (ret a) w.
Proof. done. Qed.

Lemma looks_bind {A B} (P : A -> Prop) (Q : B -> Prop) (m : M A) (k : A -> M B) w :
  looks faults P m w -> (forall a, P a -> looks faults Q (k a) w) -> looks faults Q (bind m k) w.
Proof. unfold looks, bind. destruct (m w); naive_solver. Qed.

Lemma looks_mono {A} (P Q : A -> Prop) (m : M A) w :
  looks faults P m w -> (forall a, P a -> Q a) -> looks faults Q m w.
Proof. unfold looks. destruct (m w); naive_solver. Qed.
End looks.

#[export] Hint Resolve wp_ret : deai.

(** one step of symbolic execution *)
Ltac wp_step :=
  lazymatch goal with
  | |- wp (bind _ _) _ _ => apply wp_bind
  | |- wp (ret _) _ _ => apply wp_ret
  | |- wp (gets _) _ _ => apply wp_gets
  | |- wp (modify _) _ _ => apply wp_modify
  | |- wp (put_obj _ _) _ _ => apply wp_put_obj
  | |- wp (get_obj _) _ _ => eapply wp_get_obj; [by (eassumption || (simpl; simplify_map_eq; done))|]
  | |- wp (upd_obj _ _) _ _ => eapply wp_upd_obj; [by (eassumption || (simpl; simplify_map_eq; done))|]
  | |- wp (assert _) _ _ => apply wp_check
  | |- wp (DI_CHECK _) _ _ => apply wp_check
  | |- wp (DI_CHECK_OK _) _ _ => apply wp_check
  | |- wp (check _ _) _ _ => apply wp_check
  end.
