(* ===== verification/RefCount.v ===== *)
(** * The reference-count invariant

    [Inv ext extw pin w]: in the store [w], every reference count is the number of references
    stored in members plus the number of references held outside the object graph ([ext]
    for strong, [extw] for weak references: the stack, the anonymous roots, other
    libraries); nothing dangles; an object with strong references is not marked destroyed; one whose
    last strong reference is gone holds no members once its destruction is over. [pin] lists the objects
    whose destruction is running: each is kept allocated by the weak reference that its
    strong references held.

    The operations of [Object.v] are proved against it: they run to completion (no failed
    assertion, no access to freed memory) and move references between the graph and the
    holder as documented. *)

From S2P Require Export Logic.

Definition obj_strong (ob : object) : list oid := concat (map (fun m => strong_refs (snd m)) (members ob)).
Definition obj_weak (ob : object) : list oid := concat (map (fun m => weak_refs (snd m)) (members ob)).

(** references to [o] stored in the graph *)
Definition refs_to (h : gmap oid object) (o : oid) : Z := msum (fun ob => cnt o (obj_strong ob)) h.
Definition wrefs_to (h : gmap oid object) (o : oid) : Z := msum (fun ob => cnt o (obj_weak ob)) h.

(** a non-zero strong count holds one weak reference *)
Definition implicit_weak (ob : object) : Z := if (0 <? ref_count ob)%Z then 1 else 0.

Definition on_lists (w : world) : list oid := default [] (unreferred w) ++ isolated w.

Record obj_inv (ext extw pin : list oid) (h : gmap oid object) (o : oid) (ob : object) : Prop := {
  oi_rc : ref_count ob = (cnt o ext + refs_to h o)%Z;
  oi_wrc : weak_ref_count ob = (cnt o extw + cnt o pin + wrefs_to h o + implicit_weak ob)%Z;
  oi_wpos : (0 < weak_ref_count ob)%Z;
  oi_destroyed : ref_count ob <> 0%Z -> destroyed ob = false;
  oi_zombie : ref_count ob = 0%Z -> members ob = [] \/ o ∈ pin;
  oi_mark : mark ob = 0%Z \/ mark ob = 2%Z \/ mark ob = 3%Z;
  oi_bound : (ref_count ob < 2 ^ 64)%Z /\ (weak_ref_count ob < 2 ^ 64)%Z;
  oi_vals : Forall (fun m => val_ok (snd m) = true) (members ob);
  oi_names : NoDup (map fst (members ob));
  oi_strong : Forall (fun x => is_Some (h !! x)) (obj_strong ob);
  oi_weak : Forall (fun x => is_Some (h !! x)) (obj_weak ob)
}.

Record Inv (ext extw pin : list oid) (w : world) : Prop := {
  inv_obj : forall o ob, heap w !! o = Some ob -> obj_inv ext extw pin (heap w) o ob;
  inv_ext : Forall (fun x => is_Some (heap w !! x)) ext;
  inv_extw : Forall (fun x => is_Some (heap w !! x)) (extw ++ pin);
  inv_fresh : forall o, is_Some (heap w !! o) -> (o < next_addr w)%positive;
  inv_lists : Forall (fun o => exists ob, heap w !! o = Some ob /\ (0 < ref_count ob)%Z) (on_lists w);
  inv_nodup : NoDup (on_lists w)
}.

Lemma set_heap_twice h h' w : set_heap h (set_heap h' w) = set_heap h w.
Proof. done. Qed.

(** ** Counting *)

Lemma refs_to_nonneg h o : (0 <= refs_to h o)%Z.
Proof. apply msum_nonneg. intros. apply cnt_nonneg. Qed.
Lemma wrefs_to_nonneg h o : (0 <= wrefs_to h o)%Z.
Proof. apply msum_nonneg. intros. apply cnt_nonneg. Qed.

Lemma refs_to_upd h o ob ob' x : h !! o = Some ob ->
  refs_to (<[o:=ob']> h) x = (refs_to h x - cnt x (obj_strong ob) + cnt x (obj_strong ob'))%Z.
Proof. intros. unfold refs_to. by rewrite (msum_update _ _ _ ob). Qed.
Lemma wrefs_to_upd h o ob ob' x : h !! o = Some ob ->
  wrefs_to (<[o:=ob']> h) x = (wrefs_to h x - cnt x (obj_weak ob) + cnt x (obj_weak ob'))%Z.
Proof. intros. unfold wrefs_to. by rewrite (msum_update _ _ _ ob). Qed.

Lemma refs_to_pos h p ob x : h !! p = Some ob -> x ∈ obj_strong ob -> (0 < refs_to h x)%Z.
Proof.
  intros Hp Hx%cnt_pos. unfold refs_to. rewrite (msum_delete _ _ _ _ Hp).
  pose proof (msum_nonneg (fun ob => cnt x (obj_strong ob)) (delete p h)
    ltac:(intros; apply cnt_nonneg)). lia.
Qed.
Lemma wrefs_to_pos h p ob x : h !! p = Some ob -> x ∈ obj_weak ob -> (0 < wrefs_to h x)%Z.
Proof.
  intros Hp Hx%cnt_pos. unfold wrefs_to. rewrite (msum_delete _ _ _ _ Hp).
  pose proof (msum_nonneg (fun ob => cnt x (obj_weak ob)) (delete p h)
    ltac:(intros; apply cnt_nonneg)). lia.
Qed.

Lemma refs_to_live ext extw pin w x : Inv ext extw pin w -> (0 < refs_to (heap w) x)%Z -> is_Some (heap w !! x).
Proof.
  intros HI (p & ob & Hp & Hx%cnt_pos)%msum_pos_inv.
  pose proof (oi_strong _ _ _ _ _ _ (inv_obj _ _ _ _ HI _ _ Hp)) as Hs.
  rewrite Forall_forall in Hs. by apply Hs.
Qed.
Lemma wrefs_to_live ext extw pin w x : Inv ext extw pin w -> (0 < wrefs_to (heap w) x)%Z -> is_Some (heap w !! x).
Proof.
  intros HI (p & ob & Hp & Hx%cnt_pos)%msum_pos_inv.
  pose proof (oi_weak _ _ _ _ _ _ (inv_obj _ _ _ _ HI _ _ Hp)) as Hs.
  rewrite Forall_forall in Hs. by apply Hs.
Qed.

Lemma is_Some_insert (h : gmap oid object) o ob x :
  is_Some (h !! x) -> is_Some (<[o:=ob]> h !! x).
Proof. intros. destruct (decide (o = x)) as [->|]; simplify_map_eq; eauto. Qed.

(** ** One lemma for every update of one object

    The references that appear in or disappear from the members of [o] are exactly those
    that leave or enter the hands of the holder. *)
Lemma Inv_upd ext extw pin ext' extw' pin' w o ob ob' :
  Inv ext extw pin w ->
  heap w !! o = Some ob ->
  (forall x, x <> o -> cnt x ext' + cnt x (obj_strong ob') = cnt x ext + cnt x (obj_strong ob))%Z ->
  (cnt o ext' + cnt o (obj_strong ob') - ref_count ob' = cnt o ext + cnt o (obj_strong ob) - ref_count ob)%Z ->
  (forall x, x <> o -> cnt x extw' + cnt x pin' + cnt x (obj_weak ob') =
     cnt x extw + cnt x pin + cnt x (obj_weak ob))%Z ->
  (cnt o extw' + cnt o pin' + cnt o (obj_weak ob') + implicit_weak ob' - weak_ref_count ob'
     = cnt o extw + cnt o pin + cnt o (obj_weak ob) + implicit_weak ob - weak_ref_count ob)%Z ->
  (forall x, x <> o -> cnt x pin <= cnt x pin')%Z ->
  (0 < weak_ref_count ob' < 2 ^ 64)%Z ->
  (ref_count ob' < 2 ^ 64)%Z ->
  (ref_count ob' <> 0%Z -> destroyed ob' = false) ->
  (ref_count ob' = 0%Z -> members ob' = [] \/ o ∈ pin') ->
  (mark ob' = 0 \/ mark ob' = 2 \/ mark ob' = 3)%Z ->
  Forall (fun m => val_ok (snd m) = true) (members ob') ->
  NoDup (map fst (members ob')) ->
  ((0 < ref_count ob')%Z \/ o ∉ on_lists w) ->
  Inv ext' extw' pin' (set_heap (<[o:=ob']> (heap w)) w).
Proof.
  intros HI Ho Hx Hxo Hwx Hwxo Hpin Hwpos Hb Hd Hz Hm Hok Hnd Hl.
  pose proof (inv_obj _ _ _ _ HI _ _ Ho) as Hoi.
  assert (Hlive : forall x, (0 < cnt x ext' + cnt x (obj_strong ob'))%Z -> is_Some (heap w !! x)).
  { intros x Hpos. destruct (decide (x = o)) as [->|Hne]; [by rewrite Ho|].
    rewrite (Hx x Hne) in Hpos.
    destruct (decide (x ∈ ext)) as [Hin|Hin].
    - pose proof (inv_ext _ _ _ _ HI) as HF. rewrite Forall_forall in HF. by apply HF.
    - apply cnt_zero in Hin. eapply refs_to_live; [done|].
      eapply (refs_to_pos _ o ob); [done|]. apply cnt_pos. lia. }
  assert (Hwlive : forall x, (0 < cnt x (extw' ++ pin') + cnt x (obj_weak ob'))%Z -> is_Some (heap w !! x)).
  { intros x Hpos. destruct (decide (x = o)) as [->|Hne]; [by rewrite Ho|].
    rewrite cnt_app, (Hwx x Hne), <- cnt_app in Hpos.
    destruct (decide (x ∈ extw ++ pin)) as [Hin|Hin].
    - pose proof (inv_extw _ _ _ _ HI) as HF. rewrite Forall_forall in HF. by apply HF.
    - apply cnt_zero in Hin. eapply wrefs_to_live; [done|].
      eapply (wrefs_to_pos _ o ob); [done|]. apply cnt_pos. lia. }
  constructor; simpl.
  - intros p obp Hp. destruct (decide (p = o)) as [->|Hne].
    + rewrite lookup_insert_eq in Hp. injection Hp as <-.
      constructor; try done.
      * rewrite (refs_to_upd _ _ ob) by done. rewrite (oi_rc _ _ _ _ _ _ Hoi) in Hxo. lia.
      * rewrite (wrefs_to_upd _ _ ob) by done. rewrite (oi_wrc _ _ _ _ _ _ Hoi) in Hwxo. lia.
      * lia.
      * lia.
      * rewrite Forall_forall. intros x Hin%cnt_pos. apply is_Some_insert, Hlive.
        pose proof (cnt_nonneg x ext'). lia.
      * rewrite Forall_forall. intros x Hin%cnt_pos. apply is_Some_insert, Hwlive.
        pose proof (cnt_nonneg x (extw' ++ pin')). lia.
    + rewrite lookup_insert_ne in Hp by done.
      pose proof (inv_obj _ _ _ _ HI _ _ Hp) as [Hrc Hwrc Hwp Hde Hzo Hma Hbo Hva Hna Hst Hwe].
      constructor; try done.
      * rewrite (refs_to_upd _ _ ob) by done. specialize (Hx p Hne). lia.
      * rewrite (wrefs_to_upd _ _ ob) by done. specialize (Hwx p Hne). lia.
      * intros H0. destruct (Hzo H0) as [|Hin]; [by left|right].
        apply cnt_pos. apply cnt_pos in Hin. specialize (Hpin p Hne). lia.
      * eapply Forall_impl; [exact Hst|]. intros x. apply is_Some_insert.
      * eapply Forall_impl; [exact Hwe|]. intros x. apply is_Some_insert.
  - rewrite Forall_forall. intros x Hin%cnt_pos. apply is_Some_insert, Hlive.
    pose proof (cnt_nonneg x (obj_strong ob')). lia.
  - rewrite Forall_forall. intros x Hin%cnt_pos. apply is_Some_insert, Hwlive.
    pose proof (cnt_nonneg x (obj_weak ob')). lia.
  - intros p Hp. apply (inv_fresh _ _ _ _ HI).
    destruct (decide (p = o)) as [->|]; [by rewrite Ho|]. by rewrite lookup_insert_ne in Hp.
  - change (on_lists (set_heap _ w)) with (on_lists w).
    rewrite Forall_forall. intros p Hin.
    pose proof (inv_lists _ _ _ _ HI) as HF. rewrite Forall_forall in HF.
    destruct (HF p Hin) as (obp & Hp & Hpos).
    destruct (decide (p = o)) as [->|]; [|by exists obp; rewrite lookup_insert_ne].
    exists ob'. rewrite lookup_insert_eq. split; [done|]. by destruct Hl.
  - apply (inv_nodup _ _ _ _ HI).
Qed.

(** Only the multiplicities of the held references matter. *)
Lemma Inv_cnt ext extw ext' extw' pin w :
  (forall x, cnt x ext' = cnt x ext) -> (forall x, cnt x extw' = cnt x extw) ->
  Inv ext extw pin w -> Inv ext' extw' pin w.
Proof.
  intros He Hw HI. constructor; try apply HI.
  - intros o ob Ho. destruct (inv_obj _ _ _ _ HI _ _ Ho). constructor; try done.
    + by rewrite He.
    + by rewrite Hw.
  - pose proof (inv_ext _ _ _ _ HI) as HF. rewrite Forall_forall in HF |- *.
    intros x Hin%cnt_pos. apply HF. rewrite He in Hin. by apply cnt_pos.
  - pose proof (inv_extw _ _ _ _ HI) as HF. rewrite Forall_forall in HF |- *.
    intros x Hin%cnt_pos. apply HF. rewrite cnt_app, Hw, <- cnt_app in Hin. by apply cnt_pos.
Qed.

(** the multisets of held references, permuted *)
Lemma Inv_perm ext extw ext' extw' pin w :
  ext ≡ₚ ext' -> extw ≡ₚ extw' -> Inv ext extw pin w -> Inv ext' extw' pin w.
Proof.
  assert (Hp : forall (l l' : list oid) x, l ≡ₚ l' -> cnt x l' = cnt x l)
    by (induction 1; simpl; lia).
  intros He Hw. apply Inv_cnt; auto.
Qed.

Lemma Inv_held ext extw pin w o : Inv ext extw pin w -> o ∈ ext ->
  exists ob, heap w !! o = Some ob /\ (0 < ref_count ob)%Z /\ destroyed ob = false.
Proof.
  intros HI Hin. pose proof (inv_ext _ _ _ _ HI) as HF. rewrite Forall_forall in HF.
  destruct (HF o Hin) as [ob Ho]. exists ob. split; [done|].
  destruct (inv_obj _ _ _ _ HI _ _ Ho) as [Hrc _ _ Hd].
  apply cnt_pos in Hin. pose proof (refs_to_nonneg (heap w) o).
  split; [lia|]. apply Hd. lia.
Qed.

Lemma Inv_weakly_held ext extw pin w o : Inv ext extw pin w -> o ∈ extw ++ pin ->
  exists ob, heap w !! o = Some ob.
Proof.
  intros HI Hin. pose proof (inv_extw _ _ _ _ HI) as HF. rewrite Forall_forall in HF.
  destruct (HF o Hin) as [ob Ho]. eauto.
Qed.

Lemma Inv_rc_nonneg ext extw pin w o ob : Inv ext extw pin w -> heap w !! o = Some ob -> (0 <= ref_count ob)%Z.
Proof.
  intros HI Ho. rewrite (oi_rc _ _ _ _ _ _ (inv_obj _ _ _ _ HI _ _ Ho)).
  pose proof (refs_to_nonneg (heap w) o). pose proof (cnt_nonneg o ext). lia.
Qed.

Lemma Inv_not_listed ext extw pin w o ob :
  Inv ext extw pin w -> heap w !! o = Some ob -> ref_count ob = 0%Z -> o ∉ on_lists w.
Proof.
  intros HI Ho H0 Hin. pose proof (inv_lists _ _ _ _ HI) as HF. rewrite Forall_forall in HF.
  destruct (HF o Hin) as (ob2 & ? & ?). simplify_eq. lia.
Qed.

Lemma Inv_alive_or_unlisted ext extw pin w o ob :
  Inv ext extw pin w -> heap w !! o = Some ob -> (0 < ref_count ob)%Z \/ o ∉ on_lists w.
Proof.
  intros HI Ho. destruct (decide (ref_count ob = 0)%Z).
  - right. by eapply Inv_not_listed.
  - left. pose proof (Inv_rc_nonneg _ _ _ _ _ _ HI Ho). lia.
Qed.

(** ** Fields the invariant does not mention *)

Definition same_counts (ob ob' : object) : Prop :=
  members ob' = members ob /\ ref_count ob' = ref_count ob /\
  weak_ref_count ob' = weak_ref_count ob /\ mark ob' = mark ob /\ destroyed ob' = destroyed ob.

Lemma Inv_same_counts ext extw pin w o ob ob' :
  Inv ext extw pin w -> heap w !! o = Some ob -> same_counts ob ob' ->
  Inv ext extw pin (set_heap (<[o:=ob']> (heap w)) w).
Proof.
  intros HI Ho (Hm & Hr & Hw & Hk & Hd).
  destruct (inv_obj _ _ _ _ HI _ _ Ho) as [Hrc Hwrc Hwp Hde Hzo Hma Hbo Hva Hna Hst Hwe].
  eapply (Inv_upd ext extw pin ext extw pin w o ob ob'); try done;
    unfold obj_strong, obj_weak, implicit_weak; rewrite ?Hm, ?Hr, ?Hw, ?Hk, ?Hd; try done; try lia.
  by eapply Inv_alive_or_unlisted.
Qed.

(** ** Frames: what destruction leaves alone *)

(** number of objects with strong references *)
Definition alive (w : world) : Z := msum implicit_weak (heap w).

Lemma alive_nonneg w : (0 <= alive w)%Z.
Proof. apply msum_nonneg. intros k x _. unfold implicit_weak. case_match; lia. Qed.

Lemma alive_upd w o ob ob' : heap w !! o = Some ob ->
  alive (set_heap (<[o:=ob']> (heap w)) w) = (alive w - implicit_weak ob + implicit_weak ob')%Z.
Proof. intros Ho. unfold alive. simpl. by rewrite (msum_update _ _ _ ob). Qed.

(** the strong references to [p] are gone, or [p] itself is *)
Definition gone (w : world) (p : oid) : Prop :=
  forall ob, heap w !! p = Some ob -> ref_count ob = 0%Z.

(** [fallen own w w' p]: [p] is gone and so, before it, is everything that referred to it;
    only [own] may have dropped members while it stays. *)
Inductive fallen (own : option oid) (w w' : world) : oid -> Prop :=
  | FallenLeaf p : gone w' p -> refs_to (heap w) p = 0%Z -> fallen own w w' p
  | Fallen p : gone w' p ->
      (forall q obq, heap w !! q = Some obq -> ref_count obq <> 0%Z -> p ∈ obj_strong obq ->
         own <> Some q -> fallen own w w' q) ->
      fallen own w w' p.

(** [quiet_frame]: no object appears; one that is still referenced keeps its contents
    (unless it is [own]) and its place on the lists; one that loses its last reference does
    so because everything that referred to it is gone. *)
Record quiet_frame (own : option oid) (w w' : world) : Prop := {
  qf_obj : forall p ob', heap w' !! p = Some ob' ->
    exists ob, heap w !! p = Some ob /\ mark ob' = mark ob /\ ref_count_scan ob' = ref_count_scan ob /\
      (ref_count ob = 0%Z -> ref_count ob' = 0%Z) /\
      (ref_count ob' <> 0%Z -> own <> Some p -> members ob' = members ob /\ dtor ob' = dtor ob /\
         call ob' = call ob /\ extra ob' = extra ob /\ destroyed ob' = destroyed ob);
  qf_isolated : forall o, o ∈ isolated w' -> o ∈ isolated w;
  qf_isolated_kept : forall o ob', o ∈ isolated w -> heap w' !! o = Some ob' -> ref_count ob' <> 0%Z ->
    o ∈ isolated w';
  qf_unreferred : forall o ob', o ∈ default [] (unreferred w') -> heap w' !! o = Some ob' ->
    o ∈ default [] (unreferred w) \/ mark ob' = 0%Z;
  qf_unreferred_kept : forall o ob', o ∈ default [] (unreferred w) -> heap w' !! o = Some ob' ->
    ref_count ob' <> 0%Z -> o ∈ default [] (unreferred w');
  qf_init : is_Some (unreferred w) -> is_Some (unreferred w');
  qf_fallen : forall p ob, heap w !! p = Some ob -> ref_count ob <> 0%Z -> gone w' p -> fallen own w w' p
}.

(** [own]: an object whose members may still change (its destructor is running) *)
Record frame (strict : Prop) (own : option oid) (w w' : world) : Prop := {
  (** a dead object stays dead and nobody touches the members it has left *)
  fr_dead : forall z ob ob', (z < next_addr w)%positive ->
    heap w !! z = Some ob -> heap w' !! z = Some ob' ->
    ref_count ob = 0%Z -> ref_count ob' = 0%Z /\ (own <> Some z -> members ob' = members ob);
  (** addresses are not reused *)
  fr_fresh : forall z, (z < next_addr w)%positive -> is_Some (heap w' !! z) -> is_Some (heap w !! z);
  fr_next : (next_addr w <= next_addr w')%positive;
  fr_alive : (alive w' <= alive w)%Z;
  fr_quiet : strict -> quiet_frame own w w'
}.

Lemma quiet_frame_refl own w : quiet_frame own w w.
Proof. constructor; eauto 10. intros p ob Hp Hne Hg. by destruct (Hne (Hg _ Hp)). Qed.

Lemma fallen_gone own w w' p : fallen own w w' p -> gone w' p.
Proof. by destruct 1. Qed.

Lemma fallen_more own own' w w' p : (forall q, own' <> Some q -> own <> Some q) ->
  fallen own w w' p -> fallen own' w w' p.
Proof. intros Ho. induction 1 as [p Hg Hr|p Hg _ IH]; [by apply FallenLeaf|]. apply Fallen; eauto. Qed.

Lemma quiet_gone own w1 w2 p : quiet_frame own w1 w2 -> gone w1 p -> gone w2 p.
Proof. intros HQ Hg ob2 H2. destruct (qf_obj _ _ _ HQ _ _ H2) as (ob1 & H1 & _ & _ & Hz & _). eauto. Qed.

Lemma gone_or_alive w p : gone w p \/ exists ob, heap w !! p = Some ob /\ ref_count ob <> 0%Z.
Proof.
  unfold gone. destruct (heap w !! p) as [ob|]; [|by left].
  destruct (decide (ref_count ob = 0%Z)); [left; by intros ? [= <-]|right; eauto].
Qed.

Lemma fallen_trans_l own w1 w2 w3 p : quiet_frame own w2 w3 -> fallen own w1 w2 p -> fallen own w1 w3 p.
Proof.
  intros HQ. induction 1 as [p Hg Hr|p Hg _ IH]; [apply FallenLeaf|apply Fallen]; try done; by eapply quiet_gone.
Qed.

Lemma fallen_trans_r own w1 w2 w3 p : quiet_frame own w1 w2 -> quiet_frame own w2 w3 ->
  fallen own w2 w3 p -> fallen own w1 w3 p.
Proof.
  intros HQ1 HQ2.
  assert (Hq : forall q p obq, heap w1 !! q = Some obq -> ref_count obq <> 0%Z -> p ∈ obj_strong obq ->
    own <> Some q -> fallen own w1 w3 q \/
    exists ob2, heap w2 !! q = Some ob2 /\ ref_count ob2 <> 0%Z /\ p ∈ obj_strong ob2).
  { intros q p' obq Hq Hne Hin Hown. destruct (gone_or_alive w2 q) as [Hg2|(ob2 & Hq2 & Hne2)].
    - left. eapply fallen_trans_l; [done|]. by eapply (qf_fallen _ _ _ HQ1).
    - right. exists ob2. destruct (qf_obj _ _ _ HQ1 _ _ Hq2) as (obq' & Hq' & _ & _ & _ & Hk).
      simplify_eq. destruct (Hk Hne2 Hown) as [Hm _]. unfold obj_strong. by rewrite Hm. }
  induction 1 as [p Hg Hr|p Hg _ IH]; apply Fallen; try done; intros q obq Hq1 Hne Hin Hown;
    destruct (Hq q p obq Hq1 Hne Hin Hown) as [|(ob2 & Hq2 & Hne2 & Hin2)]; try done.
  - pose proof (refs_to_pos _ _ _ _ Hq2 Hin2). lia.
  - by eapply IH.
Qed.

Lemma quiet_frame_trans own w1 w2 w3 : quiet_frame own w1 w2 -> quiet_frame own w2 w3 -> quiet_frame own w1 w3.
Proof.
  intros HQ1 HQ2. pose proof HQ1 as [O1 I1 IK1 U1 UK1 N1 F1]. pose proof HQ2 as [O2 I2 IK2 U2 UK2 N2 F2].
  constructor.
  - intros p ob3 H3. destruct (O2 _ _ H3) as (ob2 & H2 & Hm2 & Hs2 & Hz2 & Hk2).
    destruct (O1 _ _ H2) as (ob1 & H1 & Hm1 & Hs1 & Hz1 & Hk1).
    exists ob1. split_and!; [done|congruence|congruence|by auto|].
    intros Hne Hown. destruct (Hk2 Hne Hown) as (? & ? & ? & ? & ?).
    destruct Hk1 as (? & ? & ? & ? & ?); [by intros ?; apply Hne, Hz2|done|].
    split_and!; congruence.
  - auto.
  - intros o ob3 Hin H3 Hne. destruct (O2 _ _ H3) as (ob2 & H2 & _ & _ & Hz2 & _).
    eapply IK2; [|done..]. eapply IK1; [done..|]. intros ?. by apply Hne, Hz2.
  - intros o ob3 Hin H3. destruct (O2 _ _ H3) as (ob2 & H2 & Hm2 & _).
    destruct (U2 _ _ Hin H3) as [Hin2|]; [|by right].
    destruct (U1 _ _ Hin2 H2); [by left|right; congruence].
  - intros o ob3 Hin H3 Hne. destruct (O2 _ _ H3) as (ob2 & H2 & _ & _ & Hz2 & _).
    eapply UK2; [|done..]. eapply UK1; [done..|]. intros ?. by apply Hne, Hz2.
  - auto.
  - intros p ob1 H1 Hne Hg. destruct (gone_or_alive w2 p) as [Hg2|(ob2 & H2 & Hne2)].
    + eapply fallen_trans_l; [done|]. by eapply F1.
    + eapply fallen_trans_r; [done..|]. by eapply F2.
Qed.

Lemma quiet_frame_own own w w' : quiet_frame None w w' -> quiet_frame own w w'.
Proof.
  intros [O I IK U UK N F]. constructor; [|exact I|exact IK|exact U|exact UK|exact N|].
  - intros p ob' Hp. destruct (O _ _ Hp) as (ob & ? & ? & ? & ? & Hk). exists ob.
    split_and!; [done..|]. intros Hne _. by apply Hk.
  - intros p ob Hp Hne Hg. eapply fallen_more; [|by eapply F]. by intros.
Qed.

Lemma quiet_frame_disown o w w' :
  (forall ob, heap w !! o = Some ob -> ref_count ob <> 0%Z -> fallen None w w' o) ->
  quiet_frame (Some o) w w' -> quiet_frame None w w'.
Proof.
  intros Ho [O I IK U UK N F]. constructor; [|exact I|exact IK|exact U|exact UK|exact N|].
  - intros p ob' Hp. destruct (O _ _ Hp) as (ob & Hob & Hmk & Hsc & Hz & Hk). exists ob. split_and!; [done|done|done|done|].
    intros Hne _. apply Hk; [done|]. intros [= ->].
    destruct (decide (ref_count ob = 0%Z)) as [Hr0|Hr0]; [by apply Hne, Hz|].
    by apply Hne, (fallen_gone _ _ _ _ (Ho _ Hob Hr0)).
  - intros p ob Hp Hne Hg. specialize (F _ _ Hp Hne Hg). clear -Ho F.
    induction F as [p Hg Hr|p Hg _ IH]; [by apply FallenLeaf|]. apply Fallen; [done|]. intros q obq Hq Hne Hin _.
    destruct (decide (q = o)) as [->|Hqo]; [by eapply Ho|]. eapply IH; [done..|congruence].
Qed.

Lemma frame_refl strict own w : frame strict own w w.
Proof. constructor; [naive_solver|done|lia|lia|intros; apply quiet_frame_refl]. Qed.

Lemma frame_trans strict own w1 w2 w3 : frame strict own w1 w2 -> frame strict own w2 w3 -> frame strict own w1 w3.
Proof.
  intros [D1 F1 N1 A1 Q1] [D2 F2 N2 A2 Q2]. constructor.
  - intros z ob1 ob3 Hz H1 H3 H0.
    destruct (F2 z ltac:(lia) ltac:(by rewrite H3)) as [ob2 H2].
    destruct (D1 _ _ _ Hz H1 H2 H0) as [H02 Hm2].
    destruct (D2 z ob2 ob3 ltac:(lia) H2 H3 H02) as [H03 Hm3]. split; [done|].
    intros Hown. by rewrite Hm3, Hm2.
  - intros z Hz H3. apply F1; [done|]. apply F2; [lia|done].
  - lia.
  - lia.
  - intros Hs. eapply quiet_frame_trans; eauto.
Qed.

(** once the owner's destruction is seen from the outside *)
Lemma frame_disown strict o w w' :
  (forall ob, heap w !! o = Some ob -> ref_count ob <> 0%Z) -> fallen None w w' o ->
  frame strict (Some o) w w' -> frame strict None w w'.
Proof.
  intros Ho Hf [D F N A Q]. constructor; try done.
  - intros z ob ob' Hz H1 H2 H0. destruct (D _ _ _ Hz H1 H2 H0) as [? Hm]. split; [done|].
    intros _. apply Hm. intros [= ->]. by apply (Ho ob).
  - intros Hs. eapply quiet_frame_disown; [by intros|by apply Q].
Qed.

Lemma frame_own strict own w w' : frame strict None w w' -> frame strict own w w'.
Proof.
  intros [D F N A Q]. constructor; try done.
  - intros z ob ob' Hz H1 H2 H0. destruct (D _ _ _ Hz H1 H2 H0) as [? Hm]. split; [done|]. intros _. by apply Hm.
  - intros Hs. by apply quiet_frame_own, Q.
Qed.

(** changing a record of the heap, quietly *)
Lemma frame_upd strict own w o ob ob' :
  heap w !! o = Some ob ->
  (ref_count ob = 0%Z -> ref_count ob' = 0%Z /\ (own <> Some o -> members ob' = members ob)) ->
  (implicit_weak ob' <= implicit_weak ob)%Z ->
  (strict -> mark ob' = mark ob /\ ref_count_scan ob' = ref_count_scan ob /\
     (ref_count ob' <> 0%Z -> own <> Some o -> members ob' = members ob /\ dtor ob' = dtor ob /\
         call ob' = call ob /\ extra ob' = extra ob /\ destroyed ob' = destroyed ob)) ->
  (ref_count ob <> 0%Z -> ref_count ob' = 0%Z -> refs_to (heap w) o = 0%Z) ->
  frame strict own w (set_heap (<[o:=ob']> (heap w)) w).
Proof.
  intros Ho Hd Hi Hq Hr. constructor; simpl.
  - intros z ob1 ob2 _ H1 H2 H0. destruct (decide (z = o)) as [->|]; simplify_map_eq; auto.
  - intros z _ Hz. destruct (decide (z = o)) as [->|]; simplify_map_eq; eauto.
  - lia.
  - rewrite (alive_upd _ _ ob) by done. lia.
  - intros Hs. destruct (Hq Hs) as (? & ? & ?). constructor; simpl; try by eauto.
    + intros p obp Hp. destruct (decide (p = o)) as [->|]; simplify_map_eq; eauto 10.
      exists ob. split_and!; try done. intros Hr0. by apply Hd.
    + intros p obp Hp Hne Hg. destruct (decide (p = o)) as [->|].
      * simplify_eq. apply FallenLeaf; [done|]. apply Hr; [done|]. apply Hg. simpl. by simplify_map_eq.
      * exfalso. apply Hne, Hg. simpl. by simplify_map_eq.
Qed.

(** frames that change the lists only *)
Lemma frame_list_del strict own w o ob :
  heap w !! o = Some ob -> ref_count ob = 0%Z ->
  frame strict own w (set_unreferred (list_remove_oid o <$> unreferred w)
                    (set_isolated (list_remove_oid o (isolated w)) w)).
Proof.
  intros Ho H0. constructor; simpl; [naive_solver|done|lia|done|]. intros _.
  assert (Hu : forall x, x ∈ default [] (list_remove_oid o <$> unreferred w) <->
            x ∈ default [] (unreferred w) /\ x <> o).
  { intros x. destruct (unreferred w); simpl; [|set_solver].
    unfold list_remove_oid. rewrite list_elem_of_filter. tauto. }
  constructor; simpl.
  - intros p obp Hp. exists obp. split_and!; try done.
  - intros x. unfold list_remove_oid. rewrite list_elem_of_filter. tauto.
  - intros x obx Hin Hx Hne. unfold list_remove_oid. rewrite list_elem_of_filter.
    split; [|done]. intros ->. congruence.
  - intros x obx [Hin _]%Hu _. by left.
  - intros x obx Hin Hx Hne. apply Hu. split; [done|]. intros ->. congruence.
  - intros [l ->]. simpl. eauto.
  - intros p obp Hp Hne Hg. by destruct (Hne (Hg _ Hp)).
Qed.

Lemma frame_push strict own w o ob :
  heap w !! o = Some ob -> mark ob = 0%Z ->
  frame strict own w (set_unreferred (Some (o :: default [] (unreferred w))) w).
Proof.
  intros Ho H0. constructor; simpl; [naive_solver|done|lia|done|]. intros _.
  constructor; simpl.
  - intros p obp Hp. exists obp. split_and!; try done.
  - done.
  - done.
  - intros x obx [->|Hin]%elem_of_cons Hx; [right; congruence|by left].
  - intros x obx Hin _ _. apply elem_of_cons. by right.
  - eauto.
  - intros p obp Hp Hne Hg. by destruct (Hne (Hg _ Hp)).
Qed.

Lemma frame_free strict own w o ob :
  heap w !! o = Some ob -> ref_count ob = 0%Z ->
  frame strict own w (set_heap (delete o (heap w)) w).
Proof.
  intros Ho H0. constructor; simpl.
  - intros z ob1 ob2 _ H1 [_ H2]%lookup_delete_Some Hz. simplify_eq. done.
  - intros z _ [obz [_ Hz]%lookup_delete_Some]. eauto.
  - lia.
  - unfold alive. simpl. rewrite (msum_delete implicit_weak (heap w) o ob Ho).
    unfold implicit_weak at 2. rewrite H0. simpl. lia.
  - intros _. constructor; simpl; try by eauto.
    + intros p obp [_ Hp]%lookup_delete_Some. exists obp. split_and!; done.
    + intros p obp Hp Hne Hg. exfalso. apply Hne, Hg. simpl. rewrite lookup_delete_ne; [done|congruence].
Qed.

(** ** The operations *)

(** taking a reference: the caller must know that the object is alive *)
Lemma di_ref_object_spec ext extw pin w o ob :
  Inv ext extw pin w -> heap w !! o = Some ob -> (0 < ref_count ob < 2 ^ 64 - 1)%Z ->
  wp (di_ref_object o)
    (fun r w' => r = o /\ Inv (o :: ext) extw pin w' /\
       heap w' = <[o := set_ref_count (ref_count ob + 1) ob]> (heap w) /\
       unreferred w' = unreferred w /\ isolated w' = isolated w /\ next_addr w' = next_addr w) w.
Proof.
  intros HI Ho Hb. destruct (inv_obj _ _ _ _ HI _ _ Ho) as [Hrc Hwrc Hwp Hde Hzo Hma Hbo Hva Hna Hst Hwe].
  unfold di_ref_object. wp_step. wp_step. wp_step.
  rewrite u64_small by lia. split_and!; try done.
  eapply Inv_upd; try done; unfold obj_strong, obj_weak, implicit_weak; simpl.
  - intros x Hx. rewrite decide_False by done. lia.
  - rewrite decide_True by done. lia.
  - repeat case_match; lia.
  - lia.
  - lia.
  - intros _. apply Hde. lia.
  - intros; lia.
  - left; lia.
Qed.

Lemma di_upgrade_weak_ref_spec ext extw pin w o ob :
  Inv ext extw pin w -> heap w !! o = Some ob -> (ref_count ob < 2 ^ 64 - 1)%Z ->
  wp (di_upgrade_weak_ref o)
    (fun r w' =>
       if (0 <? ref_count ob)%Z && (mark ob =? 0)%Z then
         r = Some o /\ Inv (o :: ext) extw pin w' /\
         heap w' = <[o := set_ref_count (ref_count ob + 1) ob]> (heap w)
       else r = None /\ w' = w) w.
Proof.
  intros HI Ho Hb.
  destruct (inv_obj _ _ _ _ HI _ _ Ho) as [_ _ _ Hde _ Hma _ _ _ _ _].
  unfold di_upgrade_weak_ref. wp_step. wp_step. wp_step.
  wp_step; [by destruct Hma as [->|[->| ->]]|].
  destruct (Z.ltb_spec 0 (ref_count ob)) as [Hp|Hp]; simpl; [|by wp_step].
  rewrite Hde by lia. simpl.
  destruct Hma as [Hm|[Hm|Hm]]; rewrite Hm; simpl; [|by wp_step|by wp_step].
  wp_step. eapply wp_mono; [apply (di_ref_object_spec ext extw pin w o ob); [done..|lia]|].
  intros r w' (-> & HI' & Hh & _). by wp_step.
Qed.

Lemma di_weakly_ref_object_spec ext extw pin w o ob :
  Inv ext extw pin w -> heap w !! o = Some ob -> (weak_ref_count ob < 2 ^ 64 - 1)%Z ->
  wp (di_weakly_ref_object o)
    (fun r w' => r = o /\ Inv ext (o :: extw) pin w' /\
       heap w' = <[o := set_weak_ref_count (weak_ref_count ob + 1) ob]> (heap w) /\
       unreferred w' = unreferred w /\ isolated w' = isolated w /\ next_addr w' = next_addr w) w.
Proof.
  intros HI Ho Hb. destruct (inv_obj _ _ _ _ HI _ _ Ho) as [Hrc Hwrc Hwp Hde Hzo Hma Hbo Hva Hna Hst Hwe].
  unfold di_weakly_ref_object. wp_step. wp_step. wp_step.
  rewrite u64_small by lia. split_and!; try done.
  eapply Inv_upd; try done; unfold obj_strong, obj_weak, implicit_weak; simpl; try lia; try done.
  - intros x Hx. rewrite decide_False by done. lia.
  - rewrite decide_True by done. repeat case_match; lia.
  - by eapply Inv_alive_or_unlisted.
Qed.

(** an object nobody references, with no members left, can be freed *)
Lemma Inv_free ext extw pin w o ob extw' pin' :
  Inv ext extw pin w -> heap w !! o = Some ob ->
  ref_count ob = 0%Z -> members ob = [] -> weak_ref_count ob = 1%Z ->
  (cnt o extw' + cnt o pin' = 0)%Z ->
  (forall x, x <> o -> cnt x extw' = cnt x extw /\ cnt x pin' = cnt x pin) ->
  (0 < cnt o extw + cnt o pin)%Z ->
  Inv ext extw' pin' (set_heap (delete o (heap w)) w).
Proof.
  intros HI Ho Hr0 Hm Hw1 Hout Hcnt Hin.
  pose proof (inv_obj _ _ _ _ HI _ _ Ho) as Hoi.
  assert (Hs : obj_strong ob = []) by (unfold obj_strong; by rewrite Hm).
  assert (Hwk : obj_weak ob = []) by (unfold obj_weak; by rewrite Hm).
  assert (Hr : forall x, refs_to (delete o (heap w)) x = refs_to (heap w) x).
  { intros x. unfold refs_to. rewrite (msum_delete _ (heap w) o ob Ho), Hs. simpl. lia. }
  assert (Hwr : forall x, wrefs_to (delete o (heap w)) x = wrefs_to (heap w) x).
  { intros x. unfold wrefs_to. rewrite (msum_delete _ (heap w) o ob Ho), Hwk. simpl. lia. }
  pose proof (oi_rc _ _ _ _ _ _ Hoi) as Hrc. pose proof (oi_wrc _ _ _ _ _ _ Hoi) as Hwrc.
  pose proof (refs_to_nonneg (heap w) o). pose proof (wrefs_to_nonneg (heap w) o).
  pose proof (cnt_nonneg o ext). pose proof (cnt_nonneg o extw'). pose proof (cnt_nonneg o pin').
  unfold implicit_weak in Hwrc. rewrite Hr0 in Hwrc. simpl in Hwrc.
  assert (Hdel : forall x, x <> o -> is_Some (heap w !! x) -> is_Some (delete o (heap w) !! x)).
  { intros x Hne. by rewrite lookup_delete_ne. }
  constructor; simpl.
  - intros p obp [Hne Hp]%lookup_delete_Some.
    destruct (inv_obj _ _ _ _ HI _ _ Hp) as [Prc Pwrc Pwp Pde Pzo Pma Pbo Pva Pna Pst Pwe].
    destruct (Hcnt p) as [Hc1 Hc2]; [done|].
    constructor; try done.
    + by rewrite Hr.
    + rewrite Hwr. lia.
    + intros Hp0. destruct (Pzo Hp0) as [|Hpin]; [by left|right].
      apply cnt_pos. apply cnt_pos in Hpin. lia.
    + rewrite Forall_forall in Pst |- *. intros x Hx. apply Hdel; [|by apply Pst].
      intros ->. pose proof (refs_to_pos _ _ _ _ Hp Hx). lia.
    + rewrite Forall_forall in Pwe |- *. intros x Hx. apply Hdel; [|by apply Pwe].
      intros ->. pose proof (wrefs_to_pos _ _ _ _ Hp Hx). lia.
  - pose proof (inv_ext _ _ _ _ HI) as HF. rewrite Forall_forall in HF |- *. intros x Hx.
    apply Hdel; [|by apply HF]. intros ->. apply cnt_pos in Hx. lia.
  - pose proof (inv_extw _ _ _ _ HI) as HF. rewrite Forall_forall in HF |- *. intros x Hx.
    apply cnt_pos in Hx. rewrite cnt_app in Hx.
    assert (x <> o) as Hne by (intros ->; lia). destruct (Hcnt x Hne).
    apply Hdel; [done|]. apply HF. apply cnt_pos. rewrite cnt_app. lia.
  - intros p [obp [_ Hp]%lookup_delete_Some]. apply (inv_fresh _ _ _ _ HI). by rewrite Hp.
  - change (on_lists (set_heap _ w)) with (on_lists w).
    pose proof (inv_lists _ _ _ _ HI) as HF. rewrite Forall_forall in HF |- *. intros x Hx.
    destruct (HF x Hx) as (obx & Hox & Hpos). exists obx. split; [|done].
    rewrite lookup_delete_ne; [done|]. intros ->. simplify_eq. lia.
  - apply (inv_nodup _ _ _ _ HI).
Qed.

(** giving up one weak reference, held by the caller or as the pin of a destruction that
    is over *)
Lemma di_decrement_weak_ref_count_spec strict own ext extw pin extw' pin' w o ob :
  Inv ext extw pin w ->
  heap w !! o = Some ob ->
  (cnt o extw + cnt o pin = 1 + (cnt o extw' + cnt o pin'))%Z ->
  (forall x, x <> o -> cnt x extw' = cnt x extw /\ cnt x pin' = cnt x pin) ->
  (ref_count ob = 0%Z -> members ob = [] \/ o ∈ pin') ->
  wp (di_decrement_weak_ref_count o) (fun _ w' => Inv ext extw' pin' w' /\ frame strict own w w') w.
Proof.
  intros HI Ho Hcnto Hcnt Hz.
  destruct (inv_obj _ _ _ _ HI _ _ Ho) as [Hrc Hwrc Hwp Hde Hzo Hma Hbo Hva Hna Hst Hwe].
  pose proof (cnt_nonneg o extw'). pose proof (cnt_nonneg o pin'). pose proof (wrefs_to_nonneg (heap w) o).
  unfold di_decrement_weak_ref_count.
  wp_step. wp_step. wp_step. wp_step.
  assert (Hf : frame strict own w (set_heap (<[o:=set_weak_ref_count (u64 (weak_ref_count ob - 1)) ob]> (heap w)) w)).
  { eapply frame_upd; try done. }
  rewrite u64_small in * by lia. cbn [weak_ref_count set_weak_ref_count].
  destruct (Z.eqb_spec (weak_ref_count ob - 1) 0) as [Hw1|Hw1].
  - assert (Hr0 : ref_count ob = 0%Z).
    { unfold implicit_weak in Hwrc. destruct (Z.ltb_spec 0 (ref_count ob)); [lia|].
      pose proof (Inv_rc_nonneg _ _ _ _ _ _ HI Ho). lia. }
    unfold implicit_weak in Hwrc. rewrite Hr0 in Hwrc. simpl in Hwrc.
    wp_step. wp_step; [simpl; by rewrite Hr0|]. unfold free_obj. wp_step. cbn [heap set_heap].
    rewrite delete_insert_eq, set_heap_twice. split.
    + eapply (Inv_free ext extw pin w o ob); try done; [|lia|lia|lia].
      destruct (Hz Hr0) as [|Hin%cnt_pos]; [done|lia].
    + eapply (frame_free strict own _ _ ob); done.
  - wp_step. split; [|done].
    eapply (Inv_upd ext extw pin ext extw' pin' w o ob); try done; unfold obj_strong, obj_weak; simpl; try lia; try done.
    + intros x Hx. destruct (Hcnt x Hx). lia.
    + unfold implicit_weak; simpl. lia.
    + intros x Hx. destruct (Hcnt x Hx). lia.
    + by eapply Inv_alive_or_unlisted.
Qed.

(** dropping a weak reference that the caller holds *)
Lemma di_drop_weak_ref_spec strict own ext extw pin w o :
  Inv ext (o :: extw) pin w ->
  wp (di_drop_weak_ref o) (fun _ w' => Inv ext extw pin w' /\ frame strict own w w') w.
Proof.
  intros HI. destruct (Inv_weakly_held _ _ _ _ o HI) as [ob Ho]; [by left|].
  eapply di_decrement_weak_ref_count_spec; try done.
  - rewrite cnt_cons_eq. lia.
  - intros x Hx. by rewrite cnt_cons_ne.
  - apply (oi_zombie _ _ _ _ _ _ (inv_obj _ _ _ _ HI _ _ Ho)).
Qed.

(** ** Moving a member out of the table *)

Lemma find_member_split name l v : NoDup (map fst l) -> find_member name l = Some v ->
  exists l1 l2, l = l1 ++ (name, v) :: l2 /\ del_member name l = l1 ++ l2 /\
    next_member name l = first_member l2.
Proof.
  induction l as [|[n w] l IH]; simpl; [done|]. intros [Hn Hnd]%NoDup_cons.
  destruct (String.eqb_spec n name) as [->|Hne]; intros Hf.
  - simplify_eq. exists [], l. done.
  - destruct (IH Hnd Hf) as (l1 & l2 & -> & Hd & Hx).
    exists ((n, w) :: l1), l2. split_and!; [done|simpl; by rewrite Hd|done].
Qed.

Lemma find_member_first n v l : find_member n ((n, v) :: l) = Some v.
Proof. simpl. by rewrite String.eqb_refl. Qed.

Lemma find_member_None name l : find_member name l = None <-> name ∉ map fst l.
Proof.
  induction l as [|[n w] l IH]; simpl; [split; [intros _ ?%not_elem_of_nil; done|done]|].
  destruct (String.eqb_spec n name) as [->|Hne].
  - split; [done|]. intros Hn. exfalso. apply Hn. by left.
  - rewrite IH, not_elem_of_cons. naive_solver.
Qed.

Lemma obj_refs_split (f : val -> list oid) (l1 l2 : list member) n v x :
  cnt x (concat (map (fun m => f (snd m)) (l1 ++ (n, v) :: l2))) =
  (cnt x (f v) + cnt x (concat (map (fun m => f (snd m)) (l1 ++ l2))))%Z.
Proof. rewrite !map_app, !concat_app. simpl. rewrite !cnt_app. lia. Qed.

(** [di_remove_member_raw_impl]: the references of the member go to the caller *)
Lemma remove_member_spec ext extw pin w o ob name v :
  Inv ext extw pin w -> heap w !! o = Some ob -> find_member name (members ob) = Some v ->
  let ob' := set_members (del_member name (members ob)) ob in
  wp (di_remove_member_raw_impl o name)
    (fun r w' => r = v /\ val_ok v = true /\
       w' = set_heap (<[o := ob']> (heap w)) w /\
       Inv (strong_refs v ++ ext) (weak_refs v ++ extw) pin w') w.
Proof.
  intros HI Ho Hf ob'. destruct (inv_obj _ _ _ _ HI _ _ Ho) as [Hrc Hwrc Hwp Hde Hzo Hma Hbo Hva Hna Hst Hwe].
  unfold di_remove_member_raw_impl. wp_step. wp_step. rewrite Hf. wp_step. wp_step. wp_step.
  destruct (find_member_split _ _ _ Hna Hf) as (l1 & l2 & Hl & Hd & _).
  pose proof Hva as Hva'. rewrite Hl in Hva'. apply Forall_app in Hva' as [Hva1 [Hv Hva2]%Forall_cons].
  split_and!; try done.
  assert (Hs : forall x, cnt x (obj_strong ob) = (cnt x (strong_refs v) + cnt x (obj_strong ob'))%Z).
  { intros x. unfold obj_strong, ob'. simpl. rewrite Hd, Hl. apply obj_refs_split. }
  assert (Hk : forall x, cnt x (obj_weak ob) = (cnt x (weak_refs v) + cnt x (obj_weak ob'))%Z).
  { intros x. unfold obj_weak, ob'. simpl. rewrite Hd, Hl. apply obj_refs_split. }
  eapply Inv_upd; try done; unfold ob' in *; simpl; try lia; try done.
  - intros x Hx. rewrite Hs, cnt_app. lia.
  - rewrite Hs, cnt_app. lia.
  - intros x Hx. rewrite Hk, cnt_app. lia.
  - rewrite Hk, cnt_app. unfold implicit_weak; simpl. lia.
  - intros H0. destruct (Hzo H0) as [Hm|Hin]; [by rewrite Hm in Hf|by right].
  - rewrite Hd. by apply Forall_app.
  - rewrite Hd. rewrite Hl, !map_app in Hna. simpl in Hna.
    rewrite map_app. apply NoDup_app in Hna as (N1 & N12 & [_ N2]%NoDup_cons).
    apply NoDup_app. split_and!; try done. intros y Hy Hy2. apply (N12 y Hy). by right.
  - by eapply Inv_alive_or_unlisted.
Qed.

(** ** Deciding the invariant

    On a concrete store the invariant is a computation. *)
Definition obj_invb (ext extw pin : list oid) (h : gmap oid object) (o : oid) (ob : object) : bool :=
  (ref_count ob =? cnt o ext + refs_to h o)%Z &&
  (weak_ref_count ob =? cnt o extw + cnt o pin + wrefs_to h o + implicit_weak ob)%Z &&
  (0 <? weak_ref_count ob)%Z && ((ref_count ob =? 0)%Z || negb (destroyed ob)) &&
  (negb (ref_count ob =? 0)%Z || (length (members ob) =? 0)%nat || bool_decide (o ∈ pin)) &&
  ((mark ob =? 0) || (mark ob =? 2) || (mark ob =? 3))%Z &&
  (ref_count ob <? 2 ^ 64)%Z && (weak_ref_count ob <? 2 ^ 64)%Z &&
  forallb (fun m => val_ok (snd m)) (members ob) &&
  bool_decide (NoDup (map fst (members ob))) &&
  forallb (fun x => bool_decide (is_Some (h !! x))) (obj_strong ob ++ obj_weak ob).

Definition Invb (ext extw pin : list oid) (w : world) : bool :=
  forallb (fun '(o, ob) => obj_invb ext extw pin (heap w) o ob && (o <? next_addr w)%positive)
    (map_to_list (heap w)) &&
  forallb (fun x => bool_decide (is_Some (heap w !! x))) (ext ++ extw ++ pin) &&
  forallb (fun x => match heap w !! x with Some ob => (0 <? ref_count ob)%Z | None => false end) (on_lists w) &&
  bool_decide (NoDup (on_lists w)).

Lemma forallb_Forall {A} (f : A -> bool) l : forallb f l = true <-> Forall (fun x => f x = true) l.
Proof. rewrite forallb_forall, Forall_forall. by setoid_rewrite list_elem_of_In. Qed.

Lemma forallb_some (h : gmap oid object) l :
  forallb (fun x => bool_decide (is_Some (h !! x))) l = true -> Forall (fun x => is_Some (h !! x)) l.
Proof.
  rewrite forallb_Forall. intros H. eapply Forall_impl; [exact H|]. intros x.
  apply bool_decide_eq_true_1.
Qed.

Lemma Invb_sound ext extw pin w : Invb ext extw pin w = true -> Inv ext extw pin w.
Proof.
  unfold Invb. rewrite !andb_true_iff. intros [[[Hobj Hext] Hl] Hnd].
  rewrite forallb_Forall, Forall_forall in Hobj.
  assert (Ho : forall o ob, heap w !! o = Some ob ->
    obj_invb ext extw pin (heap w) o ob = true /\ (o < next_addr w)%positive).
  { intros o ob Ho. specialize (Hobj (o, ob)). rewrite elem_of_map_to_list in Hobj.
    specialize (Hobj Ho). simpl in Hobj. apply andb_true_iff in Hobj as [? ?%Pos.ltb_lt]. done. }
  apply forallb_some in Hext. rewrite !Forall_app in Hext. destruct Hext as (He & Hw & Hp).
  constructor; try done.
  - intros o ob [H _]%Ho. unfold obj_invb in H. rewrite !andb_true_iff in H.
    destruct H as [[[[[[[[[[H1 H2] H3] H4] H5] H6] H7] H8] H9] H10] H11].
    apply forallb_some, Forall_app in H11 as [H11 H12].
    constructor; try done.
    + by apply Z.eqb_eq.
    + by apply Z.eqb_eq.
    + by apply Z.ltb_lt.
    + intros H0. apply orb_true_iff in H4 as [?%Z.eqb_eq|?%negb_true_iff]; done.
    + intros H0. rewrite H0 in H5. simpl in H5. apply orb_true_iff in H5 as [H5|H5].
      * left. by apply Nat.eqb_eq, length_zero_iff_nil in H5.
      * right. by apply bool_decide_eq_true in H5.
    + rewrite !orb_true_iff, !Z.eqb_eq in H6. tauto.
    + split; by apply Z.ltb_lt.
    + by apply forallb_Forall.
    + by apply bool_decide_eq_true in H10.
  - by apply Forall_app.
  - intros o [ob Hob]. by apply (Ho o ob).
  - apply forallb_Forall in Hl. eapply Forall_impl; [exact Hl|]. simpl. intros x Hx.
    destruct (heap w !! x) as [ob|]; [|done]. exists ob. split; [done|]. by apply Z.ltb_lt.
  - by apply bool_decide_eq_true in Hnd.
Qed.
