(* ===== verification/Destroy.v ===== *)
(** * Dropping references and destruction

    [di_unref_object], [di_free_value], [di_finalize_object_inner] and [di_destroy_object]
    against the invariant of [RefCount.v]: with destructors that respect it
    ([env_ok]), dropping a reference runs to completion whatever cascade of destructions it
    starts, never touches freed memory, never fails one of the assertions of [object.c],
    and gives back exactly the references of the caller. *)

From S2P Require Export RefCount.

Section destroy.
Context {E : Env}.

(** a destructor runs on an object under destruction, or on one that the caller holds
    ([di_finalize_object], the cycle collector). It preserves the invariant; [strict]: it
    also changes nothing else that is still referenced *)
Definition dtor_ok (strict : Prop) (N : Z) (d : fnptr) : Prop :=
  forall o ext extw pin w, Inv ext extw pin w -> o ∈ ext ++ pin -> (alive w < N)%Z ->
    wp (env_dtor d o) (fun _ w' => Inv ext extw pin w' /\ frame strict (Some o) w w') w.

Definition env_ok (strict : Prop) (N : Z) : Prop := forall d, dtor_ok strict N d.

Definition unref_ok (strict : Prop) (unref : oid -> M unit) (N : Z) : Prop :=
  forall o ext extw pin w, Inv (o :: ext) extw pin w -> (alive w < N)%Z ->
    wp (unref o) (fun _ w' => Inv ext extw pin w' /\ frame strict None w w') w.

(** a frame shrinks what is alive, so that a bound carries over *)
Lemma frame_bound strict own w w' N : frame strict own w w' -> (alive w < N)%Z -> (alive w' < N)%Z.
Proof. intros [_ _ _ ? _]. lia. Qed.

Section with_unref.
Variables (strict : Prop) (unref : oid -> M unit) (N : Z).
Hypothesis Hunref : unref_ok strict unref N.

(** what freeing the elements of a list needs of each *)
Definition free_spec (v : val) : Prop :=
  val_ok v = true -> forall ext extw pin w,
  Inv (strong_refs v ++ ext) (weak_refs v ++ extw) pin w -> (alive w < N)%Z ->
  wp (free_value_with unref v) (fun _ w' => Inv ext extw pin w' /\ frame strict None w w') w.

Lemma free_list_spec l : Forall free_spec l -> forallb val_ok l = true ->
  forall ext extw pin w,
  Inv (concat (map strong_refs l) ++ ext) (concat (map weak_refs l) ++ extw) pin w ->
  (alive w < N)%Z ->
  wp (mapM_ (free_value_with unref) l)
     (fun _ w' => Inv ext extw pin w' /\ frame strict None w w') w.
Proof using All.
  induction 1 as [|v l Hv _ IH]; simpl; intros Hok ext extw pin w HI Hal.
  { split; [done|apply frame_refl]. }
  apply andb_true_iff in Hok as [Hokv Hokl]. rewrite <- !app_assoc in HI.
  wp_step. eapply wp_mono; [by eapply Hv|]. intros _ w1 [HI1 HF1].
  eapply wp_mono; [eapply IH; [done..|by eapply frame_bound]|]. intros _ w2 [HI2 HF2].
  split; [done|by eapply frame_trans].
Qed.

(** [di_free_value]: the references the value owns are given up *)
Lemma free_value_with_spec v : free_spec v.
Proof using All.
  induction v as [v Hl|et nn l IH|l IH|v IH] using val_ind'; intros Hok ext extw pin w HI Hal.
  - destruct v; try done; simpl in *;
      try (split; [done|apply frame_refl]); try by eapply Hunref.
    by eapply di_drop_weak_ref_spec.
  - simpl in *. rewrite !andb_true_iff in Hok. destruct Hok as [[_ Hnn] Hok].
    destruct l as [|v l].
    + apply eqb_prop in Hnn. subst nn. wp_step; [done|]. split; [done|apply frame_refl].
    + by eapply free_list_spec.
  - simpl in *. by eapply free_list_spec.
  - by apply IH.
Qed.

(** the loop over the members of an object under destruction empties its table *)
Lemma finalize_members_spec l : forall fuel o ext extw pin w ob,
  Inv ext extw pin w -> (alive w < N)%Z -> o ∈ pin ->
  heap w !! o = Some ob -> ref_count ob = 0%Z -> members ob = l -> length l <= fuel ->
  wp (finalize_members unref fuel o (first_member l))
    (fun _ w' => Inv ext extw pin w' /\ frame strict (Some o) w w' /\
       exists ob', heap w' !! o = Some ob' /\ ref_count ob' = 0%Z /\ members ob' = []) w.
Proof using All.
  induction l as [|[n v] l IH]; intros fuel o ext extw pin w ob HI Hal Hpin Ho H0 Hm Hfuel.
  { destruct fuel; simpl; (split; [done|split; [apply frame_refl|eauto]]). }
  destruct fuel as [|fuel]; [simpl in Hfuel; lia|]. simpl in Hfuel.
  cbn [finalize_members first_member head fmap option_fmap option_map fst].
  wp_step. wp_step. rewrite Hm.
  assert (Hn : next_member n ((n, v) :: l) = first_member l)
    by (simpl; by rewrite String.eqb_refl).
  rewrite Hn. wp_step.
  eapply wp_mono; [eapply (remove_member_spec _ _ _ _ _ ob n v); try done|].
  { rewrite Hm. apply find_member_first. }
  cbv beta. intros v' w1 (-> & Hok & -> & HI1).
  assert (Hdel : del_member n (members ob) = l) by (rewrite Hm; simpl; by rewrite String.eqb_refl).
  rewrite Hdel in *.
  set (w1 := set_heap _ w) in *.
  assert (HF1 : frame strict (Some o) w w1).
  { by eapply frame_upd. }
  wp_step. eapply wp_mono; [eapply free_value_with_spec; [done|exact HI1|by eapply frame_bound]|].
  intros _ w2 [HI2 HF2].
  assert (Ho1 : heap w1 !! o = Some (set_members l ob)) by (unfold w1; simpl; by simplify_map_eq).
  assert (Hlt : (o < next_addr w1)%positive).
  { apply (inv_fresh _ _ _ _ HI1). by rewrite Ho1. }
  destruct (Inv_weakly_held _ _ _ _ o HI2) as [ob2 Ho2]; [apply elem_of_app; by right|].
  destruct (fr_dead _ _ _ _ HF2 _ _ _ Hlt Ho1 Ho2 H0) as [H02 Hm2].
  specialize (Hm2 ltac:(done)). simpl in Hm2.
  assert (HF02 : frame strict (Some o) w w2) by (eapply frame_trans; [done|by apply frame_own]).
  eapply wp_mono; [eapply (IH fuel o); try done; [by eapply frame_bound|lia]|].
  intros _ w3 (HI3 & HF3 & Hex). split; [done|]. split; [by eapply frame_trans|done].
Qed.
End with_unref.

(** what destroying leaves alone: from the outside *)
Lemma unref_to_zero strict ext extw pin w o ob :
  Inv (o :: ext) extw pin w -> heap w !! o = Some ob -> ref_count ob = 1%Z ->
  let ob1 := set_destroyed true (set_ref_count 0 ob) in
  let w1 := set_heap (<[o:=ob1]> (heap w))
              (set_unreferred (list_remove_oid o <$> unreferred w)
                (set_isolated (list_remove_oid o (isolated w)) w)) in
  Inv ext extw (o :: pin) w1 /\ frame strict None w w1 /\ alive w1 = (alive w - 1)%Z.
Proof.
  intros HI Ho Hr1 ob1 w1.
  destruct (inv_obj _ _ _ _ HI _ _ Ho) as [Hrc Hwrc Hwp Hde Hzo Hma Hbo Hva Hna Hst Hwe].
  set (wl := set_unreferred (list_remove_oid o <$> unreferred w)
                (set_isolated (list_remove_oid o (isolated w)) w)).
  assert (Hon : forall x, x ∈ on_lists wl <-> x ∈ on_lists w /\ x <> o).
  { intros x. unfold wl, on_lists. simpl. rewrite !elem_of_app. unfold list_remove_oid.
    destruct (unreferred w); simpl; rewrite ?list_elem_of_filter; set_solver. }
  assert (HIl : Inv (o :: ext) extw pin wl).
  { constructor; try apply HI.
    - pose proof (inv_lists _ _ _ _ HI) as HF. rewrite Forall_forall in HF |- *.
      intros x [Hx _]%Hon. by apply HF.
    - pose proof (inv_nodup _ _ _ _ HI) as HN. unfold on_lists, wl in *. simpl.
      assert (Heq : default [] (list_remove_oid o <$> unreferred w) ++ list_remove_oid o (isolated w)
                  = list_remove_oid o (default [] (unreferred w) ++ isolated w)).
      { unfold list_remove_oid. rewrite filter_app. f_equal. by destruct (unreferred w). }
      rewrite Heq. by apply NoDup_filter. }
  assert (HI1 : Inv ext extw (o :: pin) w1).
  { eapply (Inv_upd (o :: ext) extw pin ext extw (o :: pin) wl o ob ob1); try done;
      unfold ob1, obj_strong, obj_weak, implicit_weak; simpl; rewrite ?Hr1; simpl; try lia.
    - intros x Hx. rewrite decide_False by done. lia.
    - rewrite decide_True by done. lia.
    - intros x Hx. rewrite decide_False by done. lia.
    - rewrite decide_True by done. lia.
    - intros x Hx. rewrite decide_False by done. lia.
    - intros _. right. by left.
    - right. intros Hin%Hon. naive_solver. }
  assert (Hup : frame strict None w (set_heap (<[o:=ob1]> (heap w)) w)).
  { eapply frame_upd; try done; [unfold ob1, implicit_weak; by rewrite Hr1|].
    intros _ _. rewrite Hr1, cnt_cons_eq in Hrc. pose proof (cnt_nonneg o ext).
    pose proof (refs_to_nonneg (heap w) o). lia. }
  split; [done|]. split.
  - eapply frame_trans; [exact Hup|].
    set (w2 := set_heap (<[o:=ob1]> (heap w)) w).
    assert (w1 = set_unreferred (list_remove_oid o <$> unreferred w2)
                   (set_isolated (list_remove_oid o (isolated w2)) w2)) as -> by done.
    eapply (frame_list_del strict None w2 o ob1); [|done].
    unfold w2. simpl. by simplify_map_eq.
  - change (alive w1) with (alive (set_heap (<[o:=ob1]> (heap w)) w)).
    rewrite (alive_upd w o ob ob1 Ho). unfold ob1, implicit_weak. rewrite Hr1. simpl. lia.
Qed.

(** [di_finalize_object_inner] of an object whose strong references are gone *)
Lemma finalize_object_inner_spec strict unref N o ext extw pin w ob :
  env_ok strict N -> unref_ok strict unref N ->
  Inv ext extw pin w -> (alive w < N)%Z -> o ∈ pin ->
  heap w !! o = Some ob -> ref_count ob = 0%Z ->
  wp (finalize_object_inner_with unref o)
    (fun _ w' => Inv ext extw pin w' /\ frame strict (Some o) w w' /\
         exists ob', heap w' !! o = Some ob' /\ ref_count ob' = 0%Z /\ members ob' = []) w.
Proof.
  intros Henv Hunref HI Hal Hpin Ho H0. unfold finalize_object_inner_with. wp_step. wp_step.
  wp_step.
  eapply (wp_mono _ (fun _ w' => Inv ext extw pin w' /\ frame strict (Some o) w w')).
  - destruct (dtor ob) as [d|] eqn:Hd; [|wp_step; split; [done|apply frame_refl]].
    wp_step. wp_step.
    set (w1 := set_heap (<[o:=set_dtor None ob]> (heap w)) w).
    assert (HI1 : Inv ext extw pin w1) by (by eapply Inv_same_counts).
    assert (HF1 : frame strict (Some o) w w1).
    { by eapply frame_upd. }
    eapply wp_mono; [eapply Henv; [done|set_solver|by eapply frame_bound]|].
    intros _ w2 [HI2 HF2]. split; [done|by eapply frame_trans].
  - cbv beta. intros _ w1 [HI1 HF1].
    assert (Hlt : (o < next_addr w)%positive).
    { apply (inv_fresh _ _ _ _ HI). by rewrite Ho. }
    destruct (Inv_weakly_held _ _ _ _ o HI1) as [ob1 Ho1]; [apply elem_of_app; by right|].
    destruct (fr_dead _ _ _ _ HF1 _ _ _ Hlt Ho Ho1 H0) as [H01 _].
    wp_step. wp_step. eapply wp_mono.
    { eapply (finalize_members_spec _ _ _ Hunref); try done; [by eapply frame_bound|].
      apply Nat.le_add_r. }
    intros _ w2 (HI2 & HF2 & Hex). split; [done|]. split; [by eapply frame_trans|done].
Qed.

(** [di_unref_object], by induction on the nesting of destructions: every destruction
    that runs inside another one has one strongly referenced object less *)
Definition unref_effect (o : oid) (w w' : world) : Prop :=
  forall ob, heap w !! o = Some ob ->
  if (ref_count ob =? 1)%Z
  then forall ob', heap w' !! o = Some ob' -> ref_count ob' = 0%Z /\ members ob' = []
  else heap w' = <[o := set_ref_count (ref_count ob - 1) ob]> (heap w).

Lemma unref_object_fuel_spec strict N n :
  env_ok strict N -> forall o ext extw pin w,
  Inv (o :: ext) extw pin w -> (alive w < Z.min (Z.of_nat n) N)%Z ->
  wp (unref_object_fuel n o) (fun _ w' => (Inv ext extw pin w' /\ frame strict None w w') /\
    unref_effect o w w') w.
Proof.
  intros Henv. induction n as [|n IH]; intros o ext extw pin w HI Hal.
  { pose proof (alive_nonneg w). lia. }
  destruct (Inv_held _ _ _ _ o HI) as (ob & Ho & Hpos & Hnd); [by left|].
  destruct (inv_obj _ _ _ _ HI _ _ Ho) as [Hrc Hwrc Hwp Hde Hzo Hma Hbo Hva Hna Hst Hwe].
  cbn [unref_object_fuel]. wp_step. wp_step.
  wp_step. wp_step; [by apply Z.ltb_lt|]. wp_step. wp_step; [by rewrite Hnd|].
  wp_step. wp_step. wp_step. wp_step. rewrite u64_small by lia. cbn [mark set_ref_count ref_count].
  wp_step. wp_step; [destruct Hma as [->|[->| ->]]; done|].
  destruct (Z.eqb_spec (ref_count ob - 1) 0) as [H1|H1].
  - assert (Hr1 : ref_count ob = 1%Z) by lia. rewrite H1.
    destruct (unref_to_zero strict _ _ _ _ _ _ HI Ho Hr1) as (HI1 & HF1 & Ha1).
    wp_step. unfold list_del_init. wp_step. simpl.
    unfold destroy_object_with. wp_step. wp_step. wp_step. wp_step; [done|].
    wp_step. cbn [set_ref_count destroyed]. rewrite Hnd. cbn [when]. wp_step.
    wp_step. wp_step. simpl. rewrite insert_insert_eq.
    match goal with |- wp _ _ ?w1 => set (w1' := w1) end.
    assert (Hw1 : w1' = set_heap (<[o:=set_destroyed true (set_ref_count 0 ob)]> (heap w))
              (set_unreferred (list_remove_oid o <$> unreferred w)
                (set_isolated (list_remove_oid o (isolated w)) w))) by done.
    rewrite <- Hw1 in HI1, HF1, Ha1.
    assert (Hlt : (alive w1' < Z.min (Z.of_nat n) N)%Z) by lia.
    wp_step. eapply wp_mono.
    { eapply (finalize_object_inner_spec strict _ (Z.min (Z.of_nat n) N)); try done.
      2: { intros p ext' extw' pin' w' HI' Hal'.
           eapply wp_mono; [by eapply IH|]. by intros _ w'' [? _]. }
      - intros d p ext' extw' pin' w' HI' Hp Hal'. eapply Henv; try done. lia.
      - by left.
      - unfold w1'. simpl. by simplify_map_eq.
      - done. }
    cbv beta. intros _ w2 (HI2 & HF2 & ob2 & Ho2 & H02 & Hm2).
    assert (HF02 : frame strict None w w2).
    { eapply (frame_disown _ o); [intros ?; congruence || (intros; simplify_eq; lia)| |].
      { apply FallenLeaf; [intros ? ?; by simplify_eq|]. rewrite cnt_cons_eq in Hrc.
        pose proof (cnt_nonneg o ext). pose proof (refs_to_nonneg (heap w) o). lia. }
      eapply frame_trans; [by apply frame_own|done]. }
    eapply wp_mono.
    { eapply (di_decrement_weak_ref_count_spec strict None ext extw (o :: pin) extw pin); try done.
      - rewrite cnt_cons_eq. lia.
      - intros x Hx. by rewrite cnt_cons_ne.
      - intros _. by left. }
    cbv beta. intros _ w3 [HI3 HF3]. split; [split; [done|by eapply frame_trans]|].
    intros ob0 Ho0. rewrite Ho in Ho0. injection Ho0 as <-. rewrite Hr1. simpl. intros ob3 Ho3.
    assert (Hlt2 : (o < next_addr w2)%positive) by (apply (inv_fresh _ _ _ _ HI2); by rewrite Ho2).
    destruct (fr_dead _ _ _ _ HF3 _ _ _ Hlt2 Ho2 Ho3 H02) as [H03 Hm3].
    by rewrite H03, Hm3.
  - set (w1 := set_heap (<[o:=set_ref_count (ref_count ob - 1) ob]> (heap w)) w).
    assert (HI1 : Inv ext extw pin w1).
    { eapply (Inv_upd (o :: ext) extw pin ext extw pin); try done;
        unfold obj_strong, obj_weak, implicit_weak; simpl; try lia.
      - intros x Hx. rewrite decide_False by done. lia.
      - rewrite decide_True by done. lia.
      - repeat case_match; lia. }
    assert (HF1 : frame strict None w w1).
    { eapply frame_upd; try done; simpl; try lia.
      unfold implicit_weak. simpl. repeat case_match; lia. }
    assert (Ho1 : heap w1 !! o = Some (set_ref_count (ref_count ob - 1) ob)).
    { unfold w1. simpl. by simplify_map_eq. }
    assert (Heff : forall w', heap w' = heap w1 -> unref_effect o w w').
    { intros w' Hw' ob0 Ho0. rewrite Ho in Ho0. injection Ho0 as <-.
      destruct (Z.eqb_spec (ref_count ob) 1); [lia|done]. }
    wp_step. unfold list_empty_node. wp_step.
    match goal with |- wp (if ?b then _ else _) _ _ => destruct b eqn:Hb end;
      [|wp_step; split; [done|by apply Heff]].
    apply andb_true_iff in Hb as [Hl Hmk]. apply andb_true_iff in Hl as [Hl1 Hl2].
    apply negb_true_iff in Hl1. rewrite bool_decide_eq_false in Hl1.
    apply negb_true_iff in Hl2. rewrite bool_decide_eq_false in Hl2.
    apply Z.eqb_eq in Hmk. wp_step.
    match goal with |- (Inv _ _ _ ?w2 /\ _) /\ _ => set (w2' := w2) end.
    split; [|by apply Heff].
    assert (HF2 : frame strict None w1 w2') by (eapply frame_push; [done|done]).
    split; [|by eapply frame_trans].
    constructor; try apply HI1.
    + pose proof (inv_lists _ _ _ _ HI1) as HF. unfold on_lists, w2' in *. simpl in *.
      apply Forall_cons. split; [|done]. eexists. split; [done|]. simpl. lia.
    + pose proof (inv_nodup _ _ _ _ HI1) as HN. unfold on_lists, w2' in *. simpl in *.
      apply NoDup_cons. split; [|done]. rewrite elem_of_app. naive_solver.
Qed.

Lemma unref_object_fuel_ok strict N n :
  env_ok strict N -> unref_ok strict (unref_object_fuel n) (Z.min (Z.of_nat n) N).
Proof.
  intros Henv o ext extw pin w HI Hal. eapply wp_mono; [by eapply unref_object_fuel_spec|].
  by intros _ w' [? _].
Qed.

(** the public operations *)
Section public.
Variables (strict : Prop) (N : Z).
Hypothesis Henv : env_ok strict N.
Hypothesis HN : (N <= Z.of_nat env_fuel)%Z.

Lemma di_unref_object_ok : unref_ok strict di_unref_object N.
Proof using All.
  intros o ext extw pin w HI Hal. eapply unref_object_fuel_ok; [done..|]. lia.
Qed.

Lemma di_unref_object_spec o ext extw pin w :
  Inv (o :: ext) extw pin w -> (alive w < N)%Z ->
  wp (di_unref_object o) (fun _ w' => (Inv ext extw pin w' /\ frame strict None w w') /\
    unref_effect o w w') w.
Proof using All. intros HI Hal. eapply unref_object_fuel_spec; [done..|]. lia. Qed.

Lemma di_free_value_ok v : free_spec strict di_unref_object N v.
Proof using All. apply free_value_with_spec, di_unref_object_ok. Qed.
End public.
End destroy.
