(* ===== verification/Copy.v ===== *)
(** * Copying values

    [di_copy_value] as an equation: the copy is [clone_val v] and the store gains exactly
    one count per reference inside the value ([add_refs]). *)

From S2P Require Export Destroy.

(** the copy: strings get storage of their own, so their data is never NULL *)
Fixpoint clone_val (v : val) : val :=
  match v with
  | VString s => VString (di_clone_string s)
  | VArray et nn l => VArray et (match l with [] => nn | _ => true end) (map clone_val l)
  | VTuple l => VTuple (map clone_val l)
  | VVariant v => VVariant (clone_val v)
  | _ => v
  end.

(** [di_copy_value] asserts that the elements of an array take up space *)
Fixpoint copyable (v : val) : bool :=
  match v with
  | VArray et _ l => (negb (bool_decide (et = DI_TYPE_NIL)) || bool_decide (l = [])) && forallb copyable l
  | VTuple l => forallb copyable l
  | VVariant v => copyable v
  | _ => true
  end.

(** [s] strong and [wk] weak references are taken *)
Definition add_refs (s wk : list oid) (h : gmap oid object) : gmap oid object :=
  map_imap (fun x ob => Some (set_weak_ref_count (weak_ref_count ob + cnt x wk)
                                (set_ref_count (ref_count ob + cnt x s) ob))) h.

(** the counters have room for them *)
Definition refs_ok (s wk : list oid) (h : gmap oid object) : Prop :=
  (forall x, x ∈ s -> exists ob, h !! x = Some ob /\ (0 <= ref_count ob)%Z /\ (ref_count ob + cnt x s < 2 ^ 64)%Z) /\
  (forall x, x ∈ wk -> exists ob, h !! x = Some ob /\ (0 <= weak_ref_count ob)%Z /\ (weak_ref_count ob + cnt x wk < 2 ^ 64)%Z).

Lemma lookup_add_refs s wk h x : add_refs s wk h !! x =
  (fun ob => set_weak_ref_count (weak_ref_count ob + cnt x wk) (set_ref_count (ref_count ob + cnt x s) ob)) <$> h !! x.
Proof. unfold add_refs. rewrite map_lookup_imap. by destruct (h !! x). Qed.

Lemma add_refs_nil h : add_refs [] [] h = h.
Proof.
  apply map_eq. intros x. rewrite lookup_add_refs. destruct (h !! x) as [ob|]; simpl; [|done].
  f_equal. destruct ob. unfold set_weak_ref_count, set_ref_count. simpl. f_equal; lia.
Qed.

Lemma add_refs_app s1 s2 w1 w2 h :
  add_refs s2 w2 (add_refs s1 w1 h) = add_refs (s1 ++ s2) (w1 ++ w2) h.
Proof.
  apply map_eq. intros x. rewrite !lookup_add_refs. destruct (h !! x) as [ob|]; simpl; [|done].
  f_equal. destruct ob. unfold set_weak_ref_count, set_ref_count. simpl.
  rewrite !cnt_app. f_equal; lia.
Qed.

Lemma refs_ok_app s1 s2 w1 w2 h : refs_ok (s1 ++ s2) (w1 ++ w2) h ->
  refs_ok s1 w1 h /\ refs_ok s2 w2 (add_refs s1 w1 h).
Proof.
  intros [Hs Hw]. split; split; intros x Hx.
  - destruct (Hs x) as (ob & ? & ? & Hb); [apply elem_of_app; by left|]. rewrite cnt_app in Hb.
    pose proof (cnt_nonneg x s2). exists ob. split_and!; [done|done|lia].
  - destruct (Hw x) as (ob & ? & ? & Hb); [apply elem_of_app; by left|]. rewrite cnt_app in Hb.
    pose proof (cnt_nonneg x w2). exists ob. split_and!; [done|done|lia].
  - destruct (Hs x) as (ob & Ho & ? & Hb); [apply elem_of_app; by right|]. rewrite cnt_app in Hb.
    rewrite lookup_add_refs, Ho. pose proof (cnt_nonneg x s1).
    eexists. split_and!; [done|simpl; lia|simpl; lia].
  - destruct (Hw x) as (ob & Ho & ? & Hb); [apply elem_of_app; by right|]. rewrite cnt_app in Hb.
    rewrite lookup_add_refs, Ho. pose proof (cnt_nonneg x w1).
    eexists. split_and!; [done|simpl; lia|simpl; lia].
Qed.

Lemma type_of_clone v : type_of (clone_val v) = type_of v.
Proof. by destruct v. Qed.

Lemma refs_map_clone (f : val -> list oid) l :
  Forall (fun v => f (clone_val v) = f v) l -> map f (map clone_val l) = map f l.
Proof. induction 1; simpl; congruence. Qed.

Lemma strong_refs_clone v : strong_refs (clone_val v) = strong_refs v.
Proof.
  induction v as [v Hl|et nn l IH|l IH|v IH] using val_ind'; [by destruct v| | |done];
    simpl; by rewrite refs_map_clone.
Qed.
Lemma weak_refs_clone v : weak_refs (clone_val v) = weak_refs v.
Proof.
  induction v as [v Hl|et nn l IH|l IH|v IH] using val_ind'; [by destruct v| | |done];
    simpl; by rewrite refs_map_clone.
Qed.
Lemma val_ok_clone v : val_ok v = true -> val_ok (clone_val v) = true.
Proof.
  assert (Hm : forall l, Forall (fun v => val_ok v = true -> val_ok (clone_val v) = true) l ->
    forallb val_ok l = true -> forallb val_ok (map clone_val l) = true).
  { induction 1; simpl; [done|]. rewrite !andb_true_iff. naive_solver. }
  induction v as [v Hl|et nn l IH|l IH|v IH] using val_ind'; [by destruct v| | |done]; simpl.
  - rewrite !andb_true_iff. intros [[He Hn] Hok]. split_and!; [| |by apply Hm].
    + clear -He. induction l as [|v l IHl]; simpl in *; [done|].
      rewrite andb_true_iff in *. destruct He as [He Hl]. rewrite type_of_clone. auto.
    + rewrite length_map. destruct l; [done|]. done.
  - by apply Hm.
Qed.

Lemma copyable_clone v : copyable v = true -> copyable (clone_val v) = true.
Proof.
  assert (Hm : forall l, Forall (fun v => copyable v = true -> copyable (clone_val v) = true) l ->
    forallb copyable l = true -> forallb copyable (map clone_val l) = true).
  { induction 1; simpl; [done|]. rewrite !andb_true_iff. naive_solver. }
  induction v as [v Hl|et nn l IH|l IH|v IH] using val_ind'; [by destruct v| | |done]; simpl.
  - rewrite !andb_true_iff. intros [Hn Hl]. split; [|by apply Hm]. by destruct l.
  - by apply Hm.
Qed.

Lemma sizeof_is_zero_spec t : t <> DI_TYPE_ANY -> t <> DI_LAST_TYPE ->
  forall w, sizeof_is_zero t w = Ret (bool_decide (t = DI_TYPE_NIL)) w.
Proof. intros ?? w. by destruct t. Qed.

Definition copy_spec (v : val) : Prop :=
  val_ok v = true -> copyable v = true -> forall w, refs_ok (strong_refs v) (weak_refs v) (heap w) ->
  di_copy_value v w = Ret (clone_val v) (set_heap (add_refs (strong_refs v) (weak_refs v) (heap w)) w).

Lemma add_refs_one (f : object -> object) s wk h o ob : h !! o = Some ob ->
  f ob = set_weak_ref_count (weak_ref_count ob + cnt o wk) (set_ref_count (ref_count ob + cnt o s) ob) ->
  (forall x, x <> o -> cnt x s = 0%Z /\ cnt x wk = 0%Z) ->
  <[o := f ob]> h = add_refs s wk h.
Proof.
  intros Ho Hf Hx. apply map_eq. intros x. rewrite lookup_add_refs.
  destruct (decide (x = o)) as [->|Hne]; [by rewrite lookup_insert_eq, Ho, Hf|].
  rewrite lookup_insert_ne by done. destruct (Hx x Hne) as [-> ->].
  destruct (h !! x) as [obx|]; [|done]. simpl. f_equal.
  destruct obx; unfold set_weak_ref_count, set_ref_count; simpl. f_equal; lia.
Qed.

Lemma di_ref_object_eq o w : refs_ok [o] [] (heap w) ->
  di_ref_object o w = Ret o (set_heap (add_refs [o] [] (heap w)) w).
Proof.
  intros [Hs _]. destruct (Hs o) as (ob & Ho & ? & Hb); [by left|].
  rewrite cnt_cons_eq in Hb. simpl in Hb.
  unfold di_ref_object, upd_obj, get_obj, put_obj, modify, bind. rewrite Ho.
  rewrite (add_refs_one _ [o] [] (heap w) o ob Ho); [done| |].
  - rewrite cnt_cons_eq, u64_small by lia. simpl.
    destruct ob; unfold set_weak_ref_count, set_ref_count; simpl. f_equal; lia.
  - intros x Hx. by rewrite cnt_cons_ne.
Qed.

Lemma di_weakly_ref_object_eq o w : refs_ok [] [o] (heap w) ->
  di_weakly_ref_object o w = Ret o (set_heap (add_refs [] [o] (heap w)) w).
Proof.
  intros [_ Hs]. destruct (Hs o) as (ob & Ho & ? & Hb); [by left|].
  rewrite cnt_cons_eq in Hb. simpl in Hb.
  unfold di_weakly_ref_object, upd_obj, get_obj, put_obj, modify, bind. rewrite Ho.
  rewrite (add_refs_one _ [] [o] (heap w) o ob Ho); [done| |].
  - rewrite cnt_cons_eq, u64_small by lia. simpl.
    destruct ob; unfold set_weak_ref_count, set_ref_count; simpl. f_equal; lia.
  - intros x Hx. by rewrite cnt_cons_ne.
Qed.

Lemma set_heap_same w : set_heap (heap w) w = w.
Proof. by destruct w. Qed.

(** a list of values, copied from left to right *)
Lemma copy_list (f : val -> M val) l : Forall copy_spec l -> (forall v w, v ∈ l -> f v w = di_copy_value v w) ->
  forallb val_ok l = true -> forallb copyable l = true -> forall w,
  refs_ok (concat (map strong_refs l)) (concat (map weak_refs l)) (heap w) ->
  mapM f l w = Ret (map clone_val l)
    (set_heap (add_refs (concat (map strong_refs l)) (concat (map weak_refs l)) (heap w)) w).
Proof.
  induction 1 as [|v l Hv _ IH]; simpl; intros Hf Hok Hcp w Href.
  { by rewrite add_refs_nil, set_heap_same. }
  apply andb_true_iff in Hok as [Hok1 Hok2]. apply andb_true_iff in Hcp as [Hcp1 Hcp2].
  apply refs_ok_app in Href as [Href1 Href2].
  unfold bind. rewrite Hf by (by left). rewrite Hv by done. cbn [heap set_heap].
  rewrite (IH ltac:(intros; apply Hf; by right) Hok2 Hcp2) by done. simpl.
  by rewrite add_refs_app, set_heap_twice.
Qed.

Lemma di_copy_value_eq v : copy_spec v.
Proof.
  induction v as [v Hl|et nn l IH|l IH|v IH] using val_ind'; intros Hok Hcp w Href.
  - assert (Hnil : add_refs [] [] (heap w) = heap w) by apply add_refs_nil.
    destruct v; try done; simpl; rewrite ?Hnil, ?set_heap_same; try done.
    + unfold bind. by rewrite di_ref_object_eq.
    + unfold bind. by rewrite di_ref_object_eq.
    + unfold bind. by rewrite di_weakly_ref_object_eq.
  - cbn [val_ok copyable] in Hok, Hcp. rewrite !andb_true_iff in Hok. rewrite andb_true_iff in Hcp.
    destruct Hok as [[Het Hnn] Hok]. destruct Hcp as [Hnz Hcp].
    destruct l as [|v l]; [simpl; by rewrite add_refs_nil, set_heap_same|].
    cbn [di_copy_value]. simpl in Hnz.
    assert (He : type_of v = et).
    { simpl in Het. apply andb_true_iff in Het as [Het _]. by apply bool_decide_eq_true in Het. }
    assert (Hv : val_ok v = true) by (simpl in Hok; by apply andb_true_iff in Hok as [? _]).
    unfold bind at 1. rewrite sizeof_is_zero_spec; [|destruct v; simpl in *; congruence..].
    rewrite bool_decide_eq_false_2; [|by intros ->].
    unfold bind at 1. cbn [assert check negb ret].
    unfold bind. by rewrite (copy_list _ (v :: l)).
  - cbn [di_copy_value]. unfold bind. rewrite (copy_list _ l); [done|done| |done..].
    intros v w' Hin. destruct (type_of v) eqn:Ht; try done. exfalso.
    simpl in Hok. rewrite forallb_forall in Hok. specialize (Hok v).
    rewrite <- list_elem_of_In in Hok. specialize (Hok Hin). by destruct v.
  - cbn [di_copy_value]. simpl in Hok, Hcp.
    destruct (type_of v) eqn:Ht; try (unfold bind; rewrite IH by done; done).
    by destruct v.
Qed.

(** ** What taking references does to the invariant *)

(** the strong references lead to objects that are alive, and no counter overflows *)
Definition takable (s wk : list oid) (h : gmap oid object) : Prop :=
  Forall (fun x => exists ob, h !! x = Some ob /\ (0 < ref_count ob)%Z /\ (ref_count ob + cnt x s < 2 ^ 64)%Z) s /\
  Forall (fun x => exists ob, h !! x = Some ob /\ (weak_ref_count ob + cnt x wk < 2 ^ 64)%Z) wk.

Lemma msum_add_refs f s wk h :
  (forall ob a b, f (set_weak_ref_count a (set_ref_count b ob)) = f ob) -> msum f (add_refs s wk h) = msum f h.
Proof.
  intros Hf. unfold add_refs. induction h as [|x ob h Hx IH] using map_ind.
  { by rewrite map_imap_empty. }
  rewrite map_imap_insert_Some with (y := set_weak_ref_count (weak_ref_count ob + cnt x wk)
                                (set_ref_count (ref_count ob + cnt x s) ob)) by done.
  rewrite !msum_insert_new; [by rewrite IH, Hf|done|].
  by rewrite map_lookup_imap, Hx.
Qed.

Lemma takable_refs_ok ext extw pin w s wk :
  Inv ext extw pin w -> takable s wk (heap w) -> refs_ok s wk (heap w).
Proof.
  intros HI [Hs Hw]. rewrite Forall_forall in Hs, Hw. split; intros x Hx.
  - destruct (Hs x Hx) as (ob & ? & ? & ?). exists ob. split_and!; [done|lia|done].
  - destruct (Hw x Hx) as (ob & Ho & ?). exists ob. split_and!; [done| |done].
    pose proof (oi_wpos _ _ _ _ _ _ (inv_obj _ _ _ _ HI _ _ Ho)). lia.
Qed.

Lemma takable_alive s wk h o ob : takable s wk h -> h !! o = Some ob -> (0 < cnt o s)%Z -> (0 < ref_count ob)%Z.
Proof.
  intros [Hs _] Ho Hc%cnt_pos. rewrite Forall_forall in Hs.
  destruct (Hs _ Hc) as (ob' & ? & ? & ?). by simplify_eq.
Qed.

Lemma Inv_add_refs ext extw pin w s wk :
  Inv ext extw pin w -> takable s wk (heap w) ->
  Inv (s ++ ext) (wk ++ extw) pin (set_heap (add_refs s wk (heap w)) w).
Proof.
  intros HI Ht. pose proof Ht as [Hs Hw].
  assert (Hsome : forall x, is_Some (add_refs s wk (heap w) !! x) <-> is_Some (heap w !! x)).
  { intros x. rewrite lookup_add_refs. by rewrite fmap_is_Some. }
  assert (Hr : forall x, refs_to (add_refs s wk (heap w)) x = refs_to (heap w) x)
    by (intros; by apply msum_add_refs).
  assert (Hwr : forall x, wrefs_to (add_refs s wk (heap w)) x = wrefs_to (heap w) x)
    by (intros; by apply msum_add_refs).
  constructor; simpl.
  - intros o ob' Ho'. rewrite lookup_add_refs in Ho'.
    destruct (heap w !! o) as [ob|] eqn:Ho; [|done]. simpl in Ho'. injection Ho' as <-.
    destruct (inv_obj _ _ _ _ HI _ _ Ho) as [Hrc Hwrc Hwp Hde Hzo Hma Hbo Hva Hna Hst Hwe].
    pose proof (cnt_nonneg o s). pose proof (cnt_nonneg o wk).
    pose proof (takable_alive _ _ _ _ _ Ht Ho) as Hal.
    constructor; simpl; try done.
    + rewrite Hr, cnt_app. lia.
    + rewrite Hwr, cnt_app. unfold implicit_weak in *. simpl.
      assert (((0 <? ref_count ob + cnt o s) = (0 <? ref_count ob))%Z) as ->; [|lia].
      destruct (Z.ltb_spec 0 (ref_count ob + cnt o s)), (Z.ltb_spec 0 (ref_count ob)); lia.
    + lia.
    + intros Hne. destruct (decide (ref_count ob = 0)%Z) as [Hz0|]; [|by apply Hde].
      exfalso. destruct (decide (0 < cnt o s)%Z); [specialize (Hal ltac:(done))|]; lia.
    + intros Hz0. apply Hzo. pose proof (Inv_rc_nonneg _ _ _ _ _ _ HI Ho). lia.
    + split.
      * destruct (decide (o ∈ s)) as [Hin|Hin].
        -- rewrite Forall_forall in Hs. destruct (Hs o Hin) as (? & ? & ? & ?). by simplify_eq.
        -- apply cnt_zero in Hin. lia.
      * destruct (decide (o ∈ wk)) as [Hin|Hin].
        -- rewrite Forall_forall in Hw. destruct (Hw o Hin) as (? & ? & ?). by simplify_eq.
        -- apply cnt_zero in Hin. lia.
    + eapply Forall_impl; [exact Hst|]. intros x. apply Hsome.
    + eapply Forall_impl; [exact Hwe|]. intros x. apply Hsome.
  - apply Forall_app. split.
    + eapply Forall_impl; [exact Hs|]. intros x (ob & Hx & _). apply Hsome. by rewrite Hx.
    + eapply Forall_impl; [apply HI|]. intros x. apply Hsome.
  - rewrite <- app_assoc. apply Forall_app. split.
    + eapply Forall_impl; [exact Hw|]. intros x (ob & Hx & _). apply Hsome. by rewrite Hx.
    + eapply Forall_impl; [apply HI|]. intros x. apply Hsome.
  - intros o Ho%Hsome. by apply (inv_fresh _ _ _ _ HI).
  - change (on_lists (set_heap _ w)) with (on_lists w).
    eapply Forall_impl; [apply (inv_lists _ _ _ _ HI)|].
    intros o (ob & Ho & Hp). rewrite lookup_add_refs, Ho. eexists. split; [done|]. simpl.
    pose proof (cnt_nonneg o s). lia.
  - apply (inv_nodup _ _ _ _ HI).
Qed.

Lemma frame_add_refs strict own w s wk :
  takable s wk (heap w) -> frame strict own w (set_heap (add_refs s wk (heap w)) w).
Proof.
  intros Ht.
  assert (Hdead : forall p ob, heap w !! p = Some ob -> ref_count ob = 0%Z -> (ref_count ob + cnt p s = 0)%Z).
  { intros p ob Hp H0. pose proof (takable_alive _ _ _ _ _ Ht Hp). pose proof (cnt_nonneg p s). lia. }
  constructor; simpl.
  - intros z ob ob' _ Hz Hz' H0. rewrite lookup_add_refs, Hz in Hz'. simpl in Hz'.
    injection Hz' as <-. simpl. split; [by eapply Hdead|done].
  - intros z _. rewrite lookup_add_refs. by rewrite fmap_is_Some.
  - lia.
  - assert (Hal : (forall x ob, heap w !! x = Some ob ->
      implicit_weak (set_weak_ref_count (weak_ref_count ob + cnt x wk) (set_ref_count (ref_count ob + cnt x s) ob))
        <= implicit_weak ob)%Z).
    { intros x ob Hx. unfold implicit_weak. simpl. pose proof (takable_alive _ _ _ _ _ Ht Hx).
      pose proof (cnt_nonneg x s).
      destruct (Z.ltb_spec 0 (ref_count ob + cnt x s)), (Z.ltb_spec 0 (ref_count ob)); lia. }
    unfold alive. simpl. clear -Hal. revert Hal. generalize (heap w) as h. intros h.
    unfold add_refs. induction h as [|x ob h Hx IH] using map_ind; intros Hal; [done|].
    rewrite map_imap_insert_Some with (y := set_weak_ref_count (weak_ref_count ob + cnt x wk)
                                (set_ref_count (ref_count ob + cnt x s) ob)) by done.
    rewrite !msum_insert_new; [|done|by rewrite map_lookup_imap, Hx].
    pose proof (Hal x ob ltac:(by rewrite lookup_insert_eq)).
    assert (Hrest := IH ltac:(intros y oby Hy; apply Hal; rewrite lookup_insert_ne; [done|congruence])).
    lia.
  - intros _. constructor; simpl; try by eauto.
    + intros p ob' Hp. rewrite lookup_add_refs in Hp.
      destruct (heap w !! p) as [ob|] eqn:Ho; [|done]. simpl in Hp. injection Hp as <-.
      exists ob. split_and!; try done. by apply Hdead.
    + intros p ob Hp Hne Hg. specialize (Hg _ ltac:(simpl; by rewrite lookup_add_refs, Hp)). simpl in Hg.
      pose proof (takable_alive _ _ _ _ _ Ht Hp). pose proof (cnt_nonneg p s). lia.
Qed.

(** [di_copy_value] against the invariant *)
Lemma di_copy_value_spec strict own ext extw pin w v :
  Inv ext extw pin w -> val_ok v = true -> copyable v = true ->
  takable (strong_refs v) (weak_refs v) (heap w) ->
  wp (di_copy_value v)
    (fun v' w' => v' = clone_val v /\ w' = set_heap (add_refs (strong_refs v) (weak_refs v) (heap w)) w /\
       Inv (strong_refs v' ++ ext) (weak_refs v' ++ extw) pin w' /\ frame strict own w w') w.
Proof.
  intros HI Hok Hcp Ht. eapply wp_of_run.
  { apply di_copy_value_eq; [done..|]. by eapply takable_refs_ok. }
  rewrite strong_refs_clone, weak_refs_clone. split_and!; try done.
  - by apply Inv_add_refs.
  - by apply frame_add_refs.
Qed.
