(* ===== verification/Table.v ===== *)
(** * The raw member table

    [di_add_member], [di_remove_member_raw], [di_delete_member_raw], [di_rawsetx] and
    [di_rawgetx]: what they do to the table, to the references and to the other objects. *)

From S2P Require Export Copy.

Section lists.
Implicit Types (l : list member) (n : string).

Lemma find_member_app n l1 l2 :
  find_member n (l1 ++ l2) = match find_member n l1 with Some v => Some v | None => find_member n l2 end.
Proof. induction l1 as [|[m v] l1 IH]; simpl; [done|]. by destruct (String.eqb m n). Qed.

Lemma find_del_member n l : NoDup (map fst l) -> find_member n (del_member n l) = None.
Proof.
  induction l as [|[m v] l IH]; simpl; [done|]. intros [Hm Hnd]%NoDup_cons.
  destruct (String.eqb_spec m n) as [->|Hne]; simpl.
  - by apply find_member_None.
  - destruct (String.eqb_spec m n); [done|]. by apply IH.
Qed.

Lemma del_member_none n l : find_member n l = None -> del_member n l = l.
Proof.
  induction l as [|[m v] l IH]; simpl; [done|]. destruct (String.eqb m n); [done|].
  intros. by rewrite IH.
Qed.

Lemma find_del_member_ne n n' l : n' <> n -> find_member n' (del_member n l) = find_member n' l.
Proof.
  intros Hne. induction l as [|[m v] l IH]; simpl; [done|].
  destruct (String.eqb_spec m n) as [->|]; simpl.
  - destruct (String.eqb_spec n n'); [congruence|done].
  - by rewrite IH.
Qed.
End lists.

(** ** Sums shrink along quiet frames *)

Lemma msum_le {V} (f : V -> Z) (h h' : gmap oid V) :
  (forall k x, h !! k = Some x -> 0 <= f x)%Z ->
  (forall k x', h' !! k = Some x' -> exists x, h !! k = Some x /\ (f x' <= f x)%Z) ->
  (msum f h' <= msum f h)%Z.
Proof.
  revert h. induction h' as [|k x' h' Hk IH] using map_ind; intros h Hf Hle.
  { rewrite msum_empty. by apply msum_nonneg. }
  destruct (Hle k x') as (x & Hx & ?); [by rewrite lookup_insert_eq|].
  rewrite msum_insert_new, (msum_delete f h k x) by done.
  assert (msum f h' <= msum f (delete k h))%Z; [|lia].
  apply IH.
  - intros j y [_ Hj]%lookup_delete_Some. by eapply Hf.
  - intros j y Hj. assert (j <> k) by congruence.
    destruct (Hle j y) as (z & ? & ?); [by rewrite lookup_insert_ne|].
    exists z. by rewrite lookup_delete_ne.
Qed.

Lemma quiet_members_le ext extw w w' (f : object -> Z) :
  Inv ext extw [] w' -> quiet_frame None w w' ->
  (forall ob, 0 <= f ob)%Z -> (forall ob ob', members ob' = members ob -> f ob' = f ob) ->
  (forall ob, members ob = [] -> f ob = 0%Z) ->
  (msum f (heap w') <= msum f (heap w))%Z.
Proof.
  intros HI HQ Hf Hext Hnil. apply msum_le; [by intros|]. intros p ob' Hp.
  destruct (qf_obj _ _ _ HQ _ _ Hp) as (ob & Ho & _ & _ & _ & Hk). exists ob. split; [done|].
  destruct (decide (ref_count ob' = 0)%Z) as [H0|H0].
  - destruct (oi_zombie _ _ _ _ _ _ (inv_obj _ _ _ _ HI _ _ Hp) H0) as [Hm|Hin].
    + rewrite Hnil by done. apply Hf.
    + by apply not_elem_of_nil in Hin.
  - destruct (Hk H0 ltac:(done)) as [Hm _]. rewrite (Hext _ _ Hm). done.
Qed.

(** an object that is still held has no more references than before *)
Lemma quiet_counts ext extw ext0 extw0 w w' o ob' :
  Inv ext0 extw0 [] w -> Inv ext extw [] w' -> quiet_frame None w w' ->
  heap w' !! o = Some ob' ->
  exists ob, heap w !! o = Some ob /\
    (ref_count ob' - cnt o ext <= ref_count ob - cnt o ext0)%Z /\
    (ref_count ob' <> 0%Z -> weak_ref_count ob' - cnt o extw <= weak_ref_count ob - cnt o extw0)%Z.
Proof.
  intros HI0 HI HQ Ho'. destruct (qf_obj _ _ _ HQ _ _ Ho') as (ob & Ho & _ & _ & Hz & Hk).
  exists ob. split; [done|].
  destruct (inv_obj _ _ _ _ HI _ _ Ho') as [Hrc Hwrc _ _ _ _ _ _ _ _ _].
  destruct (inv_obj _ _ _ _ HI0 _ _ Ho) as [Hrc0 Hwrc0 _ _ _ _ _ _ _ _ _].
  assert (refs_to (heap w') o <= refs_to (heap w) o)%Z.
  { eapply quiet_members_le; [done..| |intros a b Hm; unfold obj_strong; by rewrite Hm|
      intros a Hm; unfold obj_strong; by rewrite Hm]. intros; apply cnt_nonneg. }
  assert (wrefs_to (heap w') o <= wrefs_to (heap w) o)%Z.
  { eapply quiet_members_le; [done..| |intros a b Hm; unfold obj_weak; by rewrite Hm|
      intros a Hm; unfold obj_weak; by rewrite Hm]. intros; apply cnt_nonneg. }
  split; [lia|]. intros Hne. unfold implicit_weak in *. simpl in *.
  pose proof (Inv_rc_nonneg _ _ _ _ _ _ HI0 Ho).
  assert (ref_count ob <> 0%Z) by (intros ?; by apply Hne, Hz).
  destruct (Z.ltb_spec 0 (ref_count ob)); [|lia]. destruct (Z.ltb_spec 0 (ref_count ob')); lia.
Qed.

(** ** Allocation *)

Section alloc.
Variables (ext extw pin : list oid) (w : world).
Hypothesis HI : Inv ext extw pin w.

Lemma fresh_not_live : heap w !! next_addr w = None.
Proof using HI.
  destruct (heap w !! next_addr w) eqn:Ho; [|done].
  pose proof (inv_fresh _ _ _ _ HI (next_addr w) ltac:(by rewrite Ho)). lia.
Qed.

Lemma fresh_unreferenced : cnt (next_addr w) ext = 0%Z /\ cnt (next_addr w) (extw ++ pin) = 0%Z /\
  refs_to (heap w) (next_addr w) = 0%Z /\ wrefs_to (heap w) (next_addr w) = 0%Z.
Proof using HI.
  pose proof fresh_not_live as Hn.
  assert (Hd : ~ is_Some (heap w !! next_addr w)) by (rewrite Hn; by intros [? ?]).
  split_and!.
  - apply cnt_zero. intros Hin. pose proof (inv_ext _ _ _ _ HI) as HF. rewrite Forall_forall in HF.
    by destruct Hd; apply HF.
  - apply cnt_zero. intros Hin. pose proof (inv_extw _ _ _ _ HI) as HF. rewrite Forall_forall in HF.
    by destruct Hd; apply HF.
  - pose proof (refs_to_nonneg (heap w) (next_addr w)).
    destruct (decide (refs_to (heap w) (next_addr w) = 0%Z)); [done|].
    destruct Hd. eapply refs_to_live; [done|lia].
  - pose proof (wrefs_to_nonneg (heap w) (next_addr w)).
    destruct (decide (wrefs_to (heap w) (next_addr w) = 0%Z)); [done|].
    destruct Hd. eapply wrefs_to_live; [done|lia].
Qed.

(** a new object belongs to the caller *)
Lemma Inv_new_object p :
  Inv (next_addr w :: ext) extw pin
    (set_next_addr (Pos.succ (next_addr w)) (set_heap (<[next_addr w := di_init_object p]> (heap w)) w)).
Proof using HI.
  pose proof fresh_not_live as Hn. destruct fresh_unreferenced as (He & Hew & Hr & Hw).
  rewrite cnt_app in Hew. pose proof (cnt_nonneg (next_addr w) extw). pose proof (cnt_nonneg (next_addr w) pin).
  set (o := next_addr w) in *. set (h := <[o := di_init_object p]> (heap w)).
  assert (Hrefs : forall x, refs_to h x = refs_to (heap w) x)
    by (intros x; unfold refs_to, h; by rewrite msum_insert_new).
  assert (Hwrefs : forall x, wrefs_to h x = wrefs_to (heap w) x)
    by (intros x; unfold wrefs_to, h; by rewrite msum_insert_new).
  assert (Hlive : forall x, is_Some (heap w !! x) -> is_Some (h !! x)) by (intros; by apply is_Some_insert).
  constructor; cbn [heap set_next_addr set_heap next_addr]; fold h.
  - intros q ob Hq. destruct (decide (q = o)) as [->|Hne].
    + unfold h in Hq. rewrite lookup_insert_eq in Hq. injection Hq as <-.
      constructor; rewrite ?Hrefs, ?Hwrefs, ?cnt_cons_eq, ?He, ?Hr, ?Hw; cbn; try lia; try done.
      apply NoDup_nil_2.
    + assert (Hq' : heap w !! q = Some ob) by (unfold h in Hq; by rewrite lookup_insert_ne in Hq).
      destruct (inv_obj _ _ _ _ HI _ _ Hq') as [Hrc Hwrc Hwp Hde Hzo Hma Hbo Hva Hna Hst Hwe].
      constructor; rewrite ?Hrefs, ?Hwrefs, ?cnt_cons_ne by done; try done;
        (eapply Forall_impl; [eassumption|auto]).
  - apply Forall_cons. split; [unfold h; by rewrite lookup_insert_eq|].
    eapply Forall_impl; [apply (inv_ext _ _ _ _ HI)|auto].
  - eapply Forall_impl; [apply (inv_extw _ _ _ _ HI)|auto].
  - intros x Hx. destruct (decide (x = o)) as [->|]; [lia|].
    assert (x < o)%positive; [|lia]. apply (inv_fresh _ _ _ _ HI).
    unfold h in Hx. by rewrite lookup_insert_ne in Hx.
  - change (on_lists (set_next_addr _ (set_heap h w))) with (on_lists w).
    eapply Forall_impl; [apply (inv_lists _ _ _ _ HI)|]. simpl. intros x (ob & Hx & ?).
    exists ob. split; [|done]. unfold h. rewrite lookup_insert_ne; [done|]. intros <-. congruence.
  - apply (inv_nodup _ _ _ _ HI).
Qed.

Lemma alive_new_object p :
  alive (set_next_addr (Pos.succ (next_addr w)) (set_heap (<[next_addr w := di_init_object p]> (heap w)) w))
    = (alive w + 1)%Z.
Proof using HI.
  unfold alive. simpl. rewrite msum_insert_new by apply fresh_not_live.
  change (implicit_weak (di_init_object p)) with 1%Z. lia.
Qed.
End alloc.

(** ** Values whose references the caller holds *)

(** room for [k] copies of [v], whose references the caller holds *)
Definition holds_value (k : Z) (ext extw : list oid) (v : val) (h : gmap oid object) : Prop :=
  Forall (fun x => x ∈ ext /\ exists ob, h !! x = Some ob /\
    (ref_count ob + k * cnt x (strong_refs v) < 2 ^ 64)%Z) (strong_refs v) /\
  Forall (fun x => x ∈ ext /\ exists ob, h !! x = Some ob /\
    (weak_ref_count ob + k * cnt x (weak_refs v) < 2 ^ 64)%Z) (weak_refs v).

Lemma holds_takable ext extw pin w v k : (1 <= k)%Z ->
  Inv ext extw pin w -> holds_value k ext extw v (heap w) ->
  takable (strong_refs v) (weak_refs v) (heap w).
Proof.
  intros Hk HI [Hs Hw]. split.
  - eapply Forall_impl; [exact Hs|]. simpl. intros x (Hin & ob & Hx & Hb). exists ob.
    destruct (Inv_held _ _ _ _ _ HI Hin) as (ob' & ? & ? & _). simplify_eq.
    pose proof (cnt_nonneg x (strong_refs v)). split_and!; [done|done|nia].
  - eapply Forall_impl; [exact Hw|]. simpl. intros x (Hin & ob & Hx & Hb). exists ob.
    pose proof (cnt_nonneg x (weak_refs v)). split; [done|nia].
Qed.

Lemma holds_quiet ext extw ext0 extw0 w w' v k :
  Inv (ext0 ++ ext) (extw0 ++ extw) [] w -> Inv ext extw [] w' -> quiet_frame None w w' ->
  holds_value k ext extw v (heap w) -> holds_value k ext extw v (heap w').
Proof.
  intros HI HI' HQ [Hs Hw]. split.
  - eapply Forall_impl; [exact Hs|]. simpl. intros x (Hin & ob & Hx & Hb). split; [done|].
    destruct (Inv_held _ _ _ _ _ HI' Hin) as (ob' & Hx' & Hp & _). exists ob'. split; [done|].
    destruct (quiet_counts _ _ _ _ _ _ _ _ HI HI' HQ Hx') as (? & ? & Hc & _). simplify_eq.
    rewrite cnt_app in Hc. pose proof (cnt_nonneg x ext0). lia.
  - eapply Forall_impl; [exact Hw|]. simpl. intros x (Hin & ob & Hx & Hb). split; [done|].
    destruct (Inv_held _ _ _ _ _ HI' Hin) as (ob' & Hx' & Hp & _). exists ob'. split; [done|].
    destruct (quiet_counts _ _ _ _ _ _ _ _ HI HI' HQ Hx') as (? & ? & _ & Hwk). simplify_eq.
    specialize (Hwk ltac:(lia)). rewrite cnt_app in Hwk. pose proof (cnt_nonneg x extw0). lia.
Qed.

(** room for one copy less once one is taken *)
Lemma holds_add_refs ext extw v k h h' :
  (forall x ob, add_refs (strong_refs v) (weak_refs v) h !! x = Some ob ->
     exists ob', h' !! x = Some ob' /\ ref_count ob' = ref_count ob /\ weak_ref_count ob' = weak_ref_count ob) ->
  holds_value (k + 1) ext extw v h -> holds_value k ext extw v h'.
Proof.
  intros Heq [Hs Hw]. split.
  - eapply Forall_impl; [exact Hs|]. simpl. intros x (Hin & ob & Hx & Hb). split; [done|].
    edestruct (Heq x) as (ob' & ? & Hr & _); [by rewrite lookup_add_refs, Hx|].
    exists ob'. split; [done|]. rewrite Hr. simpl. nia.
  - eapply Forall_impl; [exact Hw|]. simpl. intros x (Hin & ob & Hx & Hb). split; [done|].
    edestruct (Heq x) as (ob' & ? & _ & Hr); [by rewrite lookup_add_refs, Hx|].
    exists ob'. split; [done|]. rewrite Hr. simpl. nia.
Qed.

(** what replacing members of [o] leaves of the other objects *)
Definition others_kept (o : oid) (w w' : world) : Prop :=
  forall p obp', p <> o -> heap w' !! p = Some obp' -> ref_count obp' <> 0%Z ->
    exists obp, heap w !! p = Some obp /\ members obp' = members obp.

Section Table.
Context {E : Env}.

Lemma di_lookup_eq o n ob w : heap w !! o = Some ob ->
  di_lookup o (Some n) w = Ret (find_member n (members ob)) w.
Proof. intros Ho. unfold di_lookup, bind, get_obj. by rewrite Ho. Qed.

Lemma check_new_member_eq o n ob w : heap w !! o = Some ob ->
  check_new_member o (Some n) w =
    Ret (match find_member n (members ob) with Some _ => - EEXIST | None => 0 end)%Z w.
Proof. intros Ho. unfold check_new_member, bind, get_obj. by rewrite Ho. Qed.

Lemma di_insert_member_eq o n v ob w : heap w !! o = Some ob ->
  di_insert_member o (Some n) v w =
    match find_member n (members ob) with
    | Some _ => Ret (- EEXIST)%Z w
    | None => Ret 0%Z (set_heap (<[o := set_members (members ob ++ [(n, v)]) ob]> (heap w)) w)
    end.
Proof.
  intros Ho. unfold di_insert_member. unfold bind at 1. rewrite (check_new_member_eq _ _ ob) by done.
  destruct (find_member n (members ob)); [done|]. simpl.
  unfold upd_obj, put_obj, modify, get_obj, bind, ret. by rewrite Ho.
Qed.

(** ** Changing the table of an object

    [l] replaces the members of an object that is alive; the references that appear in it
    leave the hands of the holder, those that disappear enter them. *)
Lemma Inv_set_members ext extw ext' extw' pin w o ob l :
  Inv ext extw pin w -> heap w !! o = Some ob -> (0 < ref_count ob)%Z ->
  (forall x, cnt x ext' + cnt x (concat (map (fun m => strong_refs (snd m)) l)) =
     cnt x ext + cnt x (obj_strong ob))%Z ->
  (forall x, cnt x extw' + cnt x (concat (map (fun m => weak_refs (snd m)) l)) =
     cnt x extw + cnt x (obj_weak ob))%Z ->
  Forall (fun m => val_ok (snd m) = true) l -> NoDup (map fst l) ->
  Inv ext' extw' pin (set_heap (<[o := set_members l ob]> (heap w)) w).
Proof.
  intros HI Ho Hp Hs Hw Hok Hnd.
  destruct (inv_obj _ _ _ _ HI _ _ Ho) as [Hrc Hwrc Hwp Hde Hzo Hma Hbo Hva Hna Hst Hwe].
  change (concat (map (fun m => strong_refs (snd m)) l)) with (obj_strong (set_members l ob)) in Hs.
  change (concat (map (fun m => weak_refs (snd m)) l)) with (obj_weak (set_members l ob)) in Hw.
  eapply (Inv_upd ext extw pin ext' extw' pin); try done;
    unfold implicit_weak; cbn [ref_count weak_ref_count set_members];
    intros; try lia; try (by left).
  - specialize (Hs o). lia.
  - specialize (Hw x). lia.
  - specialize (Hw o). lia.
Qed.

(** ** Adding *)

(** a new member: the references of the value move from the caller into the graph *)
Lemma di_add_member_new ext extw pin w o n v ob :
  Inv (strong_refs v ++ ext) (weak_refs v ++ extw) pin w ->
  heap w !! o = Some ob -> (0 < ref_count ob)%Z \/ o ∈ pin ->
  find_member n (members ob) = None -> val_ok v = true ->
  let w' := set_heap (<[o := set_members (members ob ++ [(n, v)]) ob]> (heap w)) w in
  di_add_member o (Some n) v w = Ret (inr n) w' /\ Inv ext extw pin w'.
Proof.
  intros HI Ho Hal Hn Hok w'.
  destruct (inv_obj _ _ _ _ HI _ _ Ho) as [Hrc Hwrc Hwp Hde Hzo Hma Hbo Hva Hna Hst Hwe].
  split.
  - unfold di_add_member. change (di_clone_string (Some n)) with (Some n).
    unfold bind. by rewrite (di_insert_member_eq _ _ _ ob), Hn.
  - assert (Hs : forall f : val -> list oid, concat (map (fun m => f (snd m)) (members ob ++ [(n, v)])) =
      concat (map (fun m => f (snd m)) (members ob)) ++ f v).
    { intros f. rewrite map_app, concat_app. simpl. by rewrite app_nil_r. }
    eapply (Inv_upd (strong_refs v ++ ext) (weak_refs v ++ extw) pin ext extw pin); try done;
      unfold obj_strong, obj_weak, implicit_weak; simpl; rewrite ?Hs; try lia.
    + intros x Hx. rewrite !cnt_app. lia.
    + rewrite !cnt_app. lia.
    + intros x Hx. rewrite !cnt_app. lia.
    + rewrite !cnt_app. lia.
    + intros H0. destruct Hal; [lia|by right].
    + apply Forall_app. split; [done|]. by apply Forall_singleton.
    + rewrite map_app. simpl. apply NoDup_app. split_and!; [done| |by apply NoDup_singleton].
      intros x Hx ->%list_elem_of_singleton. apply find_member_None in Hn. by apply Hn.
    + by eapply Inv_alive_or_unlisted.
Qed.

Section ops.
Variables (strict : Prop) (N : Z).
Hypothesis Henv : env_ok strict N.
Hypothesis HN : (N <= Z.of_nat env_fuel)%Z.

(** a member of that name exists: the value is freed *)
Lemma di_add_member_exists ext extw pin w o n v ob v0 :
  Inv (strong_refs v ++ ext) (weak_refs v ++ extw) pin w -> (alive w < N)%Z ->
  heap w !! o = Some ob -> find_member n (members ob) = Some v0 -> val_ok v = true ->
  wp (di_add_member o (Some n) v)
    (fun r w' => r = inl (- EEXIST)%Z /\ Inv ext extw pin w' /\ frame strict None w w') w.
Proof using All.
  intros HI Hal Ho Hn Hok. unfold di_add_member. wp_step.
  change (di_clone_string (Some n)) with (Some n).
  eapply wp_of_run; [by rewrite (di_insert_member_eq _ _ _ ob), Hn|].
  simpl. wp_step. eapply wp_mono; [by eapply di_free_value_ok|].
  intros _ w' [HI' HF']. by wp_step.
Qed.

(** deleting frees the value; nothing else that is alive changes its table *)
Lemma di_delete_member_raw_spec ext extw pin w o n ob v :
  Inv ext extw pin w -> (alive w < N)%Z -> heap w !! o = Some ob ->
  find_member n (members ob) = Some v ->
  let w1 := set_heap (<[o := set_members (del_member n (members ob)) ob]> (heap w)) w in
  wp (di_delete_member_raw o (Some n))
    (fun rc w' => rc = 0%Z /\ Inv ext extw pin w' /\ frame strict None w1 w' /\
       Inv (strong_refs v ++ ext) (weak_refs v ++ extw) pin w1) w.
Proof using All.
  intros HI Hal Ho Hf w1. unfold di_delete_member_raw. wp_step. eapply wp_of_run; [by apply di_lookup_eq|].
  rewrite Hf. simpl. wp_step.
  eapply wp_mono; [by eapply (remove_member_spec _ _ _ _ _ ob n v)|].
  cbv beta. intros v' w1' (-> & Hok & -> & HI1). fold w1 in HI1 |- *.
  wp_step. eapply wp_mono; [eapply di_free_value_ok; [done..|exact HI1|]|].
  { unfold w1. rewrite (alive_upd _ _ ob) by done. unfold implicit_weak. simpl. lia. }
  intros _ w2 [HI2 HF2]. by wp_step.
Qed.
End ops.

Lemma di_delete_member_raw_none w o n ob : heap w !! o = Some ob -> find_member n (members ob) = None ->
  di_delete_member_raw o (Some n) w = Ret (- ENOENT)%Z w.
Proof. intros Ho Hn. unfold di_delete_member_raw, bind. by rewrite (di_lookup_eq _ _ ob), Hn. Qed.

(** ** Reading *)

(** a member read is a copy: the caller owns references of its own *)
Lemma di_rawgetx_spec ext extw pin w o n ob v :
  Inv ext extw pin w -> heap w !! o = Some ob -> find_member n (members ob) = Some v ->
  type_of v <> DI_TYPE_NIL -> copyable v = true ->
  takable (strong_refs v) (weak_refs v) (heap w) ->
  wp (di_rawgetx o (Some n))
    (fun r w' => r = inr (clone_val v) /\
       w' = set_heap (add_refs (strong_refs v) (weak_refs v) (heap w)) w /\
       Inv (strong_refs v ++ ext) (weak_refs v ++ extw) pin w') w.
Proof.
  intros HI Ho Hf Hnil Hcp Ht.
  assert (Hok : val_ok v = true).
  { destruct (inv_obj _ _ _ _ HI _ _ Ho) as [_ _ _ _ _ _ _ Hva Hna _ _].
    destruct (find_member_split _ _ _ Hna Hf) as (l1 & l2 & Hl & _). rewrite Hl in Hva.
    by apply Forall_app in Hva as [_ [? _]%Forall_cons]. }
  unfold di_rawgetx, di_refrawgetx. wp_step. wp_step.
  eapply wp_of_run; [by apply di_lookup_eq|]. rewrite Hf. wp_step.
  eapply wp_of_run; [apply sizeof_is_zero_spec; by destruct v|].
  rewrite bool_decide_eq_false_2 by done. wp_step. wp_step; [done|]. wp_step. wp_step.
  eapply wp_mono; [by eapply (di_copy_value_spec True None)|].
  cbv beta. intros v' w' (-> & -> & HI' & _). wp_step.
  by rewrite strong_refs_clone, weak_refs_clone in HI'.
Qed.

(** ** Setting, with destructors that leave alone what is still referenced *)

Section setx.
Variable N : Z.
Hypothesis Henv : env_ok True N.
Hypothesis HN : (N <= Z.of_nat env_fuel)%Z.

(** the first half of [di_rawsetx]: no member of that name is left *)
Lemma rawsetx_delete ext extw w o n v ob k :
  Inv ext extw [] w -> (alive w < N)%Z -> o ∈ ext -> heap w !! o = Some ob ->
  holds_value k ext extw v (heap w) ->
  wp (di_delete_member_raw o (Some n))
    (fun rc w' => (rc = 0 \/ rc = - ENOENT)%Z /\ Inv ext extw [] w' /\
       holds_value k ext extw v (heap w') /\ others_kept o w w' /\
       exists ob', heap w' !! o = Some ob' /\ members ob' = del_member n (members ob)) w.
Proof using All.
  intros HI Hal Hin Ho Hh. destruct (find_member n (members ob)) as [v0|] eqn:Hf.
  - eapply wp_mono; [by eapply (di_delete_member_raw_spec True N)|].
    cbv beta. intros rc w' (-> & HI' & HF & HI1). set (w1 := set_heap _ w) in *.
    pose proof (fr_quiet _ _ _ _ HF I) as HQ.
    split_and!; [by left|done| | |].
    + eapply (holds_quiet _ _ (strong_refs v0) (weak_refs v0) w1); try done.
      destruct Hh as [Hs Hw]. split; (eapply Forall_impl; [eassumption|]); simpl;
        intros x (? & obx & Hx & ?); (split; [done|]); (destruct (decide (x = o)) as [->|]; simplify_map_eq; eauto).
    + intros p obp' Hne Hp Hr. destruct (qf_obj _ _ _ HQ _ _ Hp) as (obp & Hp1 & _ & _ & _ & Hk).
      unfold w1 in Hp1. simpl in Hp1. rewrite lookup_insert_ne in Hp1 by done.
      exists obp. split; [done|]. by apply Hk.
    + destruct (Inv_held _ _ _ _ _ HI' Hin) as (ob' & Ho' & Hp & _). exists ob'. split; [done|].
      destruct (qf_obj _ _ _ HQ _ _ Ho') as (ob1 & Ho1 & _ & _ & _ & Hk).
      unfold w1 in Ho1. simpl in Ho1. rewrite lookup_insert_eq in Ho1. simplify_eq.
      destruct Hk as [-> _]; [lia|done|done].
  - eapply wp_of_run; [by apply (di_delete_member_raw_none _ _ _ ob)|].
    split_and!; [by right|done|done|intros p obp' _ Hp _; eauto|].
    exists ob. split; [done|]. by rewrite del_member_none.
Qed.

(** [di_rawsetx] replaces the member, or adds it, at the end of the table *)
Lemma di_rawsetx_spec ext extw w o n v ob k : (0 <= k)%Z ->
  Inv ext extw [] w -> (alive w < N)%Z -> o ∈ ext -> heap w !! o = Some ob ->
  type_of v <> DI_TYPE_NIL -> val_ok v = true -> copyable v = true ->
  holds_value (k + 1) ext extw v (heap w) ->
  wp (di_rawsetx o (Some n) v)
    (fun rc w' => rc = 0%Z /\ Inv ext extw [] w' /\
       holds_value k ext extw v (heap w') /\ others_kept o w w' /\
       exists ob', heap w' !! o = Some ob' /\
         members ob' = del_member n (members ob) ++ [(n, clone_val v)]) w.
Proof using All.
  intros Hk HI Hal Hin Ho Hnil Hok Hcp Hh.
  assert (Hnd : NoDup (map fst (members ob))) by apply (inv_obj _ _ _ _ HI _ _ Ho).
  unfold di_rawsetx. wp_step. eapply wp_mono; [by eapply rawsetx_delete|].
  cbv beta. intros rc w1 (Hrc & HI1 & Hh1 & Hot & ob1 & Ho1 & Hm1).
  assert (Hb : (negb (rc =? 0) && negb (rc =? - ENOENT))%Z = false) by (destruct Hrc as [->| ->]; done).
  rewrite Hb. unfold di_add_member_clone, di_add_member_clone2. wp_step. wp_step.
  eapply wp_of_run; [apply sizeof_is_zero_spec; by destruct v|].
  rewrite bool_decide_eq_false_2 by done. wp_step.
  eapply wp_mono; [eapply (di_copy_value_spec True None); try done|].
  { eapply (holds_takable ext extw [] w1 v (k + 1)); try done. lia. }
  cbv beta. intros v' w2 (-> & -> & HI2 & _).
  destruct (Inv_held _ _ _ _ _ HI1 Hin) as (ob1' & Ho1' & Hp1 & _). simplify_eq.
  set (w2 := set_heap _ w1) in *.
  assert (Ho2 : heap w2 !! o = Some (set_weak_ref_count (weak_ref_count ob1 + cnt o (weak_refs v))
                (set_ref_count (ref_count ob1 + cnt o (strong_refs v)) ob1))).
  { unfold w2. simpl. by rewrite lookup_add_refs, Ho1. }
  edestruct (di_add_member_new ext extw [] w2 o n (clone_val v)) as [Hrun HI3]; try done.
  { simpl. pose proof (cnt_nonneg o (strong_refs v)). left. lia. }
  { simpl. rewrite Hm1. by apply find_del_member. }
  { by apply val_ok_clone. }
  eapply wp_of_run; [exact Hrun|]. wp_step.
  split_and!; [done|exact HI3| | |].
  - eapply (holds_add_refs ext extw v k (heap w1)); [|done]. intros x obx Hx. simpl.
    destruct (decide (x = o)) as [->|Hne].
    + rewrite lookup_insert_eq. eexists. split; [done|]. unfold w2 in Ho2. simpl in Ho2.
      by simplify_eq.
    + rewrite lookup_insert_ne by done. eauto.
  - intros p obp' Hne Hp Hr. simpl in Hp. rewrite lookup_insert_ne in Hp by done.
    rewrite lookup_add_refs in Hp. destruct (heap w1 !! p) as [obp1|] eqn:Hp1e; [|done].
    simpl in Hp. injection Hp as <-. simpl in Hr.
    apply (Hot p obp1); [done|done|]. intros H0.
    assert (Ht : takable (strong_refs v) (weak_refs v) (heap w1))
      by (eapply (holds_takable ext extw [] w1 v (k + 1)); try done; lia).
    pose proof (takable_alive _ _ _ _ _ Ht Hp1e). pose proof (cnt_nonneg p (strong_refs v)). lia.
  - simpl. rewrite lookup_insert_eq. eexists. split; [done|]. simpl. by rewrite Hm1.
Qed.
End setx.
End Table.
