(* ===== verification/Reach.v ===== *)
(** * What destruction cannot reach

    Strong references as a graph; the objects that a quiet frame must leave alone: a set
    whose members are held, or referred to from inside the set, keeps everything. And
    [di_finalize_object_inner] of an object that stays referenced, as the cycle collector
    and [di_finalize_object] call it. *)

From S2P Require Export Table.

(** ** The graph of strong references *)

Definition refers (h : gmap oid object) (p q : oid) : Prop :=
  exists ob, h !! p = Some ob /\ q ∈ obj_strong ob.

(** [x] can be reached from one of the references [s] *)
Definition reachable (h : gmap oid object) (s : list oid) (x : oid) : Prop :=
  exists e, e ∈ s /\ rtc (refers h) e x.

Definition alive_obj (w : world) (x : oid) (ob : object) : Prop :=
  heap w !! x = Some ob /\ ref_count ob <> 0%Z.

Section graph.
Context {ext extw pin : list oid} {w : world}.
Hypothesis HI : Inv ext extw pin w.

Lemma refers_alive p q : refers (heap w) p q -> exists ob, alive_obj w q ob.
Proof using HI.
  intros (ob & Hp & Hq). pose proof (refs_to_pos _ _ _ _ Hp Hq) as Hr.
  destruct (refs_to_live _ _ _ _ _ HI Hr) as [obq Hoq]. exists obq. split; [done|].
  rewrite (oi_rc _ _ _ _ _ _ (inv_obj _ _ _ _ HI _ _ Hoq)). pose proof (cnt_nonneg q ext). lia.
Qed.

Lemma held_alive x : x ∈ ext -> exists ob, alive_obj w x ob.
Proof using HI. intros (ob & Ho & Hp & _)%(Inv_held _ _ _ _ _ HI). exists ob. split; [done|lia]. Qed.

Lemma reachable_alive s x : Forall (fun e => exists ob, alive_obj w e ob) s ->
  reachable (heap w) s x -> exists ob, alive_obj w x ob.
Proof using HI.
  rewrite Forall_forall. intros Hs (e & He & Hrtc). apply rtc_inv_r in Hrtc as [->|(y & _ & Hy)]; [by apply Hs|].
  by eapply refers_alive.
Qed.

(** an object with a strong count is held or referred to *)
Lemma alive_reason x ob : alive_obj w x ob -> x ∈ ext \/ exists p, refers (heap w) p x.
Proof using HI.
  intros [Hx Hne]. destruct (decide (x ∈ ext)) as [|Hn]; [by left|right].
  apply cnt_zero in Hn. pose proof (refs_to_nonneg (heap w) x).
  rewrite (oi_rc _ _ _ _ _ _ (inv_obj _ _ _ _ HI _ _ Hx)) in Hne.
  destruct (msum_pos_inv (fun ob => cnt x (obj_strong ob)) (heap w)) as (p & obp & Hp & Hc%cnt_pos);
    [unfold refs_to in *; lia|]. by exists p, obp.
Qed.
End graph.

(** ** What a quiet frame keeps *)

(** what stays of an object *)
Definition same_contents (ob ob' : object) : Prop :=
  members ob' = members ob /\ dtor ob' = dtor ob /\ call ob' = call ob /\ extra ob' = extra ob /\
  destroyed ob' = destroyed ob.

Lemma same_contents_refl ob : same_contents ob ob.
Proof. done. Qed.
Lemma same_contents_trans ob1 ob2 ob3 : same_contents ob1 ob2 -> same_contents ob2 ob3 -> same_contents ob1 ob3.
Proof. intros (?&?&?&?&?) (?&?&?&?&?). split_and!; congruence. Qed.
Lemma same_contents_strong ob ob' : same_contents ob ob' -> obj_strong ob' = obj_strong ob.
Proof. intros [Hm _]. unfold obj_strong. by rewrite Hm. Qed.

(** the objects of [P] are all still there in [w'] with their contents *)
Definition keeps (P : oid -> Prop) (w w' : world) : Prop :=
  forall x, P x -> exists ob ob', alive_obj w x ob /\ alive_obj w' x ob' /\ same_contents ob ob' /\
    mark ob' = mark ob /\ ref_count_scan ob' = ref_count_scan ob.

Lemma quiet_keeps own (P : oid -> Prop) w w' : quiet_frame own w w' ->
  (forall x, P x -> own <> Some x /\ (exists ob, alive_obj w x ob) /\
     (~ gone w' x \/ exists q, P q /\ refers (heap w) q x)) ->
  keeps P w w'.
Proof.
  intros HQ HP.
  assert (Hno : forall x, fallen own w w' x -> P x -> False).
  { induction 1 as [x Hg Hr|x Hg _ IH]; intros Hx; destruct (HP _ Hx) as (Hox & _ & [Hn|(q & Hq & Href)]);
      try by apply Hn.
    - destruct Href as (obq & Hoq & Hin). pose proof (refs_to_pos _ _ _ _ Hoq Hin). lia.
    - destruct Href as (obq & Hoq & Hin). destruct (HP _ Hq) as (Hoq' & (obq' & Haq & Hne) & _).
      simplify_eq. by eapply IH. }
  intros x Hx. destruct (HP _ Hx) as (Hown & (ob & Ho & Hne) & _).
  destruct (gone_or_alive w' x) as [Hg|(ob' & Ho' & Hne')].
  { destruct (Hno x); [|done]. by eapply (qf_fallen _ _ _ HQ). }
  exists ob, ob'. destruct (qf_obj _ _ _ HQ _ _ Ho') as (ob0 & Ho0 & Hm & Hs & _ & Hk). simplify_eq.
  split_and!; try done; by apply Hk.
Qed.

Lemma keeps_trans P w1 w2 w3 : keeps P w1 w2 -> keeps P w2 w3 -> keeps P w1 w3.
Proof.
  intros H1 H2 x Hx. destruct (H1 x Hx) as (ob1 & ob2 & ? & [Ho2 _] & Hs1 & ? & ?).
  destruct (H2 x Hx) as (ob2' & ob3 & [Ho2' _] & ? & Hs2 & ? & ?). simplify_eq.
  exists ob1, ob3. split_and!; try done; [by eapply same_contents_trans|congruence|congruence].
Qed.

Lemma keeps_impl (P P' : oid -> Prop) w w' : (forall x, P' x -> P x) -> keeps P w w' -> keeps P' w w'.
Proof. intros Hi Hk x Hx. by apply Hk, Hi. Qed.

(** what can be reached from kept references can still be reached *)
Lemma keeps_reachable w w' s x : keeps (reachable (heap w) s) w w' ->
  reachable (heap w) s x -> reachable (heap w') s x.
Proof.
  intros Hk (e & He & Hp). exists e. split; [done|].
  revert x Hp. apply rtc_ind_r; [done|]. intros y z Hp Hyz IH. eapply rtc_r; [done|].
  destruct Hyz as (ob & Hoy & Hin).
  destruct (Hk y) as (ob0 & ob' & [Ho0 _] & [Ho' _] & Hs & _); [by exists e|]. simplify_eq.
  exists ob'. split; [done|]. by rewrite (same_contents_strong _ _ Hs).
Qed.

(** what the holder can reach is kept, whatever is destroyed *)
Lemma quiet_keeps_held own ext extw pin ext' extw' pin' w w' s :
  Inv ext extw pin w -> Inv ext' extw' pin' w' -> quiet_frame own w w' ->
  (forall e, e ∈ s -> e ∈ ext) -> (forall e, e ∈ s -> e ∈ ext') ->
  (forall o, own = Some o -> ~ reachable (heap w) s o) ->
  keeps (reachable (heap w) s) w w'.
Proof.
  intros HI HI' HQ Hs Hs' Hown. apply (quiet_keeps own); [done|].
  intros x Hx. split_and!.
  - intros ->. by eapply Hown.
  - eapply (reachable_alive HI); [|done]. apply Forall_forall. intros e He. apply (held_alive HI). auto.
  - destruct Hx as (e & He & Hp). apply rtc_inv_r in Hp as [->|(y & Hp & Hy)].
    + left. intros Hg. destruct (held_alive HI' x (Hs' _ He)) as (ob & Ho & Hne). by apply Hne, Hg.
    + right. exists y. split; [by exists e|done].
Qed.

(** ** Finalizing an object that stays referenced *)

Section held.
Context {E : Env}.
Variables (unref : oid -> M unit) (N : Z).
Hypothesis Henv : env_ok True N.
Hypothesis Hunref : unref_ok True unref N.

Lemma finalize_members_held l : forall fuel o ext extw pin w ob,
  Inv ext extw pin w -> (alive w < N)%Z -> o ∈ ext ->
  heap w !! o = Some ob -> members ob = l -> length l <= fuel ->
  wp (finalize_members unref fuel o (first_member l))
    (fun _ w' => Inv ext extw pin w' /\ frame True (Some o) w w' /\
       exists ob', heap w' !! o = Some ob' /\ members ob' = []) w.
Proof using E Hunref.
  induction l as [|[n v] l IH]; intros fuel o ext extw pin w ob HI Hal Hin Ho Hm Hfuel.
  { destruct fuel; simpl; (split; [done|split; [apply frame_refl|eauto]]). }
  destruct fuel as [|fuel]; [simpl in Hfuel; lia|]. simpl in Hfuel.
  cbn [finalize_members first_member head fmap option_fmap option_map fst].
  wp_step. wp_step. rewrite Hm.
  assert (Hn : next_member n ((n, v) :: l) = first_member l) by (simpl; by rewrite String.eqb_refl).
  rewrite Hn. wp_step.
  eapply wp_mono; [eapply (remove_member_spec _ _ _ _ _ ob n v); try done|].
  { rewrite Hm. apply find_member_first. }
  cbv beta. intros v' w1 (-> & Hok & -> & HI1).
  assert (Hdel : del_member n (members ob) = l) by (rewrite Hm; simpl; by rewrite String.eqb_refl).
  rewrite Hdel in *. set (w1 := set_heap _ w) in *.
  assert (HF1 : frame True (Some o) w w1).
  { by eapply frame_upd. }
  assert (Ho1 : heap w1 !! o = Some (set_members l ob)) by (unfold w1; simpl; by simplify_map_eq).
  wp_step. eapply wp_mono; [eapply free_value_with_spec; [done|done|exact HI1|by eapply frame_bound]|].
  intros _ w2 [HI2 HF2].
  destruct (Inv_held _ _ _ _ o HI2 Hin) as (ob2 & Ho2 & Hpos2 & _).
  destruct (qf_obj _ _ _ (fr_quiet _ _ _ _ HF2 I) _ _ Ho2) as (ob1 & Ho1' & _ & _ & _ & Hk).
  destruct Hk as [Hm2 _]; [lia|done|]. simplify_eq. simpl in Hm2.
  assert (HF02 : frame True (Some o) w w2) by (eapply frame_trans; [done|by apply frame_own]).
  eapply wp_mono; [eapply (IH fuel o); try done; [by eapply frame_bound|lia]|].
  intros _ w3 (HI3 & HF3 & Hex). split; [done|]. split; [by eapply frame_trans|done].
Qed.

(** the object keeps its references and loses its members; its destructor runs once *)
Lemma finalize_object_inner_held o ext extw pin w :
  Inv ext extw pin w -> (alive w < N)%Z -> o ∈ ext ->
  wp (finalize_object_inner_with unref o)
    (fun _ w' => Inv ext extw pin w' /\ frame True (Some o) w w' /\
         exists ob', heap w' !! o = Some ob' /\ members ob' = []) w.
Proof using All.
  intros HI Hal Hin. destruct (Inv_held _ _ _ _ o HI Hin) as (ob & Ho & Hpos & _).
  unfold finalize_object_inner_with. wp_step. wp_step. wp_step.
  eapply (wp_mono _ (fun _ w' => Inv ext extw pin w' /\ frame True (Some o) w w')).
  - destruct (dtor ob) as [d|] eqn:Hd; [|wp_step; split; [done|apply frame_refl]].
    wp_step. wp_step.
    set (w1 := set_heap (<[o:=set_dtor None ob]> (heap w)) w).
    assert (HI1 : Inv ext extw pin w1) by (by eapply Inv_same_counts).
    assert (HF1 : frame True (Some o) w w1) by (by eapply frame_upd).
    eapply wp_mono; [eapply Henv; [done|set_solver|by eapply frame_bound]|].
    intros _ w2 [HI2 HF2]. split; [done|by eapply frame_trans].
  - cbv beta. intros _ w1 [HI1 HF1].
    destruct (Inv_held _ _ _ _ o HI1 Hin) as (ob1 & Ho1 & _).
    wp_step. wp_step. eapply wp_mono.
    { eapply finalize_members_held; try done; [by eapply frame_bound|]. apply Nat.le_add_r. }
    intros _ w2 (HI2 & HF2 & Hex). split; [done|]. split; [by eapply frame_trans|done].
Qed.
End held.
