(* ===== verification/GC.v ===== *)
(** * The cycle collector: the end of [object.c]

    [di_scan_type], the three passes and [di_collect_garbage]. *)

From S2P Require Export Object.

Section GC.
Context {E : Env}.

(** [di_scan_type] of a value; [scan_obj] is what happens at an object. The elements of a
    container are visited in the state of the container. *)
Fixpoint scan_val (scan_obj : oid -> M unit) (v : val) : M unit :=
  match v with
  | VObject o => scan_obj o
  | VArray et _ l =>
      match l with
      | [] => ret tt
      | _ => match di_sizeof_type et with
             | None => stuck Aborted
             | Some _ => mapM_ (scan_val scan_obj) l
             end
      end
  | VTuple l => mapM_ (scan_val scan_obj) l
  | VVariant v => scan_val scan_obj v
  | _ => ret tt
  end.

Section scan.
Variable pre : oid -> bool -> M (option bool).
Variable post : option (oid -> M unit).

(** [di_scan_type (DI_TYPE_OBJECT, &o, pre, state, post)]; a [next_state] of -1 is
    [None], 0 and 1 are [Some false] and [Some true] *)
Fixpoint scan_object (fuel : nat) (state : bool) (o : oid) : M unit :=
  match fuel with
  | O => stuck OutOfFuel
  | S fuel =>
      next_state <- pre o state ;;
      match next_state with
      | None => ret tt
      | Some next_state =>
          hash_iter (fun _ v => scan_val (scan_object fuel next_state) v) o ;;
          match post with Some f => f o | None => ret tt end
      end
  end.
End scan.

(** [di_collect_garbage_mark] *)
Definition di_collect_garbage_mark (o : oid) (_ : bool) : M (option bool) :=
  list_del_init o ;;
  upd_obj o (fun ob => set_scan (u64 (ref_count_scan ob + 1)) ob) ;;
  ob <- get_obj o ;;
  if (mark ob =? 1)%Z then ret None
  else upd_obj o (set_mark 1) ;; ret (Some false).

(** [di_collect_garbage_scan] *)
Definition di_collect_garbage_scan (o : oid) (revive : bool) : M (option bool) :=
  ob <- get_obj o ;;
  assert (negb (ref_count ob <? ref_count_scan ob)%Z) ;;
  if revive || negb (ref_count_scan ob =? ref_count ob)%Z then
    if (mark ob =? 0)%Z then ret None
    else
      upd_obj o (fun ob => set_mark 0 (set_scan 0 ob)) ;;
      ret (Some true)
  else if ((mark ob =? 2) || (mark ob =? 0))%Z then ret None
  else upd_obj o (set_mark 2) ;; ret (Some false).

(** [di_collect_garbage_collect_pre] *)
Definition di_collect_garbage_collect_pre (o : oid) (_ : bool) : M (option bool) :=
  ob <- get_obj o ;;
  if ((mark ob =? 0) || (mark ob =? 3))%Z then ret None
  else
    di_ref_object o ;;
    upd_obj o (set_mark 3) ;;
    ret (Some false).

(** [di_collect_garbage_collect_post] *)
Definition di_collect_garbage_collect_post (o : oid) : M unit :=
  ob <- get_obj o ;;
  assert (mark ob =? 3)%Z ;;
  di_finalize_object_inner o ;;
  di_unref_object o.

(** the first [while (!list_empty (&unreferred_objects))] of a round *)
Fixpoint mark_roots (fuel : nat) : M unit :=
  l <- gets unreferred ;;
  match l with
  | None => stuck NullDereference
  | Some [] => ret tt
  | Some (i :: _) =>
      match fuel with
      | O => stuck OutOfFuel
      | S fuel =>
          ob <- get_obj i ;;
          assert (mark ob =? 0)%Z ;;
          scan_object di_collect_garbage_mark None env_fuel false i ;;
          upd_obj i (fun ob => set_scan (u64 (ref_count_scan ob - 1)) ob) ;;
          modify (fun w => set_isolated (i :: isolated w) w) ;;
          mark_roots fuel
      end
  end.

(** the two [list_for_each_entry] loops over [isolated_roots] *)
Definition scan_roots : M unit :=
  l <- gets isolated ;;
  mapM_ (fun i => scan_object di_collect_garbage_scan None env_fuel false i) l.

Definition drop_revived_roots : M unit :=
  l <- gets isolated ;;
  mapM_ (fun i =>
    ob <- get_obj i ;;
    assert ((mark ob =? 0) || (mark ob =? 2))%Z ;;
    if (mark ob =? 2)%Z then ret tt else list_del_init i) l.

(** [while (!list_empty (&isolated_roots))] *)
Fixpoint collect_roots (fuel : nat) : M unit :=
  l <- gets isolated ;;
  match l with
  | [] => ret tt
  | i :: _ =>
      match fuel with
      | O => stuck OutOfFuel
      | S fuel =>
          scan_object di_collect_garbage_collect_pre (Some di_collect_garbage_collect_post)
            env_fuel false i ;;
          collect_roots fuel
      end
  end.

(** one iteration of the outer loop *)
Definition collect_round : M unit :=
  modify (set_isolated []) ;;
  mark_roots env_fuel ;;
  scan_roots ;;
  drop_revived_roots ;;
  collect_roots env_fuel.

Fixpoint collect_garbage_loop (fuel : nat) : M unit :=
  l <- gets unreferred ;;
  match l with
  | None => stuck NullDereference
  | Some [] => ret tt
  | Some _ =>
      match fuel with
      | O => stuck OutOfFuel
      | S fuel => collect_round ;; collect_garbage_loop fuel
      end
  end.

Definition di_collect_garbage : M unit := collect_garbage_loop env_fuel.
End GC.
