(* ===== verification/Scanning.v ===== *)
(** * Traversals of the collector

    [di_scan_type] visits, in the order of the member table, the references that
    [Value.scan_refs] lists; the graph of these references; worlds that differ only in the
    marks and the scan counts of their objects. *)

From S2P Require Export Reach GC.

(** the references the collector follows from an object *)
Definition obj_scan (ob : object) : list oid := concat (map (fun m => scan_refs (snd m)) (members ob)).

Definition scans (h : gmap oid object) (p q : oid) : Prop :=
  exists ob, h !! p = Some ob /\ q ∈ obj_scan ob.

(** the references followed from an address *)
Definition targets (h : gmap oid object) (p : oid) : list oid :=
  match h !! p with Some ob => obj_scan ob | None => [] end.

Lemma elem_targets h p q : q ∈ targets h p <-> scans h p q.
Proof.
  unfold targets, scans. destruct (h !! p) as [ob|]; [|split; [by intros ?%not_elem_of_nil|naive_solver]].
  split; [eauto|]. by intros (ob' & [= <-] & ?).
Qed.

Lemma obj_scan_strong ob x : (cnt x (obj_scan ob) <= cnt x (obj_strong ob))%Z.
Proof. apply cnt_concat_le. apply Forall_forall. intros m _. apply scan_refs_strong. Qed.

Lemma scans_refers h p q : scans h p q -> refers h p q.
Proof.
  intros (ob & Hp & Hq%cnt_pos). exists ob. split; [done|]. apply cnt_pos.
  pose proof (obj_scan_strong ob q). lia.
Qed.

(** ** The traversal of one object *)

Lemma mapM__app {A} (f : A -> M unit) l1 l2 w : mapM_ f (l1 ++ l2) w = bind (mapM_ f l1) (fun _ => mapM_ f l2) w.
Proof.
  revert w. induction l1 as [|x l1 IH]; intros w; [done|]. simpl. unfold bind at 1 2 3.
  destruct (f x w) as [? w1| |]; [|done|done]. apply IH.
Qed.

Lemma scan_val_run f v : val_ok v = true -> forall w, scan_val f v w = mapM_ f (scan_refs v) w.
Proof.
  assert (Hl : forall l, Forall (fun v => val_ok v = true -> forall w, scan_val f v w = mapM_ f (scan_refs v) w) l ->
    forallb val_ok l = true -> forall w, mapM_ (scan_val f) l w = mapM_ f (concat (map scan_refs l)) w).
  { clear v. induction 1 as [|v l Hv _ IH]; [done|]. simpl. intros [Hok Hoks]%andb_true_iff w.
    rewrite mapM__app. unfold bind. rewrite Hv by done.
    destruct (mapM_ f (scan_refs v) w) as [? w1| |]; [|done|done]. by apply IH. }
  induction v as [v Hv|et nn l IH|l IH|v IH] using val_ind'; intros Hok w.
  - destruct v; try done. simpl. unfold bind. by destruct (f o w) as [[] ?| |].
  - simpl in *. rewrite !andb_true_iff in Hok. destruct Hok as [[Het _] Hok].
    destruct l as [|v l]; [done|].
    assert (exists z, di_sizeof_type et = Some z) as [z ->]; [|by apply Hl].
    simpl in Het, Hok. apply andb_true_iff in Het as [Het%bool_decide_eq_true _].
    apply andb_true_iff in Hok as [Hok _]. subst et. destruct v; simpl; eauto; done.
  - simpl in *. by apply Hl.
  - simpl in *. by apply IH.
Qed.

(** the loop over the members: [Inv l w] when the references [l] are still to be visited *)
Section wp_hash_iter.
Context {E : Env}.
Variables (f : oid -> M unit) (o : oid) (ob : object) (P : list oid -> world -> Prop).
Hypothesis Hnames : NoDup (map fst (members ob)).
Hypothesis Hvals : Forall (fun m => val_ok (snd m) = true) (members ob).
Hypothesis Hsame : forall l w, P l w -> exists ob', heap w !! o = Some ob' /\ members ob' = members ob.
Hypothesis Hvisit : forall x l w, P (x :: l) w -> wp (f x) (fun _ w' => P l w') w.

Lemma wp_visit_all l1 l2 w : P (l1 ++ l2) w -> wp (mapM_ f l1) (fun _ w' => P l2 w') w.
Proof using Hvisit.
  revert w. induction l1 as [|x l1 IH]; intros w HP; [done|]. simpl. wp_step.
  eapply wp_mono; [by apply Hvisit|]. intros [] w1. apply IH.
Qed.

Lemma wp_hash_iter_go l2 : forall l1 fuel w, members ob = l1 ++ l2 -> length l2 <= fuel ->
  P (concat (map (fun m => scan_refs (snd m)) l2)) w ->
  wp (hash_iter_go (fun _ v => scan_val f v) fuel o (first_member l2)) (fun _ w' => P [] w') w.
Proof using All.
  induction l2 as [|[n v] l2 IH]; intros l1 fuel w Hm Hfuel HP; [by destruct fuel|].
  destruct fuel as [|fuel]; [simpl in Hfuel; lia|]. simpl in Hfuel.
  cbn [hash_iter_go first_member head fmap option_fmap option_map fst].
  destruct (Hsame _ _ HP) as (ob' & Ho & Hm'). wp_step. eapply wp_get_obj; [done|]. rewrite Hm', Hm.
  assert (Hni : n ∉ map fst l1).
  { rewrite Hm, map_app in Hnames. apply NoDup_app in Hnames as (_ & Hd & _). intros Hin.
    apply (Hd n Hin). by left. }
  assert (Hf : forall l, n ∉ map fst l -> find_member n (l ++ (n, v) :: l2) = Some v /\
            next_member n (l ++ (n, v) :: l2) = first_member l2).
  { induction l as [|[m u] l IHl]; simpl; intros Hn.
    - by rewrite String.eqb_refl.
    - apply not_elem_of_cons in Hn as [Hn1 Hn2]. destruct (String.eqb_spec m n); [congruence|]. by apply IHl. }
  destruct (Hf l1 Hni) as [-> ->]. wp_step.
  assert (Hok : val_ok v = true).
  { rewrite Hm in Hvals. apply Forall_app in Hvals as [_ [Hv _]%Forall_cons]. done. }
  unfold wp. rewrite (scan_val_run _ _ Hok). apply (wp_visit_all (scan_refs v)) in HP.
  eapply wp_mono; [exact HP|]. intros [] w1 HP1. apply (IH (l1 ++ [(n, v)])); [by rewrite <- app_assoc|lia|done].
Qed.

Lemma wp_hash_iter w : P (obj_scan ob) w ->
  wp (hash_iter (fun _ v => scan_val f v) o) (fun _ w' => P [] w') w.
Proof using All.
  intros HP. destruct (Hsame _ _ HP) as (ob' & Ho & Hm'). unfold hash_iter. wp_step.
  eapply wp_get_obj; [done|]. rewrite Hm'. apply (wp_hash_iter_go (members ob) []); [done| |done]. lia.
Qed.
End wp_hash_iter.

(** ** Repainted worlds

    The first two passes change marks and scan counts only. *)

Definition same_paint (ob ob' : object) : Prop :=
  ob' = set_mark (mark ob') (set_scan (ref_count_scan ob') ob).

Definition over (h : gmap oid object) (w : world) : Prop :=
  forall x, option_Forall2 same_paint (h !! x) (heap w !! x).

Lemma over_lookup h w x ob : over h w -> h !! x = Some ob ->
  exists ob', heap w !! x = Some ob' /\ same_paint ob ob'.
Proof. intros Ho Hx. specialize (Ho x). rewrite Hx in Ho. inversion Ho; eauto. Qed.

Lemma over_lookup_inv h w x ob' : over h w -> heap w !! x = Some ob' ->
  exists ob, h !! x = Some ob /\ same_paint ob ob'.
Proof. intros Ho Hx. specialize (Ho x). rewrite Hx in Ho. inversion Ho; eauto. Qed.

Lemma same_paint_refl ob : same_paint ob ob.
Proof. by destruct ob. Qed.

Lemma over_refl w : over (heap w) w.
Proof. intros x. destruct (heap w !! x); constructor. apply same_paint_refl. Qed.

Lemma same_paint_fields ob ob' : same_paint ob ob' ->
  same_contents ob ob' /\ ref_count ob' = ref_count ob /\ weak_ref_count ob' = weak_ref_count ob.
Proof. by intros ->. Qed.

(** what the traversals rely on: tables have no duplicate names, and what is referred to
    is there *)
Record scannable (h : gmap oid object) : Prop := {
  sc_names : forall o ob, h !! o = Some ob -> NoDup (map fst (members ob));
  sc_vals : forall o ob, h !! o = Some ob -> Forall (fun m => val_ok (snd m) = true) (members ob);
  sc_alive : forall o x, scans h o x -> exists ob, h !! x = Some ob /\ (0 < ref_count ob)%Z;
  sc_count : forall o ob, h !! o = Some ob -> (0 <= ref_count ob < 2 ^ 64)%Z
}.

Lemma Inv_scannable ext extw pin w : Inv ext extw pin w -> scannable (heap w).
Proof.
  intros HI. constructor.
  - intros o ob Ho. apply (inv_obj _ _ _ _ HI _ _ Ho).
  - intros o ob Ho. apply (inv_obj _ _ _ _ HI _ _ Ho).
  - intros o x Hox%scans_refers. destruct (refers_alive HI _ _ Hox) as (ob & Hx & Hne).
    exists ob. split; [done|]. pose proof (Inv_rc_nonneg _ _ _ _ _ _ HI Hx). lia.
  - intros o ob Ho. split; [by eapply Inv_rc_nonneg|]. apply (inv_obj _ _ _ _ HI _ _ Ho).
Qed.

(** the objects of a world, each changed by [g] *)
Definition repaint (g : oid -> object -> object) (w : world) : world :=
  set_heap (map_imap (fun x ob => Some (g x ob)) (heap w)) w.

Lemma lookup_repaint g w x : heap (repaint g w) !! x = g x <$> heap w !! x.
Proof. unfold repaint. simpl. rewrite map_lookup_imap. by destruct (heap w !! x). Qed.

(** a measure for the fuel: a weight for each mark, summed over the objects alive *)
Definition weigh (f : Z -> Z) (w : world) : Z := msum (fun ob => implicit_weak ob * f (mark ob))%Z (heap w).

Lemma weigh_nonneg f w : (forall m, 0 <= f m)%Z -> (0 <= weigh f w)%Z.
Proof.
  intros Hf. apply msum_nonneg. intros x ob _. specialize (Hf (mark ob)). unfold implicit_weak.
  case_match; lia.
Qed.

(** repainting cannot make the world heavier if it makes no mark heavier, and makes it
    lighter where a mark gets lighter *)
Lemma weigh_le f w w' : (forall m, 0 <= f m)%Z -> over (heap w) w' ->
  (forall x ob ob', heap w !! x = Some ob -> heap w' !! x = Some ob' -> f (mark ob') <= f (mark ob))%Z ->
  (weigh f w' <= weigh f w)%Z.
Proof.
  intros Hf Ho Hle. apply msum_le.
  - intros x ob _. specialize (Hf (mark ob)). unfold implicit_weak. case_match; lia.
  - intros x ob' Hx'. destruct (over_lookup_inv _ _ _ _ Ho Hx') as (ob & Hx & Hs).
    exists ob. split; [done|]. specialize (Hle _ _ _ Hx Hx').
    destruct (same_paint_fields _ _ Hs) as (_ & Hr & _). unfold implicit_weak. rewrite Hr. case_match; lia.
Qed.

Lemma weigh_lt f w w' x ob ob' : (forall m, 0 <= f m)%Z -> over (heap w) w' ->
  (forall x ob ob', heap w !! x = Some ob -> heap w' !! x = Some ob' -> f (mark ob') <= f (mark ob))%Z ->
  heap w !! x = Some ob -> heap w' !! x = Some ob' -> (0 < ref_count ob)%Z -> (f (mark ob') < f (mark ob))%Z ->
  (weigh f w' < weigh f w)%Z.
Proof.
  intros Hf Ho Hle Hx Hx' Hr Hlt. unfold weigh.
  rewrite (msum_delete _ _ _ _ Hx), (msum_delete _ _ _ _ Hx').
  assert (Hd : (weigh f (set_heap (delete x (heap w')) w') <= weigh f (set_heap (delete x (heap w)) w))%Z).
  { apply weigh_le; [done| |].
    - intros y. simpl. destruct (decide (x = y)) as [->|Hne]; [rewrite !lookup_delete_eq; constructor|].
      rewrite !lookup_delete_ne by done. apply Ho.
    - simpl. intros y oby oby' [_ Hy]%lookup_delete_Some [_ Hy']%lookup_delete_Some. by eapply Hle. }
  unfold weigh in Hd. simpl in Hd.
  specialize (Ho x). rewrite Hx, Hx' in Ho. inversion Ho as [a b Hab|]; subst.
  destruct (same_paint_fields _ _ Hab) as (_ & Hrc & _). unfold implicit_weak at 1 3. rewrite Hrc.
  destruct (Z.ltb_spec 0 (ref_count ob)); lia.
Qed.
