(* ===== verification/GCMark.v ===== *)
(** * The first pass of the collector

    [di_collect_garbage_mark] from one root visits everything that can be reached from it
    and was not visited before, once; it counts every reference it follows and takes every
    object it meets off the lists. *)

From S2P Require Export Scanning.

(** a scan count after [c] increments *)
Definition bump (c : Z) (ob : object) : object :=
  if (c =? 0)%Z then ob else set_scan (u64 (ref_count_scan ob + c)) ob.

(** the references [T] have been followed, and the objects [vs] were visited for the first
    time *)
Definition touched (T vs : list oid) (w : world) : world :=
  set_unreferred (filter (fun x => x ∉ T) <$> unreferred w)
    (set_isolated (filter (fun x => x ∉ T) (isolated w))
      (repaint (fun x ob => (if bool_decide (x ∈ vs) then set_mark 1 else id) (bump (cnt x T) ob)) w)).

Definition marked (w : world) (x : oid) : Prop := exists ob, heap w !! x = Some ob /\ mark ob = 1%Z.

(** worlds with the same heap that agree elsewhere *)
Lemma world_eq w w' : heap w = heap w' -> set_heap ∅ w = set_heap ∅ w' -> w = w'.
Proof. destruct w, w'. simpl. intros -> [=]. by subst. Qed.

Lemma lookup_touched T vs w x : heap (touched T vs w) !! x =
  (fun ob => (if bool_decide (x ∈ vs) then set_mark 1 else id) (bump (cnt x T) ob)) <$> heap w !! x.
Proof. apply lookup_repaint. Qed.

Lemma bump_bump c c' ob : (0 <= c)%Z -> (0 <= c')%Z -> bump c' (bump c ob) = bump (c + c') ob.
Proof.
  intros. unfold bump. destruct (Z.eqb_spec c 0), (Z.eqb_spec c' 0), (Z.eqb_spec (c + c') 0);
    try lia; simpl; try done; unfold set_scan; simpl; f_equal; unfold u64.
  - by subst.
  - f_equal. lia.
  - rewrite Zplus_mod_idemp_l. f_equal. lia.
Qed.

Lemma touched_touched T1 vs1 T2 vs2 w :
  touched T2 vs2 (touched T1 vs1 w) = touched (T1 ++ T2) (vs1 ++ vs2) w.
Proof.
  unfold touched, set_unreferred, set_isolated, repaint, set_heap. simpl. f_equal.
  - apply map_eq. intros x. rewrite !map_lookup_imap. destruct (heap w !! x) as [ob|]; [|done]. simpl. f_equal.
    rewrite cnt_app, <- bump_bump by apply cnt_nonneg.
    assert (Hc : forall b c o, bump c ((if b : bool then set_mark 1 else id) o) = (if b then set_mark 1 else id) (bump c o)).
    { intros [] c o; [|done]. unfold bump. by destruct (c =? 0)%Z. }
    rewrite Hc. repeat case_bool_decide; try done; exfalso; set_solver.
  - destruct (unreferred w) as [l|]; [|done]. simpl. f_equal. rewrite list_filter_filter.
    apply list_filter_iff. set_solver.
  - rewrite list_filter_filter. apply list_filter_iff. set_solver.
Qed.

Lemma cnt_perm {A} `{EqDecision A} (x : A) l l' : l ≡ₚ l' -> cnt x l = cnt x l'.
Proof. induction 1; simpl; lia. Qed.

Lemma touched_perm T T' vs vs' w : T ≡ₚ T' -> vs ≡ₚ vs' -> touched T vs w = touched T' vs' w.
Proof.
  intros HT Hv. unfold touched, set_unreferred, set_isolated, repaint, set_heap. simpl. f_equal.
  - apply map_eq. intros x. rewrite !map_lookup_imap. destruct (heap w !! x) as [ob|]; [|done]. simpl. f_equal.
    rewrite (cnt_perm x T T') by done. by rewrite (bool_decide_ext (x ∈ vs) (x ∈ vs')) by (by rewrite Hv).
  - destruct (unreferred w) as [l|]; [|done]. simpl. f_equal. apply list_filter_iff. intros y. by rewrite HT.
  - apply list_filter_iff. intros y. by rewrite HT.
Qed.

Lemma touched_paint T vs w : over (heap w) (touched T vs w).
Proof.
  intros x. rewrite lookup_touched. destruct (heap w !! x) as [ob|]; simpl; constructor.
  unfold same_paint, bump. destruct ob. by repeat case_match.
Qed.

Lemma over_trans h w w' : over h w -> over (heap w) w' -> over h w'.
Proof.
  intros H1 H2 x. specialize (H1 x). specialize (H2 x).
  destruct (heap w !! x) as [b|]; inversion H2 as [? c Hbc|]; inversion H1 as [a ? Hab|]; constructor.
  subst. unfold same_paint in *. rewrite Hbc, Hab. done.
Qed.

Lemma marked_touched T vs w x :
  marked (touched T vs w) x <-> marked w x \/ (x ∈ vs /\ is_Some (heap w !! x)).
Proof.
  unfold marked. rewrite lookup_touched. destruct (heap w !! x) as [ob|]; simpl.
  - case_bool_decide.
    + split; [intros _; right; eauto|]. intros _. eexists. split; [done|]. done.
    + assert (mark (bump (cnt x T) ob) = mark ob) as Hm by (unfold bump; by case_match).
      split; [intros (ob' & [= <-] & Hk); left; exists ob; split; [done|]; unfold id in *; congruence|].
      intros [(ob' & [= <-] & Hk)|[]]; [|done]. eexists. split; [done|]. unfold id. congruence.
  - split; [naive_solver|]. intros [(? & ? & _)|[_ [? ?]]]; done.
Qed.

Lemma touched_lists T vs (un iso : list oid) w :
  touched T vs (set_unreferred (Some un) (set_isolated iso w)) =
  set_unreferred (Some (filter (fun x => x ∉ T) un)) (set_isolated (filter (fun x => x ∉ T) iso) (touched T vs w)).
Proof. done. Qed.

Lemma touched_nothing w : touched [] [] w = w.
Proof.
  unfold touched, set_unreferred, set_isolated, repaint, set_heap. destruct w as [hp na un iso r lm sl ec q tr]; simpl. f_equal.
  - apply map_eq. intros x. rewrite map_lookup_imap. simpl. by destruct (_ !! x).
  - destruct un as [l|]; simpl; [|done]. f_equal. induction l as [|y l IH]; [done|].
    rewrite filter_cons_True by apply not_elem_of_nil. f_equal. exact IH.
  - induction iso as [|y l IH]; [done|].
    rewrite filter_cons_True by apply not_elem_of_nil. f_equal. exact IH.
Qed.

Definition unmarked_weight (m : Z) : Z := if (m =? 1)%Z then 0%Z else 1%Z.
Definition unmarked (w : world) : Z := weigh unmarked_weight w.
Lemma unmarked_weight_nonneg m : (0 <= unmarked_weight m)%Z.
Proof. unfold unmarked_weight. by case_match. Qed.

Lemma touched_mark T vs w x ob : heap w !! x = Some ob ->
  exists ob', heap (touched T vs w) !! x = Some ob' /\
    mark ob' = (if bool_decide (x ∈ vs) then 1%Z else mark ob) /\
    ref_count_scan ob' = (if (cnt x T =? 0)%Z then ref_count_scan ob else u64 (ref_count_scan ob + cnt x T)).
Proof.
  intros Hx. rewrite lookup_touched, Hx. simpl. eexists. split; [done|].
  unfold bump. case_bool_decide; case_match; done.
Qed.

Lemma unmarked_le T vs w : (unmarked (touched T vs w) <= unmarked w)%Z.
Proof.
  apply weigh_le; [apply unmarked_weight_nonneg|apply touched_paint|]. intros x ob ob' Hx Hx'.
  destruct (touched_mark T vs w x ob Hx) as (ob'' & Hx'' & Hmk & _); simplify_eq; rewrite Hmk.
  case_bool_decide; [|lia]. unfold unmarked_weight. simpl. by case_match.
Qed.

Lemma unmarked_lt T vs w x ob : heap w !! x = Some ob -> (0 < ref_count ob)%Z -> mark ob <> 1%Z -> x ∈ vs ->
  (unmarked (touched T vs w) < unmarked w)%Z.
Proof.
  intros Hx Hr Hm Hin. destruct (touched_mark T vs w x ob Hx) as (ob' & Hx' & Hm' & _).
  rewrite bool_decide_true in Hm' by done.
  eapply weigh_lt; [apply unmarked_weight_nonneg|apply touched_paint| |done..|].
  - intros y oby oby' Hy Hy'. destruct (touched_mark T vs w y oby Hy) as (ob'' & Hx'' & Hmk & _); simplify_eq; rewrite Hmk.
    case_bool_decide; [|lia]. unfold unmarked_weight. simpl. by case_match.
  - rewrite Hm'. unfold unmarked_weight. simpl. destruct (Z.eqb_spec (mark ob) 1); [done|lia].
Qed.

Section mark_done.
Variables (h : gmap oid object).

(** what a visit of the references [l] has done *)
Definition mark_done (l : list oid) (w w' : world) : Prop :=
  exists vs, w' = touched (l ++ concat (map (targets h) vs)) vs w /\ NoDup vs /\
    Forall (fun v => ~ marked w v /\ is_Some (heap w !! v)) vs /\
    (forall x, x ∈ l ++ concat (map (targets h) vs) -> marked w x \/ x ∈ vs) /\
    (forall v, v ∈ vs -> v ∈ l ++ concat (map (targets h) vs)) /\
    (forall v, v ∈ vs -> exists o, o ∈ l /\ rtc (scans h) o v).

Lemma mark_done_nil w : mark_done [] w w.
Proof.
  exists []. split_and!; try done.
  - by rewrite touched_nothing.
  - constructor.
  - by intros x ?%not_elem_of_nil.
  - by intros x ?%not_elem_of_nil.
Qed.

Lemma mark_done_app l1 l2 w w1 w2 :
  mark_done l1 w w1 -> mark_done l2 w1 w2 -> mark_done (l1 ++ l2) w w2.
Proof.
  intros (vs1 & -> & N1 & F1 & C1 & I1 & R1) (vs2 & -> & N2 & F2 & C2 & I2 & R2).
  rewrite Forall_forall in F1, F2. exists (vs1 ++ vs2). split_and!.
  - rewrite touched_touched. apply touched_perm; [|done]. rewrite map_app, concat_app.
    solve_Permutation.
  - apply NoDup_app. split_and!; try done. intros x Hx1 Hx2. destruct (F2 _ Hx2) as [Hn _].
    apply Hn. apply marked_touched. right. split; [done|]. by apply F1.
  - rewrite Forall_forall. intros v [Hv|Hv]%elem_of_app; [by apply F1|].
    destruct (F2 _ Hv) as [Hn Hs]. split.
    + intros Hm. apply Hn, marked_touched. by left.
    + rewrite lookup_touched in Hs. by rewrite fmap_is_Some in Hs.
  - intros x Hx. rewrite map_app, concat_app, !elem_of_app in Hx.
    assert (Hx' : x ∈ l1 ++ concat (map (targets h) vs1) \/ x ∈ l2 ++ concat (map (targets h) vs2)) by set_solver.
    destruct Hx' as [Hx'|Hx'].
    + destruct (C1 _ Hx'); set_solver.
    + destruct (C2 _ Hx') as [[Hm|[Hin _]]%marked_touched|Hin]; set_solver.
  - intros v Hv. rewrite map_app, concat_app.
    apply elem_of_app in Hv as [Hv|Hv]; [apply I1 in Hv|apply I2 in Hv]; set_solver.
  - intros v [Hv|Hv]%elem_of_app; [destruct (R1 _ Hv) as (o & ? & ?)|destruct (R2 _ Hv) as (o & ? & ?)];
      exists o; set_solver.
Qed.
(** visiting [o] for the first time and then what it refers to *)
Lemma mark_done_visit o ob w w' : heap w !! o = Some ob -> over h w -> ~ marked w o ->
  mark_done (targets h o) (touched [o] [o] w) w' -> mark_done [o] w w'.
Proof.
  intros Ho Hov Hm (vs & -> & N & F & C & I1 & R). rewrite Forall_forall in F.
  assert (Hmo : forall x, marked (touched [o] [o] w) x <-> marked w x \/ x = o).
  { intros x. rewrite marked_touched, list_elem_of_singleton. split; [tauto|].
    intros [| ->]; [by left|right]. by rewrite Ho. }
  exists (o :: vs). split_and!.
  - rewrite touched_touched. by apply touched_perm.
  - apply NoDup_cons. split; [|done]. intros Hin. destruct (F _ Hin) as [Hn _]. apply Hn, Hmo. by right.
  - apply Forall_cons. split; [by rewrite Ho|]. apply Forall_forall. intros v Hv.
    destruct (F _ Hv) as [Hn Hs]. split; [intros Hx; apply Hn, Hmo; by left|].
    rewrite lookup_touched in Hs. by rewrite fmap_is_Some in Hs.
  - intros x. simpl. intros [->|Hx]%elem_of_cons; [right; by left|].
    destruct (C x Hx) as [[?| ->]%Hmo|]; [by left|right; by left|right; by right].
  - intros v [->|Hv]%elem_of_cons; [by left|]. right. by apply I1.
  - intros v [->|Hv]%elem_of_cons; [exists o; split; [by left|done]|].
    destruct (R _ Hv) as (y & Hy%elem_targets & Hp). exists o. split; [by left|]. by eapply rtc_l.
Qed.
End mark_done.

(** [di_collect_garbage_mark] at one object *)
Lemma touched_one o vs ob w : heap w !! o = Some ob -> vs = [] \/ vs = [o] ->
  touched [o] vs w =
    set_heap (<[o := (if bool_decide (o ∈ vs) then set_mark 1 else id) (set_scan (u64 (ref_count_scan ob + 1)) ob)]> (heap w))
      (set_unreferred (list_remove_oid o <$> unreferred w) (set_isolated (list_remove_oid o (isolated w)) w)).
Proof.
  intros Ho Hvs. unfold touched, set_unreferred, set_isolated, repaint, set_heap. simpl. f_equal.
  - apply map_eq. intros x. rewrite map_lookup_imap. destruct (decide (x = o)) as [->|Hne].
    + rewrite Ho, lookup_insert_eq. simpl. f_equal.
    + rewrite lookup_insert_ne by done. destruct (heap w !! x) as [obx|]; [|done].
      rewrite bool_decide_false; [done|].
      destruct Hvs as [-> | ->]; [apply not_elem_of_nil|by rewrite list_elem_of_singleton].
  - destruct (unreferred w) as [l|]; [|done]. simpl. f_equal. apply list_filter_iff. intros y.
    by rewrite list_elem_of_singleton.
  - apply list_filter_iff. intros y. by rewrite list_elem_of_singleton.
Qed.

Lemma di_collect_garbage_mark_run o s w ob : heap w !! o = Some ob ->
  di_collect_garbage_mark o s w =
    if (mark ob =? 1)%Z then Ret None (touched [o] [] w) else Ret (Some false) (touched [o] [o] w).
Proof.
  intros Ho. rewrite !(touched_one o _ ob w) by auto. unfold di_collect_garbage_mark, upd_obj.
  unfold bind, list_del_init, modify, get_obj, put_obj. simpl. rewrite Ho. simpl.
  rewrite lookup_insert_eq. simpl. destruct (mark ob =? 1)%Z; [done|]. unfold upd_obj, bind, get_obj, put_obj.
  cbn [heap set_heap]. rewrite lookup_insert_eq, bool_decide_true by (by left). unfold modify, set_heap, ret. simpl.
  by rewrite insert_insert_eq.
Qed.

(** between two collections nothing that is alive is marked or counted *)
Definition calm (w : world) : Prop :=
  forall o ob, alive_obj w o ob -> mark ob = 0%Z /\ ref_count_scan ob = 0%Z.

Section mark.
Context {E : Env}.
Variables (h : gmap oid object).
Hypothesis Hsc : scannable h.

(** enough fuel: more than there are objects left to mark *)
Lemma mark_visit fuel : forall w o ob, over h w -> h !! o = Some ob -> (0 < ref_count ob)%Z ->
  (unmarked w < Z.of_nat fuel)%Z ->
  wp (scan_object di_collect_garbage_mark None fuel false o) (fun _ w' => mark_done h [o] w w') w.
Proof using Hsc.
  induction fuel as [|fuel IH]; intros w o ob Hov Ho Hpos Hfuel.
  { pose proof (weigh_nonneg unmarked_weight w unmarked_weight_nonneg). unfold unmarked in *. lia. }
  destruct (over_lookup _ _ _ _ Hov Ho) as (ob1 & Ho1 & Hp1).
  destruct (same_paint_fields _ _ Hp1) as (_ & Hr1 & _).
  cbn [scan_object]. wp_step.
  pose proof (di_collect_garbage_mark_run o false w ob1 Ho1) as Hrun.
  destruct (Z.eqb_spec (mark ob1) 1) as [Hm|Hm]; (eapply wp_of_run; [exact Hrun|]; cbv beta iota).
  - wp_step. exists []. split_and!; [done|constructor|constructor| |by intros v ?%not_elem_of_nil..].
    intros x. simpl. intros ->%list_elem_of_singleton. left. by exists ob1.
  - wp_step. set (w1 := touched [o] [o] w).
    assert (Hov1 : over h w1) by (eapply over_trans; [done|apply touched_paint]).
    assert (Hfuel1 : (unmarked w1 < unmarked w)%Z).
    { eapply unmarked_lt; [done|lia|done|]. by left. }
    eapply wp_mono; [eapply (wp_hash_iter _ o ob (fun l w2 => exists d, targets h o = d ++ l /\ mark_done h d w1 w2))|].
    + by eapply sc_names.
    + by eapply sc_vals.
    + intros l w2 (d & _ & vs & -> & _).
      destruct (over_lookup h (touched (d ++ concat (map (targets h) vs)) vs w1) o ob) as (ob2 & Ho2 & Hp2);
        [by eapply over_trans, touched_paint|done|].
      exists ob2. split; [done|]. by destruct (same_paint_fields _ _ Hp2) as ([? _] & _).
    + intros x l w2 (d & Hd & Hdone).
      assert (Hx : scans h o x) by (apply elem_targets; rewrite Hd; set_solver).
      destruct (sc_alive _ Hsc _ _ Hx) as (obx & Hox & Hposx).
      pose proof Hdone as (vs & Hw2 & _).
      eapply wp_mono; [eapply (IH w2 x obx); [|done|done|]|].
      * rewrite Hw2. by eapply over_trans, touched_paint.
      * rewrite Hw2. pose proof (unmarked_le (d ++ concat (map (targets h) vs)) vs w1). lia.
      * intros [] w3 H3. exists (d ++ [x]). split; [by rewrite <- app_assoc|]. by eapply mark_done_app.
    + exists []. split; [|apply mark_done_nil]. unfold targets. by rewrite Ho.
    + intros [] w2 (d & Hd & Hdone). wp_step. rewrite app_nil_r in Hd. subst d.
      eapply mark_done_visit; try done. intros (ob2 & Ho2 & Hm2). simplify_eq.
Qed.
End mark.

(** ** All the roots

    [V] has been visited, [un] is what is left of [unreferred_objects], [iso] the isolated
    roots so far. *)
Section roots.
Context {E : Env}.
Variables (w0 : world) (un0 : list oid).
Notation h := (heap w0).

Definition followed (V : list oid) : list oid := concat (map (targets h) V).

Lemma elem_followed V x : x ∈ followed V <-> exists v, v ∈ V /\ scans h v x.
Proof.
  unfold followed. induction V as [|v V IH]; simpl.
  { split; [by intros ?%not_elem_of_nil|]. by intros (v & ?%not_elem_of_nil & _). }
  rewrite elem_of_app, elem_targets, IH. split.
  - intros [?|(u & ? & ?)]; [exists v|exists u]; (split; [|done]); [by left|by right].
  - intros (u & [->|Hu]%elem_of_cons & ?); [by left|right; eauto].
Qed.

Record marking (V un iso : list oid) (w : world) : Prop := {
  mk_world : w = set_unreferred (Some un) (set_isolated iso (touched (followed V) V w0));
  mk_nodup : NoDup V;
  mk_alive : forall v, v ∈ V -> exists ob, alive_obj w0 v ob;
  mk_closed : forall v q, v ∈ V -> scans h v q -> q ∈ V;
  mk_un : forall i, i ∈ un -> i ∈ un0 /\ i ∉ V;
  mk_un0 : forall i, i ∈ un0 -> i ∈ un \/ i ∈ V;
  mk_iso_nodup : NoDup iso;
  mk_iso : forall i, i ∈ iso -> i ∈ un0 /\ i ∈ V;
  mk_reach : forall v, v ∈ V -> exists r, r ∈ iso /\ rtc (scans h) r v;
  mk_in : forall r v, r ∈ iso -> v ∈ V -> scans h v r -> rtc (scans h) r v
}.

Lemma alter_present {A} (f : A -> A) (m : gmap oid A) i x : m !! i = Some x -> alter f i m = <[i := f x]> m.
Proof.
  intros Hi. apply map_eq. intros j. destruct (decide (i = j)) as [<-|].
  - by rewrite lookup_alter_eq, Hi, lookup_insert_eq.
  - by rewrite lookup_alter_ne, lookup_insert_ne.
Qed.

(** a root has been visited, uncounted and isolated *)
Definition isolate (i : oid) (w : world) : world :=
  set_isolated (i :: isolated w)
    (set_heap (alter (fun ob => set_scan (u64 (ref_count_scan ob - 1)) ob) i (heap w)) w).

Lemma isolate_touched V vs i ob (un iso : list oid) : calm w0 -> alive_obj w0 i ob ->
  isolate i (set_unreferred (Some un) (set_isolated iso (touched (followed V ++ i :: followed vs) (V ++ vs) w0)))
  = set_unreferred (Some un) (set_isolated (i :: iso) (touched (followed (V ++ vs)) (V ++ vs) w0)).
Proof.
  intros Hcalm Hi. destruct (Hcalm _ _ Hi) as [_ Hs]. destruct Hi as [Hi _].
  apply world_eq; [|done]. apply map_eq. intros x.
  change (alter (fun ob => set_scan (u64 (ref_count_scan ob - 1)) ob) i
            (heap (touched (followed V ++ i :: followed vs) (V ++ vs) w0)) !! x =
          heap (touched (followed (V ++ vs)) (V ++ vs) w0) !! x).
  unfold followed. rewrite map_app, concat_app.
  destruct (decide (x = i)) as [->|Hne].
  - rewrite lookup_alter_eq, !lookup_touched, Hi. simpl. f_equal.
    rewrite !cnt_app, cnt_cons_eq. set (c := cnt i (concat (map (targets h) V))).
    set (d := cnt i (concat (map (targets h) vs))).
    assert (0 <= c)%Z by apply cnt_nonneg. assert (0 <= d)%Z by apply cnt_nonneg.
    replace (c + (1 + d))%Z with (c + d + 1)%Z by lia.
    unfold bump. destruct (Z.eqb_spec (c + d + 1) 0); [lia|]. rewrite Hs.
    assert (Hu : u64 (u64 (0 + (c + d + 1)) - 1) = u64 (c + d)).
    { unfold u64. rewrite Zminus_mod_idemp_l. f_equal. lia. }
    destruct (Z.eqb_spec (c + d) 0) as [Hz|Hz].
    + rewrite Hz in *. destruct ob; simpl in Hs; subst. by case_bool_decide.
    + case_bool_decide; unfold id, set_scan, set_mark; simpl; by rewrite Hu, ?Z.add_0_l.
  - rewrite lookup_alter_ne, !lookup_touched by done. destruct (heap w0 !! x) as [obx|]; [|done]. simpl.
    f_equal. f_equal. f_equal. rewrite !cnt_app, cnt_cons_ne by done. done.
Qed.

Lemma marked_marking V un iso w v : (forall o, ~ marked w0 o) ->
  marking V un iso w -> marked w v <-> v ∈ V.
Proof.
  intros Hno1 [-> _ Hal _ _ _ _ _ _ _].
  change (marked (touched (followed V) V w0) v <-> v ∈ V). rewrite marked_touched. split.
  - intros [Hm|[? _]]; [by destruct (Hno1 v)|done].
  - intros Hv. right. split; [done|]. destruct (Hal _ Hv) as (ob & Hx & _). by rewrite Hx.
Qed.

Hypothesis Hsc : scannable h.
Hypothesis Hcalm : calm w0.
Hypothesis Hno1 : forall o, ~ marked w0 o.
Hypothesis Hun0 : forall i, i ∈ un0 -> exists ob, alive_obj w0 i ob.

Lemma marking_step V i un iso w w1 : marking V (i :: un) iso w -> mark_done h [i] w w1 ->
  exists V' un' iso', length un' <= length un /\ marking V' un' iso' (isolate i w1).
Proof using All.
  intros HM (vs & Hw1 & Nvs & Fvs & Cvs & Ivs & Rvs). rewrite Forall_forall in Fvs.
  pose proof (fun v => marked_marking _ _ _ _ v Hno1 HM) as Hmk.
  pose proof HM as [Hw Nd Hal Hcl Hun Hun0' Nis His Hre Hin].
  destruct (Hun i) as [Hi0 HiV]; [by left|]. destruct (Hun0 _ Hi0) as [obi Hi].
  set (T := [i] ++ followed vs) in *. fold (followed vs) in Cvs, Ivs, Hw1. fold T in Cvs, Ivs, Hw1.
  assert (HT : forall x, x ∈ T -> x ∈ V ++ vs).
  { intros x Hx. rewrite elem_of_app, <- Hmk. by apply Cvs. }
  assert (HiT : i ∈ T) by (by left).
  assert (Hivs : i ∈ vs) by (destruct (Cvs i HiT) as [?%Hmk|]; done).
  exists (V ++ vs), (filter (fun x => x ∉ T) un), (i :: filter (fun x => x ∉ T) iso).
  split; [apply length_filter|]. constructor.
  - rewrite <- (isolate_touched V vs i obi) by done. f_equal.
    rewrite Hw1, Hw, touched_lists, touched_touched. rewrite filter_cons_False; [done|]. by intros Hn.
  - apply NoDup_app. split_and!; [done| |done]. intros x HxV Hxv. destruct (Fvs _ Hxv) as [Hn _]. by apply Hn, Hmk.
  - intros v [Hv|Hv]%elem_of_app; [by apply Hal|].
    destruct (Rvs _ Hv) as (o & ->%list_elem_of_singleton & Hp). apply rtc_inv_r in Hp as [->|(y & _ & Hy)]; [eauto|].
    destruct (sc_alive _ Hsc _ _ Hy) as (ob & Ho & Hpos). exists ob. split; [done|lia].
  - intros v q [Hv|Hv]%elem_of_app Hq; [apply elem_of_app; left; by eapply Hcl|].
    apply HT, elem_of_app. right. apply elem_followed. eauto.
  - intros x [HxT Hx]%list_elem_of_filter. destruct (Hun x) as [Hx0 HxV]; [by right|]. split; [done|].
    intros [?|Hxv]%elem_of_app; [done|]. by apply HxT, Ivs.
  - intros x [Hx|Hx]%Hun0'; [|right; apply elem_of_app; by left].
    destruct (decide (x ∈ T)) as [HxT|HxT]; [right; by apply HT|left].
    apply list_elem_of_filter. split; [done|]. apply elem_of_cons in Hx as [->|]; done.
  - apply NoDup_cons. split; [|by apply NoDup_filter]. rewrite list_elem_of_filter. by intros [? _].
  - intros x [->|[_ Hx]%list_elem_of_filter]%elem_of_cons; [split; [done|]; apply elem_of_app; by right|].
    destruct (His _ Hx). split; [done|]. apply elem_of_app. by left.
  - assert (HiR : forall v, v ∈ T -> rtc (scans h) i v).
    { intros v Hv. unfold T in Hv. apply elem_of_app in Hv as [->%list_elem_of_singleton|Hv]; [done|].
      apply elem_followed in Hv as (u & Hu & Huv).
      destruct (Rvs _ Hu) as (o & ->%list_elem_of_singleton & Hp). by eapply rtc_r. }
    intros v [Hv|Hv]%elem_of_app.
    + destruct (Hre _ Hv) as (r & Hr & Hp). destruct (decide (r ∈ T)) as [HrT|HrT].
      * exists i. split; [by left|]. by etransitivity; [apply HiR|].
      * exists r. split; [right; by apply list_elem_of_filter|done].
    + destruct (Rvs _ Hv) as (o & ->%list_elem_of_singleton & Hp). exists i. split; [by left|done].
  - intros r v [->|[HrT Hr]%list_elem_of_filter]%elem_of_cons [Hv|Hv]%elem_of_app Hrv.
    + destruct HiV. by eapply Hcl.
    + by destruct (Rvs _ Hv) as (o & ->%list_elem_of_singleton & Hp).
    + by apply Hin.
    + destruct HrT. apply elem_of_app. right. apply elem_followed. eauto.
Qed.
Lemma marking_over V un iso w : marking V un iso w -> over h w.
Proof using. intros [-> _ _ _ _ _ _ _ _ _]. apply (touched_paint (followed V) V w0). Qed.

Lemma mark_roots_spec fuel : (unmarked w0 < Z.of_nat env_fuel)%Z -> forall V un iso w,
  marking V un iso w -> length un <= fuel ->
  wp (mark_roots fuel) (fun _ w' => exists V' iso', marking V' [] iso' w') w.
Proof using All.
  intros Hfuel. induction fuel as [|fuel IH]; intros V un iso w HM Hlen; pose proof (mk_world _ _ _ _ HM) as Hw.
  - destruct un; [|simpl in Hlen; lia]. simpl. wp_step. wp_step. rewrite Hw. simpl. wp_step. rewrite <- Hw. eauto.
  - cbn [mark_roots]. wp_step. wp_step.
    assert (unreferred w = Some un) as -> by (by rewrite Hw). destruct un as [|i un]; [wp_step; eauto|].
    destruct (mk_un _ _ _ _ HM i) as [Hi0 HiV]; [by left|]. destruct (Hun0 _ Hi0) as (ob & Hi & Hne).
    destruct (over_lookup _ _ _ _ (marking_over _ _ _ _ HM) Hi) as (ob1 & Hi1 & Hp1).
    destruct (Hcalm _ _ (conj Hi Hne)) as [Hm0 _].
    assert (Hm1 : mark ob1 = 0%Z).
    { destruct (touched_mark (followed V) V w0 i ob Hi) as (ob' & Hi' & Hmk & _).
      rewrite bool_decide_false in Hmk by done. rewrite Hw in Hi1.
      change (heap (touched (followed V) V w0) !! i = Some ob1) in Hi1. congruence. }
    pose proof (sc_count _ Hsc _ _ Hi).
    wp_step. wp_step. wp_step. wp_step; [by rewrite Hm1|]. wp_step.
    eapply wp_mono; [eapply (mark_visit h Hsc env_fuel); [by eapply marking_over|done|lia|]|].
    { pose proof (unmarked_le (followed V) V w0). rewrite Hw.
      change (unmarked (touched (followed V) V w0) < Z.of_nat env_fuel)%Z. lia. }
    intros [] w1 Hd.
    destruct (marking_step _ _ _ _ _ _ HM Hd) as (V' & un' & iso' & Hlen' & HM').
    assert (exists obi, heap w1 !! i = Some obi) as [obi Hobi].
    { destruct Hd as (vs & -> & _). rewrite lookup_touched, Hi1. eauto. }
    wp_step. wp_step. wp_step. wp_step. apply (IH V' un' iso'); [|simpl in Hlen; lia].
    unfold isolate in HM'. cbn [isolated set_heap] in *.
    rewrite (alter_present _ _ _ _ Hobi) in HM'. exact HM'.
Qed.
End roots.
