(* ===== verification/GCScan.v ===== *)
(** * The second pass of the collector

    [di_collect_garbage_scan] from the isolated roots splits the marked objects: an object
    that has references the first pass did not see, and everything that can be reached
    from one, gets the mark 0 back; the others get the mark 2. *)

From S2P Require Export GCMark.

(** the colour [k] of a marked object: 1, or 0 (revived), or 2 (condemned) *)
Definition shade (k : Z) (ob : object) : object :=
  if (k =? 0)%Z then set_mark 0 (set_scan 0 ob) else set_mark k ob.

Definition tint (m : oid -> Z) (w : world) : world :=
  repaint (fun x ob => if (mark ob =? 1)%Z then shade (m x) ob else ob) w.

Lemma lookup_tint m w x :
  heap (tint m w) !! x = (fun ob => if (mark ob =? 1)%Z then shade (m x) ob else ob) <$> heap w !! x.
Proof. apply lookup_repaint. Qed.

Lemma shade_mark k ob : mark (shade k ob) = k.
Proof. unfold shade. by destruct (Z.eqb_spec k 0) as [->|]. Qed.

Lemma tint_paint m w : over (heap w) (tint m w).
Proof.
  intros x. rewrite lookup_tint. destruct (heap w !! x) as [ob|]; simpl; constructor.
  unfold same_paint, shade. destruct ob. by repeat case_match.
Qed.

Lemma tint_one w : tint (fun _ => 1%Z) w = w.
Proof.
  apply world_eq; [|done]. apply map_eq. intros x. rewrite lookup_tint.
  destruct (heap w !! x) as [ob|]; [|done]. simpl. f_equal.
  destruct (Z.eqb_spec (mark ob) 1) as [H|]; [|done]. destruct ob. simpl in H. by subst.
Qed.

Definition scan_weight (k : Z) : Z := if (k =? 1)%Z then 2%Z else if (k =? 2)%Z then 1%Z else 0%Z.
Lemma scan_weight_nonneg k : (0 <= scan_weight k)%Z.
Proof. unfold scan_weight. repeat case_match; lia. Qed.

Section scan.
Context {E : Env}.
Variables (h : gmap oid object) (w1 : world).

(** an object that something else refers to *)
Definition outside_ref (x : oid) : Prop :=
  exists ob, heap w1 !! x = Some ob /\ mark ob = 1%Z /\ ref_count_scan ob <> ref_count ob.
(** and what can be reached from one *)
Definition lit (x : oid) : Prop := exists y, outside_ref y /\ rtc (scans h) y x.

(** colours get assigned: 1 to 2, then 2 to 0, or 1 to 0 *)
Definition set_colour (x : oid) (k : Z) (m : oid -> Z) : oid -> Z :=
  fun y => if decide (y = x) then k else m y.

(** the effect of visiting the references [l] *)
Record scan_done (l : list oid) (revive : bool) (m m' : oid -> Z) : Prop := {
  sd_mono : forall x, m' x = m x \/ (m x = 1%Z /\ m' x = 2%Z) \/ m' x = 0%Z;
  sd_two : forall x, m' x = 2%Z -> m x = 2%Z \/ ~ outside_ref x;
  sd_lit : forall x, m' x = 0%Z -> m x = 0%Z \/ lit x;
  sd_visited : forall x, x ∈ l -> m' x <> 1%Z /\ (revive = true -> m' x = 0%Z);
  sd_revived : forall x y, m' x = 0%Z -> m x <> 0%Z -> scans h x y -> m' y = 0%Z;
  sd_condemned : forall x y, m' x = 2%Z -> m x <> 2%Z -> scans h x y -> m' y <> 1%Z
}.

Lemma scan_done_nil revive m : scan_done [] revive m m.
Proof using. constructor; [auto|auto|auto| |by intros|by intros]. by intros x ?%not_elem_of_nil. Qed.

Lemma scan_done_app l1 l2 revive m m1 m2 :
  scan_done l1 revive m m1 -> scan_done l2 revive m1 m2 -> scan_done (l1 ++ l2) revive m m2.
Proof using.
  intros [M1 T1 L1 V1 R1 C1] [M2 T2 L2 V2 R2 C2].
  assert (H0 : forall x, m1 x = 0%Z -> m2 x = 0%Z) by (intros x; specialize (M2 x); lia).
  assert (H1 : forall x, m1 x <> 1%Z -> m2 x <> 1%Z) by (intros x; specialize (M2 x); lia).
  constructor.
  - intros x. specialize (M1 x). specialize (M2 x). lia.
  - intros x Hx. destruct (T2 _ Hx); [by apply T1|by right].
  - intros x Hx. destruct (L2 _ Hx); [by apply L1|by right].
  - intros x [Hx|Hx]%elem_of_app; [|by apply V2]. destruct (V1 _ Hx). split; auto.
  - intros x y Hx Hn Hxy. destruct (decide (m1 x = 0%Z)); [by eapply H0, R1|by eapply R2].
  - intros x y Hx Hn Hxy. destruct (decide (m1 x = 2%Z)); [by eapply H1, C1|by eapply C2].
Qed.

(** an object gets a colour, then its references are visited *)
Lemma scan_done_visit o k revive next m m' :
  (k = 0%Z /\ next = true /\ lit o) \/ (k = 2%Z /\ next = false /\ m o = 1%Z /\ ~ outside_ref o) ->
  (revive = true -> k = 0%Z) ->
  scan_done (targets h o) next (set_colour o k m) m' -> scan_done [o] revive m m'.
Proof using.
  intros Hk Hrev [M T L V R C]. unfold set_colour in *.
  assert (Hne : forall x, x <> o -> (if decide (x = o) then k else m x) = m x) by (intros; by rewrite decide_False).
  assert (Heq : (if decide (o = o) then k else m o) = k) by (by rewrite decide_True).
  constructor.
  - intros x. specialize (M x). destruct (decide (x = o)) as [->|]; lia.
  - intros x Hx. specialize (T x Hx). destruct (decide (x = o)) as [->|]; [|done].
    destruct Hk as [(-> & _)|(_ & _ & _ & Hn)]; [|by right]. specialize (M o). rewrite Heq in M. lia.
  - intros x Hx. specialize (L x Hx). destruct (decide (x = o)) as [->|]; [|done].
    destruct Hk as [(_ & _ & Hl)|(-> & _)]; [by right|]. destruct L as [|L]; [done|by right].
  - intros x ->%list_elem_of_singleton. specialize (M o). rewrite Heq in M. split; [lia|].
    intros Hr. rewrite (Hrev Hr) in M. lia.
  - intros x y Hx Hn Hxy. destruct (decide (x = o)) as [->|Hxo].
    + destruct Hk as [(-> & -> & _)|(-> & -> & _)]; [by apply V; [by apply elem_targets|]|].
      by eapply R; [|rewrite Heq|].
    + eapply R; [done|by rewrite Hne|done].
  - intros x y Hx Hn Hxy. destruct (decide (x = o)) as [->|Hxo].
    + apply V. by apply elem_targets.
    + eapply C; [done|by rewrite Hne|done].
Qed.
Hypothesis Hsc : scannable h.
Hypothesis Hov : over h w1.
(** marked objects only refer to marked objects, and no more references were counted than
    there are *)
Hypothesis Hclosed : forall x y, marked w1 x -> scans h x y -> marked w1 y.
Hypothesis Hcounted : forall x ob, heap w1 !! x = Some ob -> mark ob = 1%Z ->
  (0 < ref_count ob)%Z /\ (ref_count_scan ob <= ref_count ob)%Z.


Lemma tint_set o k m ob : heap w1 !! o = Some ob -> mark ob = 1%Z ->
  set_heap (<[o := shade k ob]> (heap (tint m w1))) (tint m w1) = tint (set_colour o k m) w1.
Proof using.
  intros Ho Hm. apply world_eq; [|done]. apply map_eq. intros x.
  change (<[o := shade k ob]> (heap (tint m w1)) !! x = heap (tint (set_colour o k m) w1) !! x).
  unfold set_colour. destruct (decide (o = x)) as [<-|Hne].
  - rewrite lookup_insert_eq, lookup_tint, Ho. simpl. by rewrite Hm, decide_True.
  - rewrite lookup_insert_ne, !lookup_tint by done. destruct (heap w1 !! x); [|done]. simpl.
    by rewrite decide_False.
Qed.

(** [di_collect_garbage_scan] at a marked object *)
Lemma di_collect_garbage_scan_run o revive m ob : heap w1 !! o = Some ob -> mark ob = 1%Z ->
  di_collect_garbage_scan o revive (tint m w1) =
    if (m o =? 0)%Z then Ret None (tint m w1)
    else if revive || negb (ref_count_scan ob =? ref_count ob)%Z then
      Ret (Some true) (tint (set_colour o 0 m) w1)
    else if (m o =? 2)%Z then Ret None (tint m w1) else Ret (Some false) (tint (set_colour o 2 m) w1).
Proof using Hcounted.
  intros Ho Hm. destruct (Hcounted _ _ Ho Hm) as [Hpos Hle].
  assert (Hl : heap (tint m w1) !! o = Some (shade (m o) ob)) by (rewrite lookup_tint, Ho; simpl; by rewrite Hm).
  unfold di_collect_garbage_scan. rewrite (bind_get_obj _ _ _ _ Hl).
  assert (Hupd : forall f k, f (shade (m o) ob) = shade k ob ->
            forall r : bool, bind (upd_obj o f) (fun _ => ret (Some r)) (tint m w1) = Ret (Some r) (tint (set_colour o k m) w1)).
  { intros f k Hf r. rewrite <- (tint_set o k m ob Ho Hm), <- Hf. unfold upd_obj, bind, get_obj. by rewrite Hl. }
  destruct (Z.eqb_spec (m o) 0) as [H0|H0].
  - unfold shade. rewrite H0. simpl. destruct (Z.ltb_spec (ref_count ob) 0); [lia|]. simpl.
    by destruct (revive || _).
  - assert (Hs : shade (m o) ob = set_mark (m o) ob) by (unfold shade; by destruct (Z.eqb_spec (m o) 0)).
    rewrite Hs. cbn [ref_count ref_count_scan mark set_mark].
    destruct (Z.ltb_spec (ref_count ob) (ref_count_scan ob)); [lia|]. simpl negb. rewrite bind_assert_true.
    destruct (Z.eqb_spec (m o) 0); [done|]. destruct (revive || _) eqn:Hd.
    + apply (Hupd _ 0%Z). by rewrite Hs.
    + rewrite orb_false_r. destruct (Z.eqb_spec (m o) 2); [done|].
      apply (Hupd _ 2%Z). by rewrite Hs.
Qed.

Lemma over_over w w' : over h w -> over h w' -> over (heap w) w'.
Proof using.
  intros H1 H2 x. specialize (H1 x). specialize (H2 x).
  destruct (h !! x) as [a|]; inversion H1 as [? b Hb|]; inversion H2 as [? c Hc|]; constructor.
  subst. unfold same_paint in *. by rewrite Hc, Hb.
Qed.

Lemma tint_over m : over h (tint m w1).
Proof using Hov. eapply over_trans; [done|apply tint_paint]. Qed.

Lemma tint_lookup m x ob : heap w1 !! x = Some ob ->
  exists ob', heap (tint m w1) !! x = Some ob' /\ mark ob' = if (mark ob =? 1)%Z then m x else mark ob.
Proof using.
  intros Hx. rewrite lookup_tint, Hx. eexists. split; [done|]. destruct (mark ob =? 1)%Z; [apply shade_mark|done].
Qed.

Lemma tint_weigh_le m m' : (forall x, scan_weight (m' x) <= scan_weight (m x))%Z ->
  (weigh scan_weight (tint m' w1) <= weigh scan_weight (tint m w1))%Z.
Proof using Hov.
  intros Hm. apply weigh_le; [apply scan_weight_nonneg|apply over_over; apply tint_over|].
  intros x ob ob' Hx Hx'. assert (exists ob1, heap w1 !! x = Some ob1) as [ob1 H1].
  { rewrite lookup_tint in Hx. destruct (heap w1 !! x); [eauto|done]. }
  destruct (tint_lookup m x ob1 H1) as (obm & ? & Hk). destruct (tint_lookup m' x ob1 H1) as (obm' & ? & Hk').
  simplify_eq. rewrite Hk, Hk'. case_match; [apply Hm|lia].
Qed.

Lemma tint_weigh_lt m o k : marked w1 o -> (scan_weight k < scan_weight (m o))%Z ->
  (weigh scan_weight (tint (set_colour o k m) w1) < weigh scan_weight (tint m w1))%Z.
Proof using Hov Hcounted.
  intros (ob & Ho & Hm) Hlt. destruct (Hcounted _ _ Ho Hm) as [Hpos _].
  destruct (tint_lookup m o ob Ho) as (obm & Hom & Hk).
  destruct (tint_lookup (set_colour o k m) o ob Ho) as (obm' & Hom' & Hk').
  rewrite Hm in Hk, Hk'. simpl in Hk, Hk'. unfold set_colour in Hk'. rewrite decide_True in Hk' by done.
  eapply weigh_lt; [apply scan_weight_nonneg|apply over_over; apply tint_over| |exact Hom|exact Hom'| |].
  - intros x obx obx' Hx Hx'. assert (exists ob1, heap w1 !! x = Some ob1) as [ob1 H1].
    { rewrite lookup_tint in Hx. destruct (heap w1 !! x); [eauto|done]. }
    destruct (tint_lookup m x ob1 H1) as (a & ? & Ha).
    destruct (tint_lookup (set_colour o k m) x ob1 H1) as (b & ? & Hb).
    simplify_eq. rewrite Ha, Hb. unfold set_colour. repeat case_match; simplify_eq; lia.
  - destruct (over_lookup _ _ _ _ (tint_paint m w1) Ho) as (ob' & Ho' & Hs). simplify_eq.
    destruct (same_paint_fields _ _ Hs) as (_ & -> & _). done.
  - by rewrite Hk, Hk'.
Qed.

Definition coloured (m : oid -> Z) : Prop := forall x, m x = 0%Z \/ m x = 1%Z \/ m x = 2%Z.

Lemma scan_done_coloured l revive m m' : coloured m -> scan_done l revive m m' -> coloured m'.
Proof using. intros Hc Hd x. specialize (Hc x). destruct (sd_mono _ _ _ _ Hd x) as [->|[[_ ->]| ->]]; auto. Qed.

Lemma scan_done_weight l revive m m' : scan_done l revive m m' ->
  (weigh scan_weight (tint m' w1) <= weigh scan_weight (tint m w1))%Z.
Proof using Hov.
  intros Hd. apply tint_weigh_le. intros x. pose proof (scan_weight_nonneg (m x)).
  destruct (sd_mono _ _ _ _ Hd x) as [->|[[-> ->]| ->]]; done.
Qed.

(** visiting the references of an object, given how each is visited *)
Lemma scan_targets f next o ob m : h !! o = Some ob ->
  (forall x m1, scans h o x -> scan_done [] next m m -> coloured m1 ->
     (weigh scan_weight (tint m1 w1) <= weigh scan_weight (tint m w1))%Z ->
     wp (f x) (fun _ w' => exists m', w' = tint m' w1 /\ scan_done [x] next m1 m') (tint m1 w1)) ->
  coloured m ->
  wp (hash_iter (fun _ v => scan_val f v) o)
    (fun _ w' => exists m', w' = tint m' w1 /\ scan_done (targets h o) next m m') (tint m w1).
Proof using Hsc Hov.
  intros Ho Hf Hc.
  eapply wp_mono; [eapply (wp_hash_iter f o ob (fun l w => exists d m1, targets h o = d ++ l /\
    w = tint m1 w1 /\ scan_done d next m m1))|].
  - by eapply sc_names.
  - by eapply sc_vals.
  - intros l w (d & m1 & _ & -> & _). destruct (over_lookup _ _ _ _ (tint_over m1) Ho) as (ob' & Ho' & Hs).
    exists ob'. split; [done|]. by destruct (same_paint_fields _ _ Hs) as ([? _] & _).
  - intros x l w (d & m1 & Hd & -> & Hdone).
    eapply wp_mono; [eapply Hf|].
    + apply elem_targets. rewrite Hd. apply elem_of_app. right. by left.
    + apply scan_done_nil.
    + by eapply scan_done_coloured.
    + by eapply scan_done_weight.
    + intros [] w' (m' & -> & Hd'). exists (d ++ [x]), m'. split_and!; [by rewrite <- app_assoc|done|].
      by eapply scan_done_app.
  - exists [], m. split_and!; [by unfold targets; rewrite Ho|done|apply scan_done_nil].
  - intros [] w (d & m' & Hd & -> & Hdone). rewrite app_nil_r in Hd. subst d. by exists m'.
Qed.

(** enough fuel: twice the number of marked objects and one per condemned one *)
Lemma scan_visit fuel : forall m o revive, coloured m -> marked w1 o -> (revive = true -> lit o) ->
  (weigh scan_weight (tint m w1) < Z.of_nat fuel)%Z ->
  wp (scan_object di_collect_garbage_scan None fuel revive o)
    (fun _ w' => exists m', w' = tint m' w1 /\ scan_done [o] revive m m') (tint m w1).
Proof using All.
  induction fuel as [|fuel IH]; intros m o revive Hc Hmk Hlit Hfuel.
  { pose proof (weigh_nonneg scan_weight (tint m w1) scan_weight_nonneg). lia. }
  pose proof Hmk as (ob & Ho & Hm). destruct (over_lookup_inv _ _ _ _ Hov Ho) as (ob0 & Ho0 & _).
  pose proof (di_collect_garbage_scan_run o revive m ob Ho Hm) as Hrun.
  cbn [scan_object]. wp_step.
  assert (Hstop : m o <> 1%Z -> (revive = true -> m o = 0%Z) -> scan_done [o] revive m m).
  { intros Hn Hr. constructor; [auto|auto|auto| |by intros|by intros]. by intros x ->%list_elem_of_singleton. }
  assert (Hgo : forall k next, (k = 0%Z /\ next = true /\ lit o) \/ (k = 2%Z /\ next = false /\ m o = 1%Z /\ ~ outside_ref o) ->
    (revive = true -> k = 0%Z) -> m o <> 0%Z ->
    wp (hash_iter (fun _ v => scan_val (scan_object di_collect_garbage_scan None fuel next) v) o ;; ret tt)
      (fun _ w' => exists m', w' = tint m' w1 /\ scan_done [o] revive m m') (tint (set_colour o k m) w1)).
  { intros k next Hk Hr Hn0. wp_step.
    assert (Hlt : (weigh scan_weight (tint (set_colour o k m) w1) < weigh scan_weight (tint m w1))%Z).
    { apply tint_weigh_lt; [done|]. destruct (Hc o) as [?|[Hmo|Hmo]], Hk as [(-> & _)|(-> & _ & ? & _)]; rewrite ?Hmo; unfold scan_weight; simpl; lia. }
    eapply wp_mono; [eapply (scan_targets _ next o ob0 (set_colour o k m)); [done| |]|].
    - intros x m1 Hx _ Hc1 Hw1. apply IH; [done|by eapply Hclosed| |lia].
      intros ->. destruct Hk as [(_ & _ & (y & Hy & Hp))|(_ & ? & _)]; [|done]. exists y. split; [done|]. by eapply rtc_r.
    - intros x. unfold set_colour. case_decide; [|apply Hc]. destruct Hk as [(-> & _)|(-> & _)]; auto.
    - intros [] w' (m' & -> & Hd). wp_step. exists m'. split; [done|]. by eapply scan_done_visit. }
  destruct (Z.eqb_spec (m o) 0) as [H0|H0].
  { eapply wp_of_run; [exact Hrun|]. cbv beta iota. wp_step. exists m. split; [done|]. apply Hstop; [lia|done]. }
  destruct (revive || _) eqn:Hd.
  { eapply wp_of_run; [exact Hrun|]. cbv beta iota. apply Hgo; [|done|done].
    left. split_and!; [done..|]. apply orb_true_iff in Hd as [->|Hd]; [by apply Hlit|].
    exists o. split; [|done]. exists ob. split_and!; [done..|]. by apply negb_true_iff, Z.eqb_neq in Hd. }
  apply orb_false_iff in Hd as [-> Hd]. apply negb_false_iff, Z.eqb_eq in Hd.
  destruct (Z.eqb_spec (m o) 2) as [H2|H2]; (eapply wp_of_run; [exact Hrun|]; cbv beta iota).
  - wp_step. exists m. split; [done|]. apply Hstop; [lia|done].
  - apply Hgo; [|done|done]. right. split_and!; [done|done|by destruct (Hc o) as [?|[?|?]]|].
    intros (ob' & ? & _ & ?). simplify_eq.
Qed.
End scan.
