(* ===== verification/GCTrace.v ===== *)
(** * What the first two passes find

    The marks the passes leave, as facts about the graph of references: a condemned object
    (mark 2) is not held, everything that refers to it is condemned too, and the isolated
    roots that are kept lead to every condemned object. *)

From S2P Require Export GCScan.

(** ** Counting the references followed *)

Section counting.
Implicit Types (h : gmap oid object) (V : list oid).

Lemma refs_to_delete h p ob x : h !! p = Some ob ->
  refs_to h x = (cnt x (obj_strong ob) + refs_to (delete p h) x)%Z.
Proof. intros Hp. unfold refs_to. by rewrite (msum_delete _ _ _ _ Hp). Qed.

Lemma targets_delete h p V : p ∉ V -> map (targets (delete p h)) V = map (targets h) V.
Proof.
  induction V as [|v V IH]; [done|]. intros [Hv HV]%not_elem_of_cons. simpl. rewrite IH by done. f_equal.
  unfold targets. by rewrite lookup_delete_ne.
Qed.

Lemma followed_le V : forall h x, NoDup V -> (cnt x (concat (map (targets h) V)) <= refs_to h x)%Z.
Proof.
  induction V as [|v V IH]; intros h x Hnd; [apply refs_to_nonneg|].
  apply NoDup_cons in Hnd as [Hv Hnd]. simpl. rewrite cnt_app.
  destruct (h !! v) as [ob|] eqn:Ho.
  - rewrite (refs_to_delete _ _ _ _ Ho). unfold targets at 1. rewrite Ho. rewrite <- (targets_delete h v) by done.
    specialize (IH (delete v h) x Hnd). pose proof (obj_scan_strong ob x). lia.
  - unfold targets at 1. rewrite Ho. simpl. by apply IH.
Qed.

(** every reference counts: one from an object that was not visited, or one that is not
    followed, is missing *)
Lemma followed_missing h V x p ob : NoDup V -> h !! p = Some ob -> x ∈ obj_strong ob ->
  (p ∈ V -> x ∉ obj_scan ob) -> (cnt x (concat (map (targets h) V)) < refs_to h x)%Z.
Proof.
  intros Hnd Hp Hx%cnt_pos Hn. rewrite (refs_to_delete _ _ _ _ Hp). destruct (decide (p ∈ V)) as [Hin|Hout].
  - apply elem_of_Permutation in Hin as [V' HV]. pose proof Hnd as Hnd'. rewrite HV in Hnd'.
    apply NoDup_cons in Hnd' as [Hp' Hnd']. rewrite (cnt_perm x _ (concat (map (targets h) (p :: V')))) by (by rewrite HV).
    simpl. rewrite cnt_app. unfold targets at 1. rewrite Hp. rewrite <- (targets_delete h p) by done.
    pose proof (followed_le V' (delete p h) x Hnd'). assert (cnt x (obj_scan ob) = 0%Z) as ->; [|lia].
    apply cnt_zero, Hn. rewrite HV. by left.
  - rewrite <- (targets_delete h p) by done. pose proof (followed_le V (delete p h) x Hnd). lia.
Qed.

Lemma followed_all V : forall h x, NoDup V ->
  (forall p ob, h !! p = Some ob -> x ∈ obj_strong ob -> p ∈ V) ->
  (forall p ob, h !! p = Some ob -> obj_scan ob = obj_strong ob) ->
  refs_to h x = cnt x (concat (map (targets h) V)).
Proof.
  induction V as [|v V IH]; intros h x Hnd Hall Hsame.
  - simpl. pose proof (refs_to_nonneg h x). destruct (decide (refs_to h x = 0%Z)) as [|Hne]; [done|].
    destruct (msum_pos_inv (fun ob => cnt x (obj_strong ob)) h) as (p & ob & Hp & Hx%cnt_pos); [unfold refs_to in *; lia|].
    by destruct (not_elem_of_nil p (Hall _ _ Hp Hx)).
  - apply NoDup_cons in Hnd as [Hv Hnd]. simpl. rewrite cnt_app.
    destruct (h !! v) as [ob|] eqn:Ho.
    + rewrite (refs_to_delete _ _ _ _ Ho). unfold targets at 1. rewrite Ho, (Hsame _ _ Ho).
      rewrite <- (targets_delete h v) by done. rewrite (IH (delete v h) x Hnd); [done| |].
      * intros p obp [Hne Hp]%lookup_delete_Some Hx. by destruct (elem_of_cons V p v) as [[?|?] _]; [by eapply Hall| |].
      * intros p obp [_ Hp]%lookup_delete_Some. by eapply Hsame.
    + unfold targets at 1. rewrite Ho. simpl. apply IH; [done| |done].
      intros p obp Hp Hx. destruct (elem_of_cons V p v) as [[->|?] _]; [by eapply Hall|congruence|done].
Qed.
End counting.

(** ** The condemned objects *)

Definition condemned (w : world) (x : oid) : Prop := exists ob, alive_obj w x ob /\ mark ob = 2%Z.

(** references are only stored as objects, never as empty objects, which the collector
    does not follow *)
Definition all_scanned (h : gmap oid object) : Prop :=
  forall p ob, h !! p = Some ob -> obj_scan ob = obj_strong ob.

(** the fields other than the heap and the lists *)
Definition elsewhere (w : world) : world := set_heap ∅ (set_isolated [] (set_unreferred None w)).

Definition from_roots (h : gmap oid object) (un0 : list oid) (x : oid) : Prop :=
  exists u, u ∈ un0 /\ rtc (scans h) u x.

Record traced (ext un0 : list oid) (w0 w : world) : Prop := {
  tr_over : over (heap w0) w;
  tr_elsewhere : elsewhere w = elsewhere w0;
  tr_unreferred : unreferred w = Some [];
  tr_nodup : NoDup (isolated w);
  tr_marks : forall x ob, alive_obj w x ob -> (mark ob = 0%Z /\ ref_count_scan ob = 0%Z) \/ mark ob = 2%Z;
  tr_dead : forall x ob, heap w !! x = Some ob -> ref_count ob = 0%Z -> heap w0 !! x = Some ob;
  tr_held : forall x, condemned w x -> x ∉ ext;
  tr_back : forall x p, condemned w x -> refers (heap w0) p x -> condemned w p /\ scans (heap w0) p x;
  tr_roots : forall r, r ∈ isolated w -> condemned w r;
  tr_in : forall r v, r ∈ isolated w -> condemned w v -> scans (heap w0) v r -> rtc (scans (heap w0)) r v;
  tr_reach : forall x, condemned w x -> exists r, r ∈ isolated w /\ rtc (scans (heap w0)) r x;
  tr_from : forall x, condemned w x -> from_roots (heap w0) un0 x;
  (** a survivor that the roots lead to can be reached from elsewhere *)
  tr_left : all_scanned (heap w0) -> forall x, from_roots (heap w0) un0 x -> ~ condemned w x ->
    exists y, rtc (scans (heap w0)) y x /\
      (y ∈ ext \/ exists p, refers (heap w0) p y /\ ~ from_roots (heap w0) un0 p)
}.

(** ** The passes together *)

Lemma length_alive (l : list oid) : forall h : gmap oid object, NoDup l ->
  (forall x, x ∈ l -> exists ob, h !! x = Some ob /\ (0 < ref_count ob)%Z) ->
  (Z.of_nat (length l) <= msum implicit_weak h)%Z.
Proof.
  induction l as [|x l IH]; intros h Hnd Hal.
  { apply msum_nonneg. intros y ob _. unfold implicit_weak. case_match; lia. }
  apply NoDup_cons in Hnd as [Hx Hnd]. destruct (Hal x) as (ob & Ho & Hp); [by left|].
  rewrite (msum_delete _ _ _ _ Ho). unfold implicit_weak at 1.
  destruct (Z.ltb_spec 0 (ref_count ob)); [|lia]. simpl length.
  assert (Z.of_nat (length l) <= msum implicit_weak (delete x h))%Z; [|lia].
  apply IH; [done|]. intros y Hy. destruct (Hal y) as (oby & ? & ?); [by right|]. exists oby.
  split; [|done]. rewrite lookup_delete_ne; [done|]. by intros ->.
Qed.

Lemma weigh_alive f c w : (forall k, 0 <= f k <= c)%Z -> (weigh f w <= c * alive w)%Z.
Proof.
  intros Hf. unfold weigh, alive. induction (heap w) as [|x ob h Hx IH] using map_ind; [rewrite !msum_empty; lia|].
  rewrite !msum_insert_new by done. specialize (Hf (mark ob)). unfold implicit_weak at 1 3. case_match; lia.
Qed.

Lemma over_alive w w' : over (heap w) w' -> alive w' = alive w.
Proof.
  intros Ho. unfold alive. apply Z.le_antisymm; apply msum_le;
    try (intros x ob _; unfold implicit_weak; case_match; lia).
  - intros x ob' Hx. destruct (over_lookup_inv _ _ _ _ Ho Hx) as (ob & Hob & Hs). exists ob. split; [done|].
    unfold implicit_weak. by destruct (same_paint_fields _ _ Hs) as (_ & -> & _).
  - intros x ob Hx. destruct (over_lookup _ _ _ _ Ho Hx) as (ob' & Hob & Hs). exists ob'. split; [done|].
    unfold implicit_weak. by destruct (same_paint_fields _ _ Hs) as (_ & -> & _).
Qed.

Lemma filter_all {A} (P : A -> Prop) `{!forall x, Decision (P x)} (l : list A) :
  (forall x, x ∈ l -> P x) -> filter P l = l.
Proof.
  induction l as [|x l IH]; intros HP; [done|]. rewrite filter_cons_True by (apply HP; by left).
  f_equal. apply IH. intros y Hy. apply HP. by right.
Qed.

Lemma set_unreferred_same w iso un : unreferred w = Some un ->
  set_isolated iso w = set_unreferred (Some un) (set_isolated iso w).
Proof. destruct w. simpl. by intros ->. Qed.

Section trace.
Context {E : Env}.
Variables (ext extw un0 : list oid) (w0 : world).
Notation h := (heap w0).
Hypothesis HI : Inv ext extw [] w0.
Hypothesis Hcalm : calm w0.
Hypothesis Hun0 : unreferred w0 = Some un0.

Lemma no_marks o : ~ marked w0 o.
Proof using HI.
  intros (ob & Ho & Hm). pose proof (oi_mark _ _ _ _ _ _ (inv_obj _ _ _ _ HI _ _ Ho)). lia.
Qed.

Lemma roots_alive i : i ∈ un0 -> exists ob, alive_obj w0 i ob.
Proof using HI Hun0.
  intros Hi. pose proof (inv_lists _ _ _ _ HI) as HF. rewrite Forall_forall in HF.
  destruct (HF i) as (ob & Ho & Hp); [|exists ob; split; [done|lia]].
  unfold on_lists. rewrite Hun0. apply elem_of_app. by left.
Qed.

Lemma roots_length : (Z.of_nat (length un0) <= alive w0)%Z.
Proof using HI Hun0.
  apply length_alive.
  - pose proof (inv_nodup _ _ _ _ HI) as Hnd. unfold on_lists in Hnd. rewrite Hun0 in Hnd.
    by apply NoDup_app in Hnd as [Hnd _].
  - intros x Hx. destruct (roots_alive x Hx) as (ob & Ho & Hne). exists ob. split; [done|].
    pose proof (Inv_rc_nonneg _ _ _ _ _ _ HI Ho). lia.
Qed.

Lemma marking_start : marking w0 un0 [] un0 [] (set_isolated [] w0).
Proof using Hun0.
  constructor; try (by intros ? ?%not_elem_of_nil); try (by constructor);
    try (by intros ? ? ?%not_elem_of_nil); try (by auto).
  - unfold followed. simpl. rewrite touched_nothing. by apply set_unreferred_same.
  - intros i Hi. split; [done|apply not_elem_of_nil].
Qed.

(** after the first pass *)
Section marked.
Variables (V iso : list oid) (w1 : world).
Hypothesis HM : marking w0 un0 V [] iso w1.

Lemma traced_over : over h w1.
Proof using HM. by eapply marking_over. Qed.

Lemma traced_marked x : marked w1 x <-> x ∈ V.
Proof using HI HM. eapply marked_marking; [apply no_marks|done]. Qed.

Lemma not_followed x : x ∉ V -> cnt x (followed w0 V) = 0%Z.
Proof using HM.
  intros Hx. apply cnt_zero. intros (v & Hv & Hs)%elem_followed. apply Hx. by eapply (mk_closed _ _ _ _ _ _ HM).
Qed.

(** the count of a visited object is the number of references from visited objects *)
Lemma traced_object x ob : h !! x = Some ob ->
  exists ob1, heap w1 !! x = Some ob1 /\
    (x ∈ V -> mark ob1 = 1%Z /\ ref_count_scan ob1 = cnt x (followed w0 V)) /\
    (x ∉ V -> ob1 = ob).
Proof using HI Hcalm HM.
  intros Hx. pose proof (lookup_touched (followed w0 V) V w0 x) as Hl. rewrite Hx in Hl. simpl in Hl.
  eexists. split.
  { rewrite (mk_world _ _ _ _ _ _ HM). exact Hl. }
  split.
  - intros Hin. rewrite bool_decide_true by done. split; [done|].
    destruct (mk_alive _ _ _ _ _ _ HM _ Hin) as (ob' & Hx' & Hne). simplify_eq.
    destruct (Hcalm x ob (conj Hx Hne)) as [_ Hs].
    pose proof (followed_le V h x (mk_nodup _ _ _ _ _ _ HM)) as Hle. fold (followed w0 V) in Hle.
    destruct (inv_obj _ _ _ _ HI _ _ Hx) as [Hrc _ _ _ _ _ [Hb _] _ _ _ _].
    pose proof (cnt_nonneg x ext). pose proof (cnt_nonneg x (followed w0 V)). unfold bump.
    destruct (Z.eqb_spec (cnt x (followed w0 V)) 0) as [Hz|Hz]; simpl; [by rewrite Hz|].
    rewrite Hs. apply u64_small. lia.
  - intros Hout. rewrite bool_decide_false, not_followed by done. done.
Qed.

Lemma traced_counted x ob : heap w1 !! x = Some ob -> mark ob = 1%Z ->
  (0 < ref_count ob)%Z /\ (ref_count_scan ob <= ref_count ob)%Z.
Proof using HI Hcalm HM.
  intros Hx Hm. assert (Hin : x ∈ V) by (apply traced_marked; by exists ob).
  destruct (mk_alive _ _ _ _ _ _ HM _ Hin) as (ob0 & Hx0 & Hne).
  destruct (traced_object _ _ Hx0) as (ob1 & Hx1 & Hk & _). simplify_eq. destruct (Hk Hin) as [_ ->].
  destruct (over_lookup _ _ _ _ traced_over Hx0) as (ob' & Hx' & Hs). simplify_eq.
  destruct (same_paint_fields _ _ Hs) as (_ & -> & _).
  pose proof (Inv_rc_nonneg _ _ _ _ _ _ HI Hx0). split; [lia|].
  rewrite (oi_rc _ _ _ _ _ _ (inv_obj _ _ _ _ HI _ _ Hx0)).
  pose proof (followed_le V h x (mk_nodup _ _ _ _ _ _ HM)). unfold followed. pose proof (cnt_nonneg x ext). lia.
Qed.

Lemma traced_closed x y : marked w1 x -> scans h x y -> marked w1 y.
Proof using HI HM. rewrite !traced_marked. apply (mk_closed _ _ _ _ _ _ HM). Qed.

(** [x] is referred to by something the pass has not seen *)
Lemma outside_ref_iff x : outside_ref w1 x <->
  x ∈ V /\ cnt x (followed w0 V) <> (cnt x ext + refs_to h x)%Z.
Proof using HI Hcalm HM.
  split.
  - intros (ob & Hx & Hm & Hne). assert (Hin : x ∈ V) by (apply traced_marked; by exists ob). split; [done|].
    destruct (over_lookup_inv _ _ _ _ traced_over Hx) as (ob0 & Hx0 & Hs).
    destruct (traced_object _ _ Hx0) as (ob1 & Hx1 & Hk & _). simplify_eq. destruct (Hk Hin) as [_ Hc].
    destruct (same_paint_fields _ _ Hs) as (_ & Hr & _). rewrite Hc, Hr in Hne.
    by rewrite <- (oi_rc _ _ _ _ _ _ (inv_obj _ _ _ _ HI _ _ Hx0)).
  - intros [Hin Hne]. destruct (mk_alive _ _ _ _ _ _ HM _ Hin) as (ob0 & Hx0 & _).
    destruct (traced_object _ _ Hx0) as (ob1 & Hx1 & Hk & _). destruct (Hk Hin) as [Hm Hc].
    exists ob1. split_and!; [done..|]. rewrite Hc.
    destruct (over_lookup _ _ _ _ traced_over Hx0) as (ob' & Hx' & Hs). simplify_eq.
    destruct (same_paint_fields _ _ Hs) as (_ & -> & _).
    by rewrite (oi_rc _ _ _ _ _ _ (inv_obj _ _ _ _ HI _ _ Hx0)).
Qed.

Definition scanned (m : oid -> Z) : Prop := scan_done h w1 iso false (fun _ => 1%Z) m.

Lemma tint_fields m : unreferred (tint m w1) = Some [] /\ isolated (tint m w1) = iso /\
  elsewhere (tint m w1) = elsewhere w0.
Proof using HM. rewrite (mk_world _ _ _ _ _ _ HM). done. Qed.

Lemma scan_roots_spec : (2 * alive w0 < Z.of_nat env_fuel)%Z ->
  wp scan_roots (fun _ w => exists m, w = tint m w1 /\ scanned m) w1.
Proof using HI Hcalm HM.
  intros Hfuel. unfold scan_roots. wp_step. wp_step.
  assert (Hiso : isolated w1 = iso) by (by rewrite (mk_world _ _ _ _ _ _ HM)). rewrite Hiso.
  assert (Hw : (weigh scan_weight w1 <= 2 * alive w0)%Z).
  { rewrite <- (over_alive _ _ traced_over). apply weigh_alive. intros k. unfold scan_weight. repeat case_match; lia. }
  eapply wp_mono; [eapply (wp_mapM_ _ (fun l w => exists d m, iso = d ++ l /\ w = tint m w1 /\
    scan_done h w1 d false (fun _ => 1%Z) m))|].
  - exists [], (fun _ => 1%Z). split_and!; [done|by rewrite tint_one|apply scan_done_nil].
  - intros i l w (d & m & Hd & -> & Hdone).
    eapply wp_mono; [eapply (scan_visit h w1); [by eapply Inv_scannable|apply traced_over|apply traced_closed|
      apply traced_counted| | |done|]|].
    + eapply scan_done_coloured; [|done]. intros x. auto.
    + apply traced_marked. apply (mk_iso _ _ _ _ _ _ HM). rewrite Hd. apply elem_of_app. right. by left.
    + pose proof (scan_done_weight h w1 traced_over _ _ _ _ Hdone) as Hle. rewrite tint_one in Hle. lia.
    + intros [] w (m' & -> & Hd'). exists (d ++ [i]), m'.
      split_and!; [by rewrite <- app_assoc|done|by eapply scan_done_app].
  - intros [] w (d & m & Hd & -> & Hdone). exists m. split; [done|]. unfold scanned. by rewrite Hd, app_nil_r.
Qed.

(** the colours at the end: no object is left with mark 1 *)
Lemma scanned_all m x : scanned m -> x ∈ V -> m x = 0%Z \/ m x = 2%Z.
Proof using HI HM.
  intros Hd Hx. assert (Hc : coloured m) by (eapply scan_done_coloured; [|exact Hd]; intros y; auto).
  destruct (mk_reach _ _ _ _ _ _ HM _ Hx) as (r & Hr & Hp).
  assert (Hn : m x <> 1%Z); [|destruct (Hc x) as [?|[?|?]]; auto; done].
  clear Hx. revert x Hp. apply rtc_ind_r; [by apply (sd_visited _ _ _ _ _ _ Hd)|].
  intros y z _ Hyz Hy. destruct (Hc y) as [H0|[?|H2]]; [|done|].
  - by rewrite (sd_revived _ _ _ _ _ _ Hd y z H0).
  - by eapply (sd_condemned _ _ _ _ _ _ Hd y z H2).
Qed.

Lemma drop_revived_roots_spec m : scanned m ->
  wp drop_revived_roots (fun _ w => w = set_isolated (filter (fun i => m i = 2%Z) iso) (tint m w1)) (tint m w1).
Proof using HI HM.
  intros Hd. unfold drop_revived_roots. wp_step. wp_step.
  destruct (tint_fields m) as (Hu & Hi & _). rewrite Hi.
  eapply wp_mono; [eapply (wp_mapM_ _ (fun l w => NoDup l /\ l ⊆ iso /\
    w = set_isolated (filter (fun i => m i = 2%Z \/ i ∈ l) iso) (tint m w1)))|].
  - split_and!; [apply (mk_iso_nodup _ _ _ _ _ _ HM)|done|].
    assert (filter (fun i => m i = 2%Z \/ i ∈ iso) iso = iso) as ->.
    { apply filter_all. intros x Hx. by right. }
    rewrite <- Hi at 1. by destruct (tint m w1).
  - intros i l w (Hnd & Hl & ->). apply NoDup_cons in Hnd as [Hil Hnd].
    destruct (mk_iso _ _ _ _ _ _ HM i) as [_ HiV]; [apply Hl; by left|].
    pose proof (proj2 (traced_marked i) HiV) as (ob1 & Ho1 & Hm1).
    destruct (tint_lookup w1 m i ob1 Ho1) as (ob & Ho & Hk). rewrite Hm1 in Hk. simpl in Hk.
    wp_step. eapply wp_get_obj; [exact Ho|]. wp_step. wp_step.
    { rewrite Hk. by destruct (scanned_all m i Hd HiV) as [-> | ->]. }
    assert (Hl' : l ⊆ iso) by (intros x Hx; apply Hl; by right).
    rewrite Hk. destruct (Z.eqb_spec (m i) 2) as [H2|H2].
    + wp_step. split_and!; [done..|]. f_equal. apply list_filter_iff. intros x. rewrite elem_of_cons. naive_solver.
    + unfold list_del_init. wp_step. split_and!; [done..|].
      rewrite (set_unreferred_same (tint m w1) (filter (fun x => m x = 2%Z \/ x ∈ l) iso) [] Hu).
      assert (Hf : list_remove_oid i (filter (fun x => m x = 2%Z \/ x ∈ i :: l) iso) =
                filter (fun x => m x = 2%Z \/ x ∈ l) iso).
      { unfold list_remove_oid. rewrite list_filter_filter. apply list_filter_iff. intros x.
        rewrite elem_of_cons. split; [naive_solver|].
        intros [Hx|Hx]; (split; [|by auto]); intros ->; done. }
      rewrite <- Hf. cbn [unreferred isolated set_isolated]. by rewrite Hu.
  - intros [] w (_ & _ & ->). f_equal. apply list_filter_iff. intros x. split; [|by left].
    by intros [?|?%not_elem_of_nil].
Qed.

(** ** The graph after the passes *)
Section colours.
Variable m : oid -> Z.
Hypothesis Hd : scanned m.

Lemma tinted_object x ob : h !! x = Some ob ->
  exists ob', heap (tint m w1) !! x = Some ob' /\ ref_count ob' = ref_count ob /\
    (x ∈ V -> mark ob' = m x /\ (m x = 0%Z -> ref_count_scan ob' = 0%Z)) /\ (x ∉ V -> ob' = ob).
Proof using HI Hcalm HM.
  intros Hx. destruct (traced_object _ _ Hx) as (ob1 & Hx1 & Hin & Hout).
  destruct (over_lookup _ _ _ _ traced_over Hx) as (ob1' & ? & Hs). simplify_eq.
  destruct (same_paint_fields _ _ Hs) as (_ & Hr & _).
  rewrite lookup_tint, Hx1. simpl. eexists. split; [done|]. split_and!.
  - unfold shade. by repeat case_match.
  - intros HxV. destruct (Hin HxV) as [-> _]. simpl. split; [apply shade_mark|]. intros ->. done.
  - intros HxV. rewrite (Hout HxV). destruct (Z.eqb_spec (mark ob) 1) as [Hm|]; [|done].
    destruct (no_marks x). by exists ob.
Qed.

Lemma tinted_condemned x : condemned (tint m w1) x <-> x ∈ V /\ m x = 2%Z.
Proof using HI Hcalm HM.
  split.
  - intros (ob' & [Hx' Hne] & Hm). pose proof (tint_over h w1 traced_over m) as Ho.
    destruct (over_lookup_inv _ _ _ _ Ho Hx') as (ob & Hx & _).
    destruct (tinted_object _ _ Hx) as (ob2 & ? & Hr & Hin & Hout). simplify_eq.
    destruct (decide (x ∈ V)) as [HxV|HxV]; [destruct (Hin HxV) as [Hk _]; split; [done|congruence]|].
    rewrite (Hout HxV) in *. destruct (Hcalm x ob (conj Hx Hne)). lia.
  - intros [HxV H2]. destruct (mk_alive _ _ _ _ _ _ HM _ HxV) as (ob & Hx & Hne).
    destruct (tinted_object _ _ Hx) as (ob' & Hx' & Hr & Hin & _). destruct (Hin HxV) as [Hm _].
    exists ob'. split; [split; [done|congruence]|congruence].
Qed.

(** all the references to a condemned object were followed *)
Lemma condemned_counted x : m x = 2%Z -> x ∈ V -> cnt x (followed w0 V) = (cnt x ext + refs_to h x)%Z.
Proof using HI Hcalm HM Hd.
  intros H2 HxV. destruct (sd_two _ _ _ _ _ _ Hd x H2) as [?|Hn]; [done|].
  destruct (decide (cnt x (followed w0 V) = (cnt x ext + refs_to h x)%Z)); [done|].
  destruct Hn. by apply outside_ref_iff.
Qed.

Lemma condemned_back x p : m x = 2%Z -> x ∈ V -> refers h p x -> p ∈ V /\ m p = 2%Z /\ scans h p x.
Proof using HI Hcalm HM Hd.
  intros H2 HxV (ob & Hp & Hin). pose proof (condemned_counted x H2 HxV) as Hc.
  pose proof (cnt_nonneg x ext). unfold followed in Hc.
  pose proof (followed_missing h V x p ob (mk_nodup _ _ _ _ _ _ HM) Hp Hin) as Hmiss.
  assert (Hs : p ∈ V /\ x ∈ obj_scan ob).
  { destruct (decide (p ∈ V)), (decide (x ∈ obj_scan ob)); try done; exfalso; (assert (cnt x (concat (map (targets h) V)) < refs_to h x)%Z; [by apply Hmiss|lia]). }
  destruct Hs as [HpV Hxs]. assert (Hps : scans h p x) by (by exists ob). split_and!; [done| |done].
  destruct (scanned_all m p Hd HpV) as [H0|]; [|done].
  rewrite (sd_revived _ _ _ _ _ _ Hd p x H0) in H2; done.
Qed.

Lemma tinted_traced : traced ext un0 w0 (set_isolated (filter (fun i => m i = 2%Z) iso) (tint m w1)).
Proof using HI Hcalm HM Hd.
  destruct (tint_fields m) as (Hu & Hi & He).
  assert (Hcond : forall x, condemned (set_isolated (filter (fun i => m i = 2%Z) iso) (tint m w1)) x <-> x ∈ V /\ m x = 2%Z)
    by apply tinted_condemned.
  constructor.
  - apply (tint_over h w1 traced_over m).
  - exact He.
  - exact Hu.
  - apply NoDup_filter, (mk_iso_nodup _ _ _ _ _ _ HM).
  - intros x ob' [Hx' Hne]. change (heap (tint m w1) !! x = Some ob') in Hx'.
    destruct (over_lookup_inv _ _ _ _ (tint_over h w1 traced_over m) Hx') as (ob & Hx & _).
    destruct (tinted_object _ _ Hx) as (ob2 & ? & Hr & Hin & Hout). simplify_eq.
    destruct (decide (x ∈ V)) as [HxV|HxV].
    + destruct (Hin HxV) as [-> Hs]. destruct (scanned_all m x Hd HxV); auto.
    + rewrite (Hout HxV) in *. left. by apply (Hcalm x ob (conj Hx Hne)).
  - intros x ob' Hx' H0. change (heap (tint m w1) !! x = Some ob') in Hx'.
    destruct (over_lookup_inv _ _ _ _ (tint_over h w1 traced_over m) Hx') as (ob & Hx & _).
    destruct (tinted_object _ _ Hx) as (ob2 & ? & Hr & _ & Hout). simplify_eq.
    rewrite (Hout); [done|]. intros HxV. destruct (mk_alive _ _ _ _ _ _ HM _ HxV) as (ob3 & ? & ?). simplify_eq. lia.
  - intros x [HxV H2]%Hcond. pose proof (condemned_counted x H2 HxV) as Hc.
    pose proof (followed_le V h x (mk_nodup _ _ _ _ _ _ HM)) as Hle. unfold followed in Hc.
    apply cnt_zero. pose proof (cnt_nonneg x ext). lia.
  - intros x p [HxV H2]%Hcond Hp. destruct (condemned_back x p H2 HxV Hp) as (? & ? & ?). by rewrite Hcond.
  - intros r [H2 Hr]%list_elem_of_filter. apply Hcond. split; [|done]. by apply (mk_iso _ _ _ _ _ _ HM).
  - intros r v [H2 Hr]%list_elem_of_filter [HvV _]%Hcond Hrv. by eapply (mk_in _ _ _ _ _ _ HM).
  - intros x Hx. apply Hcond in Hx as [HxV H2]. destruct (mk_reach _ _ _ _ _ _ HM _ HxV) as (r & Hr & Hp).
    exists r. split; [|done]. apply list_elem_of_filter. split; [|done].
    assert (Hgen : forall y, rtc (scans h) r y -> y ∈ V -> m y = 2%Z -> m r = 2%Z); [|by eapply Hgen].
    apply (rtc_ind_r (fun y => y ∈ V -> m y = 2%Z -> m r = 2%Z)); [done|].
    intros y z _ Hyz IH HzV Hz2. destruct (condemned_back z y Hz2 HzV (scans_refers _ _ _ Hyz)) as (? & ? & _). auto.
  - intros x [HxV _]%Hcond. destruct (mk_reach _ _ _ _ _ _ HM _ HxV) as (r & Hr & Hp). exists r.
    split; [|done]. by apply (mk_iso _ _ _ _ _ _ HM).
  - intros Hall x (u & Hu0 & Hp) Hn.
    assert (HrV : forall y, from_roots h un0 y -> y ∈ V).
    { intros y (v & Hv & Hvy). revert y Hvy. apply rtc_ind_r.
      - destruct (mk_un0 _ _ _ _ _ _ HM _ Hv) as [?%not_elem_of_nil|]; done.
      - intros a b _ Hab Ha. by eapply (mk_closed _ _ _ _ _ _ HM). }
    assert (HxV : x ∈ V) by (apply HrV; by exists u).
    destruct (scanned_all m x Hd HxV) as [H0|H2]; [|by destruct Hn; apply Hcond].
    destruct (sd_lit _ _ _ _ _ _ Hd x H0) as [?|(y & Hy & Hyx)]; [done|]. exists y. split; [done|].
    apply outside_ref_iff in Hy as [HyV Hne]. destruct (decide (y ∈ ext)) as [|He0]; [by left|right].
    apply cnt_zero in He0. rewrite He0 in Hne.
    destruct (decide (map_Forall (fun p ob => y ∈ obj_strong ob -> p ∈ V) h)) as [HF|HF].
    + destruct Hne. unfold followed. rewrite <- followed_all; [lia|apply (mk_nodup _ _ _ _ _ _ HM)| |done].
      intros p ob Hpo Hin. by eapply HF.
    + apply map_not_Forall in HF as (p & ob & Hpo & Hno); [|apply _].
      destruct (decide (y ∈ obj_strong ob)) as [Hin|]; [|by destruct Hno].
      exists p. split; [by exists ob|]. intros Hfr. apply Hno. intros _. by apply HrV.
Qed.
End colours.
End marked.

(** marking, scanning and sorting the roots *)
Lemma trace_spec : (2 * alive w0 < Z.of_nat env_fuel)%Z ->
  wp (mark_roots env_fuel ;; scan_roots ;; drop_revived_roots) (fun _ w => traced ext un0 w0 w) (set_isolated [] w0).
Proof using HI Hcalm Hun0.
  intros Hfuel. wp_step. eapply wp_mono.
  - eapply (mark_roots_spec w0 un0); [by eapply Inv_scannable|done|apply no_marks|apply roots_alive| |apply marking_start|].
    + pose proof (weigh_alive unmarked_weight 1 w0) as Hw. unfold unmarked. pose proof (alive_nonneg w0).
      assert (weigh unmarked_weight w0 <= 1 * alive w0)%Z; [|lia]. apply Hw. intros k. unfold unmarked_weight. case_match; lia.
    + pose proof roots_length. lia.
  - intros [] w1 (V & iso & HM). wp_step. eapply wp_mono; [by eapply scan_roots_spec|].
    intros [] w2 (m & -> & Hd). eapply wp_mono; [by eapply drop_revived_roots_spec|].
    intros [] w3 ->. by eapply tinted_traced.
Qed.
End trace.
