(* ===== verification/GCCollect.v ===== *)
(** * The third pass of the collector

    [di_collect_garbage_collect_pre] takes a reference to every condemned object on the way
    down, [di_collect_garbage_collect_post] finalizes it and gives the reference back on the
    way up: when a root is done, everything condemned that it leads to has lost its members,
    and nothing that is held from outside has changed. *)

From S2P Require Export GCTrace.

(** ** Repainting keeps the invariant *)

Lemma msum_over (f : object -> Z) w w' : (forall ob, 0 <= f ob)%Z ->
  (forall ob ob', same_paint ob ob' -> f ob' = f ob) -> over (heap w) w' ->
  msum f (heap w') = msum f (heap w).
Proof.
  intros Hf Hs Ho. apply Z.le_antisymm; apply msum_le; try (by intros).
  - intros x ob' Hx. destruct (over_lookup_inv _ _ _ _ Ho Hx) as (ob & Hob & Hp). exists ob. split; [done|].
    by rewrite (Hs _ _ Hp).
  - intros x ob Hx. destruct (over_lookup _ _ _ _ Ho Hx) as (ob' & Hob & Hp). exists ob'. split; [done|].
    by rewrite (Hs _ _ Hp).
Qed.

Lemma same_paint_strong ob ob' : same_paint ob ob' -> obj_strong ob' = obj_strong ob.
Proof. by intros ->. Qed.
Lemma same_paint_weak ob ob' : same_paint ob ob' -> obj_weak ob' = obj_weak ob.
Proof. by intros ->. Qed.
Lemma same_paint_scan ob ob' : same_paint ob ob' -> obj_scan ob' = obj_scan ob.
Proof. by intros ->. Qed.

Lemma over_refers h w p q : over h w -> refers (heap w) p q <-> refers h p q.
Proof.
  intros Ho. split; intros (ob & Hp & Hq).
  - destruct (over_lookup_inv _ _ _ _ Ho Hp) as (ob0 & Hp0 & Hs). exists ob0. split; [done|].
    by rewrite <- (same_paint_strong _ _ Hs).
  - destruct (over_lookup _ _ _ _ Ho Hp) as (ob0 & Hp0 & Hs). exists ob0. split; [done|].
    by rewrite (same_paint_strong _ _ Hs).
Qed.
Lemma over_scans h w p q : over h w -> scans (heap w) p q <-> scans h p q.
Proof.
  intros Ho. split; intros (ob & Hp & Hq).
  - destruct (over_lookup_inv _ _ _ _ Ho Hp) as (ob0 & Hp0 & Hs). exists ob0. split; [done|].
    by rewrite <- (same_paint_scan _ _ Hs).
  - destruct (over_lookup _ _ _ _ Ho Hp) as (ob0 & Hp0 & Hs). exists ob0. split; [done|].
    by rewrite (same_paint_scan _ _ Hs).
Qed.

Lemma Inv_over ext extw pin w w' : Inv ext extw pin w -> over (heap w) w' -> next_addr w' = next_addr w ->
  (forall x ob, heap w' !! x = Some ob -> mark ob = 0 \/ mark ob = 2 \/ mark ob = 3)%Z ->
  (forall x, x ∈ on_lists w' -> exists ob, alive_obj w' x ob) -> NoDup (on_lists w') ->
  Inv ext extw pin w'.
Proof.
  intros HI Ho Hn Hm Hl Hnd.
  assert (Hsome : forall x, is_Some (heap w !! x) -> is_Some (heap w' !! x)).
  { intros x [ob Hx]. destruct (over_lookup _ _ _ _ Ho Hx) as (ob' & Hx' & _). eauto. }
  assert (Hsomes : forall l, Forall (fun x => is_Some (heap w !! x)) l -> Forall (fun x => is_Some (heap w' !! x)) l).
  { intros l Hl'. eapply Forall_impl; [exact Hl'|]. apply Hsome. }
  assert (Hobj : forall o ob, heap w' !! o = Some ob -> obj_inv ext extw pin (heap w') o ob).
  { intros o ob' Ho'. destruct (over_lookup_inv _ _ _ _ Ho Ho') as (ob & Hob & Hs).
    destruct (inv_obj _ _ _ _ HI _ _ Hob) as [Hrc Hwrc Hwp Hde Hzo _ Hbo Hva Hna Hst Hwe].
    assert (Hr : refs_to (heap w') o = refs_to (heap w) o).
    { apply msum_over; [intros; apply cnt_nonneg|intros ? ? Hp; by rewrite (same_paint_strong _ _ Hp)|done]. }
    assert (Hw : wrefs_to (heap w') o = wrefs_to (heap w) o).
    { apply msum_over; [intros; apply cnt_nonneg|intros ? ? Hp; by rewrite (same_paint_weak _ _ Hp)|done]. }
    specialize (Hm _ _ Ho'). destruct (same_paint_fields _ _ Hs) as ((Hme & _ & _ & _ & Hds) & Hrf & Hwf).
    constructor; rewrite ?Hr, ?Hw, ?Hme, ?Hds, ?Hrf, ?Hwf, ?(same_paint_strong _ _ Hs), ?(same_paint_weak _ _ Hs);
      try done; [|by apply Hsomes..].
    unfold implicit_weak in *. by rewrite Hrf. }
  constructor; [done|by apply Hsomes, HI|by apply Hsomes, HI| | |done].
  - intros o [ob Hob]. destruct (over_lookup_inv _ _ _ _ Ho Hob) as (ob0 & Hob0 & _). rewrite Hn.
    apply (inv_fresh _ _ _ _ HI). by rewrite Hob0.
  - apply Forall_forall. intros x Hx. destruct (Hl _ Hx) as (ob & Hob & Hne). exists ob. split; [done|].
    rewrite (oi_rc _ _ _ _ _ _ (Hobj _ _ Hob)) in *. pose proof (cnt_nonneg x ext). pose proof (refs_to_nonneg (heap w') x). lia.
Qed.

Lemma traced_Inv ext extw un0 w0 w : Inv ext extw [] w0 -> traced ext un0 w0 w -> Inv ext extw [] w.
Proof.
  intros HI HT. eapply (Inv_over _ _ _ w0); [done|apply HT| | | |].
  - change (next_addr (elsewhere w) = next_addr (elsewhere w0)). f_equal. apply HT.
  - intros x ob Hx. destruct (decide (ref_count ob = 0%Z)) as [H0|Hne].
    + apply (inv_obj _ _ _ _ HI x). by apply (tr_dead _ _ _ _ HT).
    + destruct (tr_marks _ _ _ _ HT x ob (conj Hx Hne)) as [[? _]|?]; auto.
  - intros x. unfold on_lists. rewrite (tr_unreferred _ _ _ _ HT). simpl. intros Hx.
    destruct (tr_roots _ _ _ _ HT _ Hx) as (ob & ? & _). eauto.
  - unfold on_lists. rewrite (tr_unreferred _ _ _ _ HT). apply HT.
Qed.

#[global] Instance condemned_dec w x : Decision (condemned w x).
Proof.
  destruct (heap w !! x) as [ob|] eqn:Hx; [|right; by intros (? & [? _] & _); simplify_eq].
  destruct (decide (ref_count ob <> 0%Z)); [|right; intros (? & [? ?] & _); by simplify_eq].
  destruct (decide (mark ob = 2%Z)); [left; by exists ob|right; intros (? & [? ?] & ?); by simplify_eq].
Defined.

Section collect.
Context {E : Env}.
Variables (N : Z) (ext extw un0 : list oid) (w0 wb : world).
Hypothesis Henv : env_ok True N.
Hypothesis HN : (N <= Z.of_nat env_fuel)%Z.
Hypothesis HI : Inv ext extw [] wb.
Hypothesis HT : traced ext un0 w0 wb.
Hypothesis Hal : (alive wb < N)%Z.
(** a condemned object can be referenced once more without overflow *)
Hypothesis Hroom : forall x ob, heap wb !! x = Some ob -> (ref_count ob < 2 ^ 64 - 1)%Z.

Notation hb := (heap wb).
Notation G := (condemned wb).

Lemma condemned_alive x : G x -> exists ob, alive_obj wb x ob.
Proof using. intros (ob & ? & _). eauto. Qed.

Lemma back x p : G x -> refers hb p x -> G p /\ scans hb p x.
Proof using HT.
  intros Hx Hp. rewrite (over_scans _ _ _ _ (tr_over _ _ _ _ HT)). apply (tr_back _ _ _ _ HT); [done|].
  by apply (over_refers _ _ _ _ (tr_over _ _ _ _ HT)).
Qed.

Lemma condemned_unreachable x : G x -> ~ reachable hb ext x.
Proof using HT.
  intros Hx (e & He & Hp). revert x Hp Hx. apply (rtc_ind_r (fun z => G z -> False)).
  - intros He'. by apply (tr_held _ _ _ _ HT e).
  - intros y z _ Hyz IH Hz. by apply IH, (back z y).
Qed.

(** [A]: the condemned objects on the way down, each referenced once more; [D]: those that
    have been finalized *)
Record collecting (A D : list oid) (w : world) : Prop := {
  cl_inv : Inv (A ++ ext) extw [] w;
  cl_alive : (alive w <= alive wb)%Z;
  cl_obj : forall p ob', heap w !! p = Some ob' -> exists ob, hb !! p = Some ob /\
    ref_count_scan ob' = ref_count_scan ob /\ (ref_count ob = 0%Z -> ref_count ob' = 0%Z) /\
    (members ob' = members ob \/ members ob' = []) /\
    (~ G p -> mark ob' = mark ob /\ (ref_count ob' <> 0%Z -> same_contents ob ob'));
  cl_anc : NoDup A /\ forall a, a ∈ A -> G a /\ a ∉ D;
  cl_fin : forall d, d ∈ D -> G d;
  cl_intact : forall g, G g -> g ∉ D -> exists ob ob', hb !! g = Some ob /\ alive_obj w g ob' /\
    members ob' = members ob /\ mark ob' = if decide (g ∈ A) then 3%Z else 2%Z;
  cl_done : forall d ob', d ∈ D -> heap w !! d = Some ob' -> mark ob' = 3%Z /\ members ob' = [];
  cl_closed : forall d q, d ∈ D -> scans hb d q -> G q -> q ∈ D \/ q ∈ A;
  cl_iso_sub : forall r, r ∈ isolated w -> r ∈ isolated wb;
  cl_iso : forall r, r ∈ isolated wb -> r ∉ D -> r ∈ isolated w;
  cl_unref : forall o ob', o ∈ default [] (unreferred w) -> heap w !! o = Some ob' -> mark ob' = 0%Z;
  cl_init : is_Some (unreferred w);
  cl_kept : keeps (reachable hb ext) wb w
}.

(** references only disappear *)
Lemma collecting_refers A D w p q : collecting A D w -> refers (heap w) p q -> refers hb p q /\ p ∉ D.
Proof using.
  intros HC (ob' & Hp & Hq). destruct (cl_obj _ _ _ HC _ _ Hp) as (ob & Hob & _ & _ & [Hm|Hm] & _).
  - split; [exists ob; split; [done|]; unfold obj_strong; by rewrite <- Hm|].
    intros Hd. destruct (cl_done _ _ _ HC _ _ Hd Hp) as [_ Hm']. unfold obj_strong in Hq. rewrite Hm' in Hq.
    by apply not_elem_of_nil in Hq.
  - unfold obj_strong in Hq. rewrite Hm in Hq. by apply not_elem_of_nil in Hq.
Qed.

Lemma collecting_refs_le A D w x : collecting A D w -> (refs_to (heap w) x <= refs_to hb x)%Z.
Proof using.
  intros HC. apply msum_le; [intros; apply cnt_nonneg|]. intros p ob' Hp.
  destruct (cl_obj _ _ _ HC _ _ Hp) as (ob & Hob & _ & _ & [Hm|Hm] & _); exists ob; (split; [done|]);
    unfold obj_strong; rewrite Hm; [done|apply cnt_nonneg].
Qed.

Lemma collecting_start : collecting [] [] wb.
Proof using HI HT.
  constructor; simpl; try (by intros ? ?%not_elem_of_nil); try (by intros ? ? ?%not_elem_of_nil); try done.
  - intros p ob Hp. exists ob. split_and!; auto. intros _. split; [done|]. intros _. apply same_contents_refl.
  - split; [constructor|]. by intros ? ?%not_elem_of_nil.
  - intros g (ob & Hg & Hm) _. exists ob, ob. split_and!; [apply Hg|done|done|]. done.
  - rewrite (tr_unreferred _ _ _ _ HT). by intros ? ? ?%not_elem_of_nil.
  - rewrite (tr_unreferred _ _ _ _ HT). eauto.
  - intros x Hx. destruct (reachable_alive HI ext x) as (ob & Ho); [|done|].
    + apply Forall_forall. intros e He. by apply (held_alive HI).
    + exists ob, ob. split_and!; try done. 
Qed.

(** an intact object is held by us or referred to by an intact one *)
Lemma intact_reason A D w g : collecting A D w -> G g -> g ∉ D -> g ∉ A ->
  exists p, refers (heap w) p g /\ G p /\ p ∉ D /\ scans hb p g.
Proof using HT.
  intros HC Hg HgD HgA. destruct (cl_intact _ _ _ HC _ Hg HgD) as (ob & ob' & _ & Hal' & _).
  destruct (alive_reason (cl_inv _ _ _ HC) _ _ Hal') as [[?|He]%elem_of_app|(p & Hp)].
  - done.
  - by destruct (tr_held _ _ _ _ HT _ Hg).
  - destruct (collecting_refers _ _ _ _ _ HC Hp) as [Hb HpD]. destruct (back _ _ Hg Hb). eauto.
Qed.

Lemma collecting_reachable A D w x : collecting A D w -> reachable (heap w) ext x -> reachable hb ext x.
Proof using.
  intros HC (e & He & Hp). exists e. split; [done|]. revert x Hp. apply rtc_ind_r; [done|].
  intros y z _ Hyz IH. eapply rtc_r; [done|]. by eapply collecting_refers.
Qed.

(** finalizing [o], whose references have all been dealt with *)
Lemma collecting_finish o A D w w' : collecting (o :: A) D w ->
  (forall q, scans hb o q -> G q -> q ∈ D \/ q ∈ o :: A) ->
  Inv (A ++ ext) extw [] w' -> quiet_frame (Some o) w w' -> (alive w' <= alive w)%Z ->
  (forall ob', heap w' !! o = Some ob' -> members ob' = []) ->
  collecting A (o :: D) w'.
Proof using All.
  intros HC Hq HI' HQ Ha Hm.
  destruct (cl_anc _ _ _ HC) as [[HoA HndA]%NoDup_cons HA].
  destruct (HA o) as [HGo HoD]; [by left|].
  assert (Hzero : forall p ob', heap w' !! p = Some ob' -> ref_count ob' = 0%Z -> members ob' = []).
  { intros p ob' Hp H0. destruct (oi_zombie _ _ _ _ _ _ (inv_obj _ _ _ _ HI' _ _ Hp) H0) as [|Hin]; [done|].
    by apply not_elem_of_nil in Hin. }
  (* the intact objects stay *)
  assert (Hkeep : keeps (fun g => G g /\ g ∉ o :: D) w w').
  { apply (quiet_keeps (Some o)); [done|]. intros g [Hg [Hgo HgD]%not_elem_of_cons]. split_and!.
    - congruence.
    - destruct (cl_intact _ _ _ HC _ Hg HgD) as (_ & ob' & _ & ? & _). eauto.
    - destruct (decide (g ∈ A)) as [HgA|HgA].
      + left. intros Hgone. destruct (held_alive HI' g) as (ob & Ho & Hne); [apply elem_of_app; by left|].
        by apply Hne, Hgone.
      + right. destruct (intact_reason _ _ _ g HC Hg HgD) as (p & Hp & HGp & HpD & Hs);
          [apply not_elem_of_cons; done|]. exists p. split; [|done]. split; [done|].
        apply not_elem_of_cons. split; [|done]. intros ->.
        destruct (Hq g Hs Hg) as [?|[?|?]%elem_of_cons]; done. }
  constructor.
  - done.
  - pose proof (cl_alive _ _ _ HC). lia.
  - intros p ob' Hp. destruct (qf_obj _ _ _ HQ _ _ Hp) as (ob1 & Hp1 & Hmk & Hsc & Hz & Hk).
    destruct (cl_obj _ _ _ HC _ _ Hp1) as (ob & Hob & Hsc0 & Hz0 & Hm0 & Hk0).
    exists ob. split_and!; [done|congruence|auto| |].
    + destruct (decide (ref_count ob' = 0%Z)) as [H0|Hne]; [right; by eapply Hzero|].
      destruct (decide (p = o)) as [->|Hpo]; [right; by apply Hm|].
      destruct (Hk Hne) as [-> _]; [congruence|done].
    + intros HnG. destruct (Hk0 HnG) as [Hmk0 Hs0]. split; [congruence|]. intros Hne.
      eapply same_contents_trans; [apply Hs0|apply Hk]; [intros ?; by apply Hne, Hz|done|congruence].
  - split; [done|]. intros a Ha'. destruct (HA a) as [? ?]; [by right|]. split; [done|].
    apply not_elem_of_cons. split; [|done]. by intros ->.
  - intros d [->|Hd]%elem_of_cons; [done|by apply (cl_fin _ _ _ HC)].
  - intros g Hg HgD. destruct (Hkeep g (conj Hg HgD)) as (ob1 & ob' & [Hg1 _] & Hg' & (Hme & _) & Hmk & _).
    apply not_elem_of_cons in HgD as [Hgo HgD].
    destruct (cl_intact _ _ _ HC _ Hg HgD) as (ob & ob1' & Hob & [? _] & Hme1 & Hmk1). simplify_eq.
    exists ob, ob'. split_and!; [done|done|congruence|]. rewrite Hmk, Hmk1.
    repeat case_decide; try done; set_solver.
  - intros d ob' Hd Hd'. destruct (qf_obj _ _ _ HQ _ _ Hd') as (ob1 & Hd1 & Hmk & _ & _ & Hk).
    apply elem_of_cons in Hd as [->|Hd].
    + split; [|by apply Hm]. destruct (cl_intact _ _ _ HC _ HGo HoD) as (_ & ob2 & _ & [? _] & _ & Hmk2). simplify_eq.
      rewrite Hmk, Hmk2, decide_True; [done|by left].
    + destruct (cl_done _ _ _ HC _ _ Hd Hd1) as [Hmk1 Hme1]. split; [congruence|].
      destruct (decide (ref_count ob' = 0%Z)) as [H0|Hne]; [by eapply Hzero|].
      destruct (Hk Hne) as [-> _]; [|done]. intros [= ->]. done.
  - intros d q Hd Hdq HGq. apply elem_of_cons in Hd as [->|Hd].
    + destruct (Hq q Hdq HGq) as [?|[->|?]%elem_of_cons]; [left; by right|left; by left|by right].
    + destruct (cl_closed _ _ _ HC _ _ Hd Hdq HGq) as [?|[->|?]%elem_of_cons]; [left; by right|left; by left|by right].
  - intros r Hr. by apply (cl_iso_sub _ _ _ HC), (qf_isolated _ _ _ HQ).
  - intros r Hr HrD. destruct (Hkeep r) as (_ & ob' & _ & [Hr' Hne] & _).
    { split; [by apply (tr_roots _ _ _ _ HT)|done]. }
    eapply (qf_isolated_kept _ _ _ HQ); [|done|done]. apply (cl_iso _ _ _ HC); [done|].
    by apply not_elem_of_cons in HrD as [_ ?].
  - intros x ob' Hx Hx'. destruct (qf_obj _ _ _ HQ _ _ Hx') as (ob1 & Hx1 & Hmk & _).
    destruct (qf_unreferred _ _ _ HQ _ _ Hx Hx') as [Hin|]; [|done]. rewrite Hmk. by eapply (cl_unref _ _ _ HC).
  - apply (qf_init _ _ _ HQ), HC.
  - eapply keeps_trans; [apply (cl_kept _ _ _ HC)|].
    eapply (keeps_impl (reachable (heap w) ext)); [|].
    { intros x Hx. eapply keeps_reachable; [apply (cl_kept _ _ _ HC)|done]. }
    eapply quiet_keeps_held; [apply (cl_inv _ _ _ HC)|exact HI'|done| | |].
    + intros e He. apply elem_of_app. by right.
    + intros e He. apply elem_of_app. by right.
    + intros x [= <-] Hx. eapply condemned_unreachable; [exact HGo|]. by eapply collecting_reachable.
Qed.

(** [di_collect_garbage_collect_pre] at an object not met before *)
Lemma collecting_enter o ob A D w : collecting A D w -> G o -> o ∉ D -> o ∉ A -> alive_obj w o ob ->
  let w' := set_heap (<[o := set_mark 3 (set_ref_count (ref_count ob + 1) ob)]> (heap w)) w in
  collecting (o :: A) D w' /\ (ref_count ob < 2 ^ 64 - 1)%Z.
Proof using All.
  intros HC HGo HoD HoA [Ho Hne] w'.
  pose proof (cl_inv _ _ _ HC) as HIw.
  destruct (inv_obj _ _ _ _ HIw _ _ Ho) as [Hrc Hwrc Hwp Hde Hzo Hma Hbo Hva Hna Hst Hwe].
  pose proof (Inv_rc_nonneg _ _ _ _ _ _ HIw Ho) as Hnn.
  destruct (cl_intact _ _ _ HC _ HGo HoD) as (obb & ob1 & Hob & [Ho1 _] & Hme & Hmk).
  assert (ob1 = ob) as -> by congruence. clear Ho1.
  rewrite decide_False in Hmk by done.
  assert (Hlt : (ref_count ob < 2 ^ 64 - 1)%Z).
  { specialize (Hroom _ _ Hob). rewrite (oi_rc _ _ _ _ _ _ (inv_obj _ _ _ _ HI _ _ Hob)) in Hroom.
    rewrite Hrc. assert (cnt o (A ++ ext) = 0%Z) as ->.
    { apply cnt_zero. intros [?|?]%elem_of_app; [done|]. by apply (tr_held _ _ _ _ HT _ HGo). }
    pose proof (collecting_refs_le _ _ _ o HC). pose proof (cnt_nonneg o ext). lia. }
  split; [|done].
  assert (Hlook : forall p ob', heap w' !! p = Some ob' -> (p = o /\ ob' = set_mark 3 (set_ref_count (ref_count ob + 1) ob)) \/
     (p <> o /\ heap w !! p = Some ob')).
  { intros p ob' Hp. unfold w' in Hp. simpl in Hp. destruct (decide (p = o)) as [->|]; simplify_map_eq; auto. }
  assert (Hother : forall p, p <> o -> heap w' !! p = heap w !! p).
  { intros p Hp. unfold w'. simpl. by rewrite lookup_insert_ne. }
  assert (Hself : heap w' !! o = Some (set_mark 3 (set_ref_count (ref_count ob + 1) ob))).
  { unfold w'. simpl. by simplify_map_eq. }
  constructor.
  - eapply Inv_upd; try done; unfold obj_strong, obj_weak, implicit_weak; simpl.
    + intros x Hx. rewrite decide_False by done. lia.
    + rewrite decide_True by done. lia.
    + repeat case_match; lia.
    + lia.
    + lia.
    + intros _. by apply Hde.
    + intros; lia.
    + by right; right.
    + left; lia.
  - assert (alive w' = alive w) as ->; [|apply HC]. unfold w'. rewrite (alive_upd _ _ ob) by done.
    unfold implicit_weak. simpl. repeat case_match; lia.
  - intros p ob' [[-> ->]|[Hpo Hp]]%Hlook; [|by apply (cl_obj _ _ _ HC)].
    destruct (cl_obj _ _ _ HC _ _ Ho) as (ob2 & ? & Hs & Hz & Hm & _). exists ob2.
    split_and!; try done. intros H0. specialize (Hz H0). lia.
  - destruct (cl_anc _ _ _ HC) as [Hnd HA]. split; [by apply NoDup_cons|].
    intros a [->|Ha]%elem_of_cons; [done|by apply HA].
  - apply (cl_fin _ _ _ HC).
  - intros g Hg HgD. destruct (cl_intact _ _ _ HC _ Hg HgD) as (a & b & Ha & [Hb Hbn] & Hme' & Hmk').
    destruct (decide (g = o)) as [->|Hgo].
    + eexists a, _. split_and!; [done|split; [exact Hself|simpl; lia]|simplify_eq; done|].
      rewrite decide_True; [done|by left].
    + exists a, b. split_and!; [done|split; [by rewrite Hother|done]|done|]. rewrite Hmk'.
      repeat case_decide; try done; set_solver.
  - intros d ob' Hd [[-> ->]|[Hpo Hp]]%Hlook; [done|]. by apply (cl_done _ _ _ HC d).
  - intros d q Hd Hdq HGq. destruct (cl_closed _ _ _ HC _ _ Hd Hdq HGq); [by left|right; by right].
  - apply (cl_iso_sub _ _ _ HC).
  - apply (cl_iso _ _ _ HC).
  - intros x ob' Hx [[-> ->]|[Hpo Hp]]%Hlook; [|by apply (cl_unref _ _ _ HC x)].
    specialize (cl_unref _ _ _ HC _ _ Hx Ho). lia.
  - apply (cl_init _ _ _ HC).
  - intros x Hx. destruct (cl_kept _ _ _ HC x Hx) as (a & b & Ha & [Hb Hbn] & Hrest).
    exists a, b. split_and!; [done| |apply Hrest..]. split; [|done]. rewrite Hother; [done|].
    intros ->. by eapply condemned_unreachable.
Qed.

Lemma ancestors_length A D w : collecting A D w -> (Z.of_nat (length A) <= alive wb)%Z.
Proof using All.
  intros HC. destruct (cl_anc _ _ _ HC) as [Hnd HA]. apply length_alive; [done|].
  intros x Hx. destruct (HA x Hx) as [(ob & [Ho Hne] & _) _]. exists ob. split; [done|].
  pose proof (Inv_rc_nonneg _ _ _ _ _ _ HI Ho). lia.
Qed.

(** [di_collect_garbage_collect_post] *)
Lemma collect_post_spec o A D w : collecting (o :: A) D w ->
  (forall q, scans hb o q -> G q -> q ∈ D \/ q ∈ o :: A) ->
  wp (di_collect_garbage_collect_post o) (fun _ w' => collecting A (o :: D) w') w.
Proof using All.
  intros HC Hq. destruct (cl_anc _ _ _ HC) as [_ HA]. destruct (HA o) as [HGo HoD]; [by left|].
  destruct (cl_intact _ _ _ HC _ HGo HoD) as (ob0 & ob & _ & [Ho Hne] & Hme & Hmk).
  rewrite decide_True in Hmk by (by left).
  unfold di_collect_garbage_collect_post. wp_step. wp_step. wp_step. wp_step; [by rewrite Hmk|]. wp_step.
  pose proof (cl_alive _ _ _ HC) as Hal'.
  eapply wp_mono.
  { eapply (finalize_object_inner_held di_unref_object N Henv); [by apply di_unref_object_ok|
      apply (cl_inv _ _ _ HC)|lia|by left]. }
  intros [] w1 (HI1 & HF1 & ob1 & Ho1 & Hm1).
  eapply wp_mono; [eapply (di_unref_object_ok True N Henv HN o (A ++ ext)); [exact HI1|]|].
  { pose proof (fr_alive _ _ _ _ HF1). lia. }
  intros [] w2 (HI2 & HF2).
  assert (HF : frame True (Some o) w w2) by (eapply frame_trans; [done|by apply frame_own]).
  eapply collecting_finish; [done|done|done|by apply (fr_quiet _ _ _ _ HF)|apply (fr_alive _ _ _ _ HF)|].
  intros ob2 Ho2. destruct (decide (ref_count ob2 = 0%Z)) as [H0|Hne2].
  - destruct (oi_zombie _ _ _ _ _ _ (inv_obj _ _ _ _ HI2 _ _ Ho2) H0) as [|Hin]; [done|]. by apply not_elem_of_nil in Hin.
  - destruct (qf_obj _ _ _ (fr_quiet _ _ _ _ HF2 I) _ _ Ho2) as (ob1' & Ho1' & _ & _ & _ & Hk). simplify_eq.
    destruct (Hk Hne2) as [-> _]; done.
Qed.

(** [di_collect_garbage_collect_pre] *)
Lemma collect_pre_spec o ob A D w : collecting A D w -> alive_obj w o ob ->
  wp (di_collect_garbage_collect_pre o false) (fun r w' =>
    match r with
    | None => w' = w /\ (G o -> o ∈ D \/ o ∈ A)
    | Some next => next = false /\ G o /\ o ∉ D /\ o ∉ A /\ collecting (o :: A) D w'
    end) w.
Proof using All.
  intros HC [Ho Hne]. unfold di_collect_garbage_collect_pre. wp_step. wp_step.
  destruct (decide (G o)) as [HGo|HnG].
  - destruct (decide (o ∈ D)) as [HoD|HoD].
    { destruct (cl_done _ _ _ HC _ _ HoD Ho) as [-> _]. simpl. wp_step. split; [done|by left]. }
    destruct (cl_intact _ _ _ HC _ HGo HoD) as (ob0 & ob' & Hob0 & [Ho' _] & Hme & Hmk). simplify_eq.
    destruct (decide (o ∈ A)) as [HoA|HoA].
    { rewrite Hmk. simpl. wp_step. split; [done|by right]. }
    rewrite Hmk. simpl. destruct (collecting_enter o ob A D w HC HGo HoD HoA (conj Ho Hne)) as [HC' Hlt].
    pose proof (Inv_rc_nonneg _ _ _ _ _ _ (cl_inv _ _ _ HC) Ho).
    wp_step. unfold di_ref_object. wp_step. wp_step. wp_step. wp_step. wp_step. wp_step. simpl.
    rewrite u64_small by lia. split_and!; try done. rewrite set_heap_twice, insert_insert_eq. exact HC'.
  - destruct (cl_obj _ _ _ HC _ _ Ho) as (ob0 & Ho0 & _ & Hz & _ & Hk). destruct (Hk HnG) as [Hmk _].
    assert (Hne0 : ref_count ob0 <> 0%Z) by (intros ?; by apply Hne, Hz).
    destruct (tr_marks _ _ _ _ HT _ _ (conj Ho0 Hne0)) as [[Hm0 _]|Hm2].
    + rewrite Hmk, Hm0. simpl. wp_step. done.
    + destruct HnG. exists ob0. done.
Qed.

(** the traversal: at most every condemned object is on the way down at a time *)
Lemma collect_visit fuel : forall o ob A D w, collecting A D w -> alive_obj w o ob ->
  (alive wb < Z.of_nat (length A + fuel))%Z ->
  wp (scan_object di_collect_garbage_collect_pre (Some di_collect_garbage_collect_post) fuel false o)
    (fun _ w' => exists D', D ⊆ D' /\ collecting A D' w' /\ (G o -> o ∈ D' \/ o ∈ A)) w.
Proof using All.
  induction fuel as [|fuel IH]; intros o ob A D w HC Ho Hfuel.
  { pose proof (ancestors_length _ _ _ HC). lia. }
  cbn [scan_object]. wp_step. eapply wp_mono; [by eapply collect_pre_spec|].
  intros [next|] w1; [|intros [-> HG]; wp_step; by exists D].
  intros (-> & HGo & HoD & HoA & HC1). wp_step.
  pose proof HGo as (ob0 & [Hob0 _] & _).
  eapply wp_mono; [eapply (wp_hash_iter _ o ob0 (fun l w2 => exists d D2, targets hb o = d ++ l /\ D ⊆ D2 /\
    collecting (o :: A) D2 w2 /\ forall q, q ∈ d -> G q -> q ∈ D2 \/ q ∈ o :: A))|].
  - apply (inv_obj _ _ _ _ HI _ _ Hob0).
  - apply (inv_obj _ _ _ _ HI _ _ Hob0).
  - intros l w2 (d & D2 & _ & _ & HC2 & _). destruct (cl_anc _ _ _ HC2) as [_ HA2].
    destruct (HA2 o) as [_ HoD2]; [by left|].
    destruct (cl_intact _ _ _ HC2 _ HGo HoD2) as (a & b & ? & [? _] & Hme & _). simplify_eq. by exists b.
  - intros x l w2 (d & D2 & Hd & HD & HC2 & Hdone). destruct (cl_anc _ _ _ HC2) as [_ HA2].
    destruct (HA2 o) as [_ HoD2]; [by left|].
    destruct (cl_intact _ _ _ HC2 _ HGo HoD2) as (a & b & Ha & [Hb _] & Hme & _).
    assert (Hx : scans hb o x) by (apply elem_targets; rewrite Hd; apply elem_of_app; right; by left).
    destruct (refers_alive (cl_inv _ _ _ HC2) o x) as (obx & Hox).
    { apply scans_refers in Hx as (a' & ? & Hin). simplify_eq. exists b. split; [done|].
      unfold obj_strong in *. by rewrite Hme. }
    eapply wp_mono; [eapply (IH x obx (o :: A)); [done|done|simpl; lia]|].
    intros [] w3 (D3 & HD3 & HC3 & HG3). exists (d ++ [x]), D3.
    split_and!; [by rewrite <- app_assoc|by transitivity D2|done|].
    intros q [Hq| ->%list_elem_of_singleton]%elem_of_app HGq; [|by apply HG3].
    destruct (Hdone q Hq HGq); [left; by apply HD3|by right].
  - exists [], D. split_and!; [by unfold targets; rewrite Hob0|done|done|]. by intros q ?%not_elem_of_nil.
  - intros [] w2 (d & D2 & Hd & HD & HC2 & Hdone). rewrite app_nil_r in Hd. subst d.
    eapply wp_mono; [eapply collect_post_spec; [done|]|].
    + intros q Hq HGq. apply Hdone; [by apply elem_targets|done].
    + intros [] w3 HC3. exists (o :: D2). split_and!; [set_solver|done|]. intros _. left. by left.
Qed.

(** between the roots, what has been finalized leads to finalized objects only *)
Lemma collecting_closed_path r p D w : collecting [] D w -> r ∈ D -> rtc (scans hb) r p -> G p -> p ∈ D.
Proof using HT.
  intros HC HrD Hpath HGp. revert p Hpath HGp. apply (rtc_ind_r (fun p => G p -> p ∈ D)); [done|].
  intros y z _ Hyz IH HGz. destruct (back z y HGz (scans_refers _ _ _ Hyz)) as [HGy _].
  destruct (cl_closed _ _ _ HC y z (IH HGy) Hyz HGz) as [|Hn]; [done|]. by apply not_elem_of_nil in Hn.
Qed.

(** when a root is done it is gone *)
Lemma collect_root_gone r D w : collecting [] D w -> r ∈ isolated wb -> r ∈ D -> r ∉ isolated w.
Proof using All.
  intros HC Hr HrD Hin. pose proof (cl_inv _ _ _ HC) as HIw. simpl in HIw.
  pose proof (inv_lists _ _ _ _ HIw) as HF. rewrite Forall_forall in HF.
  destruct (HF r) as (ob & Ho & Hp); [apply elem_of_app; by right|].
  pose proof (tr_roots _ _ _ _ HT _ Hr) as HGr.
  destruct (alive_reason HIw r ob) as [He|(p & Hp')]; [split; [done|lia]| |].
  { by apply (tr_held _ _ _ _ HT _ HGr). }
  destruct (collecting_refers _ _ _ _ _ HC Hp') as [Hb HpD]. destruct (back _ _ HGr Hb) as [HGp Hs].
  assert (Hpath : rtc (scans hb) r p).
  { pose proof (tr_in _ _ _ _ HT r p Hr HGp) as Hin'. rewrite <- (over_scans _ _ _ _ (tr_over _ _ _ _ HT)) in Hin'.
    specialize (Hin' Hs). clear -Hin' HT. induction Hin' as [|a b c Hab _ IH]; [done|].
    eapply rtc_l; [|done]. by rewrite (over_scans _ _ _ _ (tr_over _ _ _ _ HT)). }
  by apply HpD, (collecting_closed_path r p D w).
Qed.

Lemma collect_roots_spec fuel : forall D w, collecting [] D w -> length (isolated w) <= fuel ->
  wp (collect_roots fuel) (fun _ w' => exists D', collecting [] D' w' /\ isolated w' = []) w.
Proof using All.
  induction fuel as [|fuel IH]; intros D w HC Hlen.
  { destruct (isolated w) eqn:Hi; [|simpl in Hlen; lia]. simpl. wp_step. wp_step. rewrite Hi. wp_step. eauto. }
  cbn [collect_roots]. wp_step. wp_step. destruct (isolated w) as [|i l] eqn:Hi; [wp_step; eauto|].
  pose proof (cl_inv _ _ _ HC) as HIw. simpl in HIw.
  pose proof (inv_lists _ _ _ _ HIw) as HF. rewrite Forall_forall in HF.
  destruct (HF i) as (ob & Ho & Hp); [apply elem_of_app; right; rewrite Hi; by left|].
  assert (Hib : i ∈ isolated wb) by (apply (cl_iso_sub _ _ _ HC); rewrite Hi; by left).
  wp_step. eapply wp_mono; [eapply (collect_visit env_fuel i ob); [done|split; [done|lia]|simpl; lia]|].
  intros [] w1 (D1 & HD1 & HC1 & HG1).
  destruct (HG1 (tr_roots _ _ _ _ HT _ Hib)) as [HiD|Hn]; [|by apply not_elem_of_nil in Hn].
  pose proof (collect_root_gone _ _ _ HC1 Hib HiD) as Hgone.
  eapply IH; [done|].
  assert (Hsub : isolated w1 ⊆+ l).
  { apply NoDup_submseteq.
    - pose proof (inv_nodup _ _ _ _ (cl_inv _ _ _ HC1)) as Hnd. by apply NoDup_app in Hnd as (_ & _ & ?).
    - intros r Hr. assert (Hrw : r ∈ isolated w).
      { apply (cl_iso _ _ _ HC); [by apply (cl_iso_sub _ _ _ HC1)|]. intros HrD.
        eapply collect_root_gone; [exact HC1| |by apply HD1|done]. by apply (cl_iso_sub _ _ _ HC1). }
      rewrite Hi in Hrw. apply elem_of_cons in Hrw as [->|]; [done|done]. }
  apply submseteq_length in Hsub. simpl in Hlen. lia.
Qed.
End collect.
