(* ===== verification/Conv.v ===== *)
(** * Conversion between value types: [bindings/c++/conv.cc] and [conv.hh]

    [di_type_conversion] and [di_int_conversion] with the converter classes they are made
    of. A [DeaiVariantConverter] is a value it borrows or owns; converting gives the
    result and what the converter is left with ([VNil] when it was emptied), which its
    destructor frees when the converter owns it. *)

From S2P Require Export Object.
From Stdlib Require Import SpecFloat.

(** ** [struct DeaiCheckedIntConverter] *)
Module CheckedInt.
(** the union of [u] and [i], and [is_unsigned] *)
Record t := Make { z : Z; is_unsigned : bool }.

(** [static_cast<double>] of a 64-bit integer: round to nearest *)
Definition to_double (z : Z) : spec_float := binary_normalize 53 1024 z 0 false.

Definition operator_double (c : t) : spec_float := to_double (z c).

(** [operator std::optional<int##bits##_t>] *)
Definition operator_int (bits : Z) (c : t) : option Z :=
  let max := (2 ^ (bits - 1) - 1)%Z in
  let min := (- 2 ^ (bits - 1))%Z in
  if (is_unsigned c && (max <? z c)%Z) || (negb (is_unsigned c) && ((max <? z c) || (z c <? min))%Z)
  then None
  else Some (s32 (z c)).

(** [operator std::optional<uint##bits##_t>]: [ret] is an [unsigned int] *)
Definition operator_uint (bits : Z) (c : t) : option Z :=
  if negb (is_unsigned c) && (z c <? 0)%Z then None
  else
    let ret := u32 (z c mod 2 ^ bits) in
    if negb (ret =? z c)%Z then None else Some ret.

Definition operator_int64 (c : t) : option Z :=
  if negb (is_unsigned c) then Some (z c)
  else if (2 ^ 63 - 1 <? z c)%Z then None else Some (z c).

Definition operator_uint64 (c : t) : option Z :=
  if is_unsigned c then Some (z c)
  else if (z c <? 0)%Z then None else Some (z c).
End CheckedInt.

(** the arithmetic types a converter is asked for ([DeaiNumber]) *)
Inductive number := NInt (bits : Z) | NUint (bits : Z) | NDouble.

Definition number_range (t : number) : Z * Z :=
  match t with
  | NInt b => (- 2 ^ (b - 1), 2 ^ (b - 1) - 1)
  | NUint b => (0, 2 ^ b - 1)
  | NDouble => (0, 0)
  end%Z.

(** the floating point value, rounded towards zero *)
Definition truncate (f : spec_float) : option Z :=
  match f with
  | S754_zero _ => Some 0
  | S754_infinity _ | S754_nan => None
  | S754_finite s m e =>
      let a := if (0 <=? e)%Z then (Zpos m * 2 ^ e)%Z else (Zpos m / 2 ^ (- e))%Z in
      Some (if s then - a else a)
  end%Z.

(** Initialising a [std::optional<T>] from a [DeaiCheckedIntConverter]. The candidates are
    the conversion functions above and the converting constructor template
    [optional (U&&)], for [T] can be initialised from the converter through
    [operator double]. The constructor binds its argument without adding the [const] that the
    conversion functions put on theirs, so overload resolution takes it: the integer goes
    through [double], and what does not fit the destination is undefined behaviour, not an
    empty optional. *)
Definition checked_number (t : number) (c : CheckedInt.t) : M (option (spec_float + Z)) :=
  let d := CheckedInt.operator_double c in
  match t with
  | NDouble => ret (Some (inl d))
  | _ =>
      let '(lo, hi) := number_range t in
      match truncate d with
      | Some z => if in_range lo hi z then ret (Some (inr z)) else stuck UndefinedBehaviour
      | None => stuck UndefinedBehaviour
      end
  end.

Section Conv.
Context {E : Env}.

(** [DeaiVariantConverter<borrow>] *)
Section converter.
Variable borrow : bool.

(** [sizeof_(t)], which aborts on the types without a size *)
Definition sizeof_ (t : di_type) : M Z :=
  match di_sizeof_type t with None => stuck Aborted | Some n => ret n end.

(** the destructor, on what the converter still holds *)
Definition converter_dtor (left : val) : M unit :=
  if borrow then ret tt else di_free_value left.

(** A conversion operator: [direct] is the switch on the type of the value, and when
    it has no case the operator returns [try_from_inner<T> ()]. *)
Section convert.
Context {R : Type}.
Variable direct : val -> option (M (option R * val)).

Fixpoint convert (v : val) : M (option R * val) :=
  (* [return DeaiVariantConverter{inner value, inner type}] *)
  let inner (u : M (option R * val)) (t : di_type) :=
    if borrow then r <- u ;; ret (fst r, v)
    else
      sizeof_ t ;;
      r <- u ;;
      converter_dtor (snd r) ;;
      ret (fst r, VNil) in
  match direct v with
  | Some m => m
  | None =>
      match v with
      | VVariant u => inner (convert u) (type_of u)
      | VTuple [u] => if borrow then stuck WildPointer else inner (convert u) (type_of u)
      | VArray et _ [u] => if borrow then stuck WildPointer else inner (convert u) et
      | _ => ret (None, v)
      end
  end.
End convert.

(** [operator std::optional<T>] for the numbers *)
Definition to_number (t : number) : val -> M (option (spec_float + Z) * val) :=
  convert (fun v =>
    let checked z u := Some (r <- checked_number t (CheckedInt.Make z u) ;; ret (r, v)) in
    match v with
    | VInt z => checked z false
    | VUint z => checked z true
    | VNint z => checked z false
    | VNuint z => checked z true
    | VFloat f => Some (ret (match t with NDouble => Some (inl f) | _ => None end, v))
    | _ => None
    end).

(** [tuple_to_array] *)
Definition tuple_to_array (l : list val) : M (option val * val) :=
  match l with
  | [] => ret (Some (VArray DI_TYPE_NIL false []), VTuple l)
  | [v] => ret (Some (VArray (type_of v) true [v]), VTuple l)
  | v0 :: _ =>
      if borrow then ret (None, VTuple l)
      else
        sizeof_ (type_of v0) ;;
        if forallb (fun v => bool_decide (type_of v = type_of v0)) l
        then ret (Some (VArray (type_of v0) true l), VNil)
        else ret (None, VTuple l)
  end.

(** [array_to_tuple] *)
Definition array_to_tuple (et : di_type) (nn : bool) (l : list val) : M (option val * val) :=
  match l with
  | [] => ret (Some (VTuple []), VArray et nn l)
  | _ =>
      if borrow then ret (None, VArray et nn l)
      else sizeof_ et ;; ret (Some (VTuple l), VNil)
  end.

Definition to_variant : val -> M (option val * val) :=
  convert (fun v => Some (
    if borrow then ret (Some (VVariant v), v)
    else sizeof_ (type_of v) ;; ret (Some (VVariant v), v))).

Definition to_string : val -> M (option val * val) :=
  convert (fun v =>
    match v with
    | VString s => Some (ret (Some (VString s), VNil))
    | VStringLiteral s =>
        Some (ret (Some (VString (if borrow then di_string_borrow s else di_string_ndup (c_str s))), v))
    | _ => None
    end).

Definition to_string_literal : val -> M (option val * val) :=
  convert (fun v =>
    match v with
    | VStringLiteral s => Some (ret (Some (VStringLiteral s), v))
    | _ => None
    end).

Definition to_array : val -> M (option val * val) :=
  convert (fun v =>
    match v with
    | VArray et nn l => Some (ret (Some v, VNil))
    | VNil | VEmptyObject _ => Some (ret (Some (VArray DI_TYPE_NIL false []), v))
    | VTuple l => Some (tuple_to_array l)
    | _ => None
    end).

Definition to_tuple : val -> M (option val * val) :=
  convert (fun v =>
    match v with
    | VTuple l => Some (ret (Some v, VNil))
    | VNil | VEmptyObject _ => Some (ret (Some (VTuple []), v))
    | VArray et nn l => Some (array_to_tuple et nn l)
    | _ => None
    end).

Definition to_object : val -> M (option val * val) :=
  convert (fun v =>
    match v with
    | VObject o | VEmptyObject o => Some (ret (Some (VObject o), VNil))
    | VWeak o =>
        if borrow then None
        else Some (r <- di_upgrade_weak_ref o ;; ret (VObject <$> r, v))
    | _ => None
    end).

Definition to_weak_object : val -> M (option val * val) :=
  convert (fun v =>
    match v with
    | VWeak o => Some (ret (Some (VWeak o), VNil))
    | VObject o | VEmptyObject o =>
        Some (if borrow then ret (Some (VWeak o), v)
              else w <- di_weakly_ref_object o ;; ret (Some (VWeak w), v))
    | VNil => Some (ret (Some (VWeak dead_weak_ref), v))
    | _ => None
    end).

Definition to_pointer : val -> M (option val * val) :=
  convert (fun v =>
    match v with
    | VNil => Some (ret (Some (VPointer 0), v))
    | VPointer p => Some (ret (Some (VPointer p), v))
    | _ => None
    end).

Definition to_bool : val -> M (option val * val) :=
  convert (fun v =>
    match v with
    | VBool b => Some (ret (Some (VBool b), v))
    | _ => None
    end).

(** a number stored in the field of the destination *)
Definition number_value (to_type : di_type) (x : spec_float + Z) : option val :=
  match x, to_type with
  | inr z, DI_TYPE_INT => Some (VInt z)
  | inr z, DI_TYPE_UINT => Some (VUint z)
  | inr z, DI_TYPE_NINT => Some (VNint z)
  | inr z, DI_TYPE_NUINT => Some (VNuint z)
  | inl f, DI_TYPE_FLOAT => Some (VFloat f)
  | _, _ => None
  end.

Definition convert_number (t : number) (to_type : di_type) (v : val) : M (option val * val) :=
  r <- to_number t v ;; ret (fst r ≫= number_value to_type, snd r).

(** [di_type_conversion_impl<borrow>]: the converter is destroyed on the way out *)
Definition di_type_conversion_impl (v : val) (to_type : di_type) : M (rc_or val) :=
  let go (m : M (option val * val)) :=
    r <- m ;;
    converter_dtor (snd r) ;;
    ret (match fst r with Some x => inr x | None => inl (- EINVAL)%Z end) in
  match to_type with
  | DI_TYPE_INT => go (convert_number (NInt 64) to_type v)
  | DI_TYPE_UINT => go (convert_number (NUint 64) to_type v)
  | DI_TYPE_NINT => go (convert_number (NInt 32) to_type v)
  | DI_TYPE_NUINT => go (convert_number (NUint 32) to_type v)
  | DI_TYPE_FLOAT => go (convert_number NDouble to_type v)
  | DI_TYPE_BOOL => go (to_bool v)
  | DI_TYPE_STRING => go (to_string v)
  | DI_TYPE_STRING_LITERAL => go (to_string_literal v)
  | DI_TYPE_ARRAY => go (to_array v)
  | DI_TYPE_TUPLE => go (to_tuple v)
  | DI_TYPE_OBJECT => go (to_object v)
  | DI_TYPE_WEAK_OBJECT => go (to_weak_object v)
  | DI_TYPE_POINTER => go (to_pointer v)
  | DI_TYPE_VARIANT => go (to_variant v)
  | DI_TYPE_NIL | DI_TYPE_EMPTY_OBJECT | DI_TYPE_ANY | DI_LAST_TYPE => go (ret (None, v))
  end.
End converter.

(** [di_type_conversion (type_of v, &v, to_type, &to, borrowing)] *)
Definition di_type_conversion (v : val) (to_type : di_type) (borrowing : bool) : M (rc_or val) :=
  if decide (type_of v = to_type) then sizeof_ (type_of v) ;; ret (inr v)
  else if borrowing then di_type_conversion_impl true v to_type
  else sizeof_ (type_of v) ;; di_type_conversion_impl false v to_type.

(** [di_int_conversion] *)
Definition di_int_conversion (v : val) (to_bits : Z) (to_unsigned : bool) : M (rc_or Z) :=
  if (bool_decide (to_bits ∈ [8; 16; 32; 64]))%Z then
    r <- to_number true (if to_unsigned then NUint to_bits else NInt to_bits) v ;;
    ret (match fst r with Some (inr z) => inr z | _ => inl (- EINVAL)%Z end)
  else stuck Aborted.
End Conv.
