(* ===== verification/Access.v ===== *)
(** * Member access with handlers: the rest of [object.c] *)

From S2P Require Export Conv.

Section Access.
Context {E : Env}.

(** ["<prefix>_<name>"], as [di_string_printf ("%s_%.*s", ...)] prints it *)
Definition handler_name (prefix : string) (name : di_string) : string :=
  prefix +:+ "_" +:+ c_str (di_string_bytes name).

(** [di_call_object_catch] when the caller wants errors back, [di_call_object] otherwise *)
Definition call_maybe_catch (catch : bool) (obj : oid) (args : list val) : M (rc_or val * option oid) :=
  if catch then di_call_object_catch obj args
  else r <- di_call_object obj args ;; ret (r, None).

(** [call_handler_with_fallback]: the result, the caught error, [*found]. [arg] is
    [VLast] when there is no argument; [want] tells whether [rtype] and [ret] are given. *)
Definition call_handler_with_fallback (o : oid) (prefix : string) (name : di_string)
    (arg : val) (want : bool) (catch : bool) : M (rc_or val * option oid * bool) :=
  let args0 := match arg with VLast => [] | _ => [arg] end in
  handler <- rawget_object o (handler_name prefix name) ;;
  first <- match handler with
           | Some h => r <- call_maybe_catch catch h (VObject o :: args0) ;; ret (Some r)
           | None => ret None
           end ;;
  let '(rc1, err1, found1) :=
    match first with Some (r, e) => (r, e, true) | None => (inl (- ENOENT)%Z, None, false) end in
  fallback <- match rc1 with inl _ => rawget_object o prefix | inr _ => ret None end ;;
  r <- match fallback with
       | Some h =>
           let* (r, e) := call_maybe_catch catch h (VObject o :: VString name :: args0) in
           ret (r, e, true)
       | None => ret (rc1, err1, found1)
       end ;;
  let '(rc, err, found) := r in
  match rc with
  | inr v => if want then ret (inr v, err, found)
             else di_free_value v ;; ret (inr VNil, err, found)
  | inl _ => ret (rc, err, found)
  end.

(** replacing the value of an existing member in place: free, [realloc], copy *)
Definition replace_value (o : oid) (name : string) (old v : val) : M unit :=
  di_free_value old ;;
  ob <- get_obj o ;;
  check UseAfterFree (bool_decide (is_Some (find_member name (members ob)))) ;;
  sizeof_ (type_of v) ;;
  copy <- di_copy_value v ;;
  upd_obj o (fun ob => set_members (put_member name copy (members ob)) ob).

(** [di_setx] *)
Definition di_setx (o : oid) (prop : di_string) (v : val) (catch : bool) : M (Z * option oid) :=
  let* (r, e, handler_found) := call_handler_with_fallback o "__set" prop v false catch in
  if handler_found then ret (rc_of r, e) else
  let* (r, e, handler_found) := call_handler_with_fallback o "__delete" prop VLast false catch in
  if handler_found && negb (rc_of r =? 0)%Z then ret (rc_of r, e) else
  mem <- di_lookup o prop ;;
  match mem with
  | Some old => replace_value o (di_string_bytes prop) old v ;; ret (0%Z, e)
  | None => rc <- di_add_member_clone o prop v ;; ret (rc, e)
  end.

(** [di_free_last_type]: does the value contain the bottom type *)
Fixpoint di_free_last_type (v : val) : bool :=
  match v with
  | VLast => true
  | VVariant v => di_free_last_type v
  | _ => false
  end.

(** [di_getx]: the value and the caught error *)
Definition di_getx (o : oid) (prop : di_string) (catch : bool) : M (rc_or val * option oid) :=
  r <- di_rawgetx o prop ;;
  match r with
  | inr v => ret (inr v, None)
  | inl _ =>
      let* (r, e, _) := call_handler_with_fallback o "__get" prop VLast true catch in
      match r with
      | inl rc => ret (inl rc, e)
      | inr v =>
          match e with
          | Some _ => ret (inr v, e)
          | None => if di_free_last_type v then ret (inl (- ENOENT)%Z, None) else ret (inr v, None)
          end
      end
  end.

(** [di_getxt] *)
Definition di_getxt (o : oid) (prop : di_string) (rtype : di_type) (catch : bool)
    : M (rc_or val * option oid) :=
  let* (r, e) := di_getx o prop catch in
  match r with
  | inl rc => ret (inl rc, e)
  | inr v => r <- di_type_conversion v rtype false ;; ret (r, e)
  end.

(** [di_rawgetxt] *)
Definition di_rawgetxt (o : oid) (prop : di_string) (rtype : di_type) : M (rc_or val) :=
  r <- di_rawgetx o prop ;;
  match r with
  | inl rc => ret (inl rc)
  | inr v => di_type_conversion v rtype false
  end.

(** [di_set_type] *)
Definition di_set_type (o : oid) (type : string) : M Z :=
  di_rawsetx o (Some "__type") (VStringLiteral type).

(** [di_get_type]: [inl rc] is [ERR_PTR (rc)] *)
Definition di_get_type (o : oid) : M (rc_or string) :=
  r <- di_rawgetxt o (Some "__type") DI_TYPE_STRING_LITERAL ;;
  match r with
  | inl rc => if (rc =? - ENOENT)%Z then ret (inr "deai:object") else ret (inl rc)
  | inr (VStringLiteral s) => ret (inr s)
  | inr _ => stuck WildPointer
  end.

(** [di_check_type] *)
Definition di_check_type (o : oid) (tyname : string) : M bool :=
  ot <- di_get_type o ;;
  ret (match ot with inl _ => false | inr s => String.eqb (c_str s) (c_str tyname) end).

(** [di_delete_member] *)
Definition di_delete_member (o : oid) (name : di_string) (catch : bool) : M (Z * option oid) :=
  let* (r, e, handler_found) := call_handler_with_fallback o "__delete" name VLast false catch in
  if handler_found then ret (rc_of r, e)
  else rc <- di_delete_member_raw o name ;; ret (rc, e).

(** [di_call_internal]: the result and [*called] *)
Definition MAX_NARGS : nat := 128.
Definition di_call_internal (self method_ : oid) (args : list val) : M (rc_or val * bool) :=
  method <- get_obj method_ ;;
  match call method with
  | None => ret (inl (- EINVAL)%Z, false)
  | Some f =>
      assert (length args + 1 <=? MAX_NARGS)%nat ;;
      r <- env_call f method_ (VObject self :: args) ;;
      di_unref_object method_ ;;
      ret (r, true)
  end.

(** [di_callx] *)
Definition di_callx (self : oid) (name : di_string) (args : list val) : M (rc_or val * bool) :=
  let* (r, _) := di_getxt self name DI_TYPE_OBJECT false in
  match r with
  | inl rc => ret (inl rc, false)
  | inr (VObject method) => di_call_internal self method args
  | inr _ => stuck WildPointer
  end.

(** ** Iterating by name: [di_object_next_member] *)

(** the members after [name] in insertion order; [None] when [name] is not there *)
Fixpoint members_after (name : string) (l : list member) : option (list member) :=
  match l with
  | [] => None
  | (n, _) :: l' => if String.eqb n name then Some l' else members_after name l'
  end.
Fixpoint skip_internal (l : list member) : list member :=
  match l with
  | [] => []
  | (n, v) :: l' => if di_string_starts_with (Some n) "__" then skip_internal l' else l
  end.

(** the tuple of the name and the value, or the empty tuple *)
Definition di_object_next_member (o : oid) (name : di_string) : M val :=
  next <- rawget_object o "__next" ;;
  match next with
  | Some next =>
      r <- di_call_object next [VObject o; VString name] ;;
      match r with
      | inl _ => ret DI_TUPLE_INIT
      | inr (VTuple [VString k; v]) => ret (VTuple [VString k; v])
      | inr v => di_free_value v ;; ret DI_TUPLE_INIT
      end
  | None =>
      ob <- get_obj o ;;
      let rest :=
        match name with
        | None => members ob
        | Some n => default [] (members_after n (members ob))
        end in
      match skip_internal rest with
      | [] => ret DI_TUPLE_INIT
      | (n, v) :: _ =>
          sizeof_ (type_of v) ;;
          v' <- di_copy_value v ;;
          ret (VTuple [VString (di_clone_string (Some n)); v'])
      end
  end.

(** ** Modules *)

Definition di_member (o : oid) (name : string) (v : val) : M Z :=
  di_add_member_move o (di_string_borrow name) v.
Definition di_member_clone (o : oid) (name : string) (v : val) : M Z :=
  di_add_member_clonev o (di_string_borrow name) v.

Definition DEAI_MEMBER_NAME_RAW : string := "__deai".

(** [di_new_module_with_size], for a struct at least as large as [struct di_module] *)
Definition di_new_module_with_size (di : oid) (p : payload) : M oid :=
  pm <- di_new_object p ;;
  di_set_type pm "deai:module" ;;
  di_member_clone pm DEAI_MEMBER_NAME_RAW (VObject di) ;;
  ret pm.
Definition di_new_module (di : oid) : M oid := di_new_module_with_size di PObject.

(** [di_object_get_deai_strong], [di_object_borrow_deai] *)
Definition di_object_get_deai_strong (o : oid) : M (option oid) :=
  let* (r, _) := di_getxt o (Some DEAI_MEMBER_NAME_RAW) DI_TYPE_OBJECT false in
  ret (match r with inr (VObject d) => Some d | _ => None end).
Definition di_object_borrow_deai (o : oid) : M (option oid) :=
  rawget_object o DEAI_MEMBER_NAME_RAW.

(** [di_get_object_via_weak] *)
Definition di_get_object_via_weak (o : oid) (prop : di_string) : M (option oid) :=
  r <- di_rawgetxt o prop DI_TYPE_WEAK_OBJECT ;;
  match r with
  | inr (VWeak weak) =>
      scoped
        (object <- di_upgrade_weak_ref weak ;;
         match object with
         | Some x => ret (Some x)
         | None => di_delete_member_raw o prop ;; ret None
         end)
        (di_drop_weak_ref weak)
  | _ => ret None
  end.
End Access.
