(* ===== verification/Lookup.v ===== *)
(** * Equations of lookups and of the member table

    What the accessors of [object.c] compute on an object whose table is known: the runs the
    proofs about the components rewrite with. *)

From S2P Require Export Table Access.

Section lookup.
Context {E : Env}.

Lemma sizeof_run v w : val_ok v = true -> exists z, sizeof_ (type_of v) w = Ret z w.
Proof. intros Hv. destruct v; simplify_eq/=; by eexists. Qed.

Lemma rawget_object_none o n ob w : heap w !! o = Some ob -> find_member n (members ob) = None ->
  rawget_object o n w = Ret None w.
Proof.
  intros Ho Hn. unfold rawget_object, di_rawget_borrowed2, di_refrawgetx, bind.
  by rewrite (di_lookup_eq _ _ ob), Hn.
Qed.

(** the handler object stored under a name *)
Definition handler_of (ob : object) (name : string) : option oid :=
  match find_member name (members ob) with Some (VObject h) => Some h | _ => None end.

Lemma rawget_object_eq o n ob w : heap w !! o = Some ob ->
  (forall v, find_member n (members ob) = Some v -> val_ok v = true /\ type_of v <> DI_TYPE_NIL) ->
  rawget_object o n w = Ret (handler_of ob n) w.
Proof.
  intros Ho Hn. unfold rawget_object, di_rawget_borrowed2, di_refrawgetx, handler_of, bind.
  rewrite (di_lookup_eq _ _ ob) by done. destruct (find_member n (members ob)) as [v|]; [|done].
  destruct (Hn v) as [Hv Hnil]; [done|]. rewrite sizeof_is_zero_spec by (by destruct v).
  rewrite bool_decide_eq_false_2 by done. simpl. by destruct v.
Qed.

(** every member is a valid value other than nil *)
Definition members_ok (ob : object) : Prop :=
  forall n v, find_member n (members ob) = Some v -> val_ok v = true /\ type_of v <> DI_TYPE_NIL.

End lookup.

(** putting a value in the place of another keeps the names and moves the references *)
Lemma put_member_names n v l : map fst (put_member n v l) = map fst l.
Proof. induction l as [|[m u] l IH]; simpl; [done|]. by destruct (String.eqb m n); simpl; rewrite ?IH. Qed.

Lemma put_member_split n v old l1 l2 : find_member n l1 = None ->
  put_member n v (l1 ++ (n, old) :: l2) = l1 ++ (n, v) :: l2.
Proof.
  induction l1 as [|[m u] l1 IH]; simpl; [by rewrite String.eqb_refl|].
  destruct (String.eqb m n); [done|]. intros. by rewrite IH.
Qed.

(** a value without references is freed without effect *)
Lemma free_value_no_refs `{E : Env} v : val_ok v = true -> strong_refs v = [] -> weak_refs v = [] ->
  forall w, di_free_value v w = Ret tt w.
Proof.
  assert (Hl : forall l, Forall (fun v => val_ok v = true -> strong_refs v = [] -> weak_refs v = [] ->
            forall w, di_free_value v w = Ret tt w) l -> forallb val_ok l = true ->
            concat (map strong_refs l) = [] -> concat (map weak_refs l) = [] ->
            forall w, mapM_ di_free_value l w = Ret tt w).
  { induction 1 as [|v' l Hv _ IH]; simpl; [done|].
    intros [Ho1 Ho2]%andb_true_iff [Hs1 Hs2]%app_nil [Hw1 Hw2]%app_nil w.
    unfold bind. rewrite Hv by done. by apply IH. }
  induction v as [v Hl'|et nn l IH|l IH|v IH] using val_ind'; intros Hok Hs Hw w.
  - by destruct v.
  - destruct l as [|x l].
    + simpl in Hok. by destruct nn.
    + simpl in Hok. apply andb_true_iff in Hok as [_ Hok]. apply (Hl (x :: l)); done.
  - by apply (Hl l).
  - by apply IH.
Qed.

Lemma no_refs_add_refs v w : strong_refs v = [] -> weak_refs v = [] ->
  set_heap (add_refs (strong_refs v) (weak_refs v) (heap w)) w = w.
Proof. intros -> ->. by rewrite add_refs_nil, set_heap_same. Qed.

Lemma no_refs_ok v h : strong_refs v = [] -> weak_refs v = [] -> refs_ok (strong_refs v) (weak_refs v) h.
Proof. intros -> ->. split; intros x Hx; by apply not_elem_of_nil in Hx. Qed.

Section runs.
Context {E : Env}.

Lemma di_refrawgetx_eq o n ob w : heap w !! o = Some ob ->
  (forall v, find_member n (members ob) = Some v -> val_ok v = true /\ type_of v <> DI_TYPE_NIL) ->
  di_refrawgetx o (Some n) w =
    Ret (match find_member n (members ob) with Some v => inr v | None => inl (- ENOENT)%Z end) w.
Proof.
  intros Ho Hn. unfold di_refrawgetx, bind. rewrite (di_lookup_eq _ _ ob) by done.
  destruct (find_member n (members ob)) as [v|]; [|done].
  destruct (Hn v) as [Hv Hnil]; [done|]. rewrite sizeof_is_zero_spec by (by destruct v).
  by rewrite bool_decide_eq_false_2.
Qed.

Lemma di_rawget_borrowed2_eq o n t ob v w : heap w !! o = Some ob ->
  find_member n (members ob) = Some v -> val_ok v = true -> type_of v <> DI_TYPE_NIL ->
  di_rawget_borrowed2 o (Some n) t w =
    Ret (if decide (type_of v = t) then inr v else inl (- ERANGE)%Z) w.
Proof.
  intros Ho Hf Hv Hnil. unfold di_rawget_borrowed2, bind.
  rewrite (di_refrawgetx_eq _ _ ob), Hf by (done || (intros; by simplify_eq)). by case_decide.
Qed.

Lemma di_rawgetx_eq o n ob v w : heap w !! o = Some ob ->
  find_member n (members ob) = Some v -> val_ok v = true -> copyable v = true -> type_of v <> DI_TYPE_NIL ->
  refs_ok (strong_refs v) (weak_refs v) (heap w) ->
  di_rawgetx o (Some n) w =
    Ret (inr (clone_val v)) (set_heap (add_refs (strong_refs v) (weak_refs v) (heap w)) w).
Proof.
  intros Ho Hf Hv Hc Hnil Hr. unfold di_rawgetx.
  rewrite (bind_ret_run _ _ _ (inr v) w) by
    (by rewrite (di_refrawgetx_eq _ _ ob), Hf by (done || (intros; by simplify_eq))).
  unfold bind. by rewrite di_copy_value_eq.
Qed.

Lemma di_rawgetx_none o n ob w : heap w !! o = Some ob -> find_member n (members ob) = None ->
  di_rawgetx o (Some n) w = Ret (inl (- ENOENT)%Z) w.
Proof.
  intros Ho Hf. unfold di_rawgetx.
  by rewrite (bind_ret_run _ _ _ (inl (- ENOENT)%Z) w) by
    (by rewrite (di_refrawgetx_eq _ _ ob), Hf by (done || (intros; by simplify_eq))).
Qed.

Lemma di_type_conversion_same v t b w : val_ok v = true -> type_of v = t ->
  di_type_conversion v t b w = Ret (inr v) w.
Proof.
  intros Hv <-. unfold di_type_conversion. rewrite decide_True by done.
  destruct (sizeof_run v w Hv) as [z Hz]. unfold bind. by rewrite Hz.
Qed.

(** a member of the type asked for *)
Lemma di_rawgetxt_eq o n t ob v w : heap w !! o = Some ob ->
  find_member n (members ob) = Some v -> val_ok v = true -> copyable v = true -> type_of v = t ->
  t <> DI_TYPE_NIL -> refs_ok (strong_refs v) (weak_refs v) (heap w) ->
  di_rawgetxt o (Some n) t w =
    Ret (inr (clone_val v)) (set_heap (add_refs (strong_refs v) (weak_refs v) (heap w)) w).
Proof.
  intros Ho Hf Hv Hc Ht Hnil Hr. unfold di_rawgetxt.
  rewrite (bind_ret_run _ _ _ _ _ (di_rawgetx_eq o n ob v w Ho Hf Hv Hc ltac:(by rewrite Ht) Hr)).
  apply di_type_conversion_same; [by apply val_ok_clone|by rewrite type_of_clone].
Qed.

Lemma di_getxt_eq o n t ob v w catch : heap w !! o = Some ob ->
  find_member n (members ob) = Some v -> val_ok v = true -> copyable v = true -> type_of v = t ->
  t <> DI_TYPE_NIL -> refs_ok (strong_refs v) (weak_refs v) (heap w) ->
  di_getxt o (Some n) t catch w =
    Ret (inr (clone_val v), None) (set_heap (add_refs (strong_refs v) (weak_refs v) (heap w)) w).
Proof.
  intros Ho Hf Hv Hc Ht Hnil Hr. unfold di_getxt, di_getx, bind.
  rewrite (di_rawgetx_eq o n ob v w Ho Hf Hv Hc ltac:(by rewrite Ht) Hr). simpl.
  rewrite di_type_conversion_same; [done|by apply val_ok_clone|by rewrite type_of_clone].
Qed.

(** a property that is neither a member nor answered by a getter *)
Lemma di_getx_none o n ob w catch : heap w !! o = Some ob -> members_ok ob ->
  find_member n (members ob) = None ->
  handler_of ob (handler_name "__get" (Some n)) = None -> handler_of ob "__get" = None ->
  di_getx o (Some n) catch w = Ret (inl (- ENOENT)%Z, None) w.
Proof.
  intros Ho Hok Hf Hh Hg.
  assert (Hraw : forall name, rawget_object o name w = Ret (handler_of ob name) w)
    by (intros name; apply rawget_object_eq; [done|apply Hok]).
  unfold di_getx. rewrite (bind_ret_run _ _ _ _ _ (di_rawgetx_none o n ob w Ho Hf)).
  unfold call_handler_with_fallback, bind. rewrite Hraw, Hh. simpl. by rewrite Hraw, Hg.
Qed.

Lemma di_getxt_none o n t ob w catch : heap w !! o = Some ob -> members_ok ob ->
  find_member n (members ob) = None ->
  handler_of ob (handler_name "__get" (Some n)) = None -> handler_of ob "__get" = None ->
  di_getxt o (Some n) t catch w = Ret (inl (- ENOENT)%Z, None) w.
Proof.
  intros. unfold di_getxt. by rewrite (bind_ret_run _ _ _ _ _ (di_getx_none o n ob w catch ltac:(done)
    ltac:(done) ltac:(done) ltac:(done) ltac:(done))).
Qed.

(** ** Writing *)

Lemma di_delete_member_raw_eq o n old ob w : heap w !! o = Some ob ->
  find_member n (members ob) = Some old -> val_ok old = true -> strong_refs old = [] -> weak_refs old = [] ->
  di_delete_member_raw o (Some n) w =
    Ret 0%Z (set_heap (<[o := set_members (del_member n (members ob)) ob]> (heap w)) w).
Proof.
  intros Ho Hf Hv Hs Hw. unfold di_delete_member_raw.
  rewrite (bind_ret_run _ _ _ _ _ (di_lookup_eq o n ob w Ho)), Hf.
  change (di_string_bytes (Some n)) with n.
  set (w1 := set_heap _ _).
  rewrite (bind_ret_run _ _ _ old w1).
  - by rewrite (bind_ret_run _ _ _ tt w1) by (by apply free_value_no_refs).
  - unfold di_remove_member_raw_impl. by rewrite (bind_get_obj _ ob), Hf.
Qed.

Lemma di_add_member_clone_eq o n v ob w : heap w !! o = Some ob ->
  find_member n (members ob) = None -> type_of v <> DI_TYPE_NIL -> val_ok v = true -> copyable v = true ->
  refs_ok (strong_refs v) (weak_refs v) (heap w) ->
  let w1 := set_heap (add_refs (strong_refs v) (weak_refs v) (heap w)) w in
  forall ob1, heap w1 !! o = Some ob1 ->
  di_add_member_clone o (Some n) v w =
    Ret 0%Z (set_heap (<[o := set_members (members ob ++ [(n, clone_val v)]) ob1]> (heap w1)) w1).
Proof.
  intros Ho Hf Hnil Hv Hc Hr w1 ob1 Ho1. unfold di_add_member_clone, di_add_member_clone2, bind.
  rewrite sizeof_is_zero_spec by (by destruct v). rewrite bool_decide_eq_false_2 by done.
  rewrite (di_copy_value_eq v Hv Hc w Hr). fold w1.
  assert (Hm : members ob1 = members ob).
  { unfold w1 in Ho1. simpl in Ho1. rewrite lookup_add_refs, Ho in Ho1. by simplify_eq/=. }
  unfold di_add_member. change (di_clone_string (Some n)) with (Some n).
  unfold bind. rewrite (di_insert_member_eq _ _ _ ob1) by done. by rewrite Hm, Hf.
Qed.

(** a value without references *)
Lemma di_add_member_clone_plain o n v ob w : heap w !! o = Some ob ->
  find_member n (members ob) = None -> type_of v <> DI_TYPE_NIL -> val_ok v = true -> copyable v = true ->
  strong_refs v = [] -> weak_refs v = [] ->
  di_add_member_clone o (Some n) v w =
    Ret 0%Z (set_heap (<[o := set_members (members ob ++ [(n, clone_val v)]) ob]> (heap w)) w).
Proof.
  intros Ho Hf Hnil Hv Hc Hs Hw.
  pose proof (no_refs_add_refs v w Hs Hw) as Hid.
  pose proof (di_add_member_clone_eq o n v ob w Ho Hf Hnil Hv Hc (no_refs_ok v _ Hs Hw)) as Heq.
  cbv zeta in Heq. rewrite Hid in Heq. by apply Heq.
Qed.

(** ** Types *)

(** the member that names the type holds no references *)
Definition type_plain (ob : object) : Prop := forall old, find_member "__type" (members ob) = Some old ->
  val_ok old = true /\ strong_refs old = [] /\ weak_refs old = [].

Definition with_type (s : string) (l : list member) : list member :=
  del_member "__type" l ++ [("__type", VStringLiteral s)].

Lemma di_set_type_eq o s ob w : heap w !! o = Some ob -> type_plain ob -> NoDup (map fst (members ob)) ->
  di_set_type o s w = Ret 0%Z (set_heap (<[o := set_members (with_type s (members ob)) ob]> (heap w)) w).
Proof.
  intros Ho Hp Hnd. unfold di_set_type, di_rawsetx, with_type.
  destruct (find_member "__type" (members ob)) as [old|] eqn:Hf.
  - destruct (Hp old Hf) as (Hv & Hs & Hw). unfold bind at 1.
    rewrite (di_delete_member_raw_eq _ _ old ob) by done. cbn [negb Z.eqb andb].
    erewrite di_add_member_clone_plain; [|simpl; apply lookup_insert_eq|by apply find_del_member|done..].
    cbn [heap set_heap]. by rewrite insert_insert_eq.
  - unfold bind at 1. rewrite (di_delete_member_raw_none _ _ _ ob) by done.
    change (negb (- ENOENT =? 0) && negb (- ENOENT =? - ENOENT))%Z with false. cbv iota.
    rewrite (di_add_member_clone_plain _ _ _ ob) by done. by rewrite del_member_none.
Qed.

Lemma di_get_type_eq o s ob w : heap w !! o = Some ob ->
  find_member "__type" (members ob) = Some (VStringLiteral s) -> di_get_type o w = Ret (inr s) w.
Proof.
  intros Ho Hf. unfold di_get_type, bind.
  rewrite (di_rawgetxt_eq _ _ _ ob _ w Ho Hf) by (done || by apply (no_refs_ok (VStringLiteral s))).
  by rewrite no_refs_add_refs.
Qed.

Lemma di_check_type_eq o s t ob w : heap w !! o = Some ob ->
  find_member "__type" (members ob) = Some (VStringLiteral s) ->
  di_check_type o t w = Ret (String.eqb (c_str s) (c_str t)) w.
Proof. intros Ho Hf. unfold di_check_type, bind. by rewrite (di_get_type_eq o s ob). Qed.
End runs.

Section assigned.
Lemma find_put_member n v l : is_Some (find_member n l) -> find_member n (put_member n v l) = Some v.
Proof.
  induction l as [|[m u] l IH]; simpl; [by intros [? ?]|].
  destruct (String.eqb_spec m n) as [->|Hne]; simpl; [by rewrite String.eqb_refl|].
  intros Hs. destruct (String.eqb_spec m n); [done|]. by apply IH.
Qed.

(** the references in a list of members, one of which is replaced *)
Lemma refs_replace (f : val -> list oid) x n old v (l1 l2 : list member) : f old = [] ->
  cnt x (concat (map (fun m => f (snd m)) (l1 ++ (n, v) :: l2))) =
  (cnt x (concat (map (fun m => f (snd m)) (l1 ++ (n, old) :: l2))) + cnt x (f v))%Z.
Proof. intros Hold. rewrite !map_app, !concat_app, !cnt_app. simpl. rewrite !cnt_app, Hold. simpl. lia. Qed.

(** the table after an assignment *)
Definition assigned (n : string) (v : val) (l : list member) : list member :=
  match find_member n l with
  | Some _ => put_member n v l
  | None => l ++ [(n, v)]
  end.

Lemma assigned_refs (f : val -> list oid) n v l x : NoDup (map fst l) ->
  (forall old, find_member n l = Some old -> f old = []) ->
  cnt x (concat (map (fun m => f (snd m)) (assigned n v l))) =
  (cnt x (concat (map (fun m => f (snd m)) l)) + cnt x (f v))%Z.
Proof.
  intros Hnd Hold. unfold assigned. destruct (find_member n l) as [old|] eqn:Hf.
  - specialize (Hold old eq_refl). destruct (find_member_split _ _ _ Hnd Hf) as (l1 & l2 & -> & _).
    rewrite put_member_split; [by apply refs_replace|]. apply find_member_None.
    rewrite map_app in Hnd. apply NoDup_app in Hnd as (_ & Hd & _). intros Hin.
    apply (Hd _ Hin). by left.
  - rewrite map_app, concat_app, cnt_app. simpl. by rewrite app_nil_r.
Qed.

Lemma assigned_names n v l : NoDup (map fst l) -> NoDup (map fst (assigned n v l)).
Proof.
  unfold assigned. intros Hnd. destruct (find_member n l) eqn:Hf; [by rewrite put_member_names|].
  rewrite map_app. apply NoDup_app. split_and!; [done| |by apply NoDup_singleton].
  intros x Hx ->%list_elem_of_singleton. by apply find_member_None in Hf.
Qed.

Lemma assigned_ok (P : val -> Prop) n v l : Forall (fun m => P (snd m)) l -> P v ->
  Forall (fun m => P (snd m)) (assigned n v l).
Proof.
  unfold assigned. intros Hl Hv. destruct (find_member n l); [|by apply Forall_app; auto using Forall_singleton].
  clear -Hl Hv. induction Hl as [|[m u] l Hm Hl IH]; simpl; [done|].
  destruct (String.eqb m n); by constructor.
Qed.

Lemma find_assigned n v l : find_member n (assigned n v l) = Some v.
Proof.
  unfold assigned. destruct (find_member n l) eqn:Hf; [apply find_put_member; by rewrite Hf|].
  rewrite find_member_app, Hf. simpl. by rewrite String.eqb_refl.
Qed.

(** taking the references of [v] and storing a copy of it in [o] *)
Lemma assign_copy ext extw w o ob n v :
  Inv ext extw [] w -> heap w !! o = Some ob -> (0 < ref_count ob)%Z ->
  val_ok v = true -> copyable v = true -> takable (strong_refs v) (weak_refs v) (heap w) ->
  (forall old, find_member n (members ob) = Some old -> strong_refs old = [] /\ weak_refs old = []) ->
  let w1 := set_heap (add_refs (strong_refs v) (weak_refs v) (heap w)) w in
  exists ob1, heap w1 !! o = Some ob1 /\ members ob1 = members ob /\
    Inv ext extw [] (set_heap (<[o := set_members (assigned n (clone_val v) (members ob)) ob1]> (heap w1)) w1).
Proof.
  intros HI Ho Hp Hok Hcp Ht Hold w1.
  pose proof (Inv_add_refs _ _ _ _ _ _ HI Ht) as HI1. fold w1 in HI1.
  destruct (inv_obj _ _ _ _ HI _ _ Ho) as [_ _ _ _ _ _ _ Hva Hna _ _].
  eexists. split; [unfold w1; simpl; by rewrite lookup_add_refs, Ho|]. split; [done|].
  eapply (Inv_set_members _ _ ext extw [] w1 o _ _ HI1).
  - unfold w1; simpl; by rewrite lookup_add_refs, Ho.
  - simpl. pose proof (cnt_nonneg o (strong_refs v)). lia.
  - intros x. rewrite assigned_refs, strong_refs_clone, cnt_app by (done || by intros ? [? ?]%Hold).
    unfold obj_strong. simpl. lia.
  - intros x. rewrite assigned_refs, weak_refs_clone, cnt_app by (done || by intros ? [? ?]%Hold).
    unfold obj_weak. simpl. lia.
  - apply (assigned_ok (fun v => val_ok v = true)); [done|by apply val_ok_clone].
  - by apply assigned_names.
Qed.
End assigned.

(** ** Invariant-preserving updates of one object *)

Lemma with_type_refs (f : val -> list oid) s l x : NoDup (map fst l) ->
  (forall v, f (VStringLiteral v) = []) ->
  (forall old, find_member "__type" l = Some old -> f old = []) ->
  cnt x (concat (map (fun m => f (snd m)) (with_type s l))) = cnt x (concat (map (fun m => f (snd m)) l)).
Proof.
  intros Hnd Hlit Hold. unfold with_type. rewrite map_app, concat_app, cnt_app. simpl. rewrite Hlit. simpl.
  destruct (find_member "__type" l) as [old|] eqn:Hf.
  - destruct (find_member_split _ _ _ Hnd Hf) as (l1 & l2 & -> & -> & _).
    rewrite !map_app, !concat_app, !cnt_app. simpl. rewrite (Hold old eq_refl). simpl. lia.
  - rewrite del_member_none by done. lia.
Qed.

Lemma del_member_incl n l : forall m, m ∈ del_member n l -> m ∈ l.
Proof.
  induction l as [|[k v] l IH]; simpl; [done|]. intros m. destruct (String.eqb k n); [by right|].
  intros [->|?]%elem_of_cons; [by left|right; by apply IH].
Qed.

Lemma del_member_nodup n l : NoDup (map fst l) -> NoDup (map fst (del_member n l)).
Proof.
  induction l as [|[k v] l IH]; simpl; [done|]. intros [Hk Hnd]%NoDup_cons.
  destruct (String.eqb k n); simpl; [done|]. apply NoDup_cons. split; [|by apply IH].
  intros Hin. apply Hk. apply list_elem_of_fmap in Hin as ([k' v'] & -> & Hin).
  apply list_elem_of_fmap. exists (k', v'). split; [done|]. by eapply del_member_incl.
Qed.

Lemma with_type_names s l : NoDup (map fst l) -> NoDup (map fst (with_type s l)).
Proof.
  intros Hnd. unfold with_type. rewrite map_app. apply NoDup_app. split_and!;
    [by apply del_member_nodup| |by apply NoDup_singleton].
  intros x Hx ->%list_elem_of_singleton. pose proof (find_del_member "__type" l Hnd) as Hf.
  by apply find_member_None in Hf.
Qed.

Lemma find_with_type s l : NoDup (map fst l) -> find_member "__type" (with_type s l) = Some (VStringLiteral s).
Proof. intros Hnd. unfold with_type. rewrite find_member_app, find_del_member by done. done. Qed.

Lemma find_with_type_ne n s l : n <> "__type" -> find_member n (with_type s l) = find_member n l.
Proof.
  intros Hn. unfold with_type. rewrite find_member_app, find_del_member_ne by done.
  destruct (find_member n l); [done|]. cbn [find_member]. destruct (String.eqb_spec "__type" n); [congruence|done].
Qed.

Lemma Inv_with_type ext extw pin w o ob s :
  Inv ext extw pin w -> heap w !! o = Some ob -> (0 < ref_count ob)%Z -> type_plain ob ->
  Inv ext extw pin (set_heap (<[o := set_members (with_type s (members ob)) ob]> (heap w)) w).
Proof.
  intros HI Ho Hp Htp. pose proof (inv_obj _ _ _ _ HI _ _ Ho) as Hoi.
  pose proof (oi_names _ _ _ _ _ _ Hoi) as Hnd.
  eapply (Inv_set_members ext extw); try done.
  - intros x. rewrite with_type_refs; [done|done|done|]. intros old Hold. by apply (Htp old).
  - intros x. rewrite with_type_refs; [done|done|done|]. intros old Hold. by apply (Htp old).
  - unfold with_type. apply Forall_app. split; [|by apply Forall_singleton].
    apply Forall_forall. intros m Hm%del_member_incl.
    pose proof (oi_vals _ _ _ _ _ _ Hoi) as HF. rewrite Forall_forall in HF. by apply HF.
  - by apply with_type_names.
Qed.

(** ** Objects under construction

    [w] with a new object [cb] at the next address, over the store [h]. *)
Definition new_world (w : world) (h : gmap oid object) (cb : object) : world :=
  set_next_addr (Pos.succ (next_addr w)) (set_heap (<[next_addr w := cb]> h) w).

Lemma new_world_lookup w h cb : heap (new_world w h cb) !! next_addr w = Some cb.
Proof. apply lookup_insert_eq. Qed.

Lemma new_world_upd w h cb cb' :
  set_heap (<[next_addr w := cb']> (heap (new_world w h cb))) (new_world w h cb) = new_world w h cb'.
Proof. unfold new_world. simpl. by rewrite insert_insert_eq. Qed.

Lemma add_refs_insert s wk o ob h : cnt o s = 0%Z -> cnt o wk = 0%Z ->
  add_refs s wk (<[o:=ob]> h) = <[o:=ob]> (add_refs s wk h).
Proof.
  intros Hs Hw. apply map_eq. intros x. rewrite lookup_add_refs.
  destruct (decide (x = o)) as [->|Hne].
  - rewrite !lookup_insert_eq. simpl. f_equal. destruct ob.
    unfold set_weak_ref_count, set_ref_count. simpl. f_equal; lia.
  - rewrite !lookup_insert_ne by done. by rewrite lookup_add_refs.
Qed.

Lemma new_world_add_refs w h cb s wk : cnt (next_addr w) s = 0%Z -> cnt (next_addr w) wk = 0%Z ->
  set_heap (add_refs s wk (heap (new_world w h cb))) (new_world w h cb) = new_world w (add_refs s wk h) cb.
Proof. intros Hs Hw. unfold new_world. simpl. by rewrite add_refs_insert. Qed.

Section construct.
Context {E : Env}.
Variables (w : world) (h : gmap oid object) (cb : object).
Notation o := (next_addr w).

Lemma di_new_object_run p : di_new_object p w = Ret o (new_world w (heap w) (di_init_object p)).
Proof. done. Qed.

Lemma upd_new f : upd_obj o f (new_world w h cb) = Ret tt (new_world w h (f cb)).
Proof.
  unfold upd_obj. rewrite (bind_get_obj _ cb) by apply new_world_lookup.
  unfold put_obj, modify. by rewrite new_world_upd.
Qed.

Lemma set_type_new s : type_plain cb -> NoDup (map fst (members cb)) ->
  di_set_type o s (new_world w h cb) = Ret 0%Z (new_world w h (set_members (with_type s (members cb)) cb)).
Proof.
  intros Hp Hnd. rewrite (di_set_type_eq _ _ cb) by (done || apply new_world_lookup).
  by rewrite new_world_upd.
Qed.

(** a member of a new object; the value only refers to objects that existed before *)
Lemma add_member_clone_new n v :
  find_member n (members cb) = None -> type_of v <> DI_TYPE_NIL -> val_ok v = true -> copyable v = true ->
  cnt o (strong_refs v) = 0%Z -> cnt o (weak_refs v) = 0%Z ->
  refs_ok (strong_refs v) (weak_refs v) h ->
  di_add_member_clone o (Some n) v (new_world w h cb) =
    Ret 0%Z (new_world w (add_refs (strong_refs v) (weak_refs v) h)
               (set_members (members cb ++ [(n, clone_val v)]) cb)).
Proof.
  intros Hf Hnil Hv Hc Hs Hw Hr.
  assert (Hr' : refs_ok (strong_refs v) (weak_refs v) (heap (new_world w h cb))).
  { destruct Hr as [Hr1 Hr2]. split; intros x Hx.
    - assert (x <> o) by (intros ->; apply cnt_pos in Hx; lia).
      simpl. rewrite lookup_insert_ne by done. by apply Hr1.
    - assert (x <> o) by (intros ->; apply cnt_pos in Hx; lia).
      simpl. rewrite lookup_insert_ne by done. by apply Hr2. }
  pose proof (di_add_member_clone_eq o n v cb _ (new_world_lookup w h cb) Hf Hnil Hv Hc Hr') as Heq.
  cbv zeta in Heq. rewrite new_world_add_refs in Heq by done.
  rewrite (Heq cb (new_world_lookup _ _ _)). by rewrite new_world_upd.
Qed.
End construct.

(** the invariant along a construction *)
Section construct_inv.
Variables (ext extw : list oid) (w : world).
Notation o := (next_addr w).

Lemma Inv_new_world p : Inv ext extw [] w -> Inv (o :: ext) extw [] (new_world w (heap w) (di_init_object p)).
Proof. intros HI. by apply Inv_new_object. Qed.

Lemma Inv_upd_new e ew h cb cb' : Inv e ew [] (new_world w h cb) -> same_counts cb cb' ->
  Inv e ew [] (new_world w h cb').
Proof.
  intros HI Hs. rewrite <- (new_world_upd w h cb cb').
  eapply Inv_same_counts; [done|apply new_world_lookup|done].
Qed.

Lemma Inv_type_new e ew h cb s : Inv e ew [] (new_world w h cb) -> (0 < ref_count cb)%Z -> type_plain cb ->
  Inv e ew [] (new_world w h (set_members (with_type s (members cb)) cb)).
Proof.
  intros HI Hp Ht. rewrite <- (new_world_upd w h cb).
  eapply Inv_with_type; [done|apply new_world_lookup|done..].
Qed.

Lemma Inv_add_new e ew h cb n v : Inv e ew [] (new_world w h cb) -> (0 < ref_count cb)%Z ->
  find_member n (members cb) = None -> val_ok v = true -> copyable v = true ->
  cnt o (strong_refs v) = 0%Z -> cnt o (weak_refs v) = 0%Z ->
  takable (strong_refs v) (weak_refs v) (heap (new_world w h cb)) ->
  Inv e ew [] (new_world w (add_refs (strong_refs v) (weak_refs v) h)
                 (set_members (members cb ++ [(n, clone_val v)]) cb)).
Proof.
  intros HI Hp Hf Hv Hc Hs Hw Ht.
  destruct (assign_copy e ew _ o cb n v HI (new_world_lookup _ _ _) Hp Hv Hc Ht) as (ob1 & Ho1 & Hm1 & HI1).
  { intros old Hold. congruence. }
  rewrite new_world_add_refs in Ho1, HI1 by done. rewrite new_world_lookup in Ho1. injection Ho1 as <-.
  unfold assigned in HI1. rewrite Hf, new_world_upd in HI1. done.
Qed.
End construct_inv.
