(* ===== verification/Callable.v ===== *)
(** * Closures, methods and field getters: [callable.c]

    A closure wraps a C function that is called through libffi, or one that takes its
    arguments as a tuple ([di_call_fn]). What libffi does and the functions that are
    called through it are arguments here ([Ffi]). *)

From S2P Require Export Access.

Class Ffi := {
  (** [ffi_prep_cif]: does libffi accept the signature *)
  ffi_prep_cif : di_type -> list di_type -> bool;
  (** [ffi_call (cif, fn, ret, xargs)]: the result in the type of the closure *)
  ffi_call : fnptr -> list val -> M val;
  (** what is read from the variables [rtype] and [ret] of a caller that did not
      initialise them, after a callee that did not set them ([VLast] in the results of
      [env_call]) *)
  uninitialised_result : val;
  (** the message of an errno value *)
  strerror : Z -> string;
  (** a call of the [raw_fn] of a raw closure *)
  call_raw_fn : fnptr -> oid -> list val -> M (rc_or val);
  (** the field of the given type at an offset in the struct that holds an object *)
  load_field : oid -> Z -> di_type -> M val
}.

Definition closure_type : string := "deai:closure".
Definition field_getter_type : string := "deai:FieldGetter".

Section Callable.
Context {E : Env} {F : Ffi}.

(** the result of a call, in variables that start uninitialised *)
Definition result_in_uninitialised (v : val) : val :=
  match v with VLast => uninitialised_result | _ => v end.

(** [di_type_to_ffi]: does the table have an entry *)
Definition di_type_to_ffi (t : di_type) : bool :=
  match t with DI_TYPE_ANY | DI_TYPE_EMPTY_OBJECT | DI_LAST_TYPE => false | _ => true end.
(** [di_ffi_prep_cif] *)
Definition di_ffi_prep_cif (rtype : di_type) (atypes : list di_type) : M bool :=
  assert (di_type_to_ffi rtype) ;;
  assert (forallb di_type_to_ffi atypes) ;;
  ret (ffi_prep_cif rtype atypes).

(** the loop of [di_typed_trampoline]: each argument is converted, borrowed, to the type
    of the parameter; the first failure is returned *)
Fixpoint convert_args (fnats : list di_type) (args : list val) : M (rc_or (list val)) :=
  match args, fnats with
  | [], _ => ret (inr [])
  | v :: args, t :: fnats =>
      sizeof_ t ;;
      r <- di_type_conversion v t true ;;
      match r with
      | inl rc => ret (inl rc)
      | inr x =>
          xs <- convert_args fnats args ;;
          ret (match xs with inl rc => inl rc | inr xs => inr (x :: xs) end)
      end
  | _ :: _, [] => stuck UseAfterFree                   (* reads past [atypes] *)
  end.

(** [di_typed_trampoline] *)
Definition di_typed_trampoline (fn : fnptr) (fnats : list di_type) (args : list val) : M (rc_or val) :=
  assert (length args <=? MAX_NARGS)%nat ;;
  xargs <- convert_args fnats args ;;
  match xargs with
  | inl rc => ret (inl rc)
  | inr xargs => v <- ffi_call fn xargs ;; ret (inr v)
  end.

(** [closure_trampoline] *)
Definition closure_trampoline (o : oid) (t : list val) : M (rc_or val) :=
  ok <- di_check_type o closure_type ;;
  if negb ok then ret (inl (- EINVAL)%Z)
  else
    ob <- get_obj o ;;
    match extra ob with
    | PClosure _ fn nargs rtype atypes =>
        if negb (Z.of_nat (length t) =? nargs)%Z then ret (inl (- EINVAL)%Z)
        else di_typed_trampoline fn atypes t
    | _ => stuck WildPointer
    end.

(** what the [raw_fn] of a closure leads to *)
Definition call_fn (raw_fn : fnptr) (o : oid) (args : list val) : M (rc_or val) :=
  if String.eqb raw_fn "closure_trampoline" then closure_trampoline o args
  else call_raw_fn raw_fn o args.

(** [raw_closure_trampoline]: the captures are prepended *)
Definition raw_closure_trampoline (o : oid) (t : list val) : M (rc_or val) :=
  captures <- di_rawget_borrowed2 o (Some "captures") DI_TYPE_TUPLE ;;
  let captures := match captures with inr (VTuple l) => l | _ => [] end in
  ob <- get_obj o ;;
  match extra ob with
  | PClosure raw_fn _ _ _ _ | PRawClosure raw_fn => call_fn raw_fn o (captures ++ t)
  | _ => stuck WildPointer
  end.

(** [free_closure]: the argument types of the cif are not part of the model *)
Definition free_closure (o : oid) : M unit :=
  ok <- di_check_type o closure_type ;;
  assert ok.

(** one of the loops that refuse [nil] *)
Fixpoint any_zero_sized (ts : list di_type) : M bool :=
  match ts with
  | [] => ret false
  | t :: ts =>
      z <- sizeof_is_zero t ;;
      if z then ret true else any_zero_sized ts
  end.

(** [di_create_raw_closure], for the struct [p] *)
Definition di_create_raw_closure (p : payload) (captures : list val) : M (rc_or oid) :=
  if (MAX_NARGS <? length captures)%nat then ret (inl (- E2BIG)%Z)
  else
    z <- any_zero_sized (map type_of captures) ;;
    if z then ret (inl (- EINVAL)%Z)
    else
      cl <- di_new_object p ;;
      upd_obj cl (set_call (Some "raw_closure_trampoline")) ;;
      di_member_clone cl "captures" (VTuple captures) ;;
      rc <- di_set_type cl "deai:raw_closure" ;;
      if (rc =? 0)%Z then ret (inr cl) else ret (inl rc).

(** [di_create_closure]. The result of [di_create_raw_closure] is used without looking
    for an error: the tests above it have already excluded one. *)
Definition di_create_closure (fn : fnptr) (rtype : di_type) (captures : list val)
    (nargs : Z) (arg_types : list di_type) : M (rc_or oid) :=
  if ((nargs <? 0) || (Z.of_nat MAX_NARGS <? Z.of_nat (length captures) + nargs))%Z
  then ret (inl (- E2BIG)%Z)
  else
    z <- any_zero_sized (map type_of captures) ;;
    if z then ret (inl (- EINVAL)%Z)
    else
      z <- any_zero_sized arg_types ;;
      if z then ret (inl (- EINVAL)%Z)
      else
        let atypes := map type_of captures ++ arg_types in
        cl <- di_create_raw_closure
                (PClosure "closure_trampoline" fn (nargs + Z.of_nat (length captures))%Z rtype atypes)
                captures ;;
        match cl with
        | inl _ => stuck WildPointer
        | inr cl =>
            ffiret <- di_ffi_prep_cif rtype atypes ;;
            if negb ffiret then
              di_unref_object cl ;; ret (inl (- EINVAL)%Z)
            else
              upd_obj cl (set_dtor (Some "free_closure")) ;;
              rc <- di_set_type cl closure_type ;;
              if (rc =? 0)%Z then ret (inr cl) else ret (inl rc)
        end.

(** [di_add_method]: an error of [di_create_closure] would be stored as the member *)
Definition di_add_method (o : oid) (name : di_string) (fn : fnptr) (rtype : di_type)
    (args : list di_type) : M Z :=
  if (MAX_NARGS <? length args + 1)%nat then ret (- EINVAL)%Z
  else if existsb (fun t => bool_decide (t = DI_TYPE_NIL)) args then ret (- EINVAL)%Z
  else
    f <- di_create_closure fn rtype [] (Z.of_nat (length args) + 1) (DI_TYPE_OBJECT :: args) ;;
    match f with
    | inl _ => stuck WildPointer
    | inr f => di_add_member_move o name (VObject f)
    end.

(** [di_method (obj, name, fn, ...)] *)
Definition di_method (o : oid) (name : string) (fn : fnptr) (rtype : di_type) (args : list di_type) : M Z :=
  di_add_method o (di_string_borrow name) fn rtype args.

(** [di_field_getter_call] *)
Definition di_field_getter_call (getter : oid) (args : list val) : M (rc_or val) :=
  ok <- di_check_type getter field_getter_type ;;
  DI_CHECK ok ;;
  match args with
  | VObject o :: _ =>
      ob <- get_obj getter ;;
      match extra ob with
      | PFieldGetter t offset =>
          field <- load_field o offset t ;;
          v <- di_copy_value field ;;
          ret (inr v)
      | _ => stuck WildPointer
      end
  | _ => stuck AssertFailed
  end.

(** [di_new_field_getter] *)
Definition di_new_field_getter (t : di_type) (offset : Z) : M oid :=
  ret_ <- di_new_object (PFieldGetter t offset) ;;
  upd_obj ret_ (set_call (Some "di_field_getter_call")) ;;
  di_set_type ret_ field_getter_type ;;
  ret ret_.

(** the [di_call_fn]s of this file, by symbol *)
Definition callable_call (f : fnptr) (o : oid) (args : list val) : option (M (rc_or val)) :=
  if String.eqb f "raw_closure_trampoline" then Some (raw_closure_trampoline o args)
  else if String.eqb f "di_field_getter_call" then Some (di_field_getter_call o args)
  else None.
End Callable.
