(* ===== verification/Errors.v ===== *)
(** * Error objects and printing objects: [object.c] *)

From S2P Require Export Callable.

Section Errors.
Context {E : Env} {F : Ffi}.

Definition di_object_to_string_fallback (o : oid) : di_string := Some ("[object:" +:+ fmt_p o +:+ "]").

(** a borrowed string member, empty when it is missing *)
Definition borrowed_string (o : oid) (name : string) : M string :=
  r <- di_rawget_borrowed2 o (Some name) DI_TYPE_STRING ;;
  ret (match r with inr (VString s) => di_string_bytes s | _ => "" end).

(** an owned string member, or a default *)
Definition string_or (o : oid) (name : string) (dflt : string) : M string :=
  r <- di_rawgetxt o (Some name) DI_TYPE_STRING ;;
  ret (match r with inr (VString s) => di_string_bytes s | _ => dflt end).

Definition dquote : string := String (Ascii.ascii_of_nat 34) "".

(** [di_error_to_string], with a bound on the chain of ["source"] errors; [more] is the block
    for [ENABLE_STACK_TRACE] *)
Section to_string.
Context (more : oid -> list string -> M (list string)).
Fixpoint error_to_string_with (fuel : nat) (err : oid) : M string :=
  match fuel with
  | O => stuck OutOfFuel
  | S fuel =>
      func <- borrowed_string err "func" ;;
      file <- borrowed_string err "file" ;;
      line <- di_rawget_borrowed2 err (Some "line") DI_TYPE_NINT ;;
      let line := match line with inr (VNint n) => n | _ => (-1)%Z end in
      source <- rawget_object err "source" ;;
      parts0 <- match source with
                | Some s =>
                    t <- error_to_string_with fuel s ;;
                    ret [t; String (Ascii.ascii_of_nat 10)
                          ("While handling the above error, the following error occurred:"
                            +:+ String (Ascii.ascii_of_nat 10) "")]
                | None => ret []
                end ;;
      let place :=
        if negb (String.eqb func "") || negb (String.eqb file "") || (0 <? line)%Z then
          let func := if String.eqb func "" then "<unknown>" else func in
          let file := if String.eqb file "" then "??" else file in
          "error caught in " +:+ dquote +:+ c_str func +:+ dquote +:+ " (" +:+ c_str file +:+ ":" +:+ fmt_d line +:+ "): "
        else "error caught: " in
      error <- string_or err "error" "<unknown error>" ;;
      detail <- string_or err "detail" "(no detail)" ;;
      parts <- more err (parts0 ++ [place; error; detail]) ;;
      ret (join_bytes (String (Ascii.ascii_of_nat 10) "") parts)
  end.
End to_string.
Definition di_error_to_string : nat -> oid -> M string := error_to_string_with (fun _ parts => ret parts).

Definition error_type : string := "deai:Error".

(** [di_new_error_from_string]; [func] is never NULL at the callers *)
Definition di_new_error_from_string (file : string) (line : Z) (func : string) (message : di_string) : M oid :=
  err <- di_new_object PObject ;;
  di_set_type err error_type ;;
  di_method err "__to_string" "di_error_to_string" DI_TYPE_STRING [] ;;
  di_member err "error" (VString message) ;;
  di_member_clone err "file" (VString (di_string_borrow file)) ;;
  when (0 <=? line)%Z (rc <- di_member err "line" (VNint line) ;; ret tt) ;;
  di_member_clone err "func" (VString (di_string_borrow func)) ;;
  ret err.

(** the macro [di_new_error] with the formatted message *)
Definition di_new_error (file : string) (line : Z) (func : string) (msg : string) : M oid :=
  di_new_error_from_string file line func (Some msg).

(** [di_is_error] *)
Definition di_is_error (o : oid) : M bool := di_check_type o error_type.

(** [di_object_to_string]: the string and the caught error *)
Definition di_object_to_string (o : oid) (catch : bool) : M (di_string * option oid) :=
  to_string <- di_refrawgetx o (Some "__to_string") ;;
  match to_string with
  | inl _ => ret (di_object_to_string_fallback o, None)
  | inr ts =>
      s <- di_type_conversion (VVariant ts) DI_TYPE_STRING true ;;
      match s with
      | inr (VString s) => ret (di_clone_string s, None)
      | _ =>
          conv <- di_type_conversion (VVariant ts) DI_TYPE_OBJECT true ;;
          match conv with
          | inr (VObject conv) =>
              let* (r, err) := call_maybe_catch catch conv [VObject o] in
              match r, err with
              | inl _, _ => ret (di_object_to_string_fallback o, err)
              | inr _, Some e => ret (DI_STRING_INIT, Some e)
              | inr v, None =>
                  r <- di_type_conversion (VVariant v) DI_TYPE_STRING false ;;
                  match r with
                  | inr (VString s) => ret (s, None)
                  | _ =>
                      err <- di_new_error "object.c" 1316 "di_object_to_string"
                               "__to_string did not return a string" ;;
                      if catch then ret (DI_STRING_INIT, Some err) else di_throw err
                  end
              end
          | _ => ret (di_object_to_string_fallback o, None)
          end
      end
  end.
End Errors.
