(* ===== verification/Signal.v ===== *)
(** * Signals and listeners: [object.c]

    A signal object of an emitter is its member ["__signal_<name>"]; the handlers are
    members of the signal object, named after their address; a listen handle holds weak
    references to both. *)

From S2P Require Export Errors.

Section Signal.
Context {E : Env} {F : Ffi}.

Definition HANDLER_PREFIX : string := "handler_object_".
Definition handler_member_name (handler : oid) : string := HANDLER_PREFIX +:+ fmt_p handler.
Definition signal_member_of (name : di_string) : string := "__signal_" +:+ c_str (di_string_bytes name).

(** [di_get (o, name, r)] for a variable of type [t], checked with [DI_CHECK_OK] *)
Definition get_checked (o : oid) (name : string) (t : di_type) : M val :=
  let* (r, _) := di_getxt o (Some name) t false in
  match r with inl _ => stuck Aborted | inr v => ret v end.
Definition get_weak (o : oid) (name : string) : M oid :=
  v <- get_checked o name DI_TYPE_WEAK_OBJECT ;;
  match v with VWeak x => ret x | _ => stuck WildPointer end.
Definition get_string (o : oid) (name : string) : M di_string :=
  v <- get_checked o name DI_TYPE_STRING ;;
  match v with VString s => ret s | _ => stuck WildPointer end.

(** the field [nhandlers] *)
Definition get_nhandlers (sig : oid) : M Z :=
  ob <- get_obj sig ;;
  match extra ob with PSignal n => ret n | _ => stuck WildPointer end.
Definition set_nhandlers (sig : oid) (n : Z) : M unit :=
  _ <- get_nhandlers sig ;; upd_obj sig (set_extra (PSignal n)).

(** [di_signal_remove_handler] *)
Definition di_signal_remove_handler (sig handler : oid) : M unit :=
  rc <- di_delete_member_raw sig (Some (handler_member_name handler)) ;;
  if (rc =? - ENOENT)%Z then ret tt
  else
    n <- get_nhandlers sig ;;
    set_nhandlers sig (s32 (n - 1)) ;;
    if negb (s32 (n - 1) =? 0)%Z then ret tt
    else
      weak_source <- get_weak sig "weak_source" ;;
      scoped
        (signal_member_name <- get_string sig "signal_name" ;;
         source <- di_upgrade_weak_ref weak_source ;;
         match source with
         | None => ret tt
         | Some source =>
             scoped (di_delete_member source signal_member_name false ;; ret tt)
                    (di_unref_object source)
         end)
        (di_drop_weak_ref weak_source).

(** [di_listen_handle_stop] *)
Definition di_listen_handle_stop (obj : oid) : M unit :=
  weak_sig <- get_weak obj "weak_signal" ;;
  scoped
    (weak_handler <- get_weak obj "weak_handler" ;;
     scoped
       (sig <- di_upgrade_weak_ref weak_sig ;;
        match sig with
        | None => ret tt
        | Some sig => scoped (di_signal_remove_handler sig weak_handler) (di_unref_object sig)
        end)
       (di_drop_weak_ref weak_handler))
    (di_drop_weak_ref weak_sig).

(** [di_listen_handle_dtor] *)
Definition di_listen_handle_dtor (obj : oid) : M unit :=
  let* (r, _) := di_getxt obj (Some "stop_on_drop") DI_TYPE_BOOL false in
  match r with
  | inr (VBool true) => di_listen_handle_stop obj
  | _ => ret tt
  end.

(** [di_listen_handle_auto_stop] *)
Definition di_listen_handle_auto_stop (obj : oid) (stop_ : Z) : M unit :=
  _ <- di_setx obj (Some "stop_on_drop") (VBool (negb (stop_ =? 0)%Z)) false ;; ret tt.

(** [di_signal_add_handler]: the result of [di_add_member_clone] is not looked at *)
Definition di_signal_add_handler (sig handler : oid) : M unit :=
  _ <- di_add_member_clone sig (Some (handler_member_name handler)) (VObject handler) ;;
  n <- get_nhandlers sig ;;
  set_nhandlers sig (s32 (n + 1)).

(** the first loop of [di_signal_dispatch] copies the handlers into an array of
    [nhandlers] elements *)
Fixpoint collect_handlers (n : Z) (l : list member) : M (list oid) :=
  match l with
  | [] => ret []
  | (name, v) :: l =>
      if negb (di_string_starts_with (Some name) HANDLER_PREFIX) then collect_handlers n l
      else
        check UndefinedBehaviour (0 <? n)%Z ;;           (* a write past the array *)
        match v with
        | VObject h => h <- di_ref_object h ;; hs <- collect_handlers (n - 1) l ;; ret (h :: hs)
        | _ => stuck WildPointer
        end
  end.

(** one iteration of the second loop *)
Definition call_handler (args : list val) (h : oid) : M unit :=
  let* (rc, err) := di_call_object_catch h args in
  di_unref_object h ;;
  let cleanup := match err with Some e => di_unref_object e | None => ret tt end in
  scoped
    (match rc with
     | inl rc =>
         env_log DI_LOG_ERROR ("Failed to call a signal handler: " +:+ strerror (- rc))
     | inr v =>
         di_free_value (result_in_uninitialised v) ;;
         match err with
         | None => ret tt
         | Some e =>
             let* (msg, _) := di_object_to_string e false in
             env_log DI_LOG_ERROR ("Error arose when calling signal handler: " +:+ c_str (di_string_bytes msg))
         end
     end)
    cleanup.

(** [di_signal_dispatch] *)
Definition di_signal_dispatch (sig : oid) (args : list val) : M unit :=
  n <- get_nhandlers sig ;;
  ob <- get_obj sig ;;
  handlers <- collect_handlers n (members ob) ;;
  assert (Z.of_nat (length handlers) =? n)%Z ;;
  mapM_ (call_handler args) handlers.

(** [di_emitn] *)
Definition di_emitn (o : oid) (name : di_string) (args : list val) : M Z :=
  if (MAX_NARGS <? length args)%nat then ret (- E2BIG)%Z
  else
    let* (sig, _) := di_getxt o (Some (signal_member_of name)) DI_TYPE_OBJECT false in
    match sig with
    | inr (VObject sig) => scoped (di_signal_dispatch sig args) (di_unref_object sig) ;; ret 0%Z
    | _ => ret 0%Z
    end.

(** the signal object [di_listen_to] makes when there is none *)
Definition new_signal (obj : oid) (signal_member_name : string) : M oid :=
  weak_source <- di_weakly_ref_object obj ;;
  sig <- di_new_object (PSignal 0) ;;
  rc <- di_member sig "weak_source" (VWeak weak_source) ;; DI_CHECK_OK rc ;;
  rc <- di_member_clone sig "signal_name" (VString (Some signal_member_name)) ;; DI_CHECK_OK rc ;;
  rc <- di_method sig "remove" "di_signal_remove_handler" DI_TYPE_NIL [DI_TYPE_WEAK_OBJECT] ;; DI_CHECK_OK rc ;;
  rc <- di_method sig "add" "di_signal_add_handler" DI_TYPE_NIL [DI_TYPE_OBJECT] ;; DI_CHECK_OK rc ;;
  rc <- di_method sig "dispatch" "di_signal_dispatch" DI_TYPE_NIL [DI_TYPE_TUPLE] ;; DI_CHECK_OK rc ;;
  ret sig.

(** the handle [di_listen_to] returns *)
Definition new_listen_handle (sig h : oid) : M oid :=
  listen_handle <- di_new_object PObject ;;
  rc <- di_set_type listen_handle "deai:ListenHandle" ;; DI_CHECK_OK rc ;;
  weak_sig <- di_weakly_ref_object sig ;;
  weak_handler <- di_weakly_ref_object h ;;
  _ <- di_member listen_handle "weak_signal" (VWeak weak_sig) ;;
  _ <- di_member listen_handle "weak_handler" (VWeak weak_handler) ;;
  _ <- di_method listen_handle "stop" "di_listen_handle_stop" DI_TYPE_NIL [] ;;
  _ <- di_method listen_handle "auto_stop" "di_listen_handle_auto_stop" DI_TYPE_NIL [DI_TYPE_NINT] ;;
  upd_obj listen_handle (set_dtor (Some "di_listen_handle_dtor")) ;;
  ret listen_handle.

(** [di_listen_to]: [inr handle], or the error for the caller; [catch] is [error != NULL] *)
Definition di_listen_to (obj : oid) (name : di_string) (h : oid) (catch : bool) : M (oid + oid) :=
  let signal_member_name := signal_member_of name in
  ob <- get_obj obj ;;
  assert (negb (destroyed ob)) ;;
  let* (sigv, new_error) := di_getx obj (Some signal_member_name) catch in
  let listen_error msg := di_new_error "object.c" 1233 "di_listen_to" msg in
  assert (match sigv, new_error with inl _, Some _ => false | _, _ => true end) ;;
  let* (sig, new_error) :=
    match sigv with
    | inl rc =>
        if (rc =? - ENOENT)%Z then
          sig <- new_signal obj signal_member_name ;;
          let* (rc, e) := di_setx obj (Some signal_member_name) (VObject sig) catch in
          match e with
          | None => if (rc =? 0)%Z then ret (Some sig, None)
                    else err <- listen_error ("Failed to set signal object " +:+ strerror rc) ;;
                         ret (Some sig, Some err)
          | Some e => ret (Some sig, Some e)
          end
        else err <- listen_error ("Failed to get signal object " +:+ strerror rc) ;;
             ret (None, Some err)
    | inr v =>
        match new_error with
        | Some e => ret (None, Some e)
        | None =>
            r <- di_type_conversion v DI_TYPE_OBJECT false ;;
            match r with
            | inr (VObject sig) => ret (Some sig, None)
            | _ => err <- listen_error "Failed to signal object is not an object" ;;
                   ret (None, Some err)
            end
        end
    end in
  match new_error, sig with
  | Some e, Some _ => stuck AssertFailed                (* assert(sig == NULL) *)
  | Some e, None => if catch then ret (inl e) else di_throw e
  | None, None => stuck NullDereference
  | None, Some sig =>
      di_signal_add_handler sig h ;;
      listen_handle <- new_listen_handle sig h ;;
      di_unref_object sig ;;
      ret (inr listen_handle)
  end.
End Signal.
