(* ===== verification/Roots.v ===== *)
(** * Garbage-collection roots and exiting: [main.c] *)

From S2P Require Export Signal.

Section Calls.
Context {E : Env} {F : Ffi}.

(** [di_call (o, name, args)]: the result is freed *)
Definition di_call (o : oid) (name : string) (args : list val) : M Z :=
  let* (r, called) := di_callx o (di_string_borrow name) args in
  match r with
  | inl rc => ret rc
  | inr v => when called (di_free_value (result_in_uninitialised v)) ;; ret 0%Z
  end.

(** [di_callr (o, name, r, args)] for a variable [r] of type [t] *)
Definition di_callr (o : oid) (name : string) (t : di_type) (args : list val) : M (rc_or val) :=
  let* (r, _) := di_callx o (di_string_borrow name) args in
  match r with
  | inl rc => ret (inl rc)
  | inr v =>
      let v := result_in_uninitialised v in
      if decide (type_of v = t) then ret (inr v)
      else di_free_value v ;; ret (inl (- EINVAL)%Z)
  end.
End Calls.

Section Roots.
Context {E : Env}.

Definition root_prefix : string := "___root_".
Definition root_key (key : di_string) : string := root_prefix +:+ c_str (di_string_bytes key).

(** [di_add_root], [di_remove_root] *)
Definition di_add_root (di : oid) (key : di_string) (obj : oid) : M bool :=
  rc <- di_add_member_clonev di (Some (root_key key)) (VObject obj) ;; ret (rc =? 0)%Z.
Definition di_remove_root (di : oid) (key : di_string) : M bool :=
  rc <- di_delete_member_raw di (Some (root_key key)) ;; ret (rc =? 0)%Z.

(** [di_clear_roots] *)
Definition di_clear_roots (di : oid) : M unit :=
  hash_iter (fun name _ =>
    if (String.length name <? String.length root_prefix)%nat then ret tt
    else if String.prefix root_prefix name then
      _ <- di_delete_member_raw di (Some name) ;; ret tt
    else ret tt) di.

(** the table [anonymous_roots] of [struct di_roots] *)
Definition get_anonymous (obj : oid) : M (list oid) :=
  ob <- get_obj obj ;;
  match extra ob with PRoots l => ret l | _ => stuck WildPointer end.
Definition put_anonymous (obj : oid) (l : list oid) : M unit := upd_obj obj (set_extra (PRoots l)).

(** [di_add_anonymous_root] *)
Definition di_add_anonymous_root (obj root : oid) : M bool :=
  l <- get_anonymous obj ;;
  if bool_decide (root ∈ l) then ret false
  else
    root <- di_ref_object root ;;
    l <- get_anonymous obj ;;
    put_anonymous obj (l ++ [root]) ;;
    ret true.

(** [di_remove_anonymous_root] *)
Definition di_remove_anonymous_root (obj root : oid) : M bool :=
  l <- get_anonymous obj ;;
  if bool_decide (root ∈ l) then
    put_anonymous obj (list_remove_oid root l) ;;
    di_unref_object root ;;
    ret true
  else ret false.

(** [di_roots_dtor]: the table is emptied before the first reference is dropped *)
Definition di_roots_dtor (obj : oid) : M unit :=
  objects_to_free <- get_anonymous obj ;;
  put_anonymous obj [] ;;
  mapM_ di_unref_object objects_to_free.

(** [di_roots_getter], [di_get_roots] *)
Definition di_get_roots : M (option oid) := gets roots.
Definition get_roots_nonnull : M oid :=
  r <- di_get_roots ;;
  match r with Some r => ret r | None => stuck NullDereference end.
Definition di_roots_getter : M oid := r <- get_roots_nonnull ;; di_ref_object r.

(** [di_prepare_exit], [di_prepare_quit] *)
Definition di_prepare_exit (ec : Z) : M unit :=
  modify (set_exit_code ec) ;;
  r <- get_roots_nonnull ;;
  di_finalize_object r.
Definition di_prepare_quit : M unit := di_prepare_exit 0.

(** [di_register_module], [di_register_module_method] *)
Definition di_register_module (p : oid) (name : di_string) (m : oid) : M Z :=
  di_add_member_move p name (VObject m).
Definition di_register_module_method (p : oid) (name : di_string) (m : oid) : M Z :=
  di_add_member_clonev p name (VObject m).
End Roots.
