(* ===== verification/Cxx.v ===== *)
(** * The C++ bindings: [include/deai/c++/object.hh], [bindings/c++/object.cc], [exception.cc]

    What plugins in C++ are written with: variants that own their value, references, proxies
    of members, wrappers of functions, objects with the constructor of a class. An exception
    of deai is an exception of the machine; one of the standard library is a value, which
    is turned into an error object where C++ catches it. *)

From S2P Require Export Arrays Signal Roots.

(** code that may throw an exception of the standard library *)
Definition CM (A : Type) : Type := M (std_exception + A).
Definition cxret {A} (a : A) : CM A := ret (inr a).
Definition cxthrow {A} (e : std_exception) : CM A := ret (inl e).
Definition cxbind {A B} (m : CM A) (k : A -> CM B) : CM B :=
  bind m (fun r => match r with inl e => cxthrow e | inr a => k a end).
Notation "x <-! m1 ;; m2" := (cxbind m1 (fun x => m2))
  (at level 100, m1 at next level, right associativity) : m_scope.
(** code without effects *)
Definition of_cxx {A} (m : cxx A) : CM A := of_fault m.
(** [std::optional::value ()] *)
Definition optional_value {A} (x : option A) : CM A :=
  match x with Some a => cxret a | None => cxthrow bad_optional_access end.

(** a local variable that is moved out when nothing is thrown *)
Definition guarded {A} (m : CM A) (cleanup : M unit) : CM A := fun w =>
  match m w with
  | Ret (inl e) w' => bind cleanup (fun _ => cxthrow e) w'
  | Throw err w' => scoped (di_throw err) cleanup w'
  | r => r
  end.

Section Cxx.
Context {E : Env} {F : Ffi}.

(** ** Exceptions *)

(** [util::new_error] *)
Definition new_error (file : string) (line : Z) (func message : string) : M oid :=
  di_new_error_from_string file line func (di_string_ndup message).
(** [throw_deai_error] *)
Definition throw_deai_error (rc : Z) : CM unit :=
  if (rc =? 0)%Z then cxret tt
  else if (rc =? - EINVAL)%Z then cxthrow (invalid_argument "")
  else if (rc =? - ENOENT)%Z then cxthrow (out_of_range "")
  else e <- new_error "object.cc" 18 "throw_deai_error" ("Unhandled deai error: " +:+ fmt_d rc) ;; di_throw e.

(** the handlers of [di_try] and [di_call_object_catch]: the format has no place for the
    message *)
Definition caught_message : string := "Other C++ exceptions: %s".
Definition catch_exception (line : Z) (func : string) {A} (m : CM A) (dflt : A) : M (A * option oid) := fun w =>
  match m w with
  | Ret (inr a) w' => Ret (a, None) w'
  | Throw err w' => Ret (dflt, Some err) w'
  | Ret (inl e) w' => bind (new_error "exception.cc" line func caught_message) (fun err => ret (dflt, Some err)) w'
  | Stuck f => Stuck f
  end.
(** [di_try] *)
Definition di_try (func : CM unit) : M (option oid) :=
  r <- catch_exception 15 "di_try" func tt ;; ret (snd r).
(** [di_call_object_catch] of an object whose function is a wrapped C++ function *)
Definition di_call_object_catch_cxx (call : CM (rc_or val)) : M (rc_or val * option oid) :=
  catch_exception 29 "di_call_object_catch" call (inr VNil).

(** ** Variants *)

(** [~Variant] *)
Definition variant_dtor (v : val) : M unit := match v with VNil | VLast => ret tt | _ => di_free_value v end.
(** the copy; the old value of the target is not freed *)
Definition variant_assign (old other : val) : M val := di_copy_value other.
(** the move: the value, and what is left behind *)
Definition variant_move (other : val) : val * val := (other, VNil).
Definition variant_nil : val := VNil.
Definition variant_bottom : val := VLast.

(** [object_ref () &&]: the reference, and what is left of the variant *)
Definition object_ref_move (v : val) : option oid * val :=
  match v with VObject o => (Some o, VNil) | _ => (None, v) end.
(** [object_ref () &] *)
Definition object_ref (v : val) : M (option oid) :=
  copy <- di_copy_value v ;;
  let (r, rest) := object_ref_move copy in
  variant_dtor rest ;; ret r.
(** [operator std::optional<WeakRef<Object>> () &&] *)
Definition weak_ref_move (v : val) : option oid * val :=
  match v with VWeak o => (Some o, VNil) | _ => (None, v) end.
(** [unpack () &&] *)
Definition unpack (v : val) : list val := match v with VTuple l => l | _ => [v] end.
(** [to<T> () &&], [t] is the type of [T] *)
Definition variant_to (t : di_type) (v : val) : CM val :=
  if bool_decide (type_of v = t) || bool_decide (t = DI_TYPE_VARIANT) then cxret v
  else
    c_value <- di_type_conversion v t false ;;
    match c_value with inr x => cxret x | inl _ => cxthrow bad_optional_access end.

(** [to<T> () &]: the result, and what is left of the variant, which is only copied when no
    conversion is needed *)
Definition variant_to_lvalue (t : di_type) (v : val) : CM (val * val) :=
  if bool_decide (type_of v = t) || bool_decide (t = DI_TYPE_VARIANT) then copy <- di_copy_value v ;; cxret (copy, v)
  else x <-! variant_to t v ;; cxret (x, VNil).

(** ** Members *)

(** [ObjectMemberProxy<raw>] of the member [key] of [target] *)
Section proxy.
Context (raw : bool) (target : oid) (key : string).
Definition proxy_get : M (option val) :=
  r <- (if raw then di_rawgetx target (Some key)
        else let* (r, _) := di_getx target (Some key) false in ret r) ;;
  ret (match r with inl _ => None | inr v => Some v end).
Definition proxy_erase : M unit :=
  if raw then _ <- di_delete_member_raw target (Some key) ;; ret tt
  else _ <- di_delete_member target (Some key) false ;; ret tt.
Definition proxy_has_value : M bool :=
  v <- proxy_get ;;
  match v with Some v => variant_dtor v ;; ret true | None => ret false end.
Definition proxy_value : CM val := v <- proxy_get ;; optional_value v.
Definition proxy_deref : M val :=
  v <- proxy_get ;; match v with Some v => ret v | None => stuck UndefinedBehaviour end.
(** [operator= (const std::optional<Variant> &)] *)
Definition proxy_assign (new_value : option val) : CM unit :=
  if raw then
    proxy_erase ;;
    match new_value with
    | Some v => rc <- di_add_member_clone target (Some key) v ;; assert (rc =? 0)%Z ;; cxret tt
    | None => cxret tt
    end
  else
    match new_value with
    | None => proxy_erase ;; cxret tt
    | Some v => let* (rc, _) := di_setx target (Some key) v false in throw_deai_error rc
    end.
(** [operator= (std::optional<Variant> &&)] *)
Definition proxy_assign_move (new_value : option val) : CM unit :=
  proxy_erase ;;
  match new_value with
  | None => if raw then cxret tt else proxy_assign None
  | Some moved =>
      if raw then rc <- di_add_member_move target (Some key) moved ;; throw_deai_error rc
      else scoped (proxy_assign (Some moved)) (variant_dtor moved)
  end.
End proxy.

(** ** References *)

(** [raw_check_type]; [None] is [Object] *)
Definition raw_check_type (obj : oid) (type : option string) : M bool :=
  match type with None => ret true | Some t => di_check_type obj t end.
(** [Ref<T>::take]: a reference of another type is lost *)
Definition ref_take (type : option string) (obj : oid) : M (option oid) :=
  ok <- raw_check_type obj type ;; ret (if (ok : bool) then Some obj else None).
(** [Ref<T> (Object * )] *)
Definition ref_from (type : option string) (obj : oid) : CM oid :=
  ok <- raw_check_type obj type ;;
  if negb ok then cxthrow (invalid_argument "trying to create Ref with wrong kind of object")
  else o <- di_ref_object obj ;; cxret o.
(** [clone] *)
Definition ref_clone (o : oid) : M oid := di_ref_object o.
(** [downcast<Other> () &&]: the reference is kept by the source otherwise, and dies with it *)
Definition downcast (type : string) (o : oid) : M (option oid) :=
  ok <- di_check_type o type ;;
  if (ok : bool) then ref_take (Some type) o else di_unref_object o ;; ret None.
(** [emit] *)
Definition ref_emit (o : oid) (signal : string) (args : list val) : CM unit :=
  rc <- di_emitn o (Some signal) args ;; throw_deai_error rc.
(** [call<Return>]; [None] is [void], for which the result is not looked at *)
Definition ref_call (rtype : option di_type) (o : oid) (args : list val) : CM val :=
  r <- di_call_object o args ;;
  _ <-! throw_deai_error (rc_of r) ;;
  match rtype, r with
  | Some t, inr v => variant_to t v
  | _, _ => cxret VNil
  end.
(** [method_call<Return>] *)
Definition method_call (rtype : option di_type) (o : oid) (method_name : string) (args : list val) : CM val :=
  method <- proxy_get false o method_name ;;
  match method with
  | None => cxthrow (out_of_range "method not found in object")
  | Some method =>
      scoped
        (f <- object_ref method ;;
         f <-! optional_value f ;;
         scoped (ref_call rtype f (VObject o :: args)) (di_unref_object f))
        (variant_dtor method)
  end.
(** [util::call_raw] *)
Definition call_raw (rtype : option di_type) (raw_ref : oid) (method_name : string) (args : list val) : CM val :=
  o <-! ref_from None raw_ref ;;
  scoped (method_call rtype o method_name args) (di_unref_object o).
(** [to_string] *)
Definition ref_to_string (o : oid) : M string :=
  let* (str, _) := di_object_to_string o false in ret (di_string_bytes str).
(** [downgrade], [WeakRef<T>::upgrade] *)
Definition downgrade (o : oid) : M oid := di_weakly_ref_object o.
Definition weak_upgrade (type : option string) (weak : oid) : M (option oid) :=
  o <- di_upgrade_weak_ref weak ;;
  match o with Some o => ref_take type o | None => ret None end.
(** [on] *)
Definition ref_on (o : oid) (signal : string) (handler : oid) : CM oid :=
  r <- di_listen_to o (Some signal) handler false ;;
  match r with
  | inr l => l <- ref_take (Some "deai:ListenHandle") l ;; optional_value l
  | inl _ => stuck NullDereference
  end.

(** ** Functions and objects *)

(** [borrow_from_variant]: the optional is dereferenced without a test *)
Definition borrow_from_variant (t : di_type) (v : val) : M val :=
  if decide (type_of v = t) then ret v
  else
    r <- di_type_conversion_impl true v t ;;
    match r with inr x => ret x | inl _ => stuck UndefinedBehaviour end.
Fixpoint borrow_args (ts : list di_type) (args : list val) : M (list val) :=
  match ts, args with
  | t :: ts, v :: args => x <- borrow_from_variant t v ;; xs <- borrow_args ts args ;; ret (x :: xs)
  | _, _ => ret []
  end.
(** [raw_wrapper] of a function, as a function of the values of the arguments *)
Definition raw_wrapper (arg_types : list di_type) (func : list val -> CM val) (args : list val) : CM (rc_or val) :=
  if negb (length args =? length arg_types)%nat then cxret (inl (- EINVAL)%Z)
  else
    xs <- borrow_args arg_types args ;;
    r <-! func xs ;;
    cxret (inr r).

(** [DeaiBorrowedArrayConverter::operator std::vector<T>]: [t] is the type of [T], [name] the
    name the compiler has for it *)
Fixpoint vector_elements {A} (t : di_type) (name : string) (elem : val -> M A) (et : di_type) (l : list val) : M (list A) :=
  match l with
  | [] => ret []
  | x :: l =>
      c <- (if bool_decide (et = t) then ret (inr x) else di_type_conversion_impl true x t) ;;
      c <- match c with
           | inr c => ret c
           | inl _ =>
               e <- new_error "conv.hh" 342 "operator vector" ("Array element type mismatch, " +:+ di_type_names et
                      +:+ " cannot be converted into " +:+ name) ;;
               di_throw e
           end ;;
      a <- elem c ;;
      rest <- vector_elements t name elem et l ;;
      ret (a :: rest)
  end.
Definition to_vector {A} (t : di_type) (name : string) (elem : val -> M A) (v : val) : M (list A) :=
  match v with VArray et _ l => vector_elements t name elem et l | _ => stuck WildPointer end.
(** [array_to_owned_deai_value] *)
Definition array_to_owned (t : di_type) (l : list val) : val :=
  match l with [] => VArray DI_TYPE_NIL false [] | _ => VArray t true l end.

(** [util::new_object]: the constructor has run, with the fields [p] *)
Definition new_object (type : string) (dtor : fnptr) (p : payload) : CM oid :=
  o <- di_new_object p ;;
  di_set_object_dtor o (Some dtor) ;;
  _ <- di_set_type o type ;;
  r <- ref_take (Some type) o ;;
  optional_value r.
(** [util::to_di_callable] *)
Definition to_di_callable (func : fnptr) : M oid :=
  callable <- di_new_object PObject ;;
  di_set_object_call callable (Some func) ;;
  ret callable.
(** [util::add_method] *)
Definition add_method (o : oid) (func : fnptr) (name : string) : CM unit :=
  closure <- to_di_callable func ;;
  rc <- di_add_member_move o (Some name) (VObject closure) ;;
  throw_deai_error rc.

(** ** The core *)

Definition core_load_plugin (base : oid) (plugin_name : string) : CM unit :=
  _ <-! call_raw None base "load_plugin" [VString (Some plugin_name)] ;; cxret tt.
Definition core_chdir (base : oid) (new_dir : string) : CM unit :=
  _ <-! call_raw None base "chdir" [VString (Some new_dir)] ;; cxret tt.
Definition core_exit (base : oid) (exit_code : Z) : CM unit :=
  _ <-! call_raw None base "exit" [VNint exit_code] ;; cxret tt.
Definition core_load_plugin_from_dir (base : oid) (plugin_dir : string) : CM val :=
  call_raw (Some DI_TYPE_NINT) base "load_plugin_from_dir" [VString (Some plugin_dir)].
(** [Core::register_module]: the reference is the caller's *)
Definition core_register_module (base : oid) (module_name : string) (module : oid) : CM val :=
  call_raw (Some DI_TYPE_NINT) base "register_module" [VString (Some module_name); VObject module].
(** [Log::file_target] *)
Definition log_file_target (base : oid) (filename : string) (overwrite : bool) : CM val :=
  call_raw (Some DI_TYPE_OBJECT) base "file_target" [VString (Some filename); VBool overwrite].
(** [DEAI_CPP_PLUGIN_ENTRY_POINT]: [di_plugin_init], around the function of the plugin *)
Definition cpp_plugin_init (init : oid -> CM unit) (di : oid) : CM unit :=
  di <-! ref_from (Some "deai:Core") di ;;
  scoped (init di) (di_unref_object di).
(** the end of every plugin: the module is registered *)
Definition register_new_module (di : oid) (name : string) (module : CM oid) : CM unit :=
  obj <-! module ;;
  scoped (_ <-! core_register_module di name obj ;; cxret tt) (di_unref_object obj).
End Cxx.
