(* ===== verification/Promise.v ===== *)
(** * Promises: [event.c]

    A promise keeps its state in members: ["___resolved"] or ["___rejected"] once it is
    settled, ["___handlers"] while it has listeners, ["is_pending"] while it waits on the
    event module for the next iteration of the main loop. *)

From S2P Require Export Roots.

Section Promise.
Context {E : Env} {F : Ffi}.

Definition promise_type : string := "deai:Promise".

Definition log_error (msg : string) : M unit := env_log DI_LOG_ERROR msg.

(** one iteration of [di_handlers_dispatch] *)
Definition dispatch_one (type : Z) (value : val) (h : oid) : M unit :=
  let* (rc, error) := di_call_object_catch h [VNint type; value] in
  scoped
    (match rc, error with
     | inl rc, _ => log_error ("Error calling handler: " +:+ fmt_d rc)
     | inr _, Some e =>
         let* (msg, _) := di_object_to_string e false in
         log_error ("Error in promise handler: " +:+ c_str (di_string_bytes msg))
     | inr v, None => di_free_value (result_in_uninitialised v)
     end ;;
     di_unref_object h)
    (match error with Some e => di_unref_object e | None => ret tt end).

(** [di_handlers_dispatch] *)
Definition di_handlers_dispatch (et : di_type) (handlers : list val) (type : Z) (value : val) : M unit :=
  DI_CHECK (bool_decide (handlers = []) || bool_decide (et = DI_TYPE_OBJECT)) ;;
  mapM_ (fun h => match h with VObject h => dispatch_one type value h | _ => stuck WildPointer end)
    handlers.

(** the payload of a variant member, as it is passed in an argument list *)
Definition variant_value (v : val) : val := match v with VVariant v => v | _ => v end.

Definition has_member (o : oid) (name : string) : M bool := di_has_member o name.

(** [di_promise_dispatch] *)
Definition di_promise_dispatch (promise : oid) : M unit :=
  hv <- di_remove_member_raw promise (Some "___handlers") ;;
  let* (et, handlers) := match hv with
    | inl _ => ret (DI_TYPE_ANY, [])
    | inr (VArray et _ l) => ret (et, l)
    | inr _ => stuck WildPointer
    end in
  let* (resolved, _) := di_getxt promise (Some "___resolved") DI_TYPE_VARIANT false in
  rejected <-
    match resolved with
    | inr v =>
        scoped (di_handlers_dispatch et handlers 0 (variant_value v) ;; ret None)
               (di_free_value v)
    | inl _ =>
        let* (rejected, _) := di_getxt promise (Some "___rejected") DI_TYPE_OBJECT false in
        match rejected with
        | inr (VObject e) =>
            match handlers with
            | [] => ret (Some e)
            | _ =>
                di_handlers_dispatch et handlers 1 (VObject e) ;;
                di_unref_object e ;;
                ret None
            end
        | _ => ret None
        end
    end ;;
  _ <- di_delete_member_raw promise (Some "is_pending") ;;
  match rejected with
  | None => ret tt
  | Some e =>
      let* (msg, _) := di_object_to_string e false in
      log_error ("Unhandled promise rejection: " +:+ c_str (di_string_bytes msg)) ;;
      di_unref_object e
  end.

(** [di_new_promise] *)
Definition di_new_promise (event_module : oid) : M oid :=
  p <- di_new_object PObject ;;
  weak_event <- di_weakly_ref_object event_module ;;
  _ <- di_set_type p promise_type ;;
  _ <- di_member p "___weak_event_module" (VWeak weak_event) ;;
  _ <- di_method p "then" "di_promise_then" DI_TYPE_OBJECT [DI_TYPE_OBJECT] ;;
  _ <- di_method p "catch" "di_promise_catch" DI_TYPE_OBJECT [DI_TYPE_OBJECT] ;;
  _ <- di_method p "then_" "di_promise_then" DI_TYPE_OBJECT [DI_TYPE_OBJECT] ;;
  _ <- di_method p "resolve" "di_promise_resolve" DI_TYPE_NIL [DI_TYPE_VARIANT] ;;
  _ <- di_method p "reject" "di_promise_reject" DI_TYPE_NIL [DI_TYPE_OBJECT] ;;
  ret p.

(** ["pending_promise_%d"] *)
Definition pending_key (n : Z) : string := "pending_promise_" +:+ fmt_d n.

Definition get_nint (o : oid) (name : string) : M Z :=
  v <- get_checked o name DI_TYPE_NINT ;;
  match v with VNint n => ret n | _ => stuck WildPointer end.

(** the second half of [di_promise_start_dispatch], with the event module held *)
Definition enqueue_promise (promise event_module : oid) : M unit :=
  di_obj <- di_object_borrow_deai event_module ;;
  match di_obj with
  | None => ret tt
  | Some _ =>
      call_ext "ev_idle_start" [VObject event_module] ;;
      pending_count <- get_nint event_module "pending_count" ;;
      let key := pending_key pending_count in
      _ <- di_rawsetx event_module (Some "pending_count") (VNint (s32 (pending_count + 1))) ;;
      when (pending_count =? 0)%Z
        (roots <- get_roots_nonnull ;;
         _ <- di_call roots "add_anonymous" [VObject event_module] ;; ret tt) ;;
      _ <- di_add_member_clone event_module (Some key) (VObject promise) ;;
      (* [true] is an [int] before C23 *)
      _ <- di_member_clone promise "is_pending" (VNint 1) ;;
      ret tt
  end.

(** [di_promise_start_dispatch] *)
Definition di_promise_start_dispatch (promise : oid) : M unit :=
  pending <- di_lookup promise (Some "is_pending") ;;
  match pending with
  | Some _ => ret tt
  | None =>
      weak_event <- get_weak promise "___weak_event_module" ;;
      scoped
        (event_module <- di_upgrade_weak_ref weak_event ;;
         match event_module with
         | None => ret tt
         | Some event_module =>
             scoped (enqueue_promise promise event_module) (di_unref_object event_module)
         end)
        (di_drop_weak_ref weak_event)
  end.

(** [di_promise_add_handler]: the array grows in place *)
Definition di_promise_add_handler (promise handler : oid) : M unit :=
  let key := Some "___handlers" in
  handlers_member <- di_lookup promise key ;;
  match handlers_member with
  | Some _ => ret tt
  | None => _ <- di_add_member_move2 promise key (VArray DI_TYPE_OBJECT false []) ;; ret tt
  end ;;
  handlers_member <- di_lookup promise key ;;
  match handlers_member with
  | Some (VArray et _ l) =>
      handler <- di_ref_object handler ;;
      upd_obj promise (fun ob =>
        set_members (put_member "___handlers" (VArray et true (l ++ [VObject handler])) (members ob)) ob)
  | _ => stuck WildPointer
  end ;;
  resolved <- has_member promise "___resolved" ;;
  rejected <- has_member promise "___rejected" ;;
  when (resolved || rejected) (di_promise_start_dispatch promise).

(** [di_promise_resolve], [di_promise_reject] *)
Definition di_promise_resolve (promise : oid) (var : val) : M unit :=
  resolved <- has_member promise "___resolved" ;;
  rejected <- has_member promise "___rejected" ;;
  if resolved || rejected then ret tt
  else
    _ <- di_member_clone promise "___resolved" (VVariant var) ;;
    di_promise_start_dispatch promise.

Definition di_promise_reject (promise error : oid) : M unit :=
  resolved <- has_member promise "___resolved" ;;
  rejected <- has_member promise "___rejected" ;;
  if resolved || rejected then ret tt
  else
    _ <- di_member_clone promise "___rejected" (VObject error) ;;
    di_promise_start_dispatch promise.

(** a handler taken out of the closure, freed on every way out *)
Definition take_handler (closure : oid) (name : string) : M (option oid) :=
  r <- di_remove_member_raw closure (Some name) ;;
  match r with
  | inl _ => ret None
  | inr (VObject h) => ret (Some h)
  | inr _ => stuck Aborted
  end.
Definition free_handler (h : option oid) : M unit :=
  match h with Some h => di_unref_object h | None => ret tt end.

(** what [di_promise_handler_closure] does once a handler was called *)
Definition handler_result (closure promise : oid) (rc : rc_or val) (error : option oid) : M unit :=
  match rc, error with
  | inl rc, _ => log_error ("Error calling handler: " +:+ fmt_d rc)
  | inr v, Some error =>
      di_promise_reject promise error ;;
      di_free_value v ;;
      _ <- di_delete_member_raw closure (Some "promise") ;; ret tt
  | inr v, None =>
      let v := result_in_uninitialised v in
      is_promise <- match v with VObject o => di_check_type o promise_type | _ => ret false end ;;
      match is_promise, v with
      | true, VObject o =>
          di_promise_add_handler o closure ;;
          di_free_value v
      | _, _ =>
          di_promise_resolve promise v ;;
          di_free_value v ;;
          _ <- di_delete_member_raw closure (Some "promise") ;; ret tt
      end
  end.

(** [di_promise_handler_closure] *)
Definition di_promise_handler_closure (closure : oid) (args : list val) : M (rc_or val) :=
  match args with
  | [t; v] =>
      promise <- rawget_object closure "promise" ;;
      match promise with
      | None => stuck Aborted
      | Some promise =>
          type <- di_type_conversion t DI_TYPE_NINT true ;;
          match type with
          | inr (VNint type) =>
              DI_CHECK ((type =? 0) || (type =? 1))%Z ;;
              resolvev <- take_handler closure "resolve" ;;
              scoped
                (rejectv <- take_handler closure "reject" ;;
                 scoped
                   (match (if (type =? 0)%Z then resolvev else rejectv) with
                    | None =>
                        (if (type =? 0)%Z then di_promise_resolve promise v
                         else match v with
                              | VObject e => di_promise_reject promise e
                              | _ => stuck Aborted
                              end) ;;
                        _ <- di_delete_member_raw closure (Some "promise") ;;
                        ret (inr VLast)
                    | Some handler =>
                        let* (rc, error) := di_call_object_catch handler [v] in
                        handler_result closure promise rc error ;;
                        ret (inr VLast)
                    end)
                   (free_handler rejectv))
                (free_handler resolvev)
          | _ => stuck Aborted
          end
      end
  | _ => stuck Aborted
  end.

Definition throw_error (line : Z) (func msg : string) {A} : M A :=
  e <- di_new_error "event.c" line func msg ;; di_throw e.

(** [di_promise_then_inner] *)
Definition di_promise_then_inner (promise : oid) (resolve reject : option oid) : M oid :=
  let* (weak_event, _) := di_getxt promise (Some "___weak_event_module") DI_TYPE_WEAK_OBJECT false in
  match weak_event with
  | inr (VWeak weak_event) =>
      scoped
        (event_module <- di_upgrade_weak_ref weak_event ;;
         match event_module with
         | None => throw_error 641 "di_promise_then_inner" "deai shutting down?"
         | Some event_module =>
             scoped
               (p <- di_new_promise event_module ;;
                closure <- di_new_object PObject ;;
                _ <- di_set_type closure "deai.event:PromiseThenClosure" ;;
                upd_obj closure (set_call (Some "di_promise_handler_closure")) ;;
                _ <- di_member_clone closure "promise" (VObject p) ;;
                match resolve with
                | Some r => _ <- di_member_clone closure "resolve" (VObject r) ;; ret tt
                | None => ret tt
                end ;;
                match reject with
                | Some r => _ <- di_member_clone closure "reject" (VObject r) ;; ret tt
                | None => ret tt
                end ;;
                di_promise_add_handler promise closure ;;
                di_unref_object closure ;;
                ret p)
               (di_unref_object event_module)
         end)
        (di_drop_weak_ref weak_event)
  | _ => throw_error 637 "di_promise_then_inner" "Event module member not found"
  end.

(** [di_promise_then], [di_promise_catch], [di_promise_finally] *)
Definition di_promise_then (promise handler : oid) : M oid :=
  di_promise_then_inner promise (Some handler) None.
Definition di_promise_catch (promise handler : oid) : M oid :=
  di_promise_then_inner promise None (Some handler).
Definition di_promise_finally (promise handler : oid) : M oid :=
  di_promise_then_inner promise (Some handler) (Some handler).

(** the loop of [di_promise_join_handler] that gathers the results *)
Fixpoint gather_results (storage : oid) (i : nat) (n : nat) : M (list val) :=
  match n with
  | O => ret []
  | S n =>
      v <- get_checked storage (fmt_d (Z.of_nat i)) DI_TYPE_VARIANT ;;
      vs <- gather_results storage (S i) n ;;
      ret (variant_value v :: vs)
  end.

(** [di_promise_join_handler] *)
Definition di_promise_join_handler (index : Z) (storage then_promise : oid) (var : val) : M unit :=
  rc <- di_add_member_clone storage (Some (fmt_d index)) (VVariant var) ;; DI_CHECK_OK rc ;;
  left <- get_nint storage "left" ;;
  let left := s32 (left - 1) in
  let* (rc, _) := di_setx storage (Some "left") (VNint left) false in
  DI_CHECK_OK rc ;;
  when (left =? 0)%Z
    (total <- get_nint storage "total" ;;
     results <- gather_results storage 0 (Z.to_nat total) ;;
     scoped (_ <- di_call then_promise "resolve" [VTuple results] ;; ret tt)
            (di_free_value (VTuple results))).

(** the checks at the head of [di_join_promises] and [di_any_promise] *)
Fixpoint all_promises (line : Z) (func : string) (l : list val) : M unit :=
  match l with
  | [] => ret tt
  | VObject o :: l =>
      ok <- di_check_type o promise_type ;;
      if ok then all_promises line func l
      else throw_error line func "not all objects are promise"
  | _ :: _ => stuck WildPointer
  end.

(** [di_make_closure]; an error pointer would be used as an object *)
Definition make_closure (fn : fnptr) (captures : list val) (arg_types : list di_type) : M oid :=
  cl <- di_create_closure fn DI_TYPE_NIL captures (Z.of_nat (length arg_types)) arg_types ;;
  match cl with inr cl => ret cl | inl _ => stuck WildPointer end.

Definition attach (promise handler : oid) : M Z :=
  scoped (di_call promise "then" [VObject handler]) (di_unref_object handler).

Fixpoint join_loop (ret_ storage : oid) (cnt : Z) (l : list val) : M Z :=
  match l with
  | [] => ret cnt
  | VObject p :: l =>
      handler <- make_closure "di_promise_join_handler" [VNint cnt; VObject storage; VObject ret_]
                   [DI_TYPE_VARIANT] ;;
      rc <- attach p handler ;;
      join_loop ret_ storage (if (rc =? 0)%Z then s32 (cnt + 1) else cnt) l
  | _ :: _ => stuck WildPointer
  end.

(** [di_join_promises] *)
Definition di_join_promises (event_module : oid) (et : di_type) (promises : list val) : M oid :=
  if negb (bool_decide (promises = [])) && negb (bool_decide (et = DI_TYPE_OBJECT))
  then throw_error 716 "di_join_promises" "promises must all be objects"
  else
    all_promises 721 "di_join_promises" promises ;;
    ret_ <- di_new_promise event_module ;;
    match promises with
    | [] => _ <- di_call ret_ "resolve" [DI_ARRAY_INIT] ;; ret ret_
    | _ =>
        storage <- di_new_object PObject ;;
        scoped
          (cnt <- join_loop ret_ storage 0 promises ;;
           let* (rc, _) := di_setx storage (Some "left") (VNint cnt) false in
           DI_CHECK_OK rc ;;
           let* (rc, _) := di_setx storage (Some "total") (VNint cnt) false in
           DI_CHECK_OK rc ;;
           ret ret_)
          (di_unref_object storage)
    end.

(** [di_any_promise_handler] *)
Definition di_any_promise_handler (then_ : oid) (var : val) : M unit :=
  _ <- di_call then_ "resolve" [var] ;; ret tt.

(** [di_any_promise] *)
Definition di_any_promise (event_module : oid) (et : di_type) (promises : list val) : M oid :=
  if negb (bool_decide (et = DI_TYPE_OBJECT))
  then throw_error 759 "di_any_promise" "promises must all be objects"
  else
    all_promises 764 "di_any_promise" promises ;;
    ret_ <- di_new_promise event_module ;;
    mapM_ (fun p =>
      match p with
      | VObject p =>
          handler <- make_closure "di_any_promise_handler" [VObject ret_] [DI_TYPE_VARIANT] ;;
          _ <- attach p handler ;; ret tt
      | _ => stuck WildPointer
      end) promises ;;
    ret ret_.

(** [di_ready_promise] *)
Definition di_ready_promise (event_module : oid) (value : val) : M oid :=
  p <- di_new_promise event_module ;;
  di_promise_resolve p value ;;
  ret p.

(** the [do ... while] loop of [di_idle_cb] *)
Fixpoint idle_loop (fuel : nat) (eventm : oid) : M unit :=
  match fuel with
  | O => stuck OutOfFuel
  | S fuel =>
      pending_count <- get_nint eventm "pending_count" ;;
      if (pending_count =? 0)%Z then ret tt
      else
        let key := pending_key (s32 (pending_count - 1)) in
        v <- get_checked eventm key DI_TYPE_OBJECT ;;
        match v with
        | VObject promise =>
            scoped
              (rc <- di_delete_member_raw eventm (Some key) ;;
               DI_CHECK_OK rc ;;
               _ <- di_rawsetx eventm (Some "pending_count") (VNint (s32 (pending_count - 1))) ;;
               di_promise_dispatch promise)
              (di_unref_object promise) ;;
            idle_loop fuel eventm
        | _ => stuck WildPointer
        end
  end.

(** [di_idle_cb] *)
Definition di_idle_cb (eventm : oid) : M unit :=
  call_ext "ev_idle_stop" [VObject eventm] ;;
  idle_loop env_fuel eventm ;;
  roots <- get_roots_nonnull ;;
  _ <- di_call roots "remove_anonymous" [VObject eventm] ;;
  ret tt.

(** [di_event_module_dtor] *)
Definition di_event_module_dtor (obj : oid) : M unit :=
  di_obj <- di_object_borrow_deai obj ;;
  match di_obj with
  | Some _ => call_ext "ev_idle_stop" [VObject obj]
  | None => ret tt
  end.
End Promise.
