(* ===== verification/Event.v ===== *)
(** * Event sources: file descriptors, timers, periodic timers: [event.c]

    libev is a parameter: the clock, and the [events] field of an [ev_io] after its
    initialisation, start and modification. Starting and stopping a watcher is recorded in
    the trace of the world. *)

From S2P Require Export Promise GC.
From Stdlib Require Import SpecFloat.

Class Libev := {
  (** [ev_now (loop)] *)
  ev_now : world -> spec_float;
  (** the field [events] after [ev_io_init (w, cb, fd, events)] *)
  ev_io_init_events : Z -> Z;
  (** ... after [ev_io_start] *)
  ev_io_start_events : Z -> Z;
  (** ... after [ev_io_modify (w, flags)], or [ev_io_set] *)
  ev_io_modify_events : Z -> Z -> Z
}.

Definition EV_READ : Z := 1.
Definition EV_WRITE : Z := 2.

Definition fadd : spec_float -> spec_float -> spec_float := SFadd 53 1024.
Definition fsub : spec_float -> spec_float -> spec_float := SFsub 53 1024.

Section Event.
Context {E : Env} {F : Ffi} {V : Libev}.

(** ** File descriptors *)

Definition get_ioev (o : oid) : M (Z * Z * bool) :=
  ob <- get_obj o ;;
  match extra ob with PIoev fd ev r => ret (fd, ev, r) | _ => stuck WildPointer end.
Definition put_ioev (o : oid) (fd ev : Z) (r : bool) : M unit := upd_obj o (set_extra (PIoev fd ev r)).

(** [di_ioev_callback] *)
Definition di_ioev_callback (ev : oid) (revents : Z) : M unit :=
  when (Z.testbit revents 0) (_ <- di_emitn ev (Some "read") [] ;; ret tt) ;;
  when (Z.testbit revents 1) (_ <- di_emitn ev (Some "write") [] ;; ret tt).

(** [di_start_ioev] *)
Definition di_start_ioev (ev : oid) : M unit :=
  let* (_, _, running) := get_ioev ev in
  if running then ret tt
  else
    di_obj <- di_object_borrow_deai ev ;;
    match di_obj with
    | None => ret tt
    | Some _ =>
        let* (fd, events, r) := get_ioev ev in
        put_ioev ev fd (ev_io_start_events events) r ;;
        call_ext "ev_io_start" [VObject ev] ;;
        roots <- get_roots_nonnull ;;
        r <- di_callr roots "add_anonymous" DI_TYPE_BOOL [VObject ev] ;;
        match r with
        | inr (VBool running) =>
            let* (fd, events, _) := get_ioev ev in
            put_ioev ev fd events running ;;
            DI_CHECK running
        | _ => stuck Aborted
        end
    end.

(** [di_stop_ioev] *)
Definition di_stop_ioev (ev : oid) : M unit :=
  let* (_, _, running) := get_ioev ev in
  if negb running then ret tt
  else
    di_obj <- di_object_borrow_deai ev ;;
    match di_obj with
    | None => ret tt
    | Some _ =>
        call_ext "ev_io_stop" [VObject ev] ;;
        let* (fd, events, _) := get_ioev ev in
        put_ioev ev fd events false ;;
        roots <- get_roots_nonnull ;;
        _ <- di_call roots "remove_anonymous" [VObject ev] ;;
        ret tt
    end.

(** [di_modify_ioev] *)
Definition di_modify_ioev (ioev : oid) (flags : Z) : M unit :=
  let* (fd, events, running) := get_ioev ioev in
  put_ioev ioev fd (ev_io_modify_events events flags) running ;;
  if (negb running && negb (flags =? 0)%Z)%bool then di_start_ioev ioev
  else if (running && (flags =? 0)%Z)%bool then di_stop_ioev ioev
  else ret tt.

(** [di_enable_read], [di_enable_write], [di_disable_read], [di_disable_write] *)
Definition enable_signal (member : string) (flag : Z) (obj sig : oid) : M unit :=
  rc <- di_member_clone obj member (VObject sig) ;;
  if negb (rc =? 0)%Z then ret tt
  else
    let* (_, events, _) := get_ioev obj in
    di_modify_ioev obj (Z.lor events flag).
Definition disable_signal (member : string) (flag : Z) (obj : oid) : M unit :=
  rc <- di_delete_member_raw obj (Some member) ;;
  if negb (rc =? 0)%Z then ret tt
  else
    let* (_, events, _) := get_ioev obj in
    di_modify_ioev obj (Z.land events (Z.lnot flag)).
Definition di_enable_read : oid -> oid -> M unit := enable_signal "__signal_read" EV_READ.
Definition di_enable_write : oid -> oid -> M unit := enable_signal "__signal_write" EV_WRITE.
Definition di_disable_read : oid -> M unit := disable_signal "__signal_read" EV_READ.
Definition di_disable_write : oid -> M unit := disable_signal "__signal_write" EV_WRITE.

(** [di_ioev_dtor] *)
Definition di_ioev_dtor (obj : oid) : M unit := di_modify_ioev obj 0.

Definition shutting_down {A} (line : Z) (func : string) : M A :=
  e <- di_new_error "event.c" line func "deai is shutting down..." ;; di_throw e.

(** [di_create_ioev] *)
Definition di_create_ioev (em : oid) (fd : Z) : M oid :=
  o <- di_new_object (PIoev fd 0 false) ;;
  _ <- di_set_type o "deai.builtin.event:IoEv" ;;
  upd_obj o (set_dtor (Some "di_ioev_dtor")) ;;
  di_obj <- di_object_get_deai_strong em ;;
  match di_obj with
  | None => shutting_down 196 "di_create_ioev"
  | Some di_obj =>
      put_ioev o fd (ev_io_init_events 0) false ;;
      _ <- di_member o DEAI_MEMBER_NAME_RAW (VObject di_obj) ;;
      _ <- di_method o "__set___signal_read" "di_enable_read" DI_TYPE_NIL [DI_TYPE_OBJECT] ;;
      _ <- di_method o "__delete___signal_read" "di_disable_read" DI_TYPE_NIL [] ;;
      _ <- di_method o "__set___signal_write" "di_enable_write" DI_TYPE_NIL [DI_TYPE_OBJECT] ;;
      _ <- di_method o "__delete___signal_write" "di_disable_write" DI_TYPE_NIL [] ;;
      ret o
  end.

(** ** Timers *)

Definition get_timer (o : oid) : M (spec_float * bool) :=
  ob <- get_obj o ;;
  match extra ob with PTimer at_ spent => ret (at_, spent) | _ => stuck WildPointer end.

(** [di_timer_delete_signal] *)
Definition di_timer_delete_signal (o : oid) : M unit :=
  rc <- di_delete_member_raw o (Some "__signal_elapsed") ;;
  if negb (rc =? 0)%Z then ret tt
  else
    roots <- get_roots_nonnull ;;
    _ <- di_call roots "remove_anonymous" [VObject o] ;;
    di_obj <- di_object_borrow_deai o ;;
    match di_obj with
    | None => stuck NullDereference                     (* di->loop *)
    | Some _ => call_ext "ev_timer_stop" [VObject o]
    end.

(** [di_timer_add_signal] *)
Definition di_timer_add_signal (o sig : oid) : M unit :=
  let* (at_, spent) := get_timer o in
  if (spent : bool) then ret tt
  else
    di_obj <- di_object_borrow_deai o ;;
    match di_obj with
    | None => ret tt
    | Some _ =>
        rc <- di_member_clone o "__signal_elapsed" (VObject sig) ;;
        if negb (rc =? 0)%Z then ret tt
        else
          roots <- get_roots_nonnull ;;
          added <- di_callr roots "add_anonymous" DI_TYPE_BOOL [VObject o] ;;
          match added with
          | inl _ => di_timer_delete_signal o
          | inr (VBool added) =>
              DI_CHECK added ;;
              let* (at_, _) := get_timer o in
              now <- gets ev_now ;;
              call_ext "ev_timer_set" [VObject o; VFloat (fsub at_ now)] ;;
              call_ext "ev_timer_start" [VObject o]
          | inr _ => stuck WildPointer
          end
    end.

(** [di_timer_callback] *)
Definition di_timer_callback (d : oid) : M unit :=
  _ <- di_ref_object d ;;
  scoped
    (now <- gets ev_now ;;
     di_obj <- di_object_borrow_deai d ;;
     DI_CHECK (bool_decide (is_Some di_obj)) ;;
     call_ext "ev_timer_stop" [VObject d] ;;
     let* (at_, _) := get_timer d in
     upd_obj d (set_extra (PTimer at_ true)) ;;
     _ <- di_emitn d (Some "elapsed") [VFloat now] ;;
     di_timer_delete_signal d)
    (di_unref_object d).

(** [di_create_timer] *)
Definition di_create_timer (em : oid) (timeout : spec_float) : M oid :=
  o <- di_new_object (PTimer (S754_zero false) false) ;;
  _ <- di_set_type o "deai.builtin.event:Timer" ;;
  di_obj <- di_object_get_deai_strong em ;;
  match di_obj with
  | None => shutting_down 288 "di_create_timer"
  | Some di_obj =>
      upd_obj o (set_dtor (Some "di_timer_delete_signal")) ;;
      _ <- di_method o "__set___signal_elapsed" "di_timer_add_signal" DI_TYPE_NIL [DI_TYPE_OBJECT] ;;
      _ <- di_method o "__delete___signal_elapsed" "di_timer_delete_signal" DI_TYPE_NIL [] ;;
      now <- gets ev_now ;;
      upd_obj o (set_extra (PTimer (fadd now timeout) false)) ;;
      _ <- di_member o DEAI_MEMBER_NAME_RAW (VObject di_obj) ;;
      ret o
  end.

(** ** Periodic timers *)

(** [di_periodic_callback] *)
Definition di_periodic_callback (p : oid) : M unit :=
  now <- gets ev_now ;;
  _ <- di_emitn p (Some "triggered") [VFloat now] ;; ret tt.

(** [periodic_set] *)
Definition periodic_set (p : oid) (interval offset : spec_float) : M unit :=
  di_obj <- di_object_borrow_deai p ;;
  DI_CHECK (bool_decide (is_Some di_obj)) ;;
  upd_obj p (set_extra (PPeriodic offset interval)) ;;
  call_ext "ev_periodic_again" [VObject p].

(** [di_periodic_signal_setter] *)
Definition di_periodic_signal_setter (o sig : oid) : M unit :=
  rc <- di_member_clone o "__signal_triggered" (VObject sig) ;;
  if negb (rc =? 0)%Z then ret tt
  else
    roots <- get_roots_nonnull ;;
    r <- di_callr roots "add_anonymous" DI_TYPE_BOOL [VObject o] ;;
    match r with inr (VBool added) => DI_CHECK added | _ => stuck Aborted end.

(** [di_periodic_signal_deleter] *)
Definition di_periodic_signal_deleter (o : oid) : M unit :=
  rc <- di_delete_member_raw o (Some "__signal_triggered") ;;
  if negb (rc =? 0)%Z then ret tt
  else
    roots <- get_roots_nonnull ;;
    _ <- di_call roots "remove_anonymous" [VObject o] ;; ret tt.

(** [di_create_periodic] *)
Definition di_create_periodic (evm : oid) (interval offset : spec_float) : M oid :=
  o <- di_new_object (PPeriodic (S754_zero false) (S754_zero false)) ;;
  _ <- di_set_type o "deai.builtin.event:Periodic" ;;
  di_obj <- di_object_get_deai_strong evm ;;
  upd_obj o (set_dtor (Some "di_periodic_signal_deleter")) ;;
  _ <- di_method o "set" "periodic_set" DI_TYPE_NIL [DI_TYPE_FLOAT; DI_TYPE_FLOAT] ;;
  upd_obj o (set_extra (PPeriodic offset interval)) ;;
  _ <- di_method o "__set___signal_triggered" "di_periodic_signal_setter" DI_TYPE_NIL [DI_TYPE_OBJECT] ;;
  _ <- di_method o "__delete___signal_triggered" "di_periodic_signal_deleter" DI_TYPE_NIL [] ;;
  match di_obj with
  | None => stuck NullDereference                       (* di->loop *)
  | Some di_obj =>
      call_ext "ev_periodic_start" [VObject o] ;;
      _ <- di_member o DEAI_MEMBER_NAME_RAW (VObject di_obj) ;;
      ret o
  end.

(** ** The prepare watcher: one garbage collection per iteration of the main loop *)

(** [di_prepare] *)
Definition di_prepare (evm : oid) : M unit :=
  weak_eventm <- di_weakly_ref_object evm ;;
  scoped
    (di_collect_garbage ;;
     obj <- di_upgrade_weak_ref weak_eventm ;;
     match obj with
     | None => ret tt
     | Some obj => scoped (_ <- di_emitn obj (Some "prepare") [] ;; ret tt) (di_unref_object obj)
     end)
    (di_drop_weak_ref weak_eventm).

(** [di_init_event] *)
Definition di_init_event (di : oid) : M oid :=
  em <- di_new_module_with_size di PEventModule ;;
  _ <- di_method em "fdevent" "di_create_ioev" DI_TYPE_OBJECT [DI_TYPE_NINT] ;;
  _ <- di_method em "timer" "di_create_timer" DI_TYPE_OBJECT [DI_TYPE_FLOAT] ;;
  _ <- di_method em "periodic" "di_create_periodic" DI_TYPE_OBJECT [DI_TYPE_FLOAT; DI_TYPE_FLOAT] ;;
  _ <- di_method em "new_promise" "di_new_promise" DI_TYPE_OBJECT [] ;;
  _ <- di_method em "ready_promise" "di_ready_promise" DI_TYPE_OBJECT [DI_TYPE_VARIANT] ;;
  _ <- di_method em "join_promises" "di_join_promises" DI_TYPE_OBJECT [DI_TYPE_ARRAY] ;;
  _ <- di_method em "any_promise" "di_any_promise" DI_TYPE_OBJECT [DI_TYPE_ARRAY] ;;
  call_ext "ev_prepare_start" [VObject em] ;;
  _ <- di_rawsetx em (Some "pending_count") (VNint 0) ;;
  upd_obj em (set_dtor (Some "di_event_module_dtor")) ;;
  _ <- di_register_module di (Some "event") em ;;
  ret em.
End Event.
