(* ===== verification/Spawn.v ===== *)
(** * String buffers and child processes: [string_buf.c], [spawn.c] *)

From S2P Require Export Event System.

(** ** [struct string_buf]

    The list of its nodes: the bytes [str] points to up to the NUL that ends them, and
    the field [len]. *)
Definition string_buf : Type := list (string * Z).

Definition string_buf_new : string_buf := [].

(** [string_buf_push] *)
Definition string_buf_push (b : string_buf) (str : string) : string_buf :=
  b ++ [(c_str str, Z.of_nat (String.length (c_str str)))].

(** [string_buf_lpush (buf, str, len)] of the [len] bytes [str]: [strndup] stops at a NUL,
    [len] is stored as it is *)
Definition string_buf_lpush (b : string_buf) (str : string) : string_buf :=
  b ++ [(c_str str, Z.of_nat (String.length str))].

Definition string_buf_is_empty (b : string_buf) : bool :=
  match b with [] => true | _ => false end.

Definition string_buf_clear (_ : string_buf) : string_buf := [].

(** [string_buf_dump]: room is made for the [strlen]s of the nodes, [len] bytes are copied
    from each; [None] when a copy leaves the memory of its node or of the result. The
    buffer is empty afterwards. *)
Definition string_buf_dump (b : string_buf) : option string :=
  if forallb (fun '(s, len) => (len <=? Z.of_nat (String.length s))%Z) b
  then Some (String.concat "" (map (fun '(s, len) => String.substring 0 (Z.to_nat len) s) b))
  else None.

Definition newline : Ascii.ascii := Ascii.ascii_of_nat 10.

Section Spawn.
Context {E : Env} {F : Ffi} {V : Libev}.

(** the fields of [struct child] *)
Definition get_child (c : oid) : M (Z * Z * Z * option string_buf * option string_buf) :=
  ob <- get_obj c ;;
  match extra ob with
  | PChild pid fd0 fd1 b0 b1 => ret (pid, fd0, fd1, b0, b1)
  | _ => stuck WildPointer
  end.
Definition get_buf (c : oid) (id : bool) : M (option string_buf) :=
  let* (_, _, _, b0, b1) := get_child c in ret (if id then b1 else b0).
Definition put_buf (c : oid) (id : bool) (b : option string_buf) : M unit :=
  let* (pid, fd0, fd1, b0, b1) := get_child c in
  upd_obj c (set_extra (if id then PChild pid fd0 fd1 b0 b else PChild pid fd0 fd1 b b1)).
Definition get_fd (c : oid) (id : bool) : M Z :=
  let* (_, fd0, fd1, _, _) := get_child c in ret (if id then fd1 else fd0).

(** [SIGNAL_NAME[id]] *)
Definition SIGNAL_NAME (id : bool) : string := if id then "stderr_line" else "stdout_line".

Section output.
(** [di_emit (c, ev, line)], with [ev] the signal of [id] *)
Variable emit : oid -> bool -> string -> M unit.

(** what [read (fd, ...)] returns until it returns something that is not positive,
    and whether that is 0 *)
Record reads := Reads { chunks : list string; at_eof : bool }.

(** the [while (1)] loop of [output_handler] over the bytes from [pos] to the end of
    the chunk; [true] when the function returns from inside *)
Fixpoint scan_chunk (fuel : nat) (c : oid) (id : bool) (pos : string) : M bool :=
  match fuel with
  | O => stuck OutOfFuel
  | S fuel =>
      b <- get_buf c id ;;
      match b with
      | None => stuck NullDereference
      | Some b =>
          match split_once newline pos with
          | Some (line, rest) =>
              if negb (string_buf_is_empty b) then
                match string_buf_dump (string_buf_push b line) with
                | None => stuck UndefinedBehaviour
                | Some out => put_buf c id (Some []) ;; emit c id out
                end ;;
                after_emit fuel c id rest
              else
                emit c id (c_str line) ;;
                after_emit fuel c id rest
          | None => put_buf c id (Some (string_buf_lpush b pos)) ;; ret false
          end
      end
  end
with after_emit (fuel : nat) (c : oid) (id : bool) (rest : string) : M bool :=
  match fuel with
  | O => stuck OutOfFuel
  | S fuel =>
      b <- get_buf c id ;;
      match b with None => ret true | Some _ => scan_chunk fuel c id rest end
  end.

(** the [while] loop around [read] *)
Fixpoint read_loop (c : oid) (id : bool) (l : list string) : M bool :=
  match l with
  | [] => ret false
  | buf :: l =>
      stop <- scan_chunk (S (2 * String.length buf)) c id buf ;;
      if (stop : bool) then ret true else read_loop c id l
  end.

(** [output_handler] *)
Definition output_handler (c : oid) (id : bool) (r : reads) : M unit :=
  stop <- read_loop c id (chunks r) ;;
  if (stop : bool) then ret tt
  else when (at_eof r)
    (_ <- di_delete_member c (Some ("__signal_" +:+ SIGNAL_NAME id)) false ;; ret tt).

(** one iteration of the loop of [sigchld_handler] *)
Definition drain_output (c : oid) (id : bool) (r : reads) : M unit :=
  b <- get_buf c id ;;
  match b with
  | None => ret tt
  | Some _ =>
      output_handler c id r ;;
      b <- get_buf c id ;;
      match b with
      | Some ((_ :: _) as b) =>
          match string_buf_dump b with
          | None => stuck UndefinedBehaviour
          | Some out => put_buf c id (Some []) ;; emit c id out
          end
      | _ => ret tt
      end
  end.
End output.

Definition emit_line (c : oid) (id : bool) (line : string) : M unit :=
  _ <- di_emitn c (Some (SIGNAL_NAME id)) [VStringLiteral line] ;; ret tt.

(** [WIFSIGNALED], [WTERMSIG], [WEXITSTATUS] of a wait status *)
Definition WTERMSIG (st : Z) : Z := Z.land st 127.
Definition WIFSIGNALED (st : Z) : bool := (0 <? WTERMSIG st)%Z && negb (WTERMSIG st =? 127)%Z.
Definition WEXITSTATUS (st : Z) : Z := Z.land (Z.shiftr st 8) 255.

(** [sigchld_handler], with what is left to read of the two pipes *)
Definition sigchld_handler (c : oid) (rstatus : Z) (r0 r1 : reads) : M unit :=
  _ <- di_ref_object c ;;
  scoped
    (let sig := if WIFSIGNALED rstatus then WTERMSIG rstatus else 0%Z in
     let ec := WEXITSTATUS rstatus in
     drain_output emit_line c false r0 ;;
     drain_output emit_line c true r1 ;;
     _ <- di_emitn c (Some "exit") [VNint ec; VNint sig] ;;
     _ <- di_delete_member c (Some "__signal_stdout_line") false ;;
     _ <- di_delete_member c (Some "__signal_stderr_line") false ;;
     _ <- di_delete_member c (Some "__signal_exit") false ;;
     ret tt)
    (di_unref_object c).

(** [child_destroy] *)
Definition child_destroy (obj : oid) : M unit :=
  let* (pty, _) := di_getxt obj (Some "pty") DI_TYPE_NINT false in
  match pty with inr (VNint fd) => call_ext "close" [VNint fd] | _ => ret tt end ;;
  fd0 <- get_fd obj false ;;
  when (negb (fd0 =? -1)%Z) (call_ext "close" [VNint fd0]) ;;
  fd1 <- get_fd obj true ;;
  when (negb (fd1 =? -1)%Z) (call_ext "close" [VNint fd1]).

(** [output_cb] *)
Definition output_cb (obj : oid) (id : bool) (r : reads) : M unit :=
  b <- get_buf obj id ;;
  assert (bool_decide (is_Some b)) ;;
  output_handler emit_line obj id r.

(** [get_child_pid] *)
Definition get_child_pid (c : oid) : M Z :=
  let* (pid, _, _, _, _) := get_child c in ret (u64 pid).
(** [kill_child] *)
Definition kill_child (c : oid) (sig : Z) : M unit :=
  let* (pid, _, _, _, _) := get_child c in call_ext "kill" [VNint pid; VNint sig].

Definition child_root_key (pid : Z) : string := "child_process_" +:+ fmt_d pid.

(** [di_child_process_new_exit_signal] *)
Definition di_child_process_new_exit_signal (p sig : oid) : M unit :=
  rc <- di_member_clone p "__signal_exit" (VObject sig) ;;
  if negb (rc =? 0)%Z then ret tt
  else
    di_obj <- di_object_borrow_deai p ;;
    match di_obj with
    | None => ret tt
    | Some _ =>
        call_ext "ev_child_start" [VObject p] ;;
        roots <- get_roots_nonnull ;;
        let* (pid, _, _, _, _) := get_child p in
        rc <- di_call roots "add" [VString (Some (child_root_key pid)); VObject p] ;;
        DI_CHECK_OK rc
    end.

Definition listen_handle_key (id : bool) : string :=
  "__listen_handle_for_output_" +:+ (if id then "1" else "0").

(** [di_child_start_output_listener] *)
Definition di_child_start_output_listener (p : oid) (id : bool) : M unit :=
  di_obj <- di_object_borrow_deai p ;;
  match di_obj with
  | None => ret tt
  | Some di_obj =>
      event_module <- get_checked di_obj "event" DI_TYPE_OBJECT ;;
      match event_module with
      | VObject event_module =>
          scoped
            (fd <- get_fd p id ;;
             fdevent <- di_callr event_module "fdevent" DI_TYPE_OBJECT [VNint fd] ;;
             match fdevent with
             | inr (VObject fdevent) =>
                 scoped
                   (closure <- make_closure "output_cb" [VObject p; VNint (if id then 1 else 0)] [] ;;
                    scoped
                      (h <- di_listen_to fdevent (Some "read") closure false ;;
                       match h with
                       | inr listen_handle =>
                           (* [true] is an [int] before C23 *)
                           rc <- di_call listen_handle "auto_stop" [VNint 1] ;;
                           DI_CHECK_OK rc ;;
                           _ <- di_add_member_move p (Some (listen_handle_key id)) (VObject listen_handle) ;;
                           put_buf p id (Some string_buf_new)
                       | inl _ => stuck NullDereference
                       end)
                      (di_unref_object closure))
                   (di_unref_object fdevent)
             | _ => stuck Aborted
             end)
            (di_unref_object event_module)
      | _ => stuck WildPointer
      end
  end.

(** [di_child_process_new_stdout_signal], [di_child_process_new_stderr_signal] *)
Definition new_output_signal (id : bool) (p sig : oid) : M unit :=
  fd <- get_fd p id ;;
  if (fd =? -1)%Z then ret tt
  else
    rc <- di_member_clone p ("__signal_" +:+ SIGNAL_NAME id) (VObject sig) ;;
    if negb (rc =? 0)%Z then ret tt
    else di_child_start_output_listener p id.
Definition di_child_process_new_stdout_signal : oid -> oid -> M unit := new_output_signal false.
Definition di_child_process_new_stderr_signal : oid -> oid -> M unit := new_output_signal true.

(** [di_child_process_delete_exit_signal] *)
Definition di_child_process_delete_exit_signal (obj : oid) : M unit :=
  rc <- di_delete_member_raw obj (Some "__signal_exit") ;;
  if negb (rc =? 0)%Z then ret tt
  else
    di_obj <- di_object_borrow_deai obj ;;
    match di_obj with
    | None => stuck NullDereference                       (* di->loop *)
    | Some _ =>
        call_ext "ev_child_stop" [VObject obj] ;;
        roots <- get_roots_nonnull ;;
        let* (pid, _, _, _, _) := get_child obj in
        rc <- di_call roots "remove" [VString (Some (child_root_key pid))] ;;
        DI_CHECK_OK rc
    end.

(** [di_child_process_stop_output_listener] *)
Definition di_child_process_stop_output_listener (obj : oid) (id : bool) : M unit :=
  rc <- di_delete_member_raw obj (Some (listen_handle_key id)) ;;
  DI_CHECK_OK rc ;;
  b <- get_buf obj id ;;
  match b with
  | None => stuck NullDereference                         (* string_buf_clear (NULL) *)
  | Some _ => put_buf obj id None
  end.

(** [di_child_process_delete_stdout_signal], [di_child_process_delete_stderr_signal] *)
Definition delete_output_signal (id : bool) (obj : oid) : M unit :=
  rc <- di_delete_member_raw obj (Some ("__signal_" +:+ SIGNAL_NAME id)) ;;
  if (rc =? 0)%Z then di_child_process_stop_output_listener obj id else ret tt.
Definition di_child_process_delete_stdout_signal : oid -> M unit := delete_output_signal false.
Definition di_child_process_delete_stderr_signal : oid -> M unit := delete_output_signal true.

(** the end of [di_spawn_run], in the parent, after the pipes and the fork: the object
    for the child *)
Definition new_child (obj : oid) (pid opfd epfd : Z) : M oid :=
  cp <- di_new_object (PChild 0 0 0 None None) ;;
  _ <- di_set_type cp "deai.builtin.spawn:ChildProcess" ;;
  upd_obj cp (set_dtor (Some "child_destroy")) ;;
  _ <- di_method cp "__get_pid" "get_child_pid" DI_TYPE_UINT [] ;;
  _ <- di_method cp "kill" "kill_child" DI_TYPE_NIL [DI_TYPE_NINT] ;;
  _ <- di_method cp "__set___signal_exit" "di_child_process_new_exit_signal" DI_TYPE_NIL [DI_TYPE_OBJECT] ;;
  _ <- di_method cp "__set___signal_stdout_line" "di_child_process_new_stdout_signal" DI_TYPE_NIL [DI_TYPE_OBJECT] ;;
  _ <- di_method cp "__set___signal_stderr_line" "di_child_process_new_stderr_signal" DI_TYPE_NIL [DI_TYPE_OBJECT] ;;
  _ <- di_method cp "__delete___signal_exit" "di_child_process_delete_exit_signal" DI_TYPE_NIL [] ;;
  _ <- di_method cp "__delete___signal_stdout_line" "di_child_process_delete_stdout_signal" DI_TYPE_NIL [] ;;
  _ <- di_method cp "__delete___signal_stderr_line" "di_child_process_delete_stderr_signal" DI_TYPE_NIL [] ;;
  upd_obj cp (set_extra (PChild pid opfd epfd None None)) ;;
  _ <- di_member cp DEAI_MEMBER_NAME_RAW (VObject obj) ;;
  ret cp.

Context {Y : System}.

(** [di_setup_fds]: the pipes for the output of a child, or /dev/null; the result is the
    read ends and the write ends of both, and the standard input. [fail] is the message
    of the error and the line it is created in. *)
Definition F_SETFD : Z := 2.
Definition F_SETFL : Z := 4.
Definition FD_CLOEXEC : Z := 1.
Definition O_NONBLOCK : Z := 2048.
Definition O_RDONLY : Z := 0.
Definition O_WRONLY : Z := 1.

Definition open_null (flags : Z) : M Z := syscall "open" [VStringLiteral "/dev/null"; VNint flags].
Definition pipe : M (option (Z * Z)) := r <- gets sys_pipe ;; call_ext "pipe" [] ;; ret r.
(** the read ends get a flag; [false]: a call failed, and the rest of them is not made *)
Definition set_both (cmd flag fd0 fd1 : Z) : M bool :=
  r <- syscall "fcntl" [VNint fd0; VNint cmd; VNint flag] ;;
  if (r <? 0)%Z then ret false
  else r <- syscall "fcntl" [VNint fd1; VNint cmd; VNint flag] ;; ret (0 <=? r)%Z.

(** the [do] block: the descriptors that are open, and the error that ended it *)
Definition setup_fds_try (ignore_output : bool) : M ((Z * Z) * (Z * Z) * Z * option (Z * string)) :=
  r <- (if negb ignore_output then
          r0 <- pipe ;;
          match r0 with
          | None => ret ((-1, -1), (-1, -1), Some (178, "Failed to open pipe"))%Z
          | Some op =>
              r1 <- pipe ;;
              match r1 with
              | None => ret (op, (-1, -1), Some (178, "Failed to open pipe"))%Z
              | Some ep =>
                  ok <- set_both F_SETFD FD_CLOEXEC (fst op) (fst ep) ;;
                  if negb ok then ret (op, ep, Some (184, "Can't set cloexec")%Z)
                  else
                    ok <- set_both F_SETFL O_NONBLOCK (fst op) (fst ep) ;;
                    ret (op, ep, if negb ok then Some (190, "Can't set non block")%Z else None)
              end
          end
        else
          o1 <- open_null O_WRONLY ;;
          e1 <- open_null O_WRONLY ;;
          let o1 := if (o1 <? 0)%Z then (-1)%Z else o1 in
          let e1 := if (e1 <? 0)%Z then (-1)%Z else e1 in
          ret ((-1, o1), (-1, e1),
               if (o1 <? 0) || (e1 <? 0) then Some (197, "Can't open /dev/null") else None)%Z) ;;
  let '(op, ep, err) := r in
  match err with
  | Some _ => ret (op, ep, (-1)%Z, err)
  | None =>
      ifd <- open_null O_RDONLY ;;
      if (ifd <? 0)%Z then ret (op, ep, -1, Some (203, "Can't open /dev/null"))%Z
      else ret (op, ep, ifd, None)
  end.

Definition close (fd : Z) : M unit := call_ext "close" [VNint fd].

Definition di_setup_fds (ignore_output : bool) : M ((Z * Z) * (Z * Z) * Z) :=
  let* (op, ep, ifd, err) := setup_fds_try ignore_output in
  match err with
  | None => ret (op, ep, ifd)
  | Some (line, msg) =>
      e <- di_new_error "spawn.c" line "di_setup_fds" msg ;;
      close (fst op) ;; close (snd op) ;; close (fst ep) ;; close (snd ep) ;; close ifd ;;
      di_throw e
  end.

(** [nargv]: an empty string is a NULL pointer, which ends the array for [execvp] *)
Fixpoint nargv_of (l : list val) : option (list (option string)) :=
  match l with
  | [] => Some []
  | VString s :: l => rest ← nargv_of l; Some ((c_str <$> di_string_to_chars_alloc s) :: rest)
  | _ :: _ => None
  end.
Fixpoint until_null (l : list (option string)) : list string :=
  match l with Some s :: l => s :: until_null l | _ => [] end.

(** [execvp (nargv[0], nargv)]: it returns when it fails *)
Definition execvp (nargv : list (option string)) : M unit :=
  match until_null nargv with
  | [] => stuck NullDereference
  | argv =>
      r <- syscall "execvp" (map VStringLiteral argv) ;;
      if (r <? 0)%Z then ret tt else stuck (Replaced argv)
  end.

(** the child's side of [di_spawn_run]: it does not return *)
Definition run_child (ignore_output : bool) (op ep : Z * Z) (ifd : Z) (nargv : list (option string)) : M oid :=
  when (negb ignore_output) (close (fst op) ;; close (fst ep)) ;;
  r0 <- syscall "dup2" [VNint ifd; VNint 0] ;;
  if (r0 <? 0)%Z then exit 1
  else
    r1 <- syscall "dup2" [VNint (snd op); VNint 1] ;;
    if (r1 <? 0)%Z then exit 1
    else
      r2 <- syscall "dup2" [VNint (snd ep); VNint 2] ;;
      if (r2 <? 0)%Z then exit 1
      else
        close (snd op) ;; close (snd ep) ;; close ifd ;;
        call_ext "setsid" [] ;;
        execvp nargv ;;
        exit 1.

(** [di_spawn_run] *)
Definition di_spawn_run (p : oid) (argv_type : di_type) (argv : list val) (ignore_output : bool) : M oid :=
  if negb (bool_decide (argv_type = DI_TYPE_STRING)) then
    e <- di_new_error "spawn.c" 339 "di_spawn_run" "Invalid argv type" ;; di_throw e
  else
    obj <- di_object_get_deai_strong p ;;
    match obj with
    | None => e <- di_new_error "spawn.c" 343 "di_spawn_run" "deai is shutting down..." ;; di_throw e
    | Some obj =>
        let* (op, ep, ifd) := di_setup_fds ignore_output in
        match nargv_of argv with
        | None => stuck WildPointer
        | Some nargv =>
            pid <- syscall "fork" [] ;;
            if (pid =? 0)%Z then run_child ignore_output op ep ifd nargv
            else
              close ifd ;; close (snd op) ;; close (snd ep) ;;
              if (pid <? 0)%Z then
                close (fst op) ;; close (fst ep) ;;
                e <- di_new_error "spawn.c" 387 "di_spawn_run" "Failed to fork" ;; di_throw e
              else new_child obj pid (fst op) (fst ep)
        end
    end.

(** [di_init_spawn]: there is no module when the process cannot be a subreaper *)
Definition di_init_spawn (di : oid) : M unit :=
  r <- syscall "prctl" [VNint 36; VNint 1] ;;
  if negb (r =? 0)%Z then ret tt
  else
    m <- di_new_module_with_size di PObject ;;
    _ <- di_method m "run" "di_spawn_run" DI_TYPE_OBJECT [DI_TYPE_ARRAY; DI_TYPE_BOOL] ;;
    _ <- di_register_module di (Some "spawn") m ;;
    ret tt.
End Spawn.
