(* ===== verification/Log.v ===== *)
(** * The log module: [log.c], and environment variables: [os.c] *)

From S2P Require Export Roots System.

(** [strncasecmp (a, b, n) == 0] in the C locale; a string ends at its NUL or with its
    last byte *)
Fixpoint strncasecmp_eq (n : nat) (a b : string) : bool :=
  match n with
  | O => true
  | S n =>
      let ca := match a with EmptyString => Ascii.zero | String c _ => c_tolower c end in
      let cb := match b with EmptyString => Ascii.zero | String c _ => c_tolower c end in
      if negb (Ascii.eqb ca cb) then false
      else if Ascii.eqb ca Ascii.zero then true
      else match a, b with String _ a, String _ b => strncasecmp_eq n a b | _, _ => true end
  end.

(** [level_lookup] *)
Definition level_lookup (l : di_string) : Z :=
  let named name := strncasecmp_eq (di_string_length l) (di_string_bytes l) name in
  if named "error" then DI_LOG_ERROR
  else if named "warn" then DI_LOG_WARN
  else if named "info" then DI_LOG_INFO
  else if named "debug" then DI_LOG_DEBUG
  else (DI_LOG_DEBUG + 1)%Z.

(** [level_tostring] *)
Definition level_tostring (log_level : Z) : option string :=
  if (log_level =? DI_LOG_DEBUG)%Z then Some "debug"
  else if (log_level =? DI_LOG_INFO)%Z then Some "info"
  else if (log_level =? DI_LOG_WARN)%Z then Some "warn"
  else if (log_level =? DI_LOG_ERROR)%Z then Some "error"
  else None.

Definition last_char (s : string) : option Ascii.ascii :=
  match String.length s with
  | O => None
  | S n => String.get n s
  end.

Section Log.
Context {E : Env} {F : Ffi}.

Definition get_level (l : oid) : M Z :=
  ob <- get_obj l ;;
  match extra ob with PLog n => ret n | _ => stuck WildPointer end.

(** a string or string literal argument of [di_log] *)
Definition string_arg (v : val) : option di_string :=
  match v with
  | VString s => Some s
  | VStringLiteral s => Some (di_string_borrow s)
  | _ => None
  end.

(** [di_log]; when the message is filtered out [ret] is not set, only its type, and the
    value is [nint_left] *)
Definition di_log (nint_left : Z) (o : oid) (t : list val) : M (rc_or val) :=
  match t with
  | [_; a1; a2] =>
      match string_arg a1, string_arg a2 with
      | Some log_level, Some msg =>
          level <- get_level o ;;
          if (level <? level_lookup log_level)%Z then ret (inr (VNint nint_left))
          else
            ltgt <- rawget_object o "log_target" ;;
            match ltgt with
            | None => ret (inr (VNint 0))
            | Some ltgt =>
                r <- di_callr ltgt "write" DI_TYPE_NINT [VString msg] ;;
                match r with
                | inl rc => ret (inr (VNint rc))
                | inr (VNint wrc) => ret (inr (VNint wrc))
                | inr _ => stuck WildPointer
                end
            end
      | _, _ => ret (inl (- EINVAL)%Z)
      end
  | _ => ret (inl (- EINVAL)%Z)
  end.

Definition get_file (lf : oid) : M string :=
  ob <- get_obj lf ;;
  match extra ob with PLogFile f => ret f | _ => stuck WildPointer end.

(** [file_target_write], on a file that takes all that is written; the last byte of the
    message is read without a test of its length *)
Definition file_target_write (lf : oid) (log : di_string) : M Z :=
  f <- get_file lf ;;
  call_ext "fwrite" [VString log; VStringLiteral f] ;;
  match last_char (di_string_bytes log) with
  | None => stuck WildPointer
  | Some c =>
      rc <- (if Ascii.eqb c (Ascii.ascii_of_nat 10) then ret 0%Z
             else call_ext "fputs" [VStringLiteral (String (Ascii.ascii_of_nat 10) ""); VStringLiteral f] ;; ret 1%Z) ;;
      call_ext "fflush" [VStringLiteral f] ;;
      ret (s32 (Z.of_nat (di_string_length log) + rc))
  end.

(** [file_target_dtor] *)
Definition file_target_dtor (lf : oid) : M unit :=
  f <- get_file lf ;; call_ext "fclose" [VStringLiteral f].

(** [stderr_target] *)
Definition stderr_target : M oid :=
  ls <- di_new_object (PLogFile "stderr") ;;
  _ <- di_set_type ls "deai.builtin.log:StderrTarget" ;;
  _ <- di_method ls "write" "file_target_write" DI_TYPE_NINT [DI_TYPE_STRING] ;;
  ret ls.

(** the end of [file_target], once the file is open *)
Definition new_file_target (f : string) : M oid :=
  lf <- di_new_object (PLogFile f) ;;
  _ <- di_set_type lf "deai.builtin.log:FileTarget" ;;
  upd_obj lf (set_dtor (Some "file_target_dtor")) ;;
  _ <- di_method lf "write" "file_target_write" DI_TYPE_NINT [DI_TYPE_STRING] ;;
  ret lf.

(** [di_log_va (log_module, level, ...)] with the formatted message *)
Definition di_log_va (log_level : Z) (msg : string) : M Z :=
  o <- gets log_module ;;
  match o with
  | None =>
      saved <- gets saved_log_level ;;
      if (saved <? log_level)%Z then ret 0%Z
      else
        match last_char msg with
        | None => stuck WildPointer                       (* buf[-1] *)
        | Some c =>
            let out := if Ascii.eqb c (Ascii.ascii_of_nat 10) then msg
                       else msg +:+ String (Ascii.ascii_of_nat 10) "" in
            call_ext "fprintf" [VStringLiteral out] ;;
            ret (s32 (Z.of_nat (String.length out)))
        end
  | Some o =>
      match level_tostring log_level with
      | None => stuck NullDereference
      | Some level_string =>
          r <- di_call_object o [VObject o; VStringLiteral level_string; VString (Some msg)] ;;
          match r with
          | inr v =>
              match result_in_uninitialised v with
              | VNint n => ret n
              | _ => stuck Aborted
              end
          | inl _ =>
              match uninitialised_result with VNint n => ret n | _ => stuck Aborted end
          end
      end
  end.

(** [get_log_level] *)
Definition get_log_level (l : oid) : M string :=
  n <- get_level l ;;
  match level_tostring n with Some s => ret s | None => stuck NullDereference end.

(** [di_set_log_level] *)
Definition di_set_log_level (o : oid) (log_level : Z) : M Z :=
  if (DI_LOG_DEBUG <? log_level)%Z then ret (-1)%Z
  else
    _ <- get_level o ;;
    upd_obj o (set_extra (PLog log_level)) ;;
    modify (set_saved_log_level log_level) ;;
    ret 0%Z.

(** [set_log_level] *)
Definition set_log_level (l : oid) (ll : di_string) : M Z := di_set_log_level l (level_lookup ll).

(** [log_dtor] *)
Definition log_dtor : M unit := modify (set_log_module None).

(** [di_init_log] *)
Definition di_init_log (di : oid) : M oid :=
  lm <- di_new_module_with_size di (PLog 0) ;;
  _ <- di_set_type lm "deai.builtin:LogModule" ;;
  upd_obj lm (set_extra (PLog DI_LOG_WARN)) ;;
  dtgt <- stderr_target ;;
  _ <- di_add_member_move lm (Some "log_target") (VObject dtgt) ;;
  upd_obj lm (set_call (Some "di_log")) ;;
  _ <- di_method lm "file_target" "file_target" DI_TYPE_OBJECT [DI_TYPE_STRING; DI_TYPE_BOOL] ;;
  _ <- di_method lm "stderr_target" "stderr_target" DI_TYPE_OBJECT [] ;;
  _ <- di_method lm "__get_log_level" "get_log_level" DI_TYPE_STRING_LITERAL [] ;;
  _ <- di_method lm "__set_log_level" "set_log_level" DI_TYPE_NINT [DI_TYPE_STRING] ;;
  upd_obj lm (set_dtor (Some "log_dtor")) ;;
  modify (set_log_module (Some lm)) ;;
  _ <- di_register_module di (Some "log") lm ;;
  ret lm.
End Log.

(** ** [os.c]: the object that gives access to the environment of the process *)
Module Os.
(** [getenv], [setenv], [unsetenv] on the list of variables *)
Definition env := list (string * string).

Definition getenv (e : env) (name : string) : option string := snd <$> find (fun kv => String.eqb (fst kv) name) e.
Definition unsetenv (e : env) (name : string) : env := filter (fun kv => fst kv <> name) e.
Definition setenv (e : env) (name v : string) : env := unsetenv e name ++ [(name, v)].

(** [di_env_get]; an empty name is a NULL pointer for [getenv] *)
Definition di_env_get (e : env) (name_ : di_string) : option val :=
  match name_ with
  | None => Some VLast
  | Some _ =>
      match di_string_to_chars_alloc name_ with
      | None => None
      | Some name =>
          Some (match getenv e (c_str name) with
                | Some s => VVariant (VStringLiteral s)
                | None => VLast
                end)
      end
  end.

(** [di_env_set]: an empty value is a NULL pointer for [setenv] *)
Definition di_env_set (e : env) (key_ val_ : di_string) : option env :=
  match key_, val_ with
  | None, _ | _, None => Some e
  | _, _ =>
      match di_string_to_chars_alloc key_, di_string_to_chars_alloc val_ with
      | Some key, Some v => Some (setenv e (c_str key) (c_str v))
      | _, _ => None
      end
  end.

(** [di_env_unset] *)
Definition di_env_unset (e : env) (key_ : di_string) : option env :=
  match key_ with
  | None => Some e
  | Some _ => (fun key => unsetenv e (c_str key)) <$> di_string_to_chars_alloc key_
  end.

Section Os.
Context {E : Env} {F : Ffi} {Y : System}.

(** [di_get_hostname]: the copy is not freed by the caller, whose type for it is a string
    literal *)
Definition di_get_hostname : M (option string) :=
  r <- gets sys_uname ;; call_ext "uname" [] ;; ret r.

(** [di_os_getpid] *)
Definition di_os_getpid : M Z := syscall "getpid" [].

(** [di_listdir]; an empty path is a NULL pointer for [opendir] *)
Definition listed (d : dirent) : bool := negb (String.eqb (de_name d) "." || String.eqb (de_name d) "..").
Definition dir_array (l : list dirent) : val :=
  let names := map (fun d => VString (Some (de_name d))) (filter (fun d => listed d = true) l) in
  VArray DI_TYPE_STRING (match names with [] => false | _ => true end) names.
Definition di_listdir (path : di_string) : M val :=
  match di_string_to_chars_alloc path with
  | None => stuck NullDereference
  | Some c_path =>
      r <- gets (sys_readdir (c_str c_path)) ;;
      call_ext "opendir" [VStringLiteral (c_str c_path)] ;;
      ret (dir_array (default [] r))
  end.

(** [di_init_os] *)
Definition di_init_os (di : oid) : M unit :=
  m <- di_new_module_with_size di PObject ;;
  o <- di_new_object PObject ;;
  _ <- di_set_type o "deai.builtin.os:Env" ;;
  _ <- di_method o "__get" "di_env_get" DI_TYPE_VARIANT [DI_TYPE_STRING] ;;
  _ <- di_method o "__set" "di_env_set" DI_TYPE_NIL [DI_TYPE_STRING; DI_TYPE_STRING] ;;
  _ <- di_method o "__delete" "di_env_unset" DI_TYPE_NIL [DI_TYPE_STRING] ;;
  _ <- di_member m "env" (VObject o) ;;
  _ <- di_method m "__get_hostname" "di_get_hostname" DI_TYPE_STRING_LITERAL [] ;;
  _ <- di_method m "__get_pid" "di_os_getpid" DI_TYPE_NINT [] ;;
  _ <- di_method m "listdir" "di_listdir" DI_TYPE_ARRAY [DI_TYPE_STRING] ;;
  _ <- di_register_module di (Some "os") m ;;
  ret tt.
End Os.
End Os.
