(* ===== verification/Main.v ===== *)
(** * The program: [main.c]

    Plugins, the methods of the core object, the command line and [main]. The proctitle
    memory is the one the kernel puts the command line and the environment in. *)

From S2P Require Import Descendants.
From S2P Require Export GC Spawn Log Errors System.
From Stdlib Require Import SpecFloat Ascii.

(** ** The command line *)

(** [strtoll (s, &end, 10)]: the value, clamped to the range of a [long long], and what is
    left; without a digit nothing is consumed *)
Definition isspace (c : Ascii.ascii) : bool :=
  let n := Ascii.N_of_ascii c in ((n =? 32) || ((9 <=? n) && (n <=? 13)))%N.
Fixpoint skip_space (s : string) : string :=
  match s with String c s' => if isspace c then skip_space s' else s | _ => s end.
Fixpoint digits (acc : Z) (s : string) : Z * string :=
  match s with
  | String c s' => if isdigit c then digits (acc * 10 + Z.of_N (Ascii.N_of_ascii c - 48)) s' else (acc, s)
  | _ => (acc, s)
  end.
Definition starts_with_digit (s : string) : bool :=
  match s with String c _ => isdigit c | _ => false end.
Definition strtoll (s : string) : Z * string :=
  let t := skip_space s in
  let '(neg, t) :=
    match t with
    | String "-"%char t => (true, t)
    | String "+"%char t => (false, t)
    | _ => (false, t)
    end in
  if starts_with_digit t then
    let '(z, rest) := digits 0 t in
    (Z.max (- 2 ^ 63) (Z.min (2 ^ 63 - 1) (if (neg : bool) then - z else z)), rest)%Z
  else (0%Z, s).

(** [<module>.<method>]: the name of the module, and that of the method *)
Definition split_target (arg : string) : option string * string :=
  match split_once "."%char arg with
  | Some (modname, method) => (Some modname, method)
  | None => (None, arg)
  end.

(** the pieces between the separators; the string is not NULL, so there is one at least *)
Fixpoint split_dirs (s : string) : list string :=
  match s with
  | EmptyString => [EmptyString]
  | String c s =>
      if Ascii.eqb c ":"%char then EmptyString :: split_dirs s
      else match split_dirs s with d :: ds => String c d :: ds | [] => [String c EmptyString] end
  end.
(** the [while] loops over DEAI_EXTRA_PLUGIN_DIRS and DEAI_EXTRA_PLUGINS: when the string
    ends with a separator, there is a last, empty piece *)
Definition plugin_dirs (s : option string) : list string :=
  match s with Some s => split_dirs s | None => [] end.

(** a string at an address of the command line: all from there to its NUL *)
Definition string_at (mem : string) (off : nat) : string := c_str (drop_bytes off mem).

(** what [main] gets: the address of [argv[0]] and the memory from there on, with the
    offsets of the arguments and of the environment *)
Record process := Process {
  arg0_addr : Z;
  stack : string;
  argv_at : list nat;
  environ_at : list nat
}.
Definition argv_of (pr : process) : list string := map (string_at (stack pr)) (argv_at pr).

Section Main.
Context {E : Env} {F : Ffi} {V : Libev} {Y : System}.

Inductive parsed := Args (l : list val) | BadArgument (msg : string) | NoArgument.

(** the [for] loop over the arguments after the method *)
Fixpoint parse_args (l : list string) : parsed :=
  match l with
  | [] => Args []
  | a :: l =>
      if String.eqb a "--" then Args []
      else
        match a with
        | EmptyString => NoArgument                       (* reads past the NUL *)
        | String ty rest =>
            match rest with
            | String ":"%char v =>
                let next (x : val) := match parse_args l with Args xs => Args (x :: xs) | r => r end in
                if Ascii.eqb ty "i"%char then
                  let '(z, endptr) := strtoll v in
                  match endptr with EmptyString => next (VInt z) | _ => BadArgument ("Invalid integer: " +:+ v) end
                else if Ascii.eqb ty "s"%char then next (VString (Some v))
                else if Ascii.eqb ty "f"%char then
                  let '(f, endptr) := strtod v in
                  match endptr with EmptyString => next (VFloat f) | _ => BadArgument ("Invalid float: " +:+ v) end
                else BadArgument ("Invalid argument type: " +:+ a)
            | _ => BadArgument ("Invalid argument: " +:+ a)
            end
        end
  end.

(** [args], without its first element: there is an element for every argument, and those
    that are not set are zero *)
Definition args_tuple (l : list string) (xs : list val) : list val :=
  xs ++ replicate (length l - length xs) VNil.

(** ** Plugins *)

(** [load_plugin_impl] *)
Definition load_plugin_impl (p : oid) (sopath : string) : M bool :=
  match sopath with
  | String "/"%char _ =>
      handle <- gets (sys_dlopen sopath) ;;
      call_ext "dlopen" [VStringLiteral sopath] ;;
      match handle with
      | None => eprint ("Failed to load " +:+ sopath) ;; ret false
      | Some None => eprint (sopath +:+ " doesn't have a di_plugin_init function") ;; ret false
      | Some (Some init_fn) => call_init_fn init_fn p ;; ret true
      end
  | _ => eprint ("Plugin path must be absolute: " +:+ sopath) ;; ret false
  end.

(** [load_plugin]; an empty path is a NULL pointer *)
Definition load_plugin (p : oid) (sopath : di_string) : M unit :=
  match sopath with
  | None => ret tt
  | Some _ =>
      match di_string_to_chars_alloc sopath with
      | None => stuck NullDereference
      | Some s =>
          success <- load_plugin_impl p (c_str s) ;;
          if (success : bool) then ret tt
          else e <- di_new_error "main.c" 71 "load_plugin" "Failed to load plugin" ;; di_throw e
      end
  end.

Definition ends_with (suffix s : string) : bool :=
  (String.length suffix <=? String.length s)%nat
  && String.eqb (drop_bytes (String.length s - String.length suffix) s) suffix.

(** the loop over the entries; the directory is not closed when [fstatat] fails *)
Fixpoint load_entries (di : oid) (path rpath : string) (l : list dirent) : M Z :=
  match l with
  | [] => call_ext "closedir" [] ;; ret 0%Z
  | dent :: l =>
      is_reg <- match de_type dent with
                | DT_REG => ret (Some true)
                | DT_UNKNOWN | DT_LNK =>
                    r <- gets (sys_is_regular path (de_name dent)) ;;
                    call_ext "fstatat" [VStringLiteral (de_name dent)] ;; ret r
                | DT_OTHER => ret (Some false)
                end ;;
      match is_reg with
      | None => eprint "stat" ;; ret (-1)%Z
      | Some is_reg =>
          (if is_reg && ends_with ".so" (de_name dent) then
             _ <- load_plugin_impl di (rpath +:+ "/" +:+ de_name dent) ;; ret tt
           else ret tt) ;;
          load_entries di path rpath l
      end
  end.

(** [load_plugin_from_dir_impl] *)
Definition load_plugin_from_dir_impl (di : oid) (path : string) : M Z :=
  rpath <- gets (sys_realpath path) ;;
  match rpath with
  | None => ret (-1)%Z
  | Some rpath =>
      dir <- gets (sys_readdir path) ;;
      call_ext "open" [VStringLiteral path] ;;
      match dir with
      | None => ret (-1)%Z
      | Some entries => load_entries di path rpath entries
      end
  end.

Definition PATH_MAX : nat := 4096.

(** [load_plugin_from_dir] *)
Definition load_plugin_from_dir (p : oid) (path : di_string) : M Z :=
  match path with
  | None => ret (-1)%Z
  | Some _ =>
      match di_string_to_chars path PATH_MAX with
      | None => ret (-1)%Z
      | Some s => load_plugin_from_dir_impl p (c_str s)
      end
  end.

(** ** Methods of the core object *)

(** a string as the argument of a system call *)
Definition chars (s : option string) : val :=
  match s with Some s => VStringLiteral (c_str s) | None => VPointer 0 end.

(** [di_chdir] *)
Definition di_chdir (p : oid) (dir : di_string) : M Z :=
  match dir with
  | None => ret (- EINVAL)%Z
  | Some _ => syscall "chdir" [chars (di_string_to_chars_alloc dir)]
  end.

(** [kill_all_descendants] *)
Definition kill_all_descendants : M unit :=
  pid <- syscall "getpid" [] ;;
  procs <- gets sys_proc ;;
  match procs with
  | None => ret tt
  | Some l =>
      let kill_them := mapM_ (fun pid => call_ext "kill" [VNint pid; VNint SIGTERM]) in
      match read_proc l with
      | None => stuck WildPointer
      | Some ps =>
          match kill_tree ps pid with
          | None => stuck NullDereference
          | Some (Killed l) => kill_them l
          | Some (WildParent l) => kill_them l ;; stuck WildPointer
          | Some TooLong => stuck OutOfFuel
          end
      end
  end.

Definition get_deai (p : oid) : M deai_fields :=
  ob <- get_obj p ;;
  match extra ob with PDeai d => ret d | _ => stuck WildPointer end.
Definition put_deai (p : oid) (d : deai_fields) : M unit := upd_obj p (set_extra (PDeai d)).

(** pointers into the copy go back to the title *)
Definition to_title (q : title_ptr) : title_ptr := match q with AtCopy n => AtTitle n | q => q end.
(** [environ[i]] is moved when it is inside the copy *)
Definition environ_to_title (size : nat) (q : title_ptr) : title_ptr :=
  match q with AtCopy n => if (n <? size)%nat then AtTitle n else q | q => q end.

(** [di_dtor] *)
Definition di_dtor (obj : oid) : M unit :=
  modify (set_quit true) ;;
  d <- get_deai obj ;;
  put_deai obj (DeaiFields [] (map (environ_to_title (String.length (proctitle d))) (deai_environ d))
                  (orig_proctitle d) "") ;;
  kill_all_descendants ;;
  call_ext "ev_break" [].

(** [di_sighandler] *)
Definition di_sighandler : M unit := call_ext "ev_break" [].

(** the size of the memory from [argv[0]] to the end of the page that holds the end of the
    last string *)
Definition title_size (pgsz : Z) (pr : process) : Z :=
  let end_off := match rev (argv_at pr ++ environ_at pr) with
                 | off :: _ => Z.of_nat (off + String.length (string_at (stack pr) off))
                 | [] => 0%Z
                 end in
  (((arg0_addr pr + end_off) / pgsz + 1) * pgsz - arg0_addr pr)%Z.

(** [setproctitle_init] *)
Definition setproctitle_init (pr : process) (p : oid) : M unit :=
  pgsz <- syscall "getpagesize" [] ;;
  let size := Z.to_nat (title_size pgsz pr) in
  check WildPointer (size <=? String.length (stack pr))%nat ;;
  let mem := String.substring 0 size (stack pr) in
  put_deai p (DeaiFields (map AtCopy (argv_at pr)) (map AtCopy (environ_at pr)) mem mem).

(** [di_set_pr_name] *)
Definition set_title (mem name : string) : string :=
  let size := String.length mem in
  let nlen := if (size <=? String.length name + 1)%nat then (size - 1)%nat else String.length name in
  let s := c_str (String.substring 0 nlen name) in
  s +:+ zeros (size - String.length s).
Definition di_set_pr_name (p : oid) (name : di_string) : M unit :=
  match name with
  | None => ret tt
  | Some name =>
      d <- get_deai p ;;
      put_deai p (DeaiFields (deai_argv d) (deai_environ d) (set_title (proctitle d) name) (orig_proctitle d))
  end.

(** the string a pointer leads to *)
Definition title_deref (d : deai_fields) (q : title_ptr) : string :=
  match q with
  | AtTitle n => string_at (proctitle d) n
  | AtCopy n => string_at (orig_proctitle d) n
  | Elsewhere s => s
  end.

(** [di_get_argv] *)
Definition di_get_argv (p : oid) : M val :=
  d <- get_deai p ;;
  ret (VArray DI_TYPE_STRING_LITERAL true (map (fun q => VStringLiteral (title_deref d q)) (deai_argv d))).

(** [di_exec]; the element type of the array is not looked at *)
Definition di_exec (p : oid) (argv : list val) : M Z :=
  match nargv_of argv with
  | None => stuck WildPointer
  | Some nargv => execvp nargv ;; ret (-1)%Z
  end.

(** [di_terminate] *)
Definition di_terminate (p : oid) : M unit := call_ext "kill" [VNint 0; VNint SIGTERM].

(** ** [main] *)

(** a method that has to be there *)
Definition method_ok (o : oid) (name : string) (fn : fnptr) (rtype : di_type) (args : list di_type) : M unit :=
  rc <- di_method o name fn rtype args ;; DI_CHECK_OK rc.

(** the roots object *)
Definition new_roots : M oid :=
  r <- di_new_object (PRoots []) ;;
  modify (set_roots (Some r)) ;;
  _ <- di_set_type r "deai:Roots" ;;
  method_ok r "add" "di_add_root" DI_TYPE_BOOL [DI_TYPE_STRING; DI_TYPE_OBJECT] ;;
  method_ok r "remove" "di_remove_root" DI_TYPE_BOOL [DI_TYPE_STRING] ;;
  method_ok r "clear" "di_clear_roots" DI_TYPE_NIL [] ;;
  method_ok r "add_anonymous" "di_add_anonymous_root" DI_TYPE_BOOL [DI_TYPE_OBJECT] ;;
  method_ok r "remove_anonymous" "di_remove_anonymous_root" DI_TYPE_BOOL [DI_TYPE_OBJECT] ;;
  di_set_object_dtor r (Some "di_roots_dtor") ;;
  ret r.

(** the members of the core object *)
Definition core_members (p : oid) : M unit :=
  env <- gets (sys_getenv "DEAI_RESOURCES_DIR") ;;
  rc <- match env with
        | Some dir => di_member p "resources_dir" (VString (di_string_dup (Some dir)))
        | None => di_member p "resources_dir" (VStringLiteral resources_dir)
        end ;;
  DI_CHECK_OK rc ;;
  method_ok p "load_plugin_from_dir" "load_plugin_from_dir" DI_TYPE_NINT [DI_TYPE_STRING] ;;
  method_ok p "load_plugin" "load_plugin" DI_TYPE_NIL [DI_TYPE_STRING] ;;
  method_ok p "register_module" "di_register_module_method" DI_TYPE_NINT [DI_TYPE_STRING; DI_TYPE_OBJECT] ;;
  method_ok p "chdir" "di_chdir" DI_TYPE_NINT [DI_TYPE_STRING] ;;
  method_ok p "exec" "di_exec" DI_TYPE_NINT [DI_TYPE_ARRAY] ;;
  method_ok p "quit" "di_prepare_quit" DI_TYPE_NIL [] ;;
  method_ok p "exit" "di_prepare_exit" DI_TYPE_NIL [DI_TYPE_NINT] ;;
  method_ok p "terminate" "di_terminate" DI_TYPE_NIL [] ;;
  method_ok p "__set_proctitle" "di_set_pr_name" DI_TYPE_NIL [DI_TYPE_STRING] ;;
  method_ok p "__get_DI_PLUGIN_INSTALL_DIR" "di_get_plugin_install_dir" DI_TYPE_STRING_LITERAL [] ;;
  closure <- make_closure "di_dump_objects" [] [] ;;
  _ <- di_member p "dump_objects" (VObject closure) ;;
  method_ok p "track_object_ref" "di_track_object_ref" DI_TYPE_NIL [DI_TYPE_OBJECT] ;;
  method_ok p "__get_roots" "di_roots_getter" DI_TYPE_OBJECT [] ;;
  method_ok p "__get_argv" "di_get_argv" DI_TYPE_ARRAY [] ;;
  getter <- di_new_field_getter DI_TYPE_STRING_LITERAL 152 ;;
  _ <- di_member p "__get_proctitle" (VObject getter) ;;
  ret tt.

(** step (3): the default plugins, those of the extra directories, the extra plugins *)
Definition load_dir (p : oid) (dir : string) : M unit :=
  rc <- load_plugin_from_dir_impl p dir ;;
  when (negb (rc =? 0)%Z) (eprint ("Failed to load plugins from " +:+ dir)).
Definition load_one (p : oid) (plugin : string) : M unit :=
  ok <- load_plugin_impl p plugin ;;
  when (negb ok) (eprint ("Failed to load plugin " +:+ plugin)).
Definition load_default_plugins (p : oid) : M unit :=
  load_dir p plugin_install_dir ;;
  dirs <- gets (sys_getenv "DEAI_EXTRA_PLUGIN_DIRS") ;;
  mapM_ (load_dir p) (plugin_dirs dirs) ;;
  plugins <- gets (sys_getenv "DEAI_EXTRA_PLUGINS") ;;
  mapM_ (load_one p) (plugin_dirs plugins).

Definition fail : M unit := modify (set_exit_code EXIT_FAILURE) ;; modify (set_quit true).

(** the call of the method: the error it threw *)
Definition call_method (mod_ : oid) (modname : option string) (method : string) (args : list val) : M (option oid) :=
  method_obj <- di_rawget_borrowed2 mod_ (Some method) DI_TYPE_OBJECT ;;
  match method_obj with
  | inr (VObject method_obj) =>
      let* (r, error_obj) := di_call_object_catch method_obj args in
      match r with
      | inl rc =>
          eprint ("Failed to call " +:+ default "" modname +:+ "." +:+ method +:+ ": " +:+ fmt_d rc) ;;
          fail ;; ret error_obj
      | inr v =>
          di_free_value (result_in_uninitialised v) ;;
          match error_obj with
          | None => ret None
          | Some e =>
              let* (msg, _) := di_object_to_string e false in
              eprint ("The function you called returned an error message: " +:+ di_string_bytes msg) ;;
              fail ;; ret error_obj
          end
      end
  | inr _ => stuck WildPointer
  | inl _ =>
      eprint (match modname with
              | Some m => "Method " +:+ method +:+ " not found in module " +:+ m
              | None => "Method " +:+ method +:+ " not found in main module"
              end) ;;
      fail ;; ret None
  end.

(** the block between the initialisation and the main loop; an error object that reaches
    [main] is not caught *)
Definition run_command (pr : process) (p : oid) (target : string) (rest : list string) : M unit :=
  let '(modname, method) := split_target target in
  match parse_args rest with
  | NoArgument => stuck WildPointer
  | BadArgument msg => eprint msg ;; exit EXIT_FAILURE
  | Args xs =>
      setproctitle_init pr p ;;
      load_default_plugins p ;;
      mod_ <- match modname with
              | None => di_ref_object p
              | Some m =>
                  let* (r, _) := di_getxt p (di_string_borrow m) DI_TYPE_OBJECT false in
                  match r with
                  | inr (VObject o) => ret o
                  | inr _ => stuck WildPointer
                  | inl _ => eprint ("Module " +:+ m +:+ " not found") ;; exit EXIT_FAILURE
                  end
              end ;;
      self <- di_ref_object mod_ ;;
      let args := VObject self :: args_tuple rest xs in
      error_obj <- call_method mod_ modname method args ;;
      di_unref_object p ;;
      match error_obj with Some e => di_unref_object e | None => ret tt end ;;
      di_unref_object mod_ ;;
      di_free_value (VTuple args)
  end.

(** [main] *)
Definition main (pr : process) : M Z :=
  p <- di_new_object (PDeai (DeaiFields [] [] "" "")) ;;
  _ <- di_set_type p "deai:Core" ;;
  _ <- new_roots ;;
  modify (set_exit_code 0) ;;
  modify (set_quit false) ;;
  di_set_object_dtor p (Some "di_dtor") ;;
  _ <- syscall "setpgid" [VNint 0; VNint 0] ;;
  _ <- di_init_event p ;;
  _ <- di_init_log p ;;
  Os.di_init_os p ;;
  di_init_spawn p ;;
  match argv_of pr with
  | _ :: target :: rest =>
      core_members p ;;
      call_ext "ev_signal_start" [VNint 2] ;;
      call_ext "ev_signal_start" [VNint SIGTERM] ;;
      run_command pr p target rest ;;
      di_collect_garbage ;;
      q <- gets quit ;;
      when (negb q) ev_run ;;
      r <- get_roots_nonnull ;;
      di_unref_object r ;;
      modify (set_roots None) ;;
      gets exit_code
  | _ => call_ext "printf" [VStringLiteral "Usage"] ;; exit 1
  end.
End Main.
