(* ===== verification/File.v ===== *)
(** * File watching: [plugins/file/file.c]

    inotify is the system's: a watch is added with a call whose result is the watch
    descriptor, the events are what a read returns. *)

From S2P Require Export Event System Errors.

(** [struct inotify_event]; the name is empty when [len] is 0 *)
Record inotify_event := InotifyEvent { ev_wd : Z; ev_mask : Z; ev_cookie : Z; ev_name : string }.

Definition IN_ACCESS : Z := 1.
Definition IN_MODIFY : Z := 2.
Definition IN_ATTRIB : Z := 4.
Definition IN_CLOSE_WRITE : Z := 8.
Definition IN_CLOSE_NOWRITE : Z := 16.
Definition IN_OPEN : Z := 32.
Definition IN_MOVED_FROM : Z := 64.
Definition IN_MOVED_TO : Z := 128.
Definition IN_CREATE : Z := 256.
Definition IN_DELETE : Z := 512.
Definition IN_DELETE_SELF : Z := 1024.
Definition IN_MOVE_SELF : Z := 2048.
Definition IN_ALL_EVENTS : Z := 4095.

(** ** The tables

    Every entry is in both tables, [bywd] and [byname], so they are one list here, newest
    first. The program does not test whether a key is there before it adds an entry; among
    entries with the same key uthash finds the newest, as long as its buckets do not grow. *)
Abbreviation entry := (string * Z)%type.

Definition find_wd (wd : Z) (l : list entry) : option entry := find (fun e => snd e =? wd)%Z l.
Definition find_name (name : string) (l : list entry) : option entry := find (fun e => String.eqb (fst e) name) l.
(** [HASH_DEL] of the entry that [HASH_FIND] found by its name, from both tables *)
Fixpoint del_name (name : string) (l : list entry) : list entry :=
  match l with
  | [] => []
  | e :: l => if String.eqb (fst e) name then l else e :: del_name name l
  end.

(** the tests on the mask, in their order: the bit, the signal, and whether the cookie is
    an argument *)
Definition inotify_signals : list (Z * string * bool) :=
  [(IN_CREATE, "create", false); (IN_ACCESS, "access", false); (IN_ATTRIB, "attrib", false);
   (IN_CLOSE_WRITE, "close-write", false); (IN_CLOSE_NOWRITE, "close-nowrite", false);
   (IN_DELETE, "delete", false); (IN_DELETE_SELF, "delete-self", false); (IN_MODIFY, "modify", false);
   (IN_MOVE_SELF, "move-self", false); (IN_OPEN, "open", false);
   (IN_MOVED_FROM, "moved-from", true); (IN_MOVED_TO, "moved-to", true)].

(** the signals of an event *)
Definition signal_args (we : string) (ev : inotify_event) (cookie : bool) : list val :=
  [VStringLiteral we; VStringLiteral (ev_name ev)] ++ (if cookie then [VNuint (ev_cookie ev)] else []).
Definition emissions (we : string) (ev : inotify_event) : list (string * list val) :=
  map (fun '(_, name, cookie) => (name, signal_args we ev cookie))
    (filter (fun t => Z.land (ev_mask ev) (fst (fst t)) <> 0%Z) inotify_signals).

Section File.
Context {E : Env} {F : Ffi} {V : Libev} {Y : System}.

Definition get_watch (o : oid) : M (Z * Z * list entry) :=
  ob <- get_obj o ;;
  match extra ob with PFileWatch fd n l => ret (fd, n, l) | _ => stuck WildPointer end.
Definition put_watch (o : oid) (fd n : Z) (l : list entry) : M unit := upd_obj o (set_extra (PFileWatch fd n l)).

(** the [emit]s of one event: the entry [we] is used for each of them, so it must not have
    been removed by the handlers of an earlier one *)
Fixpoint emit_all (fw : oid) (we : entry) (l : list (string * list val)) : M unit :=
  match l with
  | [] => ret tt
  | (name, args) :: l =>
      let* (_, _, entries) := get_watch fw in
      check UseAfterFree (bool_decide (we ∈ entries)) ;;
      _ <- di_emitn fw (Some name) args ;;
      emit_all fw we l
  end.

(** one iteration of the loop of [di_file_ioev] *)
Definition handle_event (fw : oid) (ev : inotify_event) : M unit :=
  let* (_, _, entries) := get_watch fw in
  match find_wd (ev_wd ev) entries with
  | None => ret tt
  | Some we => emit_all fw we (emissions (fst we) ev)
  end.

(** [di_file_ioev], with what [read] puts in the buffer *)
Definition di_file_ioev (weak : oid) (events : list inotify_event) : M Z :=
  fw <- di_upgrade_weak_ref weak ;;
  match fw with
  | None => stuck Aborted
  | Some fw => scoped (mapM_ (handle_event fw) events ;; ret 0%Z) (di_unref_object fw)
  end.

(** [di_file_add_watch]: an empty path is a NULL pointer; the result of the failed call is
    -1, not the errno value *)
Definition di_file_add_watch (fw : oid) (path : di_string) : M Z :=
  match path with
  | None => ret (- EINVAL)%Z
  | Some _ =>
      let path_str := di_string_to_chars_alloc path in
      let* (fd, _, _) := get_watch fw in
      r <- syscall "inotify_add_watch"
             [VNint fd; match path_str with Some s => VStringLiteral (c_str s) | None => VPointer 0 end; VNint IN_ALL_EVENTS] ;;
      if (r <? 0)%Z then ret (-1)%Z
      else
        let* (fd, n, l) := get_watch fw in
        put_watch fw fd n ((default "" path_str, r) :: l) ;;
        ret 0%Z
  end.

Fixpoint add_all (fw : oid) (l : list val) : M Z :=
  match l with
  | [] => ret 0%Z
  | VString s :: l => r <- di_file_add_watch fw s ;; if (r =? 0)%Z then add_all fw l else ret r
  | VStringLiteral s :: l =>
      r <- di_file_add_watch fw (di_string_borrow s) ;; if (r =? 0)%Z then add_all fw l else ret r
  | _ :: _ => stuck WildPointer
  end.

(** [di_file_add_many_watch] *)
Definition is_strings (et : di_type) : bool :=
  bool_decide (et = DI_TYPE_STRING) || bool_decide (et = DI_TYPE_STRING_LITERAL).
Definition di_file_add_many_watch (fw : oid) (et : di_type) (paths : list val) : M Z :=
  match paths with
  | [] => ret 0%Z
  | _ => if negb (is_strings et) then ret (- EINVAL)%Z else add_all fw paths
  end.

(** [di_file_rm_watch] *)
Definition di_file_rm_watch (fw : oid) (path : di_string) : M Z :=
  match path with
  | None => ret (- EINVAL)%Z
  | Some name =>
      let* (fd, n, l) := get_watch fw in
      match find_name name l with
      | None => ret (- ENOENT)%Z
      | Some we =>
          _ <- syscall "inotify_rm_watch" [VNint fd; VNint (snd we)] ;;
          put_watch fw fd n (del_name name l) ;;
          ret 0%Z
      end
  end.

(** [stop_file_watcher] *)
Definition stop_file_watcher (obj : oid) : M unit :=
  let* (fd, n, _) := get_watch obj in
  call_ext "close" [VNint fd] ;;
  put_watch obj fd n [].

Definition listen_handle_member : string := "__inotify_fd_event_read_listen_handle".

(** the part of [di_file_new_signal] that starts the event source *)
Definition start_fdevent (fw : oid) : M unit :=
  let* (weak_eventm, _) := di_getxt fw (Some "__weak_event_module") DI_TYPE_WEAK_OBJECT false in
  match weak_eventm with
  | inr (VWeak weak_eventm) =>
      scoped
        (event_module <- di_upgrade_weak_ref weak_eventm ;;
         match event_module with
         | None => ret tt
         | Some event_module =>
             scoped
               (let* (fd, _, _) := get_watch fw in
                fdevent <- di_callr event_module "fdevent" DI_TYPE_OBJECT [VNint fd] ;;
                match fdevent with
                | inr (VObject fdevent) =>
                    scoped
                      (cl <- di_create_closure "di_file_ioev" DI_TYPE_NINT [VObject fw] 0 [] ;;
                       match cl with
                       | inl _ => stuck WildPointer
                       | inr cl =>
                           scoped
                             (h <- di_listen_to fdevent (Some "read") cl false ;;
                              match h with
                              | inr listen_handle =>
                                  rc <- di_call listen_handle "auto_stop" [VNint 1] ;;
                                  DI_CHECK_OK rc ;;
                                  _ <- di_member fw listen_handle_member (VObject listen_handle) ;;
                                  ret tt
                              | inl _ => stuck NullDereference
                              end)
                             (di_unref_object cl)
                       end)
                      (di_unref_object fdevent)
                | _ => stuck Aborted
                end)
               (di_unref_object event_module)
         end)
        (di_drop_weak_ref weak_eventm)
  | _ => stuck Aborted
  end.

(** [di_file_new_signal] *)
Definition di_file_new_signal (fw_ : oid) (member_name : di_string) (sig : oid) : M unit :=
  if negb (di_string_starts_with member_name "__signal_") then ret tt
  else
    rc <- di_add_member_clone fw_ member_name (VObject sig) ;;
    if negb (rc =? 0)%Z then ret tt
    else
      let* (fd, n, l) := get_watch fw_ in
      put_watch fw_ fd (s32 (n + 1)) l ;;
      if (s32 (n + 1) =? 1)%Z then start_fdevent fw_ else ret tt.

(** [di_file_delete_signal] *)
Definition di_file_delete_signal (fw_ : oid) (member_name : di_string) : M unit :=
  if negb (di_string_starts_with member_name "__signal_") then ret tt
  else
    rc <- di_delete_member_raw fw_ member_name ;;
    if negb (rc =? 0)%Z then ret tt
    else
      let* (fd, n, l) := get_watch fw_ in
      put_watch fw_ fd (s32 (n - 1)) l ;;
      if (s32 (n - 1) =? 0)%Z then
        _ <- di_delete_member_raw fw_ (Some listen_handle_member) ;; ret tt
      else ret tt.

Definition file_error {A} (line : Z) (msg : string) : M A :=
  e <- di_new_error "file.c" line "di_file_new_watch" msg ;; di_throw e.

(** [di_file_new_watch]: the new object is lost when there is no event module *)
Definition di_file_new_watch (f : oid) (et : di_type) (paths : list val) : M oid :=
  if match paths with [] => false | _ => negb (is_strings et) end
  then file_error 288 "Argument needs to be an array of strings"
  else
    ifd <- syscall "inotify_init1" [VNint 526336] ;;
    if (ifd <? 0)%Z then file_error 293 "Failed to create new inotify file descriptor"
    else
      fw <- di_new_object (PFileWatch 0 0 []) ;;
      _ <- di_set_type fw "deai.plugin.file:Watch" ;;
      put_watch fw ifd 0 [] ;;
      di_set_object_dtor fw (Some "stop_file_watcher") ;;
      _ <- di_method fw "add" "di_file_add_many_watch" DI_TYPE_NINT [DI_TYPE_ARRAY] ;;
      _ <- di_method fw "add_one" "di_file_add_watch" DI_TYPE_NINT [DI_TYPE_STRING] ;;
      _ <- di_method fw "remove" "di_file_rm_watch" DI_TYPE_NINT [DI_TYPE_STRING] ;;
      _ <- di_method fw "__set" "di_file_new_signal" DI_TYPE_NIL [DI_TYPE_STRING; DI_TYPE_OBJECT] ;;
      _ <- di_method fw "__delete" "di_file_delete_signal" DI_TYPE_NIL [DI_TYPE_STRING] ;;
      di <- di_object_get_deai_strong f ;;
      match di with
      | None => file_error 306 "Can't find event module"
      | Some di =>
          eventm <- scoped
            (let* (r, _) := di_getxt di (Some "event") DI_TYPE_OBJECT false in
             match r with
             | inr (VObject eventm) => ret eventm
             | _ => file_error 306 "Can't find event module"
             end) (di_unref_object di) ;;
          scoped
            (weak_eventm <- di_weakly_ref_object eventm ;;
             _ <- di_member fw "__weak_event_module" (VWeak weak_eventm) ;;
             rc <- di_file_add_many_watch fw et paths ;;
             if (rc =? 0)%Z then ret fw
             else di_unref_object fw ;; file_error 313 "Failed to add watches")
            (di_unref_object eventm)
      end.

(** [di_new_file], and the entry point of the plugin *)
Definition di_new_file (di : oid) : M oid :=
  fm <- di_new_module di ;;
  _ <- di_method fm "watch" "di_file_new_watch" DI_TYPE_OBJECT [DI_TYPE_ARRAY] ;;
  ret fm.
Definition file_plugin_init (di : oid) : M unit :=
  fm <- di_new_file di ;;
  _ <- di_register_module di (Some "file") fm ;; ret tt.
End File.

(** ** The tables are maps as long as no path is added twice *)

Lemma find_name_del_other name name' l : name <> name' -> find_name name' (del_name name l) = find_name name' l.
Proof.
  intros Hn. induction l as [|e l IH]; [done|]. unfold find_name in *. simpl.
  destruct (String.eqb_spec (fst e) name) as [He|He]; simpl.
  - destruct (String.eqb_spec (fst e) name'); [congruence|done].
  - by destruct (String.eqb (fst e) name').
Qed.
Lemma find_name_del name l : NoDup (map fst l) -> find_name name (del_name name l) = None.
Proof.
  induction l as [|e l IH]; [done|]. intros [Hn Hl]%NoDup_cons. unfold find_name in *. simpl.
  destruct (String.eqb_spec (fst e) name) as [He|He]; simpl.
  - clear IH Hl. induction l as [|e' l IH]; [done|]. simpl in *. rewrite not_elem_of_cons in Hn.
    destruct (String.eqb_spec (fst e') name); [|tauto]. exfalso. destruct Hn. congruence.
  - rewrite IH by done. by destruct (String.eqb_spec (fst e) name).
Qed.

(** a path that was added twice is still there after it was removed, while inotify, which has
    one watch for it, has dropped that *)
Example added_twice : find_name "a" (del_name "a" [("a", 1); ("a", 1)]%Z) = Some ("a", 1%Z).
Proof. reflexivity. Qed.

(** an event has one of the bits: it is one signal, the one that stands for it *)
Lemma emissions_single we ev m name cookie : (m, name, cookie) ∈ inotify_signals -> ev_mask ev = m ->
  emissions we ev = [(name, signal_args we ev cookie)].
Proof.
  intros Hm He. unfold emissions. rewrite He.
  assert (H : Forall (fun t => filter (fun t' => Z.land (fst (fst t)) (fst (fst t')) <> 0%Z) inotify_signals = [t])
    inotify_signals) by (repeat (constructor; [vm_compute; reflexivity|]); constructor).
  rewrite Forall_forall in H. pose proof (H _ Hm) as Hf. simpl in Hf. by rewrite Hf.
Qed.
