(* ===== verification/DBus.v ===== *)
(** * D-Bus signatures and serialisation: [plugins/dbus/signature.c], [plugins/dbus/sedes.c] *)

From S2P Require Export Conv.
From Stdlib Require Import Ascii.

(** ** libdbus

    The type codes of the D-Bus specification, and the two predicates of libdbus the code
    asks. Calls that build a message are recorded in the trace. *)
Definition DBUS_TYPE_INVALID : Ascii.ascii := Ascii.zero.
Definition DBUS_TYPE_BOOLEAN : Ascii.ascii := "b"%char.
Definition DBUS_TYPE_INT16 : Ascii.ascii := "n"%char.
Definition DBUS_TYPE_UINT16 : Ascii.ascii := "q"%char.
Definition DBUS_TYPE_INT32 : Ascii.ascii := "i"%char.
Definition DBUS_TYPE_UINT32 : Ascii.ascii := "u"%char.
Definition DBUS_TYPE_INT64 : Ascii.ascii := "x"%char.
Definition DBUS_TYPE_UINT64 : Ascii.ascii := "t"%char.
Definition DBUS_TYPE_DOUBLE : Ascii.ascii := "d"%char.
Definition DBUS_TYPE_STRING : Ascii.ascii := "s"%char.
Definition DBUS_TYPE_OBJECT_PATH : Ascii.ascii := "o"%char.
Definition DBUS_TYPE_UNIX_FD : Ascii.ascii := "h"%char.
Definition DBUS_TYPE_BYTE : Ascii.ascii := "y"%char.
Definition DBUS_TYPE_SIGNATURE : Ascii.ascii := "g"%char.
Definition DBUS_TYPE_DICT_ENTRY : Ascii.ascii := "e"%char.
Definition DBUS_TYPE_ARRAY : Ascii.ascii := "a"%char.
Definition DBUS_TYPE_VARIANT : Ascii.ascii := "v"%char.
Definition DBUS_TYPE_STRUCT : Ascii.ascii := "r"%char.
Definition DBUS_STRUCT_BEGIN_CHAR : Ascii.ascii := "("%char.
Definition DBUS_STRUCT_END_CHAR : Ascii.ascii := ")"%char.

Class Libdbus := {
  dbus_type_is_basic : Ascii.ascii -> bool;
  dbus_type_is_valid : Ascii.ascii -> bool;
  (** a basic type whose values all have the same size *)
  dbus_type_is_fixed : Ascii.ascii -> bool
}.

(** what the documentation of libdbus says of them: containers are not basic, NUL is not a
    type *)
Class LibdbusLaws (L : Libdbus) := {
  basic_valid c : dbus_type_is_basic c = true -> dbus_type_is_valid c = true;
  array_not_basic : dbus_type_is_basic DBUS_TYPE_ARRAY = false;
  struct_not_basic : dbus_type_is_basic DBUS_TYPE_STRUCT = false;
  variant_not_basic : dbus_type_is_basic DBUS_TYPE_VARIANT = false;
  begin_not_basic : dbus_type_is_basic DBUS_STRUCT_BEGIN_CHAR = false;
  end_not_basic : dbus_type_is_basic DBUS_STRUCT_END_CHAR = false;
  invalid_not_basic : dbus_type_is_basic DBUS_TYPE_INVALID = false
}.

Definition chr_eqb := Ascii.eqb.

(** [struct dbus_signature]: an error is carried by a negative [nchild] *)
Inductive dbus_signature := Sig (current : di_string) (nchild : Z) (child : list dbus_signature).
Definition current (s : dbus_signature) : di_string := let 'Sig c _ _ := s in c.
Definition nchild (s : dbus_signature) : Z := let 'Sig _ n _ := s in n.
Definition child (s : dbus_signature) : list dbus_signature := let 'Sig _ _ l := s in l.
Definition sig_error : dbus_signature := Sig DI_STRING_INIT (- EINVAL) [].

(** [*signature.data] *)
Definition deref (s : di_string) : M Ascii.ascii :=
  match s with
  | None => stuck NullDereference
  | Some EmptyString => stuck WildPointer
  | Some (String c _) => ret c
  end.

Section DBus.
Context {E : Env} {L : Libdbus}.

(** [di_type_to_dbus_basic] *)
Definition di_type_to_dbus_basic (t : di_type) : M Ascii.ascii :=
  match t with
  | DI_TYPE_BOOL => ret DBUS_TYPE_BOOLEAN
  | DI_TYPE_INT => ret DBUS_TYPE_INT64
  | DI_TYPE_UINT => ret DBUS_TYPE_UINT64
  | DI_TYPE_NINT => ret DBUS_TYPE_INT32
  | DI_TYPE_NUINT => ret DBUS_TYPE_UINT32
  | DI_TYPE_FLOAT => ret DBUS_TYPE_DOUBLE
  | DI_TYPE_STRING | DI_TYPE_STRING_LITERAL => ret DBUS_TYPE_STRING
  | DI_TYPE_ARRAY => ret DBUS_TYPE_ARRAY
  | DI_TYPE_TUPLE => ret DBUS_TYPE_STRUCT
  | DI_TYPE_ANY | DI_LAST_TYPE => stuck Aborted
  | DI_TYPE_NIL | DI_TYPE_POINTER | DI_TYPE_EMPTY_OBJECT | DI_TYPE_OBJECT
  | DI_TYPE_WEAK_OBJECT | DI_TYPE_VARIANT => ret DBUS_TYPE_INVALID
  end.

(** ** Parsing: [parse_dbus_signature] *)

(** the loop of [parse_dbus_signaure_sequence], over a parser for one type; [length] is
    the sum of the lengths of the children *)
Section sequence.
Variable parse_one : di_string -> M (dbus_signature * di_string).
Fixpoint sequence_loop (fuel : nat) (signature : di_string) (end_char : Ascii.ascii)
    (length : nat) (children : list dbus_signature)
    : M (dbus_signature + (nat * list dbus_signature * di_string)) :=
  if (di_string_length signature =? 0)%nat then ret (inr (length, children, signature))
  else
    c <- deref signature ;;
    if chr_eqb c end_char then ret (inr (length, children, signature))
    else
      match fuel with
      | O => stuck OutOfFuel
      | S fuel =>
          let* (ch, next) := parse_one signature in
          if (nchild ch <? 0)%Z then ret (inl ch)
          else sequence_loop fuel next end_char (length + di_string_length (current ch))
                 (children ++ [ch])
      end.
(** [parse_dbus_signaure_sequence] *)
Definition sequence_with (fuel : nat) (signature : di_string) (end_char : Ascii.ascii)
    : M (dbus_signature * di_string) :=
  r <- sequence_loop fuel signature end_char 0 [] ;;
  match r with
  | inl err => ret (err, DI_STRING_INIT)
  | inr (length, children, rest) =>
      ret (Sig (di_substring signature 0 length) (Z.of_nat (List.length children)) children, rest)
  end.
End sequence.

(** [parse_dbus_signature_one] *)
Fixpoint parse_dbus_signature_one (fuel : nat) (signature : di_string)
    : M (dbus_signature * di_string) :=
  match fuel with
  | O => stuck OutOfFuel
  | S fuel =>
      c <- deref signature ;;
      if (dbus_type_is_valid c && dbus_type_is_basic c) || chr_eqb c "v"%char then
        ret (Sig (di_substring signature 0 1) 0 [], di_suffix signature 1)
      else if chr_eqb c DBUS_TYPE_ARRAY then
        let* (ch, rest) := parse_dbus_signature_one fuel (di_suffix signature 1) in
        if (nchild ch <? 0)%Z then ret (ch, rest)
        else ret (Sig (di_substring signature 0 (di_string_length (current ch) + 1)) 1 [ch], rest)
      else if chr_eqb c DBUS_STRUCT_BEGIN_CHAR then
        let* (r, next) := sequence_with (parse_dbus_signature_one fuel) (di_string_length signature)
                            (di_suffix signature 1) DBUS_STRUCT_END_CHAR in
        if (nchild r <? 0)%Z then ret (r, next)
        else
          assert (negb (di_string_length next =? 0)%nat) ;;
          c <- deref next ;;
          assert (chr_eqb c DBUS_STRUCT_END_CHAR) ;;
          ret (Sig (di_substring signature 0 (di_string_length (current r) + 2)) (nchild r) (child r),
               di_suffix next 1)
      else ret (sig_error, DI_STRING_INIT)
  end.

(** [parse_dbus_signaure_sequence], [parse_dbus_signature] *)
Definition parse_dbus_signaure_sequence (signature : di_string) (end_char : Ascii.ascii)
    : M (dbus_signature * di_string) :=
  sequence_with (parse_dbus_signature_one (S (di_string_length signature)))
    (di_string_length signature) signature end_char.
Definition parse_dbus_signature (signature : di_string) : M dbus_signature :=
  let* (ret2, rest) := parse_dbus_signaure_sequence signature Ascii.zero in
  if negb (nchild ret2 =? 0)%Z then ret ret2
  else
    assert (di_string_length rest =? 0)%nat ;;
    ret (Sig signature (nchild ret2) (child ret2)).

(** ** Signatures of values *)

(** [di_array_index (arr, 0)] of an empty array reads through a NULL pointer *)
Definition array_first (l : list val) : M val :=
  match l with [] => stuck NullDereference | v :: _ => ret v end.

(** the recursion of [type_signature_length_of_di_value]: for arrays the loop runs to
    [elem_type] and looks at the first element each time, so that it never finds a
    difference *)
Fixpoint type_signature_length_of_di_value (v : val) : M Z :=
  dtype <- di_type_to_dbus_basic (type_of v) ;;
  if dbus_type_is_basic dtype then ret 1%Z
  else
    match v with
    | VArray _ _ [] => stuck NullDereference
    | VArray _ _ (x :: _) => v0 <- type_signature_length_of_di_value x ;; ret (1 + v0)%Z
    | VTuple l =>
        (fix go (l : list val) (acc : Z) : M Z :=
           match l with
           | [] => ret (acc + 2)%Z
           | x :: l =>
               tmp <- type_signature_length_of_di_value x ;;
               if (tmp <? 0)%Z then ret tmp else go l (acc + tmp)%Z
           end) l 0%Z
    | VVariant v => type_signature_length_of_di_value v
    | _ => ret (-1)%Z
    end.

(** [is_basic_type_compatible] *)
Definition is_integer_type (t : di_type) : bool :=
  match t with DI_TYPE_UINT | DI_TYPE_INT | DI_TYPE_NINT | DI_TYPE_NUINT => true | _ => false end.
Definition is_basic_type_compatible (t : di_type) (dbus_type : Ascii.ascii) : M bool :=
  if chr_eqb dbus_type DBUS_TYPE_BOOLEAN then ret (bool_decide (t = DI_TYPE_BOOL))
  else if existsb (chr_eqb dbus_type)
            [DBUS_TYPE_INT16; DBUS_TYPE_INT32; DBUS_TYPE_INT64; DBUS_TYPE_UINT16;
             DBUS_TYPE_UINT32; DBUS_TYPE_UINT64] then ret (is_integer_type t)
  else if chr_eqb dbus_type DBUS_TYPE_DOUBLE then ret (bool_decide (t = DI_TYPE_FLOAT))
  else if chr_eqb dbus_type DBUS_TYPE_STRING || chr_eqb dbus_type DBUS_TYPE_OBJECT_PATH
       then ret (bool_decide (t = DI_TYPE_STRING))
  else if existsb (chr_eqb dbus_type) [DBUS_TYPE_ARRAY; DBUS_TYPE_STRUCT; DBUS_TYPE_VARIANT]
       then stuck AssertFailed
  else ret false.

(** [*signature] of a C string *)
Definition first_char (s : string) : Ascii.ascii :=
  match s with EmptyString => Ascii.zero | String c _ => c end.
Definition tail (s : string) : string :=
  match s with EmptyString => EmptyString | String _ s => s end.
(** two suffixes of the same string are the same pointer iff they are equally long *)
Definition same_suffix (a b : string) : bool := (String.length a =? String.length b)%nat.

(** [verify_type_signature]: [None] is NULL *)
Fixpoint verify_type_signature (v : val) (signature : string) : M (option string) :=
  dtype <- di_type_to_dbus_basic (type_of v) ;;
  if dbus_type_is_basic dtype then
    ok <- is_basic_type_compatible (type_of v) (first_char signature) ;;
    ret (if ok then Some (tail signature) else None)
  else if chr_eqb (first_char signature) DBUS_TYPE_VARIANT then ret (Some (tail signature))
  else
    (* the elements of a struct, one after the other *)
    let struct_go := (fix go (l : list val) (curr : string) : M (option string) :=
      match l with
      | [] => ret (if chr_eqb (first_char curr) ")"%char then Some (tail curr) else None)
      | x :: l =>
          next <- verify_type_signature x curr ;;
          match next with None => ret None | Some next => go l next end
      end) in
    match v with
    | VVariant v => verify_type_signature v signature
    | VArray et _ l =>
        if chr_eqb (first_char signature) DBUS_TYPE_ARRAY then
          match l with
          | [] => stuck NullDereference
          | x :: l =>
              r <- verify_type_signature x (tail signature) ;;
              match et with
              | DI_TYPE_ARRAY | DI_TYPE_TUPLE | DI_TYPE_VARIANT =>
                  (fix go (l : list val) : M (option string) :=
                     match l with
                     | [] => ret r
                     | y :: l =>
                         r2 <- verify_type_signature y (tail signature) ;;
                         match r, r2 with
                         | Some a, Some b => if same_suffix a b then go l else ret None
                         | _, _ => ret None
                         end
                     end) l
              | _ => ret r
              end
          end
        else if chr_eqb (first_char signature) DBUS_STRUCT_BEGIN_CHAR then
          struct_go l (tail signature)
        else ret None
    | VTuple l =>
        if chr_eqb (first_char signature) DBUS_TYPE_ARRAY then ret None
        else if chr_eqb (first_char signature) DBUS_STRUCT_BEGIN_CHAR then
          struct_go l (tail signature)
        else ret None
    | _ => ret None
    end.

(** the loop over the elements of a tuple in [type_signature_of_di_value_to_buffer]: an
    element without signature makes the function free children it has not made yet,
    unless it is the last one; [text] is what has been written to the buffer *)
Section tuple_loop.
Variable one : val -> M (dbus_signature * string).
Fixpoint tuple_signatures (l : list val) (acc : list dbus_signature) (text : string)
    : M (dbus_signature * string + (list dbus_signature * string)) :=
  match l with
  | [] => ret (inr (acc, text))
  | x :: l =>
      let* (ch, t) := one x in
      if (nchild ch <? 0)%Z then
        check UndefinedBehaviour (bool_decide (l = [])) ;; ret (inl (ch, text +:+ t))
      else tuple_signatures l (acc ++ [ch]) (text +:+ t)
  end.
End tuple_loop.

(** [type_signature_of_di_value_to_buffer]: the signature, and the text written to the
    buffer; the check of an array that follows an element without signature reads bytes
    that have not been written, NULs here *)
Fixpoint type_signature_of_di_value_to_buffer (v : val) : M (dbus_signature * string) :=
  dtype <- di_type_to_dbus_basic (type_of v) ;;
  if dbus_type_is_basic dtype then
    ret (Sig (Some (String dtype "")) 0 [], String dtype "")
  else
    match v with
    | VArray _ _ [] => stuck NullDereference
    | VArray _ _ (x :: _) =>
        let* (res, text) := type_signature_of_di_value_to_buffer x in
        ok <- verify_type_signature v (String "a" text) ;;
        match ok with
        | None => ret (sig_error, String "a" text)
        | Some _ =>
            let text := String "a" text in
            ret (Sig (Some (String.substring 0 (di_string_length (current res) + 1) text)) 1 [res], text)
        end
    | VTuple l =>
        r <- tuple_signatures type_signature_of_di_value_to_buffer l [] "(" ;;
        match r with
        | inl err => ret err
        | inr (ch, text) =>
            let text := text +:+ ")" in
            ret (Sig (Some text) (Z.of_nat (List.length l)) ch, text)
        end
    | VVariant _ => ret (Sig (Some "v") 0 [], "v")
    | _ => ret (sig_error, "")
    end.

(** the assignment [ret[len] = 0] to the last byte of a text that is longer than [len]; the
    element of an array ends where the array ends *)
Fixpoint cut_last (s : string) : string :=
  match s with
  | EmptyString => EmptyString
  | String _ EmptyString => String Ascii.zero EmptyString
  | String c s => String c (cut_last s)
  end.
Fixpoint clobber_last (s : dbus_signature) : dbus_signature :=
  let 'Sig cur n l := s in
  Sig (cut_last <$> cur) n
    (match cur with
     | Some (String c _) => if chr_eqb c DBUS_TYPE_ARRAY then map clobber_last l else l
     | _ => l
     end).

(** [type_signature_of_di_value]: the text must fit the buffer of the computed length, whose
    byte [len] is then set; an error makes it write to the buffer it has just freed *)
Definition type_signature_of_di_value (v : val) : M dbus_signature :=
  len <- type_signature_length_of_di_value v ;;
  if (len <? 0)%Z then ret sig_error
  else
    let* (rc, text) := type_signature_of_di_value_to_buffer v in
    check UndefinedBehaviour (Z.of_nat (String.length text) <=? len + 1)%Z ;;
    check UseAfterFree (0 <=? nchild rc)%Z ;;
    ret (if (Z.of_nat (String.length text) =? len + 1)%Z then clobber_last rc else rc).

(** ** Serialisation: [sedes.c] *)

(** [dbus_serialize_integer]; [buf] is what the buffer on the stack holds before the
    conversion, whose result is not looked at *)
Definition integer_format (dbus_type : Ascii.ascii) : option (Z * bool) :=
  if chr_eqb dbus_type DBUS_TYPE_INT16 then Some (16%Z, false)
  else if chr_eqb dbus_type DBUS_TYPE_INT32 then Some (32%Z, false)
  else if chr_eqb dbus_type DBUS_TYPE_INT64 then Some (64%Z, false)
  else if chr_eqb dbus_type DBUS_TYPE_UINT16 then Some (16%Z, false)
  else if chr_eqb dbus_type DBUS_TYPE_UINT32 then Some (32%Z, false)
  else if chr_eqb dbus_type DBUS_TYPE_UINT64 then Some (64%Z, false)
  else None.
Definition append_basic (dbus_type : Ascii.ascii) (v : val) : M bool :=
  call_ext "dbus_message_iter_append_basic" [VStringLiteral (String dbus_type ""); v] ;; ret true.
Definition dbus_serialize_integer (buf : Z) (v : val) (dbus_type : Ascii.ascii) : M bool :=
  match integer_format dbus_type with
  | None => ret false
  | Some (dbus_bits, dbus_unsigned) =>
      r <- di_int_conversion v dbus_bits dbus_unsigned ;;
      append_basic dbus_type (VInt (match r with inr z => z | inl _ => buf end))
  end.

(** [dbus_serialize_basic_with_type] *)
Definition dbus_serialize_basic_with_type (buf : Z) (v : val) (dbus_type : Ascii.ascii) : M bool :=
  if chr_eqb dbus_type DBUS_TYPE_BOOLEAN then
    match v with VBool _ => append_basic dbus_type v | _ => ret false end
  else if existsb (chr_eqb dbus_type)
            [DBUS_TYPE_INT16; DBUS_TYPE_INT32; DBUS_TYPE_INT64; DBUS_TYPE_UINT16;
             DBUS_TYPE_UINT32; DBUS_TYPE_UINT64] then dbus_serialize_integer buf v dbus_type
  else if chr_eqb dbus_type DBUS_TYPE_DOUBLE then
    match v with VFloat _ => append_basic dbus_type v | _ => ret false end
  else if chr_eqb dbus_type DBUS_TYPE_STRING || chr_eqb dbus_type DBUS_TYPE_OBJECT_PATH then
    match v with
    | VString s =>
        match di_string_to_chars_alloc s with
        | None => stuck NullDereference                  (* libdbus is given a NULL string *)
        | Some s => append_basic dbus_type (VStringLiteral (c_str s))
        end
    | _ => ret false
    end
  else if existsb (chr_eqb dbus_type) [DBUS_TYPE_ARRAY; DBUS_TYPE_STRUCT; DBUS_TYPE_VARIANT]
       then stuck AssertFailed
  else ret false.

(** opening and closing a container *)
Definition open_container (t : Ascii.ascii) (sig : di_string) : M unit :=
  call_ext "dbus_message_iter_open_container" [VStringLiteral (String t ""); VString sig].
Definition close_container : M unit := call_ext "dbus_message_iter_close_container" [].

(** [dbus_serialize_with_signature], on a message that has room for everything *)
Fixpoint dbus_serialize_with_signature (fuel : nat) (buf : Z) (v : val) (si : dbus_signature) : M Z :=
  match fuel with
  | O => stuck OutOfFuel
  | S fuel =>
      (* the loops over the elements and the children *)
      let each := (fix go (l : list val) (sigs : list dbus_signature) : M Z :=
        match l, sigs with
        | x :: l, s :: sigs =>
            rc <- dbus_serialize_with_signature fuel buf x s ;;
            if (rc <? 0)%Z then ret rc else go l sigs
        | _, _ => ret 0%Z
        end) in
      c <- deref (current si) ;;
      if dbus_type_is_basic c then
        ok <- dbus_serialize_basic_with_type buf v c ;;
        ret (if (ok : bool) then 0 else - EINVAL)%Z
      else if chr_eqb c DBUS_TYPE_VARIANT then
        let inner_v := match v with VVariant u => u | _ => v end in
        inner <- type_signature_of_di_value inner_v ;;
        open_container DBUS_TYPE_VARIANT (current inner) ;;
        _ <- dbus_serialize_with_signature fuel buf inner_v inner ;;
        close_container ;;
        ret 0%Z
      else
        match v with
        | VVariant u => dbus_serialize_with_signature fuel buf u si
        | _ =>
            if chr_eqb c DBUS_TYPE_ARRAY then
              match v with
              | VArray et _ l =>
                  atype <- di_type_to_dbus_basic et ;;
                  match child si with
                  | [si2] =>
                      c2 <- deref (current si2) ;;
                      if dbus_type_is_basic atype && negb (chr_eqb atype DBUS_TYPE_STRING) && chr_eqb atype c2 then
                        open_container DBUS_TYPE_ARRAY (Some (String atype "")) ;;
                        call_ext "dbus_message_iter_append_fixed_array" [VStringLiteral (String atype ""); v] ;;
                        close_container ;;
                        ret 0%Z
                      else
                        open_container DBUS_TYPE_ARRAY (current si2) ;;
                        rc <- each l (map (fun _ => si2) l) ;;
                        if (rc <? 0)%Z then ret rc else close_container ;; ret 0%Z
                  | _ => stuck AssertFailed
                  end
              | _ => ret (- EINVAL)%Z
              end
            else if chr_eqb c DBUS_STRUCT_BEGIN_CHAR then
              open_container DBUS_TYPE_STRUCT DI_STRING_INIT ;;
              match v with
              | VArray _ _ l | VTuple l =>
                  if negb (nchild si =? Z.of_nat (length l))%Z then ret (- EINVAL)%Z
                  else
                    rc <- each l (child si) ;;
                    if (rc <? 0)%Z then ret rc else close_container ;; ret 0%Z
              | _ => close_container ;; ret 0%Z
              end
            else ret (- EINVAL)%Z
        end
  end.

(** [dbus_serialize_struct]: the elements of the tuple against the children; [sig.child[i]]
    beyond the last child is read all the same *)
Definition dbus_serialize_struct (buf : Z) (t : list val) (signature : di_string) : M Z :=
  sig <- (if (di_string_length signature =? 0)%nat then type_signature_of_di_value (VTuple t)
          else parse_dbus_signature signature) ;;
  if (nchild sig <? 0)%Z then ret (nchild sig)
  else
    (fix go (l : list val) (sigs : list dbus_signature) : M Z :=
       match l, sigs with
       | [], _ => ret 0%Z
       | x :: l, s :: sigs =>
           rc <- dbus_serialize_with_signature env_fuel buf x s ;;
           if (rc <? 0)%Z then ret rc else go l sigs
       | _ :: _, [] => stuck UndefinedBehaviour
       end) t (child sig).
End DBus.
