(* ===== verification/Deserial.v ===== *)
(** * Reading D-Bus messages: the deserialisation half of [plugins/dbus/sedes.c] *)

From S2P Require Export DBus.
From Stdlib Require Import SpecFloat Ascii.

(** ** Values of D-Bus

    What an iterator of libdbus is at. The elements of an array have one type; the type of
    the elements of an empty array is not shown by an iterator. *)
Inductive dvalue :=
  | DBoolean (b : bool)
  | DInteger (t : Ascii.ascii) (z : Z)          (* y n q i u x t h *)
  | DDouble (f : spec_float)
  | DText (t : Ascii.ascii) (s : string)        (* s o g *)
  | DArray (l : list dvalue)
  | DDictEntry (key value : dvalue)
  | DStruct (l : list dvalue)
  | DVariant (d : dvalue).

(** [dbus_message_iter_get_arg_type] *)
Definition arg_type (d : dvalue) : Ascii.ascii :=
  match d with
  | DBoolean _ => DBUS_TYPE_BOOLEAN
  | DInteger t _ | DText t _ => t
  | DDouble _ => DBUS_TYPE_DOUBLE
  | DArray _ => DBUS_TYPE_ARRAY
  | DDictEntry _ _ => DBUS_TYPE_DICT_ENTRY
  | DStruct _ => DBUS_TYPE_STRUCT
  | DVariant _ => DBUS_TYPE_VARIANT
  end.

(** [dbus_type_to_di] *)
Definition dbus_type_to_di (type : Ascii.ascii) : di_type :=
  if chr_eqb type DBUS_TYPE_BOOLEAN then DI_TYPE_BOOL
  else if existsb (chr_eqb type) [DBUS_TYPE_INT16; DBUS_TYPE_INT32; DBUS_TYPE_INT64] then DI_TYPE_INT
  else if existsb (chr_eqb type) [DBUS_TYPE_UINT16; DBUS_TYPE_UINT32; DBUS_TYPE_UINT64] then DI_TYPE_UINT
  else if chr_eqb type DBUS_TYPE_DOUBLE then DI_TYPE_FLOAT
  else if chr_eqb type DBUS_TYPE_STRING || chr_eqb type DBUS_TYPE_OBJECT_PATH then DI_TYPE_STRING
  else if chr_eqb type DBUS_TYPE_UNIX_FD then DI_TYPE_INT
  else if chr_eqb type DBUS_TYPE_ARRAY then DI_TYPE_ARRAY
  else if chr_eqb type DBUS_TYPE_STRUCT then DI_TYPE_TUPLE
  else if chr_eqb type DBUS_TYPE_VARIANT then DI_TYPE_VARIANT
  else DI_LAST_TYPE.

Section Deserial.
Context {E : Env} {L : Libdbus}.

(** [dbus_deserialize_basic]: bytes and signatures are not handled *)
Definition dbus_deserialize_basic (d : dvalue) : M val :=
  match d with
  | DBoolean b => ret (VBool b)
  | DInteger t z =>
      if existsb (chr_eqb t) [DBUS_TYPE_INT16; DBUS_TYPE_INT32; DBUS_TYPE_UNIX_FD; DBUS_TYPE_INT64] then ret (VInt z)
      else if existsb (chr_eqb t) [DBUS_TYPE_UINT16; DBUS_TYPE_UINT32; DBUS_TYPE_UINT64] then ret (VUint z)
      else stuck AssertFailed
  | DDouble f => ret (VFloat f)
  | DText t s =>
      if chr_eqb t DBUS_TYPE_STRING || chr_eqb t DBUS_TYPE_OBJECT_PATH then ret (VString (di_string_dup (Some s)))
      else stuck AssertFailed
  | _ => stuck AssertFailed
  end.

(** one element of [dbus_deserialize_struct]: the storage has the size of the type the D-Bus
    type stands for; what is stored has that type, or it is a dictionary *)
Definition struct_element (one : dvalue -> M val) (d : dvalue) : M val :=
  let t := dbus_type_to_di (arg_type d) in
  _ <- sizeof_ t ;;
  x <- one d ;;
  assert (bool_decide (type_of x = t) || (bool_decide (type_of x = DI_TYPE_OBJECT) && bool_decide (t = DI_TYPE_ARRAY))) ;;
  ret x.

(** one entry of [dbus_deserialize_dict] *)
Definition dict_entry (o : oid) (name x : val) : M unit :=
  match name with
  | VString name =>
      _ <- di_add_member_move o name x ;; di_free_value (VString name)
  | _ => stuck AssertFailed
  end.

(** the loops over the elements of a struct, an array and a dictionary *)
Definition struct_elements (one : dvalue -> M val) : list dvalue -> M (list val) :=
  fix go l :=
    match l with
    | [] => ret []
    | d :: l => x <- struct_element one d ;; xs <- go l ;; ret (x :: xs)
    end.
Definition array_elements (one : dvalue -> M val) (et : di_type) : list dvalue -> M (list val) :=
  fix go l :=
    match l with
    | [] => ret []
    | d :: l =>
        x <- one d ;;
        (* the element is stored as a value of the type [et] *)
        check UndefinedBehaviour (bool_decide (type_of x = et)) ;;
        xs <- go l ;;
        ret (x :: xs)
    end.
Definition dict_entries (one : dvalue -> M val) (o : oid) : list dvalue -> M unit :=
  fix go l :=
    match l with
    | [] => ret tt
    | DDictEntry k v :: l =>
        name <- struct_element one k ;;
        x <- struct_element one v ;;
        dict_entry o name x ;;
        go l
    | _ :: _ => stuck AssertFailed
    end.

(** [dbus_deserialize_one], with [dbus_deserialize_array], [dbus_deserialize_struct] and
    [dbus_deserialize_dict] *)
Fixpoint dbus_deserialize_one (d : dvalue) : M val :=
  if dbus_type_is_basic (arg_type d) then dbus_deserialize_basic d
  else
    match d with
    | DVariant d' =>
        let t := dbus_type_to_di (arg_type d') in
        _ <- sizeof_ t ;;
        x <- dbus_deserialize_one d' ;;
        assert (bool_decide (type_of x = t)) ;;
        ret (VVariant x)
    | DArray [] => ret DI_ARRAY_INIT
    | DArray ((d0 :: _) as l) =>
        let dict := match d0 with DDictEntry k _ => chr_eqb (arg_type k) DBUS_TYPE_STRING | _ => false end in
        if dict then
          o <- di_new_object PObject ;;
          dict_entries dbus_deserialize_one o l ;;
          ret (VObject o)
        else if dbus_type_is_fixed (arg_type d0) then
          stuck UndefinedBehaviour                        (* the element type is not set *)
        else
          let et := dbus_type_to_di (arg_type d0) in
          _ <- sizeof_ et ;;
          xs <- array_elements dbus_deserialize_one et l ;;
          ret (VArray et true xs)
    | DStruct l =>
        xs <- struct_elements dbus_deserialize_one l ;;
        ret (VTuple xs)
    | DDictEntry k v =>
        x <- struct_element dbus_deserialize_one k ;;
        y <- struct_element dbus_deserialize_one v ;;
        ret (VTuple [x; y])
    | _ => stuck UndefinedBehaviour                       (* nothing is stored *)
    end.

(** [dbus_deserialize_struct] on the arguments of a message *)
Definition dbus_deserialize_struct (l : list dvalue) : M val :=
  xs <- struct_elements dbus_deserialize_one l ;; ret (VTuple xs).
End Deserial.
