(* ===== verification/DBusConn.v ===== *)
(** * D-Bus connections and proxy objects: [plugins/dbus/dbus.c]

    libdbus is a parameter: what it answers may depend on all that was called before. A
    message that arrives is a record, its arguments are values of [Deserial]. *)

From S2P Require Export Promise Errors Deserial System.
From Stdlib Require Import Ascii.

(** a [DBusWatch]: its address and its fields *)
Record watch := Watch { w_addr : positive; w_readable : bool; w_writable : bool; w_fd : Z; w_enabled : bool }.

(** a [DBusMessage] that was received *)
Inductive message_type := MsgSignal | MsgMethodReturn | MsgError | MsgOther.
Record message := Message {
  m_type : message_type;
  m_sender : option string;
  m_path : string;
  m_interface : string;
  m_member : string;
  m_reply_serial : Z;
  m_args : list dvalue
}.

Class LibdbusConn := {
  (** [dbus_bus_get_private], [dbus_connection_open_private]: the connection or the message
      of the error *)
  dbus_bus_get_private : world -> string + Z;
  dbus_connection_open_private : option string -> world -> string + Z;
  (** are the names of a new message accepted *)
  dbus_message_new : list (option string) -> bool;
  (** [dbus_connection_send]: the serial, or [None] when there is no memory *)
  dbus_connection_send : Z -> world -> option Z;
  (** the watches a connection has *)
  dbus_connection_watches : Z -> world -> list watch;
  (** the loop around [dbus_connection_dispatch], which calls the filters *)
  dbus_dispatch_all : Z -> M unit;
  (** what is in the buffer on the stack of [dbus_serialize_integer] *)
  stack_garbage : Z
}.

Definition DBUS_SERVICE_DBUS : string := "org.freedesktop.DBus".
Definition DBUS_PATH_DBUS : string := "/org/freedesktop/DBus".
Definition DBUS_INTERFACE_DBUS : string := "org.freedesktop.DBus".
Definition DBUS_INTERFACE_PROPERTIES : string := "org.freedesktop.DBus.Properties".

(** a string as [%.*s] prints it *)
Definition fmt_s (s : di_string) : string := c_str (di_string_bytes s).
Definition lit (s : string) : di_string := di_string_borrow s.

(** [to_dbus_match_rule] *)
Definition to_dbus_match_rule (path interface signal : di_string) : string :=
  if negb (di_string_length interface =? 0)%nat then
    "type='signal',path='" +:+ fmt_s path +:+ "',interface='" +:+ fmt_s interface +:+
    "',member='" +:+ fmt_s signal +:+ "'"
  else "type='signal',path='" +:+ fmt_s path +:+ "',member='" +:+ fmt_s signal +:+ "'".

Definition name_owner_changed_rule : string :=
  "type='signal',sender='" +:+ DBUS_SERVICE_DBUS +:+ "',path='" +:+ DBUS_PATH_DBUS +:+
  "',interface='" +:+ DBUS_INTERFACE_DBUS +:+ "',member='NameOwnerChanged'".

(** names of members of the connection and of directories *)
Definition promise_key (serial : Z) : string := "promise_for_request_" +:+ fmt_d serial.
Definition peer_key (owner : string) : string := "peer_" +:+ owner.
Definition cache_key (bus : string) : string := "object_cache_" +:+ bus.
Definition object_key (path interface : di_string) : string := fmt_s path +:+ "@" +:+ fmt_s interface.
Definition keep_alive_key (dobj : oid) (signal : di_string) : string :=
  "___keep_alive_" +:+ fmt_p dobj +:+ "_" +:+ fmt_s signal.
Definition watch_key (signal : string) (w : watch) : string :=
  "__dbus_ioev_" +:+ signal +:+ "_listen_handle_for_watch_" +:+ fmt_p (w_addr w).

Definition conn_member : string := "___deai_dbus_connection".
Definition signal_prefix : string := "__signal_".

Section DBusConn.
Context {E : Env} {F : Ffi} {Y : System} {L : Libdbus} {LC : LibdbusConn}.

Definition dbus_error {A} (line : Z) (func msg : string) : M A :=
  e <- di_new_error "dbus.c" line func msg ;; di_throw e.

Definition get_connection (c : oid) : M (option Z * Z) :=
  ob <- get_obj c ;;
  match extra ob with PDBusConnection conn n => ret (conn, n) | _ => stuck WildPointer end.
Definition put_connection (c : oid) (conn : option Z) (n : Z) : M unit :=
  upd_obj c (set_extra (PDBusConnection conn n)).
(** libdbus is given a connection *)
Definition conn_of (c : oid) : M Z :=
  let* (conn, _) := get_connection c in
  match conn with Some x => ret x | None => stuck NullDereference end.

(** ** Watches *)

(** [ioev_callback] *)
Definition ioev_callback (conn : oid) (ptr : positive) (event : Z) : M unit :=
  when (event =? 0)%Z
    (call_ext "dbus_watch_handle" [VPointer (Zpos ptr); VNint 1] ;;
     c <- conn_of conn ;;
     dbus_dispatch_all c) ;;
  when (event =? 1)%Z (call_ext "dbus_watch_handle" [VPointer (Zpos ptr); VNint 2]).

(** [dbus_add_signal_handler_for] *)
Definition dbus_add_signal_handler_for (ioev : oid) (w : watch) (oc : oid) (signal : string) (event : Z) : M unit :=
  h <- di_create_closure "ioev_callback" DI_TYPE_NIL [VObject oc; VPointer (Zpos (w_addr w)); VNint event] 0 [] ;;
  match h with
  | inl _ => stuck WildPointer
  | inr handler =>
      scoped
        (l <- di_listen_to ioev (lit signal) handler false ;;
         match l with
         | inl _ => stuck NullDereference
         | inr l =>
             rc <- di_call l "auto_stop" [VNint 1] ;;
             DI_CHECK_OK rc ;;
             rc <- di_add_member_move oc (Some (watch_key signal w)) (VObject l) ;;
             DI_CHECK_OK rc
         end)
        (di_unref_object handler)
  end.

(** [dbus_toggle_watch_impl] *)
Definition dbus_toggle_watch_impl (w : watch) (oc : oid) (enabled : bool) : M bool :=
  if negb enabled then
    when (w_readable w) (_ <- di_delete_member_raw oc (Some (watch_key "read" w)) ;; ret tt) ;;
    when (w_writable w) (_ <- di_delete_member_raw oc (Some (watch_key "write" w)) ;; ret tt) ;;
    ret true
  else
    di <- di_object_borrow_deai oc ;;
    match di with
    | None => stuck NullDereference
    | Some di =>
        eventm <- rawget_object di "event" ;;
        match eventm with
        | None => ret false
        | Some eventm =>
            ioev <- di_callr eventm "fdevent" DI_TYPE_OBJECT [VNint (w_fd w)] ;;
            match ioev with
            | inr (VObject ioev) =>
                scoped
                  (when (w_readable w) (dbus_add_signal_handler_for ioev w oc "read" 0) ;;
                   when (w_writable w) (dbus_add_signal_handler_for ioev w oc "write" 1) ;;
                   ret true)
                  (di_unref_object ioev)
            | _ => ret false
            end
        end
    end.

(** [dbus_toggle_watch] *)
Definition dbus_toggle_watch (w : watch) (oc : oid) : M unit :=
  _ <- dbus_toggle_watch_impl w oc (w_enabled w) ;; ret tt.

(** [dbus_add_watch]: the member that is looked up is never added *)
Definition dbus_add_watch (w : watch) (oc : oid) : M unit :=
  m <- di_lookup oc (Some ("__dbus_ioev_for_watch_" +:+ fmt_p (w_addr w))) ;;
  match m with
  | Some _ => stuck Aborted
  | None => when (w_enabled w) (_ <- dbus_toggle_watch_impl w oc true ;; ret tt)
  end.

(** [dbus_remove_watch] *)
Definition dbus_remove_watch (w : watch) (oc : oid) : M unit :=
  _ <- dbus_toggle_watch_impl w oc false ;; ret tt.

(** [dbus_connection_set_watch_functions] calls the old remove function and the new add
    function for the watches there are *)
Definition set_watch_functions (c : oid) (conn : Z) (on : bool) : M unit :=
  call_ext "dbus_connection_set_watch_functions" [VNint conn; VBool on] ;;
  l <- gets (dbus_connection_watches conn) ;;
  mapM_ (fun w => if on then dbus_add_watch w c else dbus_remove_watch w c) l.

(** [di_dbus_nsignal_inc], [di_dbus_nsignal_dec] *)
Definition di_dbus_nsignal_inc (c : oid) : M unit :=
  let* (conn, n) := get_connection c in
  let n := s32 (n + 1) in
  put_connection c conn n ;;
  if (n =? 1)%Z then
    conn <- conn_of c ;;
    set_watch_functions c conn true ;;
    call_ext "dbus_connection_add_filter" [VNint conn]
  else ret tt.
Definition di_dbus_nsignal_dec (c : oid) : M unit :=
  let* (conn, n) := get_connection c in
  let n := s32 (n - 1) in
  put_connection c conn n ;;
  if (n =? 0)%Z then
    conn <- conn_of c ;;
    set_watch_functions c conn false ;;
    call_ext "dbus_connection_remove_filter" [VNint conn]
  else ret tt.

(** ** Sending *)

(** [di_dbus_add_promise_for] *)
Definition di_dbus_add_promise_for (conn eventm : oid) (serial : Z) : M oid :=
  promise <- di_new_promise eventm ;;
  _ <- di_add_member_clonev conn (Some (promise_key serial)) (VObject promise) ;;
  di_dbus_nsignal_inc conn ;;
  ret promise.

(** [di_dbus_send_message] *)
Definition di_dbus_send_message (o : oid) (type bus_ objpath_ iface_ method_ signature : di_string)
    (args : list val) : M Z :=
  let str s := c_str <$> di_string_to_chars_alloc s in
  let names :=
    if di_string_eq type (lit "method") then Some [str bus_; str objpath_; str iface_; str method_]
    else if di_string_eq type (lit "signal") then Some [str objpath_; str iface_; str method_]
    else None in
  match names with
  | None => ret (-1)%Z
  | Some names =>
      (* an iterator over no message *)
      check UndefinedBehaviour (dbus_message_new names) ;;
      call_ext "dbus_message_new" (map (fun n => match n with Some s => VStringLiteral s | None => VPointer 0 end) names) ;;
      rc <- dbus_serialize_struct stack_garbage args signature ;;
      if (rc <? 0)%Z then call_ext "dbus_message_unref" [] ;; ret (-1)%Z
      else
        conn <- conn_of o ;;
        serial <- gets (dbus_connection_send conn) ;;
        call_ext "dbus_connection_send" [VNint conn] ;;
        call_ext "dbus_message_unref" [] ;;
        ret (match serial with None => -1 | Some n => n end)%Z
  end.

(** the connection of a proxy object, and the event module *)
Definition dobj_connection (line : Z) (func : string) (dobj : oid) : M oid :=
  conn <- rawget_object dobj conn_member ;;
  match conn with Some c => ret c | None => dbus_error line func "DBus connection gone" end.
Definition borrow_event (line : Z) (func msg : string) (conn : oid) : M oid :=
  di <- di_object_borrow_deai conn ;;
  match di with
  | None => stuck NullDereference
  | Some di =>
      eventm <- rawget_object di "event" ;;
      match eventm with Some m => ret m | None => dbus_error line func msg end
  end.
(** [dbus_call_method] *)
Definition dbus_call_method (dobj : oid) (iface method signature : di_string) (t : list val) : M oid :=
  conn <- dobj_connection 279 "dbus_call_method" dobj ;;
  eventm <- borrow_event 282 "dbus_call_method" "no event module" conn ;;
  bus <- get_string dobj "___bus_name" ;;
  path <- get_string dobj "___object_path" ;;
  serial <- di_dbus_send_message conn (lit "method") bus path iface method signature t ;;
  if (serial <? 0)%Z then dbus_error 291 "dbus_call_method" ("Failed to send " +:+ fmt_d serial)
  else di_dbus_add_promise_for conn eventm serial.

Definition get_method (m : oid) : M (di_string * di_string) :=
  ob <- get_obj m ;;
  match extra ob with PDBusMethod method interface => ret (method, interface) | _ => stuck WildPointer end.

(** [call_dbus_method] *)
Definition call_dbus_method (m : oid) (t : list val) : M (rc_or val) :=
  match t with
  | VObject dobj :: t =>
      let* (method, interface) := get_method m in
      p <- dbus_call_method dobj interface method DI_STRING_INIT t ;;
      ret (inr (VObject p))
  | _ => ret (inl (- EINVAL)%Z)
  end.

(** [call_dbus_method_with_signature] *)
Definition call_dbus_method_with_signature (m : oid) (t : list val) : M (rc_or val) :=
  match t with
  | VObject dbus_method :: VObject dobj :: s :: t =>
      let signature := match s with
                       | VString s => Some s
                       | VStringLiteral s => Some (di_string_borrow s)
                       | _ => None
                       end in
      match signature with
      | None => ret (inl (- EINVAL)%Z)
      | Some signature =>
          let* (method, interface) := get_method dbus_method in
          p <- dbus_call_method dobj interface method signature t ;;
          ret (inr (VObject p))
      end
  | _ => ret (inl (- EINVAL)%Z)
  end.

(** [di_dbus_object_getter] *)
Definition di_dbus_object_getter (dobj : oid) (method : di_string) : M val :=
  if di_string_starts_with method signal_prefix then
    r <- di_rawgetx dobj method ;;
    ret (match r with inr v => VVariant v | inl _ => VLast end)
  else
    r <- di_new_object (PDBusMethod None None) ;;
    _ <- di_set_type r "deai.plugin.dbus:DBusMethod" ;;
    interface <- get_string dobj "___interface" ;;
    upd_obj r (set_extra (PDBusMethod (di_clone_string method) interface)) ;;
    di_set_object_dtor r (Some "di_dbus_free_method") ;;
    di_set_object_call r (Some "call_dbus_method") ;;
    cwm <- di_new_object PObject ;;
    di_set_object_call cwm (Some "call_dbus_method_with_signature") ;;
    _ <- di_member r "call_with_signature" (VObject cwm) ;;
    ret (VVariant (VObject r)).

(** ** Signals of proxy objects *)

(** [di_dbus_object_new_signal] *)
Definition di_dbus_object_new_signal (dobj : oid) (member_name : di_string) (sig : oid) : M unit :=
  if negb (di_string_starts_with member_name signal_prefix) then ret tt
  else
    let signal_name := di_suffix member_name (String.length signal_prefix) in
    if (di_string_length signal_name =? 0)%nat then ret tt
    else
      path <- get_string dobj "___object_path" ;;
      interface <- get_string dobj "___interface" ;;
      conn <- rawget_object dobj conn_member ;;
      match conn with
      | None => ret tt
      | Some c =>
          let* (conn, _) := get_connection c in
          match conn with
          | None => ret tt
          | Some conn =>
              call_ext "dbus_bus_add_match" [VNint conn; VStringLiteral (to_dbus_match_rule path interface signal_name)] ;;
              _ <- di_add_member_clonev dobj member_name (VObject sig) ;;
              di_dbus_nsignal_inc c ;;
              rc <- di_add_member_clonev c (Some (keep_alive_key dobj signal_name)) (VObject dobj) ;;
              DI_CHECK_OK rc
          end
      end.

(** [di_dbus_object_del_signal]: the interface of the rule is what is before a dot in the
    name of the signal, not the interface of the object *)
Definition removed_rule (path signal_name : di_string) : string :=
  match di_string_split_once signal_name "."%char with
  | Some (interface, member) => to_dbus_match_rule path interface member
  | None => to_dbus_match_rule path DI_STRING_INIT signal_name
  end.
Definition di_dbus_object_del_signal (obj : oid) (member_name : di_string) : M unit :=
  if negb (di_string_starts_with member_name signal_prefix) then ret tt
  else
    rc <- di_delete_member_raw obj member_name ;;
    if negb (rc =? 0)%Z then ret tt
    else
      let* (conn, _) := di_getxt obj (Some conn_member) DI_TYPE_OBJECT false in
      match conn with
      | inr (VObject c) =>
          scoped
            (let* (conn, _) := get_connection c in
             match conn with
             | None => ret tt
             | Some conn =>
                 let signal_name := di_suffix member_name (String.length signal_prefix) in
                 if (di_string_length signal_name =? 0)%nat then ret tt
                 else
                   path <- get_string obj "___object_path" ;;
                   call_ext "dbus_bus_remove_match" [VNint conn; VStringLiteral (removed_rule path signal_name)] ;;
                   di_dbus_nsignal_dec c ;;
                   rc <- di_delete_member_raw c (Some (keep_alive_key obj signal_name)) ;;
                   DI_CHECK_OK rc
             end)
            (di_unref_object c)
      | _ => ret tt
      end.

(** ** Owners of names *)

(** the value of a string member, if it is there and converts *)
Definition get_opt_string (o : oid) (name : string) : M (option di_string) :=
  let* (r, _) := di_getxt o (Some name) DI_TYPE_STRING false in
  match r with inr (VString s) => ret (Some s) | inr _ => stuck WildPointer | inl _ => ret None end.

Definition scoped_opt {A} (o : option oid) (body : M A) : M A :=
  scoped body (match o with Some x => di_unref_object x | None => ret tt end).

(** the loop over the members of the connection after the owners were found to be out of
    step *)
Fixpoint drop_caches (conn : oid) (l : list string) : M unit :=
  match l with
  | [] => ret tt
  | curr :: l =>
      when (String.prefix "peer_" curr || String.prefix "object_cache_" curr)
        (_ <- di_delete_member_raw conn (Some curr) ;; ret tt) ;;
      drop_caches conn l
  end.

(** the part of [di_dbus_name_changed] after the directory was found *)
Definition update_owner (conn directory : oid) (well_known old_owner new_owner : di_string) : M unit :=
  recorded <- get_opt_string directory "___owner" ;;
  match recorded with
  | Some recorded_owner_name =>
      if negb (di_string_length old_owner =? 0)%nat && negb (di_string_eq old_owner recorded_owner_name) then
        env_log DI_LOG_WARN ("dbus: name owner desynced for " +:+ fmt_s well_known) ;;
        ob <- get_obj conn ;;
        drop_caches conn (map fst (members ob))
      else ret tt
  | None => ret tt
  end ;;
  if negb (di_string_length new_owner =? 0)%nat then
    rc <- di_rawsetx directory (Some "___owner_name") (VString new_owner) ;; DI_CHECK_OK rc ;;
    found <- di_get_object_via_weak conn (Some (peer_key (fmt_s new_owner))) ;;
    peer <- match found with
            | Some peer => ret peer
            | None =>
                peer <- di_new_object PObject ;;
                weak_peer <- di_weakly_ref_object peer ;;
                scoped
                  (rc <- di_add_member_clonev conn (Some (peer_key (fmt_s new_owner))) (VWeak weak_peer) ;;
                   DI_CHECK_OK rc)
                  (di_drop_weak_ref weak_peer) ;;
                ret peer
            end ;;
    scoped
      (rc <- di_rawsetx directory (Some "___owner") (VObject peer) ;; DI_CHECK_OK rc ;;
       weak_directory <- di_weakly_ref_object directory ;;
       scoped
         (rc <- di_rawsetx peer well_known (VWeak weak_directory) ;; DI_CHECK_OK rc)
         (di_drop_weak_ref weak_directory))
      (di_unref_object peer)
  else
    env_log DI_LOG_DEBUG ("dbus: name " +:+ fmt_s well_known +:+ " unowned") ;;
    _ <- di_delete_member_raw directory (Some "___owner") ;;
    _ <- di_delete_member_raw directory (Some "___owner_name") ;;
    ret tt.

(** [di_dbus_name_changed] *)
Definition di_dbus_name_changed (conn : oid) (well_known old_owner new_owner : di_string) : M unit :=
  env_log DI_LOG_INFO ("DBus name changed for " +:+ fmt_s well_known +:+ ": " +:+ fmt_s old_owner +:+
                       " -> " +:+ fmt_s new_owner) ;;
  if di_string_starts_with well_known ":" then ret tt
  else
    when (negb (di_string_length old_owner =? 0)%nat)
      (peer <- di_get_object_via_weak conn (Some (peer_key (fmt_s old_owner))) ;;
       scoped_opt peer
         (match peer with
          | Some peer => _ <- di_delete_member_raw peer well_known ;; ret tt
          | None => ret tt
          end)) ;;
    directory <- di_get_object_via_weak conn (Some (cache_key (fmt_s well_known))) ;;
    match directory with
    | None => ret tt
    | Some d => scoped_opt directory (update_owner conn d well_known old_owner new_owner)
    end.

(** [di_dbus_object_set_owner] *)
Definition di_dbus_object_set_owner (o : oid) (owner : di_string) : M unit :=
  conn <- get_checked o conn_member DI_TYPE_OBJECT ;;
  match conn with
  | VObject conn =>
      scoped
        (object_cache <- get_checked o "___object_cache" DI_TYPE_OBJECT ;;
         match object_cache with
         | VObject object_cache =>
             scoped
               (bus_name <- get_string object_cache "___bus_name" ;;
                old_owner <- get_opt_string object_cache "___owner_name" ;;
                di_dbus_name_changed conn bus_name (default DI_STRING_INIT old_owner) owner)
               (di_unref_object object_cache)
         | _ => stuck WildPointer
         end)
        (di_unref_object conn)
  | _ => stuck WildPointer
  end.

(** ** Properties *)

Definition property_call (line1 line2 line3 : Z) (func method signature : string) (dobj : oid)
    (args : string -> di_string -> list val) : M oid :=
  conn <- dobj_connection line1 func dobj ;;
  eventm <- borrow_event line2 func "no event module" conn ;;
  obj <- get_string dobj "___object_path" ;;
  bus <- get_string dobj "___bus_name" ;;
  interface <- get_string dobj "___interface" ;;
  serial <- di_dbus_send_message conn (lit "method") bus obj (lit DBUS_INTERFACE_PROPERTIES) (lit method)
              (lit signature) (args method interface) ;;
  if (serial <? 0)%Z then dbus_error line3 func "DBus error"
  else di_dbus_add_promise_for conn eventm serial.

(** [di_dbus_get_property], [di_dbus_set_property] *)
Definition di_dbus_get_property (dobj : oid) (property : di_string) : M oid :=
  property_call 638 640 650 "di_dbus_get_property" "Get" "" dobj
    (fun _ interface => [VString interface; VString property]).
Definition di_dbus_set_property (dobj : oid) (property : di_string) (value : val) : M oid :=
  property_call 658 660 670 "di_dbus_set_property" "Set" "ssv" dobj
    (fun _ interface => [VString interface; VString property; VVariant value]).

(** ** Proxy objects *)

(** the directory of a bus name, a new one if there is none *)
Definition get_directory (o : oid) (bus : di_string) : M oid :=
  object_cache <- di_get_object_via_weak o (Some (cache_key (fmt_s bus))) ;;
  match object_cache with
  | Some c => ret c
  | None =>
      object_cache <- di_new_object PObject ;;
      rc <- di_add_member_clonev object_cache (Some "___bus_name") (VString bus) ;; DI_CHECK_OK rc ;;
      weak_object_cache <- di_weakly_ref_object object_cache ;;
      _ <- di_add_member_move o (Some (cache_key (fmt_s bus))) (VWeak weak_object_cache) ;;
      ret object_cache
  end.

(** a new proxy object *)
Definition new_proxy (o object_cache : oid) (bus obj interface : di_string) : M oid :=
  r <- di_new_object PObject ;;
  _ <- di_set_type r "deai.plugin.dbus:DBusObject" ;;
  rc <- di_add_member_clonev r (Some conn_member) (VObject o) ;; DI_CHECK_OK rc ;;
  _ <- di_member_clone r "___bus_name" (VString bus) ;;
  _ <- di_member_clone r "___object_path" (VString obj) ;;
  _ <- di_member_clone r "___interface" (VString interface) ;;
  _ <- di_method r "__get" "di_dbus_object_getter" DI_TYPE_VARIANT [DI_TYPE_STRING] ;;
  _ <- di_method r "__set" "di_dbus_object_new_signal" DI_TYPE_NIL [DI_TYPE_STRING; DI_TYPE_OBJECT] ;;
  _ <- di_method r "__delete" "di_dbus_object_del_signal" DI_TYPE_NIL [DI_TYPE_STRING] ;;
  _ <- di_method r "get" "di_dbus_get_property" DI_TYPE_OBJECT [DI_TYPE_STRING] ;;
  _ <- di_method r "set" "di_dbus_set_property" DI_TYPE_OBJECT [DI_TYPE_STRING; DI_TYPE_VARIANT] ;;
  _ <- di_member_clone r "___object_cache" (VObject object_cache) ;;
  weak_object <- di_weakly_ref_object r ;;
  _ <- di_add_member_move object_cache (Some (object_key obj interface)) (VWeak weak_object) ;;
  ret r.

(** the request for the owner of the name *)
Definition request_owner (o eventm r : oid) (bus : di_string) : M unit :=
  serial <- di_dbus_send_message o (lit "method") (lit DBUS_SERVICE_DBUS) (lit DBUS_PATH_DBUS)
              (lit DBUS_INTERFACE_DBUS) (lit "GetNameOwner") (lit "s") [VString bus] ;;
  if (serial <? 0)%Z then
    di_unref_object r ;;
    dbus_error 759 "di_dbus_get_object" "Failed to send GetNameOwner request"
  else
    set_owner <- di_create_closure "di_dbus_object_set_owner" DI_TYPE_NIL [VObject r] 1 [DI_TYPE_STRING] ;;
    match set_owner with
    | inl _ => stuck WildPointer
    | inr set_owner =>
        scoped
          (promise <- di_dbus_add_promise_for o eventm serial ;;
           scoped (t <- di_promise_then promise set_owner ;; di_unref_object t) (di_unref_object promise))
          (di_unref_object set_owner)
    end.

(** [di_dbus_get_object]: "___owner" is an object, not the name of the owner, and does not
    convert to a string *)
Definition di_dbus_get_object (o : oid) (bus obj interface : di_string) : M oid :=
  eventm <- borrow_event 693 "di_dbus_get_object" "no event module" o ;;
  object_cache <- get_directory o bus ;;
  scoped
    (found <- di_get_object_via_weak object_cache (Some (object_key obj interface)) ;;
     match found with
     | Some r => ret r
     | None =>
         r <- new_proxy o object_cache bus obj interface ;;
         owner <- get_opt_string object_cache "___owner" ;;
         match owner with
         | Some _ => ret r
         | None => request_owner o eventm r bus ;; ret r
         end
     end)
    (di_unref_object object_cache).

(** ** Closing *)

(** [di_dbus_shutdown_part2] *)
Definition di_dbus_shutdown_part2 (self : oid) : M unit :=
  ob <- get_obj self ;;
  match extra ob with
  | PDBusShutdown conn => call_ext "dbus_connection_close" [VNint conn] ;; call_ext "dbus_connection_unref" [VNint conn]
  | _ => stuck WildPointer
  end.

(** [di_dbus_drop_root] *)
Definition di_dbus_drop_root (self : oid) : M (rc_or val) :=
  _ <- di_delete_member_raw self (Some "___listen_handle") ;; ret (inr VNil).

(** [di_dbus_shutdown] *)
Definition di_dbus_shutdown (obj : oid) : M unit :=
  let* (conn, nsignals) := get_connection obj in
  match conn with
  | None => ret tt
  | Some conn =>
      when (0 <? nsignals)%Z
        (set_watch_functions obj conn false ;; call_ext "dbus_connection_remove_filter" [VNint conn]) ;;
      di <- di_object_borrow_deai obj ;;
      eventm <- match di with None => stuck NullDereference | Some di => rawget_object di "event" end ;;
      match eventm with
      | Some eventm =>
          shutdown <- di_new_object (PDBusShutdown 0) ;;
          upd_obj shutdown (set_extra (PDBusShutdown conn)) ;;
          di_set_object_dtor shutdown (Some "di_dbus_shutdown_part2") ;;
          di_set_object_call shutdown (Some "di_dbus_drop_root") ;;
          l <- di_listen_to eventm (lit "prepare") shutdown false ;;
          match l with
          | inl _ => stuck NullDereference
          | inr listen_handle =>
              rc <- di_call listen_handle "auto_stop" [VNint 1] ;; DI_CHECK_OK rc ;;
              rc <- di_member shutdown "___listen_handle" (VObject listen_handle) ;; DI_CHECK_OK rc ;;
              di_unref_object shutdown
          end
      | None => call_ext "dbus_connection_close" [VNint conn] ;; call_ext "dbus_connection_unref" [VNint conn]
      end ;;
      let* (_, n) := get_connection obj in
      put_connection obj None n
  end.

(** ** Receiving *)

(** [struct di_signal_info] *)
Record di_signal_info := SignalInfo { si_path : string; si_interface : string; si_member : string; si_args : list val }.

(** [di_emit_signal_for] *)
Definition di_emit_signal_for (directory : oid) (info : di_signal_info) : M unit :=
  obj <- di_get_object_via_weak directory (Some (object_key (lit (si_path info)) (lit (si_interface info)))) ;;
  match obj with
  | None => ret tt
  | Some o => scoped_opt obj (_ <- di_emitn o (lit (si_member info)) (si_args info) ;; ret tt)
  end.

(** [di_peer_foreach_cb] *)
Definition di_peer_foreach_cb (info : di_signal_info) (name : string) (v : val) : M bool :=
  match v with
  | VWeak weak =>
      obj <- di_upgrade_weak_ref weak ;;
      match obj with
      | None => ret false
      | Some o => scoped_opt obj (di_emit_signal_for o info ;; ret false)
      end
  | _ => ret false
  end.

(** is the message the change of the owner of a name; a message without a sender is not
    expected here *)
Definition is_name_owner_changed (msg : message) : M bool :=
  if negb (String.eqb (m_member msg) "NameOwnerChanged") then ret false
  else
    match m_sender msg with
    | None => stuck NullDereference
    | Some sender =>
        ret (String.eqb sender DBUS_SERVICE_DBUS && String.eqb (m_path msg) DBUS_PATH_DBUS
             && String.eqb (m_interface msg) DBUS_INTERFACE_DBUS)
    end.

(** delivering a signal to the proxy objects: a unique name leads to all directories of its
    owner, another name to its directory *)
Definition deliver_signal (c : oid) (bus_name : string) (info : di_signal_info) : M unit :=
  if String.prefix ":" bus_name then
    peer <- di_get_object_via_weak c (Some (peer_key bus_name)) ;;
    match peer with
    | None => ret tt
    | Some p => scoped_opt peer (_ <- di_foreach_member_raw (di_peer_foreach_cb info) p ;; ret tt)
    end
  else
    directory <- di_get_object_via_weak c (Some (cache_key bus_name)) ;;
    match directory with
    | None => ret tt
    | Some d => scoped_opt directory (di_emit_signal_for d info)
    end.

(** the branch of [dbus_filter] for signals; [true] is DBUS_HANDLER_RESULT_HANDLED *)
Definition filter_signal (c : oid) (msg : message) (t : list val) : M bool :=
  changed <- is_name_owner_changed msg ;;
  ok <- (if (changed : bool) then
           match t with
           | [VString name; VString old_owner; VString new_owner] =>
               di_dbus_name_changed c name old_owner new_owner ;; ret true
           | _ => ret false
           end
         else ret true) ;;
  if negb ok then ret false
  else
    match m_sender msg with
    | None => ret false
    | Some bus_name =>
        deliver_signal c bus_name (SignalInfo (m_path msg) (m_interface msg) (m_member msg) t) ;;
        ret true
    end.

(** the branch for replies: the text of an error is the first argument, whatever that is *)
Definition filter_reply (c : oid) (msg : message) (is_error : bool) (t : list val) : M unit :=
  let promise_name := promise_key (m_reply_serial msg) in
  promise <- rawget_object c promise_name ;;
  match promise with
  | None => ret tt
  | Some promise =>
      (if is_error then
         match t with
         | VString s :: _ =>
             err <- di_new_error "dbus.c" 941 "dbus_filter" (fmt_s s) ;;
             scoped (di_promise_reject promise err) (di_unref_object err)
         | _ => stuck WildPointer
         end
       else di_promise_resolve promise (match t with [x] => x | _ => VTuple t end)) ;;
      _ <- di_delete_member_raw c (Some promise_name) ;;
      di_dbus_nsignal_dec c
  end.

(** [dbus_filter] *)
Definition dbus_filter (ud : oid) (msg : message) : M bool :=
  match m_type msg with
  | MsgOther => ret false
  | ty =>
      t <- dbus_deserialize_struct (m_args msg) ;;
      scoped
        (c <- di_ref_object ud ;;
         scoped
           (let args := match t with VTuple l => l | _ => [] end in
            match ty with
            | MsgSignal => filter_signal c msg args
            | _ => filter_reply c msg (match ty with MsgError => true | _ => false end) args ;; ret true
            end)
           (di_unref_object c))
        (di_free_value t)
  end.

(** ** Connecting *)

(** [di_dbus_connection_to_di] *)
Definition di_dbus_connection_to_di (m : oid) (conn : Z) : M oid :=
  di <- di_object_get_deai_strong m ;;
  match di with
  | None => dbus_error 969 "di_dbus_connection_to_di" "deai is shutting down..."
  | Some di =>
      call_ext "dbus_connection_set_exit_on_disconnect" [VNint conn; VNint 0] ;;
      r <- di_new_object (PDBusConnection None 0) ;;
      _ <- di_set_type r "deai.plugin.dbus:DBusConnection" ;;
      put_connection r (Some conn) 0 ;;
      _ <- di_member r DEAI_MEMBER_NAME_RAW (VObject di) ;;
      _ <- di_method r "send" "di_dbus_send_message" DI_TYPE_INT
             [DI_TYPE_STRING; DI_TYPE_STRING; DI_TYPE_STRING; DI_TYPE_STRING; DI_TYPE_STRING; DI_TYPE_STRING; DI_TYPE_TUPLE] ;;
      _ <- di_method r "get" "di_dbus_get_object" DI_TYPE_OBJECT [DI_TYPE_STRING; DI_TYPE_STRING; DI_TYPE_STRING] ;;
      di_set_object_dtor r (Some "di_dbus_shutdown") ;;
      ret r
  end.

(** [di_dbus_get_session_bus] *)
Definition di_dbus_get_session_bus (o : oid) : M oid :=
  conn <- gets dbus_bus_get_private ;;
  call_ext "dbus_bus_get_private" [] ;;
  match conn with
  | inl msg => dbus_error 995 "di_dbus_get_session_bus" msg
  | inr conn =>
      call_ext "dbus_bus_add_match" [VNint conn; VStringLiteral name_owner_changed_rule] ;;
      di_dbus_connection_to_di o conn
  end.

(** [di_dbus_handle_hello_reply] *)
Definition di_dbus_handle_hello_reply (conn : oid) (name : di_string) : M oid :=
  let c_name := c_str <$> di_string_to_chars_alloc name in
  env_log DI_LOG_DEBUG ("unique name is: " +:+ default "(null)" c_name) ;;
  c <- conn_of conn ;;
  call_ext "dbus_bus_set_unique_name" [VNint c; match c_name with Some s => VStringLiteral s | None => VPointer 0 end] ;;
  call_ext "dbus_bus_add_match" [VNint c; VStringLiteral name_owner_changed_rule] ;;
  di_ref_object conn.

(** [di_mgetm (o, event, ...)] *)
Definition get_event_module (line : Z) (func msg : string) (o : oid) : M oid :=
  di <- di_object_get_deai_strong o ;;
  match di with
  | None => dbus_error line func msg
  | Some di =>
      scoped
        (let* (r, _) := di_getxt di (Some "event") DI_TYPE_OBJECT false in
         match r with
         | inr (VObject eventm) => ret eventm
         | inr _ => stuck WildPointer
         | inl _ => dbus_error line func msg
         end)
        (di_unref_object di)
  end.

(** [di_dbus_connect] *)
Definition di_dbus_connect (o : oid) (address : di_string) : M oid :=
  eventm <- get_event_module 1022 "di_dbus_connect" "deai is shutting down..." o ;;
  scoped
    (let c_address := c_str <$> di_string_to_chars_alloc address in
     conn <- gets (dbus_connection_open_private c_address) ;;
     call_ext "dbus_connection_open_private" [] ;;
     match conn with
     | inl msg => dbus_error 1028 "di_dbus_connect" msg
     | inr conn =>
         r <- di_dbus_connection_to_di o conn ;;
         scoped
           (serial <- di_dbus_send_message r (lit "method") (lit DBUS_SERVICE_DBUS) (lit DBUS_PATH_DBUS)
                        (lit DBUS_INTERFACE_DBUS) (lit "Hello") DI_STRING_INIT [] ;;
            DI_CHECK (0 <=? serial)%Z ;;
            promise <- di_dbus_add_promise_for r eventm serial ;;
            scoped
              (handler <- di_create_closure "di_dbus_handle_hello_reply" DI_TYPE_OBJECT [VObject r] 1 [DI_TYPE_STRING] ;;
               match handler with
               | inl _ => stuck WildPointer
               | inr handler => scoped (di_promise_then promise handler) (di_unref_object handler)
               end)
              (di_unref_object promise))
           (di_unref_object r)
     end)
    (di_unref_object eventm).

(** [new_dbus_module], and the entry point of the plugin *)
Definition new_dbus_module (di : oid) : M oid :=
  m <- di_new_module di ;;
  _ <- di_method m "__get_session_bus" "di_dbus_get_session_bus" DI_TYPE_OBJECT [] ;;
  _ <- di_method m "connect" "di_dbus_connect" DI_TYPE_OBJECT [DI_TYPE_STRING] ;;
  ret m.
Definition dbus_plugin_init (di : oid) : M unit :=
  m <- new_dbus_module di ;;
  _ <- di_register_module di (lit "dbus") m ;; ret tt.
End DBusConn.

(** ** Match rules *)

(** the rule that is removed with a signal is not the one that was added, when the proxy
    object has an interface and the signal has no dot in its name: the rule stays with the
    daemon *)
Example rule_not_removed :
  to_dbus_match_rule (lit "/a") (lit "x.Y") (lit "Changed") <> removed_rule (lit "/a") (lit "Changed").
Proof. discriminate. Qed.
