(* ===== verification/Keymap.v ===== *)
(** * Keyboard maps: the tables [set_keymap] of [plugins/xorg/xorg.c] computes

    [find_modifiers], which tries every key on a simulated keyboard, and the table of
    keysyms that is sent to the server. libxkbcommon is a parameter. The tables are arrays
    of the program: an access outside of them is a fault. *)

From S2P Require Export Arrays.

Class Xkb := {
  xkb_keymap : Type;
  xkb_state : Type;
  xkb_keymap_num_layouts : xkb_keymap -> Z;
  xkb_keymap_min_keycode : xkb_keymap -> Z;
  xkb_keymap_max_keycode : xkb_keymap -> Z;
  (** the levels of a key in the first layout *)
  xkb_keymap_num_levels_for_key : xkb_keymap -> Z -> nat;
  (** the keysyms of a key in the first layout, at a level *)
  xkb_keymap_key_get_syms_by_level : xkb_keymap -> Z -> nat -> list Z;
  (** [None]: XKB_MOD_INVALID *)
  xkb_map_mod_get_index : xkb_keymap -> string -> option Z;
  xkb_state_new : xkb_keymap -> xkb_state;
  (** the new state of the keyboard, and what has changed *)
  xkb_state_update_key : xkb_state -> Z -> bool -> xkb_state * Z;
  xkb_state_mod_name_is_active : xkb_state -> string -> Z -> Z;
  xkb_context_new : world -> option Z;
  (** [xkb_keymap_new_from_names]: layout, model, variant, options *)
  xkb_keymap_new_from_names : list (option string) -> world -> option xkb_keymap;
  (** [xkb_keysym_from_name], ignoring case; 0 is XKB_KEY_NoSymbol *)
  xkb_keysym_from_name : string -> Z;
  xkb_keysym_get_name : Z -> option string
}.

Definition XKB_STATE_MODS_LATCHED : Z := 2.
Definition XKB_STATE_MODS_LOCKED : Z := 4.
(** depressed, latched or locked *)
Definition XKB_STATE_MODS : Z := 7.
Definition MAX_KEYCODE : nat := 256.
Definition xkb_modifier_names : list string :=
  ["Shift"; "Lock"; "Control"; "Mod1"; "Mod2"; "Mod3"; "Mod4"; "Mod5"].

(** the local variables of [find_modifiers]; [None] is an index of -1, or a value that was
    not written *)
Record mod_lists := ModLists {
  modifier_keycode_count : list nat;
  next_keycode_indices : list (option nat);
  keycodes : list (option Z);
  total_keycodes : nat;
  modifier_keycode_head : list (option nat)
}.
Definition mod_lists_init : mod_lists :=
  ModLists (replicate 8 0) (replicate MAX_KEYCODE None) (replicate MAX_KEYCODE None) 0 (replicate 8 None).

Section Keymap.
Context {K : Xkb}.

(** the body of the loop over [j], for a modifier that is active *)
Definition add_keycode (i : Z) (j : nat) (s : mod_lists) : or_fault mod_lists :=
  fbind (aread (modifier_keycode_head s) j) (fun h =>
  fbind (awrite (next_keycode_indices s) (total_keycodes s) h) (fun next =>
  fbind (awrite (modifier_keycode_head s) j (Some (total_keycodes s))) (fun head =>
  fbind (awrite (keycodes s) (total_keycodes s) (Some i)) (fun kc =>
  fbind (aread (modifier_keycode_count s) j) (fun n =>
  fbind (awrite (modifier_keycode_count s) j (S n)) (fun count =>
  inr (ModLists count next kc (S (total_keycodes s)) head))))))).

Fixpoint add_active (state : xkb_state) (updates i : Z) (js : list (nat * string)) (s : mod_lists) : or_fault mod_lists :=
  match js with
  | [] => inr s
  | (j, name) :: js =>
      if (xkb_state_mod_name_is_active state name updates =? 0)%Z then add_active state updates i js s
      else fbind (add_keycode i j s) (add_active state updates i js)
  end.
Definition numbered_names : list (nat * string) := imap pair xkb_modifier_names.

(** the state of the keyboard after the key was released, and what it takes to undo it *)
Definition release (map : xkb_keymap) (state : xkb_state) (i updates : Z) : xkb_state :=
  let state := fst (xkb_state_update_key state i false) in
  let state := if (Z.land updates XKB_STATE_MODS_LOCKED =? 0)%Z then state
               else fst (xkb_state_update_key (fst (xkb_state_update_key state i true)) i false) in
  if (Z.land updates XKB_STATE_MODS_LATCHED =? 0)%Z then state else xkb_state_new map.

(** the loop over the keys *)
Fixpoint press_all (map : xkb_keymap) (state : xkb_state) (keys : list Z) (s : mod_lists) : or_fault mod_lists :=
  match keys with
  | [] => inr s
  | i :: keys =>
      let '(state, updates) := xkb_state_update_key state i true in
      let updates := Z.land updates XKB_STATE_MODS in
      if (updates =? 0)%Z then press_all map (fst (xkb_state_update_key state i false)) keys s
      else fbind (add_active state updates i numbered_names s)
             (press_all map (release map state i updates) keys)
  end.

(** one of the lists, copied to the array of the result from [base] on *)
Fixpoint copy_list (fuel : nat) (s : mod_lists) (kpm base cnt : nat) (curr : option nat) (out : list Z) : or_fault (list Z) :=
  match fuel with
  | O => inl OutOfFuel
  | S fuel =>
      match curr with
      | None => inr out
      | Some c =>
          fbind (fcheck AssertFailed (cnt <? kpm)) (fun _ =>
          fbind (aread (keycodes s) c) (fun k =>
          fbind (match k with Some k => inr k | None => inl UndefinedBehaviour end) (fun k =>
          fbind (awrite out (base + cnt) (k mod 2 ^ 8)%Z) (fun out =>
          fbind (aread (next_keycode_indices s) c) (fun next =>
          copy_list fuel s kpm base (S cnt) next out)))))
      end
  end.
Fixpoint copy_lists (s : mod_lists) (kpm i : nat) (heads : list (option nat)) (out : list Z) : or_fault (list Z) :=
  match heads with
  | [] => inr out
  | h :: heads => fbind (copy_list (S MAX_KEYCODE) s kpm (i * kpm) 0 h out) (copy_lists s kpm (S i) heads)
  end.

(** the integers from [min] to [max] *)
Definition key_range (min max : Z) : list Z := map (fun i => min + Z.of_nat i)%Z (seq 0 (Z.to_nat (max - min + 1))).

(** [find_modifiers] *)
Definition find_modifiers (map : xkb_keymap) (min max : Z) : or_fault (nat * list Z) :=
  fbind (fcheck AssertFailed (forallb (fun n => bool_decide (is_Some (xkb_map_mod_get_index map n))) xkb_modifier_names)) (fun _ =>
  fbind (press_all map (xkb_state_new map) (key_range min max) mod_lists_init) (fun s =>
  let kpm := fold_left Nat.max (modifier_keycode_count s) 0 in
  fbind (copy_lists s kpm 0 (modifier_keycode_head s) (replicate (8 * kpm) 0%Z)) (fun out =>
  inr (kpm, out)))).

(** ** The table of keysyms *)

(** the bounds of the keycodes: those of the map, within those of the server *)
Definition keycode_bounds (map : xkb_keymap) (setup_min setup_max : Z) : Z * Z :=
  let max_keycode := xkb_keymap_max_keycode map in
  let min_keycode := xkb_keymap_min_keycode map in
  ((if min_keycode <? setup_min then setup_min else min_keycode)%Z,
   (if setup_max <? max_keycode then setup_max else max_keycode)%Z).

(** [keysym_per_keycode] *)
Definition keysym_per_keycode (map : xkb_keymap) (keys : list Z) : nat :=
  fold_left (fun m i => if m <? xkb_keymap_num_levels_for_key map i then xkb_keymap_num_levels_for_key map i else m) keys 0 + 2.

(** the body of the loop over the levels [j] of the key number [i]; the second component
    are the warnings *)
Definition put_level (map : xkb_keymap) (kpk i : nat) (key : Z) (j : nat) (t : list Z * nat) : or_fault (list Z * nat) :=
  let '(keysyms, warnings) := t in
  match xkb_keymap_key_get_syms_by_level map key j with
  | [] => inr t
  | [sym] =>
      fbind (if j <? 2 then awrite keysyms (i * kpk + j) sym else inr keysyms) (fun keysyms =>
      fbind (awrite keysyms (i * kpk + j + 2) sym) (fun keysyms => inr (keysyms, warnings)))
  | _ => inr (keysyms, S warnings)
  end.
Fixpoint put_levels (map : xkb_keymap) (kpk i : nat) (key : Z) (js : list nat) (t : list Z * nat) : or_fault (list Z * nat) :=
  match js with
  | [] => inr t
  | j :: js => fbind (put_level map kpk i key j t) (put_levels map kpk i key js)
  end.
Fixpoint put_keys (map : xkb_keymap) (kpk i : nat) (keys : list Z) (t : list Z * nat) : or_fault (list Z * nat) :=
  match keys with
  | [] => inr t
  | key :: keys =>
      fbind (put_levels map kpk i key (seq 0 (xkb_keymap_num_levels_for_key map key)) t) (put_keys map kpk (S i) keys)
  end.
(** the table, with the width of its rows and the number of warnings *)
Definition keysym_table (map : xkb_keymap) (keys : list Z) : or_fault (nat * list Z * nat) :=
  let kpk := keysym_per_keycode map keys in
  fbind (put_keys map kpk 0 keys (replicate (kpk * length keys) 0%Z, 0)) (fun '(t, n) => inr (kpk, t, n)).
End Keymap.

(** ** What the tables are to contain *)

Section reference.
Context {K : Xkb}.

(** the modifiers a key sets, in the order of their numbers *)
Definition active_modifiers (state : xkb_state) (updates : Z) : list nat :=
  fst <$> filter (fun jn : nat * string => xkb_state_mod_name_is_active state (snd jn) updates <> 0%Z) numbered_names.
(** the pairs of a key and a modifier it sets, in the order in which the keys are tried *)
Fixpoint mod_presses (map : xkb_keymap) (state : xkb_state) (keys : list Z) : list (Z * nat) :=
  match keys with
  | [] => []
  | i :: keys =>
      let '(state, updates) := xkb_state_update_key state i true in
      let updates := Z.land updates XKB_STATE_MODS in
      if (updates =? 0)%Z then mod_presses map (fst (xkb_state_update_key state i false)) keys
      else (pair i <$> active_modifiers state updates) ++ mod_presses map (release map state i updates) keys
  end.
(** the keys of a modifier, the last one first *)
Fixpoint mod_row (ps : list (Z * nat)) (j : nat) : list Z :=
  match ps with
  | [] => []
  | (i, j') :: ps => mod_row ps j ++ (if decide (j' = j) then [i] else [])
  end.
Definition row_width (ps : list (Z * nat)) : nat := fold_left Nat.max ((fun j => length (mod_row ps j)) <$> seq 0 8) 0.
Definition pad (n : nat) (l : list Z) : list Z := l ++ replicate (n - length l) 0%Z.
Definition byte_of (i : Z) : Z := (i mod 2 ^ 8)%Z.
(** eight rows, one per modifier, of the keys that set it *)
Definition mod_rows (ps : list (Z * nat)) : list Z :=
  concat ((fun j => pad (row_width ps) (byte_of <$> mod_row ps j)) <$> seq 0 8).
(** the arrays hold [MAX_KEYCODE] pairs *)
Definition find_modifiers_ref (map : xkb_keymap) (min max : Z) : or_fault (nat * list Z) :=
  if forallb (fun n => bool_decide (is_Some (xkb_map_mod_get_index map n))) xkb_modifier_names then
    let ps := mod_presses map (xkb_state_new map) (key_range min max) in
    if length ps <=? MAX_KEYCODE then inr (row_width ps, mod_rows ps) else inl UndefinedBehaviour
  else inl AssertFailed.

(** the keysym of a key at a level; 0 where there is none, or more than one *)
Definition sym_at (map : xkb_keymap) (key : Z) (j : nat) : Z :=
  if decide (j < xkb_keymap_num_levels_for_key map key)
  then match xkb_keymap_key_get_syms_by_level map key j with [sym] => sym | _ => 0%Z end
  else 0%Z.
(** the first two levels are given twice: the server has two groups, the map has one *)
Definition keysym_row (map : xkb_keymap) (kpk : nat) (key : Z) : list Z :=
  (fun k => sym_at map key (if k <? 2 then k else k - 2)) <$> seq 0 kpk.
Definition ambiguous_levels (map : xkb_keymap) (key : Z) : nat :=
  length (filter (fun j => 1 < length (xkb_keymap_key_get_syms_by_level map key j))
            (seq 0 (xkb_keymap_num_levels_for_key map key))).
Definition max_levels (map : xkb_keymap) (keys : list Z) : nat :=
  fold_right Nat.max 0 (xkb_keymap_num_levels_for_key map <$> keys).
End reference.

(** ** Rows *)

Lemma mod_row_app ps qs j : mod_row (ps ++ qs) j = mod_row qs j ++ mod_row ps j.
Proof. induction ps as [|[i j'] ps IH]; simpl; [by rewrite app_nil_r|]. by rewrite IH, app_assoc. Qed.
Lemma mod_row_length ps j : length (mod_row ps j) <= length ps.
Proof. induction ps as [|[i j'] ps IH]; simpl; [lia|]. rewrite length_app. case_decide; simpl; lia. Qed.

(** ** The lists in the arrays *)

Section lists.
Context {K : Xkb}.

(** from [curr] on the list in the arrays is [l]; it uses elements before [b] only *)
Fixpoint chain (s : mod_lists) (b : nat) (curr : option nat) (l : list Z) : Prop :=
  match l with
  | [] => curr = None
  | k :: l => exists c n, curr = Some c /\ c < b /\ keycodes s !! c = Some (Some k) /\
                next_keycode_indices s !! c = Some n /\ chain s b n l
  end.

Record lists_ok (ps : list (Z * nat)) (s : mod_lists) : Prop := {
  ok_total : total_keycodes s = length ps;
  ok_room : length ps <= MAX_KEYCODE;
  ok_next : length (next_keycode_indices s) = MAX_KEYCODE;
  ok_keycodes : length (keycodes s) = MAX_KEYCODE;
  ok_counts : modifier_keycode_count s = ((fun j => length (mod_row ps j)) <$> seq 0 8);
  ok_heads : length (modifier_keycode_head s) = 8;
  ok_chains : forall j h, modifier_keycode_head s !! j = Some h -> chain s (length ps) h (mod_row ps j)
}.

Lemma lists_ok_init : lists_ok [] mod_lists_init.
Proof.
  constructor; try reflexivity; [simpl; lia|]. intros j h Hh.
  change (replicate 8 (@None nat) !! j = Some h) in Hh. by apply lookup_replicate in Hh as [-> _].
Qed.

Lemma chain_mono s s' b b' curr l : b <= b' ->
  (forall c, c < b -> keycodes s' !! c = keycodes s !! c /\ next_keycode_indices s' !! c = next_keycode_indices s !! c) ->
  chain s b curr l -> chain s' b' curr l.
Proof.
  intros Hb Hs. revert curr. induction l as [|k l IH]; intros curr; [done|].
  intros (c & n & -> & Hc & Hk & Hn & Hl). destruct (Hs c Hc) as [E1 E2].
  exists c, n. rewrite E1, E2. split_and!; auto; lia.
Qed.

Lemma counts_lookup ps j : j < 8 -> ((fun j => length (mod_row ps j)) <$> seq 0 8) !! j = Some (length (mod_row ps j)).
Proof. intros Hj. rewrite list_lookup_fmap, lookup_seq_lt by done. done. Qed.

Lemma counts_insert ps i j : j < 8 ->
  <[j := S (length (mod_row ps j))]> ((fun j => length (mod_row ps j)) <$> seq 0 8) =
  (fun j' => length (mod_row (ps ++ [(i, j)]) j')) <$> seq 0 8.
Proof.
  intros Hj. apply list_eq. intros j'. rewrite list_lookup_insert, !list_lookup_fmap, length_fmap, length_seq.
  destruct (decide (j' < 8)) as [Hj'|].
  2:{ rewrite lookup_ge_None_2 by (rewrite length_seq; lia). rewrite decide_False by lia. done. }
  rewrite lookup_seq_lt by lia. simpl. rewrite mod_row_app. simpl.
  destruct (decide (j = j' /\ j < 8)) as [[-> _]|Hne].
  - by rewrite decide_True.
  - rewrite decide_False by (intros ->; by destruct Hne). done.
Qed.

Lemma add_keycode_ok i j s ps : lists_ok ps s -> j < 8 ->
  if length ps <? MAX_KEYCODE then exists s', add_keycode i j s = inr s' /\ lists_ok (ps ++ [(i, j)]) s'
  else add_keycode i j s = inl UndefinedBehaviour.
Proof.
  intros [Ht Hr Hn Hk Hc Hh Hch] Hj. unfold add_keycode.
  destruct (lookup_lt_is_Some_2 (modifier_keycode_head s) j) as [h Hhj]; [lia|].
  rewrite (aread_eq _ _ _ Hhj). cbn [fbind]. rewrite Ht.
  destruct (Nat.ltb_spec (length ps) MAX_KEYCODE) as [Hlt|Hge].
  2:{ by rewrite awrite_out by lia. }
  rewrite (awrite_eq (next_keycode_indices s)) by lia. cbn [fbind]. rewrite awrite_eq by lia. cbn [fbind].
  rewrite awrite_eq by lia. cbn [fbind]. rewrite Hc, (aread_eq _ _ _ (counts_lookup ps j Hj)). cbn [fbind].
  rewrite awrite_eq by (by rewrite length_fmap, length_seq). cbn [fbind]. rewrite (counts_insert _ i) by done.
  eexists. split; [done|].
  constructor; cbn [total_keycodes next_keycode_indices keycodes modifier_keycode_count modifier_keycode_head];
    rewrite ?length_insert, ?length_app; cbn [length]; try (done || lia).
  intros j' h' Hh'. rewrite mod_row_app. cbn [mod_row app].
  assert (Hold : forall h0 l, chain s (length ps) h0 l ->
    chain (ModLists ((fun j' => length (mod_row (ps ++ [(i, j)]) j')) <$> seq 0 8)
      (<[length ps := h]> (next_keycode_indices s)) (<[length ps := Some i]> (keycodes s)) (S (length ps))
      (<[j := Some (length ps)]> (modifier_keycode_head s))) (length ps + 1) h0 l).
  { intros h0 l. apply chain_mono; [lia|]. intros c Hc'. simpl. by rewrite !list_lookup_insert_ne by lia. }
  apply list_lookup_insert_Some in Hh' as [(-> & <- & _)|[Hne Hh']].
  - rewrite decide_True by done. exists (length ps), h. cbn [keycodes next_keycode_indices].
    rewrite !list_lookup_insert_eq by lia. split_and!; [done|lia|done|done|]. by apply Hold, Hch.
  - rewrite decide_False by done. eapply chain_mono; [|intros c Hlt'|by apply Hch]; [lia|].
    simpl. by rewrite !list_lookup_insert_ne by lia.
Qed.

(** the steps that add the pairs [qs] to the lists *)
Definition adds (ps qs : list (Z * nat)) (r : or_fault mod_lists) : Prop :=
  if length (ps ++ qs) <=? MAX_KEYCODE then exists s', r = inr s' /\ lists_ok (ps ++ qs) s'
  else r = inl UndefinedBehaviour.

Lemma adds_nil ps s : lists_ok ps s -> adds ps [] (inr s).
Proof. intros H. unfold adds. rewrite app_nil_r. rewrite (proj2 (Nat.leb_le _ _)) by apply H. eauto. Qed.
Lemma adds_bind ps qs rs r (k : mod_lists -> or_fault mod_lists) : adds ps qs r ->
  (forall s, lists_ok (ps ++ qs) s -> adds (ps ++ qs) rs (k s)) -> adds ps (qs ++ rs) (fbind r k).
Proof.
  unfold adds. intros Hr Hk. rewrite <- app_assoc in Hk.
  destruct (Nat.leb_spec (length (ps ++ qs)) MAX_KEYCODE) as [H1|H1].
  - destruct Hr as (s & -> & Hs). by apply Hk.
  - subst r. rewrite (proj2 (Nat.leb_gt _ _)); [done|]. rewrite !length_app in *. lia.
Qed.
Lemma adds_one ps i j s : lists_ok ps s -> j < 8 -> adds ps [(i, j)] (add_keycode i j s).
Proof.
  intros Hs Hj. pose proof (add_keycode_ok i j s ps Hs Hj) as H. unfold adds. rewrite length_app. simpl.
  destruct (Nat.ltb_spec (length ps) MAX_KEYCODE); destruct (Nat.leb_spec (length ps + 1) MAX_KEYCODE); try lia; done.
Qed.

Lemma numbered_names_bound : Forall (fun jn => fst jn < 8) numbered_names.
Proof. vm_compute. repeat constructor. Qed.

Lemma add_active_adds state updates i js ps s : lists_ok ps s -> Forall (fun jn => fst jn < 8) js ->
  adds ps (pair i <$> (fst <$> filter (fun jn : nat * string => xkb_state_mod_name_is_active state (snd jn) updates <> 0%Z) js))
    (add_active state updates i js s).
Proof.
  revert ps s. induction js as [|[j name] js IH]; intros ps s Hs Hjs; [by apply adds_nil|].
  apply Forall_cons in Hjs as [Hj Hjs]. simpl add_active. rewrite filter_cons. simpl snd.
  destruct (Z.eqb_spec (xkb_state_mod_name_is_active state name updates) 0) as [He|He].
  - rewrite decide_False by tauto. by apply IH.
  - rewrite decide_True by done. simpl. apply (adds_bind _ [(i, j)]); [by apply adds_one|].
    intros s' Hs'. by apply IH.
Qed.

Lemma press_all_adds map keys : forall state ps s, lists_ok ps s ->
  adds ps (mod_presses map state keys) (press_all map state keys s).
Proof.
  induction keys as [|i keys IH]; intros state ps s Hs; [by apply adds_nil|]. cbn [mod_presses press_all].
  destruct (xkb_state_update_key state i true) as [state' updates].
  destruct (Z.land updates XKB_STATE_MODS =? 0)%Z; [by apply IH|].
  apply adds_bind; [apply add_active_adds; [done|]|intros s' Hs'; by apply IH].
  apply numbered_names_bound.
Qed.

(** ** Copying the lists to the result *)

Lemma copy_list_ok s kpm base b : forall l fuel cnt curr out,
  chain s b curr l -> length l < fuel -> cnt + length l <= kpm -> base + kpm <= length out ->
  copy_list fuel s kpm base cnt curr out =
  inr (take (base + cnt) out ++ (byte_of <$> l) ++ drop (base + cnt + length l) out).
Proof.
  induction l as [|k l IH]; intros [|fuel] cnt curr out Hc Hf Hk Hb; simpl in Hf; try lia.
  - simpl in Hc. subst curr. simpl. by rewrite Nat.add_0_r, take_drop.
  - destruct Hc as (c & n & -> & Hlt & Hkc & Hn & Hch). cbn [copy_list]. simpl in Hk.
    unfold fcheck. rewrite (proj2 (Nat.ltb_lt _ _)) by lia. cbn [fbind].
    rewrite (aread_eq _ _ _ Hkc). cbn [fbind]. rewrite awrite_eq by lia. cbn [fbind].
    rewrite (aread_eq _ _ _ Hn). cbn [fbind].
    rewrite IH by (rewrite ?length_insert; (done || lia)). f_equal.
    rewrite fmap_cons. cbn [app length].
    rewrite drop_insert_lt by lia. replace (base + S cnt) with (S (base + cnt)) by lia.
    rewrite (take_S_r _ _ (byte_of k)) by (by rewrite list_lookup_insert_eq by lia).
    rewrite take_insert, decide_False by lia. rewrite <- app_assoc. cbn [app].
    by replace (S (base + cnt) + length l) with (base + cnt + S (length l)) by lia.
Qed.

Lemma copy_lists_ok s kpm ps : (forall j, length (mod_row ps j) <= kpm) -> length ps <= MAX_KEYCODE ->
  forall heads i done, length done = i * kpm ->
  (forall k h, heads !! k = Some h -> chain s (length ps) h (mod_row ps (i + k))) ->
  copy_lists s kpm i heads (done ++ replicate (length heads * kpm) 0%Z) =
  inr (done ++ concat ((fun j => pad kpm (byte_of <$> mod_row ps j)) <$> seq i (length heads))).
Proof.
  intros Hkpm Hps. induction heads as [|h heads IH]; intros i dn Hd Hh; [done|]. cbn [copy_lists].
  pose proof (mod_row_length ps i). pose proof (Hkpm i).
  rewrite (copy_list_ok _ _ _ (length ps) (mod_row ps i)).
  2:{ specialize (Hh 0 h eq_refl). by rewrite Nat.add_0_r in Hh. }
  2:{ lia. }
  2:{ done. }
  2:{ rewrite length_app, length_replicate. simpl. lia. }
  cbn [fbind length Nat.mul seq].
  rewrite fmap_cons. cbn [concat]. rewrite Nat.add_0_r, <- Hd, take_app_length.
  rewrite drop_app_ge by lia. rewrite Nat.add_comm, Nat.add_sub, drop_replicate.
  replace (kpm + length heads * kpm - length (mod_row ps i)) with
    ((kpm - length (mod_row ps i)) + length heads * kpm) by lia.
  rewrite replicate_add, !app_assoc.
  assert (Hp : (byte_of <$> mod_row ps i) ++ replicate (kpm - length (mod_row ps i)) 0%Z = pad kpm (byte_of <$> mod_row ps i)).
  { unfold pad. by rewrite length_fmap. }
  rewrite <- (app_assoc dn), Hp, IH.
  - by rewrite <- !app_assoc.
  - rewrite length_app. unfold pad. rewrite length_app, length_replicate, length_fmap. lia.
  - intros k h' Hk. specialize (Hh (S k) h' Hk). by replace (S i + k) with (i + S k) by lia.
Qed.

Lemma fold_left_max_ge l : forall a x, x ∈ a :: l -> x <= fold_left Nat.max l a.
Proof.
  induction l as [|y l IH]; intros a x Hx; simpl.
  - apply list_elem_of_singleton in Hx. lia.
  - apply elem_of_cons in Hx as [->|Hx]; [|apply elem_of_cons in Hx as [->|Hx]].
    + transitivity (Nat.max a y); [lia|]. apply IH. left.
    + transitivity (Nat.max a y); [lia|]. apply IH. left.
    + apply IH. by right.
Qed.

Lemma mod_row_width ps j : Forall (fun p => snd p < 8) ps -> length (mod_row ps j) <= row_width ps.
Proof.
  intros Hps. destruct (decide (j < 8)) as [Hj|Hj].
  - apply fold_left_max_ge. right. apply list_elem_of_fmap.
    exists j. split; [done|]. apply elem_of_seq. lia.
  - assert (mod_row ps j = []) as ->; [|simpl; lia].
    induction Hps as [|[i j'] ps Hj' _ IH]; [done|]. simpl in *. rewrite IH. by rewrite decide_False by lia.
Qed.

Lemma mod_presses_bound map keys : forall state, Forall (fun p => snd p < 8) (mod_presses map state keys).
Proof.
  induction keys as [|i keys IH]; intros state; [constructor|]. cbn [mod_presses].
  destruct (xkb_state_update_key state i true) as [state' updates].
  destruct (Z.land updates XKB_STATE_MODS =? 0)%Z; [apply IH|]. apply Forall_app. split; [|apply IH].
  apply Forall_fmap. unfold active_modifiers. apply Forall_fmap, Forall_forall. intros jn [_ Hjn]%list_elem_of_filter. simpl.
  pose proof numbered_names_bound as Hn. rewrite Forall_forall in Hn. by apply Hn.
Qed.

(** The array of linked lists that [find_modifiers] builds and copies: on every keyboard the
    result are eight rows, one per modifier, of the keys that set it, the last one first,
    padded with zeros to the length of the longest. The program writes past its arrays
    exactly when there are more than [MAX_KEYCODE] pairs of a key and a modifier, and no
    assertion fails but the one on the names of the modifiers. C24. *)
Theorem find_modifiers_correct map min max : find_modifiers map min max = find_modifiers_ref map min max.
Proof.
  unfold find_modifiers, find_modifiers_ref, fcheck.
  destruct (forallb _ xkb_modifier_names); [|done]. cbn [fbind].
  pose proof (press_all_adds map (key_range min max) (xkb_state_new map) [] _ lists_ok_init) as H.
  pose proof (mod_presses_bound map (key_range min max) (xkb_state_new map)) as Hb.
  set (ps := mod_presses _ _ _) in *. unfold adds in H. cbn [app] in H.
  destruct (Nat.leb_spec (length ps) MAX_KEYCODE) as [Hlen|]; [|by rewrite H].
  destruct H as (s & -> & Hs). cbn [fbind]. rewrite (ok_counts _ _ Hs). fold (row_width ps).
  pose proof (copy_lists_ok s (row_width ps) ps (fun j => mod_row_width ps j Hb) Hlen (modifier_keycode_head s) 0 [] eq_refl) as Hc.
  rewrite (ok_heads _ _ Hs) in Hc. cbn [app] in Hc. rewrite Hc; [done|]. apply (ok_chains _ _ Hs).
Qed.
End lists.

(** ** The table of keysyms *)

Section keysyms.
Context {K : Xkb} (map : xkb_keymap).

(** a row when the levels before [m] have been entered *)
Definition partial_row (kpk : nat) (key : Z) (m : nat) : list Z :=
  (fun k => if decide ((if k <? 2 then k else k - 2) < m) then sym_at map key (if k <? 2 then k else k - 2) else 0%Z) <$> seq 0 kpk.

Lemma partial_row_lookup kpk key m k : k < kpk -> partial_row kpk key m !! k =
  Some (if decide ((if k <? 2 then k else k - 2) < m) then sym_at map key (if k <? 2 then k else k - 2) else 0%Z).
Proof. intros Hk. unfold partial_row. by rewrite list_lookup_fmap, lookup_seq_lt. Qed.
Lemma partial_row_length kpk key m : length (partial_row kpk key m) = kpk.
Proof. unfold partial_row. by rewrite length_fmap, length_seq. Qed.

Lemma partial_row_0 kpk key : partial_row kpk key 0 = replicate kpk 0%Z.
Proof.
  apply list_eq. intros k. destruct (decide (k < kpk)) as [Hk|Hk].
  - rewrite partial_row_lookup, lookup_replicate_2 by done. rewrite decide_False by (destruct (k <? 2); lia). done.
  - rewrite !lookup_ge_None_2; [done|rewrite length_replicate; lia|rewrite partial_row_length; lia].
Qed.
Lemma partial_row_all kpk key : partial_row kpk key (xkb_keymap_num_levels_for_key map key) = keysym_row map kpk key.
Proof.
  unfold partial_row, keysym_row. apply list_fmap_ext. intros _ k _. unfold sym_at. by destruct (decide _).
Qed.

(** the same symbol in the place of the level in both groups *)
Lemma partial_row_S kpk key j : j + 2 < kpk ->
  partial_row kpk key (S j) =
  <[j + 2 := sym_at map key j]> (if j <? 2 then <[j := sym_at map key j]> (partial_row kpk key j) else partial_row kpk key j).
Proof.
  intros Hj. apply list_eq. intros k. destruct (decide (k < kpk)) as [Hk|Hk].
  2:{ rewrite !lookup_ge_None_2; [done| |rewrite partial_row_length; lia].
      rewrite length_insert. destruct (j <? 2); rewrite ?length_insert, partial_row_length; lia. }
  rewrite partial_row_lookup by done.
  destruct (decide (k = j + 2)) as [->|Hne].
  { rewrite list_lookup_insert_eq by (destruct (j <? 2); rewrite ?length_insert, partial_row_length; lia).
    rewrite (proj2 (Nat.ltb_ge _ _)) by lia. replace (j + 2 - 2) with j by lia. by rewrite decide_True by lia. }
  rewrite list_lookup_insert_ne by done. destruct (Nat.ltb_spec j 2) as [Hj2|Hj2].
  - destruct (decide (k = j)) as [->|Hkj].
    + rewrite list_lookup_insert_eq by (rewrite partial_row_length; lia).
      rewrite (proj2 (Nat.ltb_lt _ _)) by lia. by rewrite decide_True by lia.
    + rewrite list_lookup_insert_ne, partial_row_lookup by done. f_equal.
      destruct (Nat.ltb_spec k 2); repeat case_decide; (done || lia).
  - rewrite partial_row_lookup by done. f_equal. destruct (Nat.ltb_spec k 2); repeat case_decide; (done || lia).
Qed.
(** a level without a symbol of its own is left zero *)
Lemma partial_row_skip kpk key j : sym_at map key j = 0%Z -> partial_row kpk key (S j) = partial_row kpk key j.
Proof.
  intros H0. unfold partial_row. apply list_fmap_ext. intros _ k _. generalize (if k <? 2 then k else k - 2). intros i.
  destruct (decide (i = j)) as [->|]; repeat case_decide; (done || lia).
Qed.

(** a write into the row [row] of a table *)
Lemma awrite_row (l1 row l2 : list Z) i x : i < length row ->
  awrite (l1 ++ row ++ l2) (length l1 + i) x = inr (l1 ++ <[i := x]> row ++ l2).
Proof.
  intros Hi. rewrite awrite_eq by (rewrite !length_app; lia).
  rewrite insert_app_r_alt by lia. rewrite Nat.add_comm, Nat.add_sub. by rewrite insert_app_l by done.
Qed.

Lemma put_level_ok kpk key j l1 l2 i n : length l1 = i * kpk ->
  j < xkb_keymap_num_levels_for_key map key -> j + 2 < kpk ->
  put_level map kpk i key j (l1 ++ partial_row kpk key j ++ l2, n) =
  inr (l1 ++ partial_row kpk key (S j) ++ l2,
       n + if 1 <? length (xkb_keymap_key_get_syms_by_level map key j) then 1 else 0).
Proof.
  intros Hl Hj Hk. unfold put_level.
  pose proof (partial_row_skip kpk key j) as Hskip. pose proof (partial_row_S kpk key j Hk) as Hset.
  unfold sym_at in Hskip, Hset. rewrite decide_True in Hskip, Hset by done.
  destruct (xkb_keymap_key_get_syms_by_level map key j) as [|sym [|sym' syms]]; cbn [length].
  - rewrite Hskip by done. by rewrite Nat.add_0_r.
  - rewrite Hset, <- Hl, <- Nat.add_assoc, Nat.add_0_r.
    destruct (j <? 2); [rewrite awrite_row by (rewrite partial_row_length; lia)|]; cbn [fbind];
      (rewrite awrite_row by (rewrite ?length_insert, partial_row_length; lia)); done.
  - rewrite Hskip by done. rewrite (proj2 (Nat.ltb_lt _ _)) by lia. by rewrite Nat.add_1_r.
Qed.

Lemma put_levels_ok kpk key l1 l2 i : length l1 = i * kpk -> xkb_keymap_num_levels_for_key map key + 2 <= kpk ->
  forall m j n, j + m = xkb_keymap_num_levels_for_key map key ->
  put_levels map kpk i key (seq j m) (l1 ++ partial_row kpk key j ++ l2, n) =
  inr (l1 ++ keysym_row map kpk key ++ l2,
       n + length (filter (fun j => 1 < length (xkb_keymap_key_get_syms_by_level map key j)) (seq j m))).
Proof.
  intros Hl Hk. induction m as [|m IH]; intros j n Hm.
  - cbn [seq put_levels filter list_filter length]. rewrite Nat.add_0_r in *. subst j. by rewrite partial_row_all.
  - cbn [seq put_levels]. rewrite put_level_ok by (done || lia). cbn [fbind]. rewrite IH by lia.
    rewrite filter_cons. destruct (Nat.ltb_spec 1 (length (xkb_keymap_key_get_syms_by_level map key j))).
    + rewrite decide_True by done. cbn [length]. do 2 f_equal. lia.
    + rewrite decide_False by lia. do 2 f_equal. lia.
Qed.

Lemma put_keys_ok kpk keys : forall l1 i n, length l1 = i * kpk ->
  Forall (fun key => xkb_keymap_num_levels_for_key map key + 2 <= kpk) keys ->
  put_keys map kpk i keys (l1 ++ replicate (kpk * length keys) 0%Z, n) =
  inr (l1 ++ concat (keysym_row map kpk <$> keys), n + sum_list (ambiguous_levels map <$> keys)).
Proof.
  induction keys as [|key keys IH]; intros l1 i n Hl Hk.
  - cbn. by rewrite Nat.mul_0_r, Nat.add_0_r.
  - apply Forall_cons in Hk as [Hk Hks]. cbn [put_keys length].
    rewrite Nat.mul_succ_r, Nat.add_comm, replicate_add, <- (partial_row_0 kpk key).
    rewrite (put_levels_ok kpk key l1 _ i Hl Hk _ 0) by done. cbn [fbind].
    rewrite app_assoc, (IH _ (S i)) by
      (try done; rewrite length_app; unfold keysym_row; rewrite length_fmap, length_seq; lia).
    rewrite !fmap_cons. cbn [concat sum_list sum_list_with]. rewrite <- app_assoc. do 2 f_equal.
    unfold id, ambiguous_levels. by rewrite Nat.add_assoc.
Qed.

Lemma keysym_per_keycode_eq keys : keysym_per_keycode map keys = max_levels map keys + 2.
Proof.
  unfold keysym_per_keycode, max_levels. f_equal.
  assert (H : forall keys m, fold_left (fun m i => if m <? xkb_keymap_num_levels_for_key map i then xkb_keymap_num_levels_for_key map i else m) keys m =
    Nat.max m (fold_right Nat.max 0 (xkb_keymap_num_levels_for_key map <$> keys))).
  { intros ks. induction ks as [|key ks IH]; intros m; [simpl; lia|]. cbn [fold_left fmap list_fmap fold_right].
    rewrite IH. destruct (Nat.ltb_spec m (xkb_keymap_num_levels_for_key map key)); simpl; lia. }
  rewrite H. lia.
Qed.

Lemma max_levels_ge keys key : key ∈ keys -> xkb_keymap_num_levels_for_key map key <= max_levels map keys.
Proof.
  unfold max_levels. intros Hk. induction keys as [|key' keys IH]; [by apply not_elem_of_nil in Hk|].
  rewrite fmap_cons. cbn [fold_right]. apply elem_of_cons in Hk as [->|Hk]; [lia|]. specialize (IH Hk). lia.
Qed.

(** The table of keysyms: whatever the keyboard map, every write is inside the table, which
    has a row for every key, as long as the key with the most levels needs in both groups;
    a level that has one symbol is there twice if it is one of the first two, and one
    warning is given for every level with several. C25. *)
Theorem keysym_table_correct keys :
  keysym_table map keys =
  inr (max_levels map keys + 2, concat (keysym_row map (max_levels map keys + 2) <$> keys),
       sum_list (ambiguous_levels map <$> keys)).
Proof.
  unfold keysym_table. rewrite keysym_per_keycode_eq.
  pose proof (put_keys_ok (max_levels map keys + 2) keys [] 0 0 eq_refl) as H. cbn [app] in H. rewrite H; [done|]. clear H.
  apply Forall_forall. intros key Hkey. pose proof (max_levels_ge keys key Hkey). lia.
Qed.
End keysyms.
