(* ===== verification/Xcb.v ===== *)
(** * X connections: [plugins/xorg/xorg.h], and what the extensions use of [xorg.c]

    libxcb is a parameter: what it answers may depend on all that was called before. This
    file has the connection object, its cache of atoms, the counting of signals that starts
    and stops the event source, and the members that come from Lua. *)

From S2P Require Export Promise Errors Roots System Keymap.
From Stdlib Require Import Ascii.

(** a root window of the setup of a connection *)
Record x_screen := XScreen { scr_root : Z; scr_width : Z; scr_height : Z }.

(** the fields of an event that the program looks at: those of a key event ([detail],
    [state]), of a mapping event ([request]), of a generic event ([extension], [event_type],
    and of a hierarchy event the devices with their flags), of the events of RandR *)
Record x_event := XEvent {
  response_type : Z;
  ev_detail : Z;
  ev_state : Z;
  ev_request : Z;
  ev_extension : Z;
  event_type : Z;
  ev_infos : list (Z * Z);
  config_timestamp : Z;
  subCode : Z;
  ev_output : Z;
  ev_crtc : Z
}.

(** [xcb_input_xi_device_info_t] *)
Record xi_device_info := XiDeviceInfo { xi_deviceid : Z; xi_type : Z; xi_name : string }.
(** the reply to a request for a property: the items are unsigned integers of [format] bits *)
Record property_reply := PropertyReply {
  p_type : Z; p_format : Z; p_bytes_after : Z; p_items : list Z; p_bytes : string }.
(** [xcb_randr_mode_info_t] *)
Record mode_info := ModeInfo {
  mi_id : Z; mi_width : Z; mi_height : Z; mi_dot_clock : Z; mi_htotal : Z; mi_vtotal : Z; mi_flags : Z }.
Record output_info_reply := OutputInfoReply {
  oi_status : Z; oi_crtc : Z; oi_mm_width : Z; oi_mm_height : Z; oi_connection : Z; oi_subpixel_order : Z;
  oi_num_preferred : Z; oi_crtcs : list Z; oi_modes : list Z; oi_name : string }.
Record screen_resources := ScreenResources {
  sr_config_timestamp : Z; sr_crtcs : list Z; sr_outputs : list Z; sr_modes : list mode_info }.
Record crtc_info_reply := CrtcInfoReply {
  ci_status : Z; ci_timestamp : Z; ci_x : Z; ci_y : Z; ci_width : Z; ci_height : Z; ci_rotation : Z; ci_outputs : list Z }.

Class Xcb := {
  (** the connection, which is never NULL, and the default screen *)
  xcb_connect : option string -> world -> Z * Z;
  xcb_connection_has_error : Z -> world -> bool;
  xcb_get_file_descriptor : Z -> Z;
  xcb_setup_roots : Z -> list x_screen;
  (** [min_keycode] and [max_keycode] of the setup *)
  xcb_setup_keycodes : Z -> Z * Z;
  (** the address of the next event, and what is there *)
  xcb_poll_for_event : Z -> world -> option Z;
  x_event_at : Z -> world -> x_event;
  (** the error of a request, if there is one *)
  xcb_request_check : string -> list val -> world -> bool;
  (** the replies; [None]: there is none. [xcb_intern_atom]: without a reply there may be
      an error *)
  xcb_intern_atom : Z -> string -> world -> bool + Z;
  xcb_get_atom_name : Z -> Z -> world -> option string;
  xcb_get_property : Z -> Z -> Z -> world -> option (Z * string);
  xcb_list_extensions : Z -> world -> option (list string);
  xcb_query_extension : Z -> string -> world -> option (Z * Z);
  xcb_set_modifier_mapping : Z -> Z -> list Z -> world -> option Z;
  (** the keycodes per modifier, the length of the reply in units of four bytes, the
      keycodes *)
  xcb_get_modifier_mapping : Z -> world -> option (Z * Z * option (list Z));
  xcb_key_symbols_alloc : Z -> world -> Z;
  (** the keycodes before the one that is XCB_NO_SYMBOL *)
  xcb_key_symbols_get_keycode : Z -> Z -> world -> option (list Z);
  xcb_refresh_keyboard_mapping : Z -> Z -> world -> Z;
  xcb_input_xi_query_device : Z -> Z -> world -> option (list xi_device_info);
  xcb_input_list_input_devices : Z -> world -> option (list (Z * Z));
  xcb_input_xi_get_property : Z -> Z -> Z -> Z -> world -> option property_reply;
  xcb_randr_get_output_info : Z -> Z -> Z -> world -> option output_info_reply;
  xcb_randr_get_screen_resources : Z -> Z -> world -> option screen_resources;
  xcb_randr_get_screen_resources_current : Z -> Z -> world -> option screen_resources;
  xcb_randr_get_crtc_info : Z -> Z -> Z -> world -> option crtc_info_reply;
  xcb_randr_set_crtc_config : Z -> list Z -> list Z -> world -> option Z;
  xcb_randr_get_output_property : Z -> Z -> Z -> world -> option property_reply;
  xcb_randr_query_output_property : Z -> Z -> Z -> world -> option (list Z);
  (** the offset of a field, by the struct and the name of the field *)
  offset_of : string -> string -> Z
}.

Definition XCB_NO_SYMBOL : Z := 0.
Definition XCB_ATOM_NONE : Z := 0.
Definition XCB_ATOM_ATOM : Z := 4.
Definition XCB_ATOM_CARDINAL : Z := 6.
Definition XCB_ATOM_INTEGER : Z := 19.
Definition XCB_ATOM_STRING : Z := 31.
Definition XCB_GE_GENERIC : Z := 35.

(** [screen_of_display] *)
Fixpoint screen_of_display (iter : list x_screen) (screen : Z) : option x_screen :=
  match iter with
  | [] => None
  | s :: iter => if (screen =? 0)%Z then Some s else screen_of_display iter (screen - 1)
  end.

(** the test of [xorg_has_extension]: the names are compared up to the length of the one the
    server has *)
Definition strncmp_eq (n : nat) (a b : string) : bool := String.eqb (String.substring 0 n (c_str a)) (String.substring 0 n (c_str b)).
Definition names_extension (name : string) (l : list string) : bool :=
  existsb (fun x => strncmp_eq (String.length x) x name) l.

Definition XORG_CONNECTION_MEMBER : string := "___xorg_connection".
Definition builtin_member_name : string := "___builtins_lua".
Definition listen_handle_key : string := "__xcb_fd_event_read_listen_handle".
Definition strong_ext_key (name : string) : string := "___strong_x_ext_" +:+ name.

Abbreviation atom_entry := (Z * string)%type.
Definition find_atom (atom : Z) (l : list atom_entry) : option atom_entry := find (fun e => fst e =? atom)%Z l.
Definition find_atom_name (name : string) (l : list atom_entry) : option atom_entry := find (fun e => String.eqb (snd e) name) l.

Section Xcb.
Context {E : Env} {F : Ffi} {Y : System} {K : Xkb} {X : Xcb}.

Record connection := Connection {
  x_c : option Z; x_dflt_scrn : Z; x_nsignals : Z; x_xkb_ctx : option Z; x_atoms : list atom_entry }.
Definition get_xc (o : oid) : M connection :=
  ob <- get_obj o ;;
  match extra ob with PXorgConnection c s n k a => ret (Connection c s n k a) | _ => stuck WildPointer end.
Definition put_xc (o : oid) (x : connection) : M unit :=
  upd_obj o (set_extra (PXorgConnection (x_c x) (x_dflt_scrn x) (x_nsignals x) (x_xkb_ctx x) (x_atoms x))).
(** libxcb is given [xc->c] *)
Definition xcb_of (o : oid) : M Z :=
  x <- get_xc o ;;
  match x_c x with Some c => ret c | None => stuck NullDereference end.
Definition set_x_nsignals (n : Z) (x : connection) : connection := Connection (x_c x) (x_dflt_scrn x) n (x_xkb_ctx x) (x_atoms x).
Definition set_x_atoms (l : list atom_entry) (x : connection) : connection := Connection (x_c x) (x_dflt_scrn x) (x_nsignals x) (x_xkb_ctx x) l.

Definition get_ext (o : oid) : M xorg_ext :=
  ob <- get_obj o ;;
  match extra ob with PXorgExt e => ret e | _ => stuck WildPointer end.
Definition put_ext (o : oid) (e : xorg_ext) : M unit := upd_obj o (set_extra (PXorgExt e)).
Definition set_ext_nsignals (n : Z) (e : xorg_ext) : xorg_ext := XorgExt (extname e) n (opcode e) (handle_event_fn e) (ext_fields e).
Definition set_ext_fields (f : xext_fields) (e : xorg_ext) : xorg_ext :=
  XorgExt (extname e) (ext_nsignals e) (opcode e) (handle_event_fn e) f.

(** a request, and the reply to it *)
Definition request {A} (fn : string) (args : list val) (reply : world -> A) : M A :=
  r <- gets reply ;; call_ext fn args ;; ret r.
(** a request with [xcb_request_check] *)
Definition checked_request (fn : string) (args : list val) : M bool := request fn args (xcb_request_check fn args).

(** the screen of a connection; its fields are read *)
Definition screen_of (o : oid) : M x_screen :=
  x <- get_xc o ;;
  c <- xcb_of o ;;
  match screen_of_display (xcb_setup_roots c) (x_dflt_scrn x) with Some s => ret s | None => stuck NullDereference end.

(** [xorg_has_extension] *)
Definition xorg_has_extension (c : Z) (name : string) : M bool :=
  r <- request "xcb_list_extensions" [VNint c] (xcb_list_extensions c) ;;
  ret (match r with None => false | Some l => names_extension name l end).

(** [get_xorg_connection]: the reference is the caller's *)
Definition get_xorg_connection (ext : oid) : M (option oid) :=
  let* (r, _) := di_getxt ext (Some XORG_CONNECTION_MEMBER) DI_TYPE_OBJECT false in
  match r with
  | inl _ => ret None
  | inr (VObject dc) => ret (Some dc)
  | inr _ => stuck WildPointer
  end.
(** a function that begins with [get_xorg_connection], and its result without one *)
Definition with_connection {A} (ext : oid) (fail : M A) (k : oid -> M A) : M A :=
  dc <- get_xorg_connection ext ;;
  match dc with None => fail | Some dc => scoped (k dc) (di_unref_object dc) end.
(** [save_xorg_connection] *)
Definition save_xorg_connection (ext c : oid) : M unit :=
  rc <- di_member_clone ext XORG_CONNECTION_MEMBER (VObject c) ;; DI_CHECK_OK rc.

(** [di_get (o, name, r)] for an object that must be there, and goes with the function *)
Definition with_object {A} (o : oid) (name : string) (k : oid -> M A) : M A :=
  v <- get_checked o name DI_TYPE_OBJECT ;;
  match v with VObject x => scoped (k x) (di_unref_object x) | _ => stuck WildPointer end.

(** ** Atoms *)

(** [di_xorg_get_atom_name] *)
Definition di_xorg_get_atom_name (xc : oid) (atom : Z) : M (option string) :=
  x <- get_xc xc ;;
  match find_atom atom (x_atoms x) with
  | Some ae => ret (Some (snd ae))
  | None =>
      c <- xcb_of xc ;;
      r <- request "xcb_get_atom_name" [VNint c; VNuint atom] (xcb_get_atom_name c atom) ;;
      match r with
      | None => ret None
      | Some name => put_xc xc (set_x_atoms ((atom, name) :: x_atoms x) x) ;; ret (Some name)
      end
  end.

(** [di_xorg_intern_atom]: the atom, and whether there is an error *)
Definition di_xorg_intern_atom (xc : oid) (name : di_string) : M (Z * bool) :=
  x <- get_xc xc ;;
  let key := di_string_bytes name in
  match find_atom_name key (x_atoms x) with
  | Some ae => ret (fst ae, false)
  | None =>
      c <- xcb_of xc ;;
      r <- request "xcb_intern_atom" [VNint c; VString name] (xcb_intern_atom c key) ;;
      match r with
      | inl e => env_log DI_LOG_ERROR "Cannot intern atom" ;; ret (0%Z, e)
      | inr atom => put_xc xc (set_x_atoms ((atom, key) :: x_atoms x) x) ;; ret (atom, false)
      end
  end.

(** ** Signals *)

(** [di_xorg_add_signal]: the part that starts the event source *)
Definition start_xcb_event (xc : oid) : M unit :=
  weak_event <- get_weak xc "__weak_event_module" ;;
  scoped
    (eventm <- di_upgrade_weak_ref weak_event ;;
     match eventm with
     | None => env_log DI_LOG_INFO "cannot find event module"
     | Some eventm =>
         scoped
           (c <- xcb_of xc ;;
            r <- di_callr eventm "fdevent" DI_TYPE_OBJECT [VNint (xcb_get_file_descriptor c)] ;;
            match r with
            | inr (VObject xcb_fd_event) =>
                scoped
                  (cl <- di_create_closure "di_xorg_ioev" DI_TYPE_NIL [VObject xc] 0 [] ;;
                   match cl with
                   | inl _ => stuck WildPointer
                   | inr cl =>
                       scoped
                         (lh <- di_listen_to xcb_fd_event (Some "read") cl false ;;
                          match lh with
                          | inl _ => stuck NullDereference
                          | inr lh =>
                              rc <- di_call lh "auto_stop" [VNint 1] ;;
                              DI_CHECK_OK rc ;;
                              _ <- di_member xc listen_handle_key (VObject lh) ;; ret tt
                          end)
                         (di_unref_object cl)
                   end)
                  (di_unref_object xcb_fd_event)
            | _ => stuck Aborted
            end)
           (di_unref_object eventm)
     end)
    (di_drop_weak_ref weak_event).
Definition di_xorg_add_signal (xc : oid) : M unit :=
  x <- get_xc xc ;;
  let n := s32 (x_nsignals x + 1) in
  put_xc xc (set_x_nsignals n x) ;;
  if (n =? 1)%Z then start_xcb_event xc else ret tt.

(** [di_xorg_del_signal] *)
Definition di_xorg_del_signal (xc : oid) : M unit :=
  x <- get_xc xc ;;
  let n := s32 (x_nsignals x - 1) in
  put_xc xc (set_x_nsignals n x) ;;
  if (n =? 0)%Z then _ <- di_delete_member_raw xc (Some listen_handle_key) ;; ret tt else ret tt.

(** [di_xorg_signal_setter], [di_xorg_signal_deleter] *)
Definition di_xorg_signal_setter (obj : oid) (member : di_string) (sig : oid) : M unit :=
  if negb (di_string_starts_with member "__signal_") then ret tt
  else
    rc <- di_add_member_clone obj member (VObject sig) ;;
    if negb (rc =? 0)%Z then ret tt else di_xorg_add_signal obj.
Definition di_xorg_signal_deleter (obj : oid) (member : di_string) : M unit :=
  if negb (di_string_starts_with member "__signal_") then ret tt
  else
    rc <- di_delete_member_raw obj member ;;
    if negb (rc =? 0)%Z then ret tt else di_xorg_del_signal obj.

(** [di_xorg_ext_signal_setter]: an extension that has signals is kept alive by the
    connection *)
Definition di_xorg_ext_signal_setter (signal : string) (obj sig : oid) : M unit :=
  with_connection obj (ret tt) (fun dc =>
    rc <- di_member_clone obj signal (VObject sig) ;;
    if negb (rc =? 0)%Z then ret tt
    else
      e <- get_ext obj ;;
      let n := s32 (ext_nsignals e + 1) in
      put_ext obj (set_ext_nsignals n e) ;;
      if (n =? 1)%Z then
        rc <- di_add_member_clone dc (Some (strong_ext_key (extname e))) (VObject obj) ;;
        if negb (rc =? 0)%Z then ret tt else di_xorg_add_signal dc
      else ret tt).

(** [di_xorg_ext_signal_deleter] *)
Definition di_xorg_ext_signal_deleter (signal : string) (obj : oid) : M unit :=
  with_connection obj (ret tt) (fun dc =>
    rc <- di_delete_member_raw obj (di_string_borrow signal) ;;
    if negb (rc =? 0)%Z then ret tt
    else
      e <- get_ext obj ;;
      let n := s32 (ext_nsignals e - 1) in
      put_ext obj (set_ext_nsignals n e) ;;
      if (n =? 0)%Z then
        _ <- di_delete_member_raw dc (Some (strong_ext_key (extname e))) ;;
        di_xorg_del_signal dc
      else ret tt).

(** [di_signal_setter_deleter_with_signal_name] *)
Definition di_signal_setter_deleter_with_signal_name (o : oid) (sig : string) (setter deleter : fnptr) : M unit :=
  let signal_name := "__signal_" +:+ sig in
  s <- di_create_closure setter DI_TYPE_NIL [VStringLiteral signal_name] 2 [DI_TYPE_OBJECT; DI_TYPE_OBJECT] ;;
  match s with
  | inl _ => stuck WildPointer
  | inr s =>
      _ <- di_member o ("__set_" +:+ signal_name) (VObject s) ;;
      d <- di_create_closure deleter DI_TYPE_NIL [VStringLiteral signal_name] 1 [DI_TYPE_OBJECT] ;;
      match d with
      | inl _ => stuck WildPointer
      | inr d => _ <- di_member o ("__delete_" +:+ signal_name) (VObject d) ;; ret tt
      end
  end.

(** [di_field] *)
Definition di_field (o : oid) (struct name : string) (t : di_type) : M unit :=
  g <- di_new_field_getter t (offset_of struct name) ;;
  _ <- di_member o ("__get_" +:+ name) (VObject g) ;; ret tt.
(** [di_getter], [di_setter], [di_getter_setter] *)
Definition di_getter (o : oid) (name : string) (g : fnptr) (t : di_type) : M Z := di_method o ("__get_" +:+ name) g t [].
Definition di_setter (o : oid) (name : string) (s : fnptr) (t : di_type) : M Z := di_method o ("__set_" +:+ name) s DI_TYPE_NIL [t].
Definition di_getter_setter (o : oid) (name : string) (g s : fnptr) (t : di_type) : M Z :=
  rc <- di_getter o name g t ;;
  if negb (rc =? 0)%Z then ret rc else di_setter o name s t.

(** ** Members from Lua *)

(** the pieces of a path *)
Fixpoint path_pieces (s : string) : list string :=
  match s with
  | EmptyString => []
  | String c s' =>
      if Ascii.eqb c "."%char then EmptyString :: path_pieces s'
      else match path_pieces s' with
           | [] => [String c EmptyString]
           | p :: ps => String c p :: ps
           end
  end.

(** the loop over the path: every piece is looked up in [builtins] *)
Fixpoint find_source (builtins source : oid) (pieces : list string) : M (option oid) :=
  match pieces with
  | [] => ret (Some source)
  | p :: pieces =>
      let* (r, _) := di_getxt builtins (Some p) DI_TYPE_OBJECT false in
      match r with
      | inr (VObject value) => di_unref_object source ;; find_source builtins value pieces
      | inr _ => stuck WildPointer
      | inl _ => di_unref_object source ;; ret None
      end
  end.

(** the loop over the members of the source *)
Fixpoint copy_members (fuel : nat) (target source : oid) (key : di_string) : M unit :=
  match fuel with
  | O => stuck OutOfFuel
  | S fuel =>
      member <- di_object_next_member source key ;;
      match member with
      | VTuple [VString k; VObject x] =>
          _ <- di_add_member_move target k (VObject x) ;;
          copy_members fuel target source k
      | VTuple [VString k; v] => di_free_value v ;; copy_members fuel target source k
      | VTuple (_ :: _ :: _) => stuck Aborted
      | _ => ret tt
      end
  end.

(** [di_xorg_copy_from_builtins] *)
Definition di_xorg_copy_from_builtins (target : oid) (path : string) (builtins : oid) : M unit :=
  source <- di_ref_object builtins ;;
  source <- find_source builtins source (path_pieces path) ;;
  match source with
  | None => ret tt
  | Some source => scoped (copy_members env_fuel target source DI_STRING_INIT) (di_unref_object source)
  end.
End Xcb.
