(* ===== verification/XKey.v ===== *)
(** * Key bindings: [plugins/xorg/key.c] *)

From S2P Require Export Xcb Log.

Definition XCB_MOD_MASK_CONTROL : Z := 4.
Definition XCB_BUTTON_MASK_ANY : Z := 32768.
Definition XCB_KEY_PRESS : Z := 2.
Definition XCB_KEY_RELEASE : Z := 3.
Definition XCB_MAPPING_NOTIFY : Z := 34.
Definition XCB_MAPPING_POINTER : Z := 2.
Definition XCB_ALLOW_REPLAY_KEYBOARD : Z := 5.
Definition XCB_ALLOW_SYNC_KEYBOARD : Z := 4.

Definition modifier_names : list string := ["shift"; "lock"; "control"; "mod1"; "mod2"; "mod3"; "mod4"; "mod5"].

(** [name_to_mod]: the given name is compared up to its own length *)
Definition named (keyname : di_string) (name : string) : bool :=
  strncasecmp_eq (di_string_length keyname) (di_string_bytes keyname) name.
Definition name_to_mod (keyname : di_string) : Z :=
  match list_find (fun name => named keyname name = true) modifier_names with
  | Some (i, _) => 2 ^ Z.of_nat i
  | None =>
      if named keyname "ctrl" then XCB_MOD_MASK_CONTROL
      else if named keyname "any" then XCB_BUTTON_MASK_ANY
      else XCB_NO_SYMBOL
  end.

(** [mod]: [None] is a name that is not known *)
Fixpoint mods_of (arr : list di_string) : option Z :=
  match arr with
  | [] => Some 0%Z
  | s :: arr =>
      let tmp := name_to_mod s in
      if (tmp =? XCB_NO_SYMBOL)%Z then None else Z.lor tmp <$> mods_of arr
  end.

(** the bits [mod_from_keycode] sets for the elements from number [i] on: it looks at as
    many elements as the reply has units of four bytes *)
Fixpoint mod_bits (kc kpm : Z) (i : Z) (kcs : list Z) : Z :=
  match kcs with
  | [] => 0
  | k :: kcs =>
      Z.lor (if negb (k =? XCB_NO_SYMBOL)%Z && (k =? kc)%Z then Z.shiftl 1 (i / kpm) mod 2 ^ 16 else 0)
        (mod_bits kc kpm (i + 1) kcs)
  end%Z.
Definition mod_from_mapping (kc : Z) (r : option (Z * Z * option (list Z))) : Z :=
  match r with
  | None => 0
  | Some (kpm, len, kcs) =>
      if (kpm =? 0)%Z then 0
      else match kcs with None => 0 | Some kcs => mod_bits kc kpm 0 (take (Z.to_nat len) kcs) end
  end%Z.

Definition keybinding_key (i : Z) : string := "___keybinding_" +:+ fmt_d i.
(** the name under which a binding with signals is kept, after its address *)
Definition own_key (o : oid) : string := "___keybinding_" +:+ fmt_p o.
Definition opcodes : list Z := [XCB_KEY_PRESS; XCB_KEY_RELEASE; XCB_MAPPING_NOTIFY].
Definition raw_event_signal (t : Z) : string := "___raw_x_event_" +:+ fmt_d t.
Definition auto_handle_key (t : Z) : string := "___auto_handle_for_" +:+ fmt_d t.

Section XKey.
Context {E : Env} {F : Ffi} {Y : System} {K : Xkb} {X : Xcb}.

Record binding := Binding { kb_keysym : Z; kb_keycodes : option (list Z); kb_modifiers : Z; kb_intercept : bool }.
Definition get_kb (o : oid) : M binding :=
  ob <- get_obj o ;;
  match extra ob with PKeybinding s k m i => ret (Binding s k m i) | _ => stuck WildPointer end.
Definition put_kb (o : oid) (b : binding) : M unit :=
  upd_obj o (set_extra (PKeybinding (kb_keysym b) (kb_keycodes b) (kb_modifiers b) (kb_intercept b))).
Definition set_keycodes (l : option (list Z)) (b : binding) : binding := Binding (kb_keysym b) l (kb_modifiers b) (kb_intercept b).
Definition get_key (o : oid) : M (xorg_ext * (Z * Z)) :=
  e <- get_ext o ;;
  match ext_fields e with KeyFields s n => ret (e, (s, n)) | _ => stuck WildPointer end.

Definition key_ext_member : string := "___xorg_key_ext".

(** [ungrab] *)
Definition ungrab (kb : oid) : M unit :=
  with_object kb key_ext_member (fun key =>
    with_connection key (ret tt) (fun dc =>
      x <- get_xc dc ;;
      match x_c x with
      | None => ret tt
      | Some c =>
          let s := screen_of_display (xcb_setup_roots c) (x_dflt_scrn x) in
          b <- get_kb kb ;;
          match kb_keycodes b with
          | None => stuck NullDereference
          | Some l =>
              mapM_ (fun k =>
                match s with
                | None => stuck NullDereference
                | Some s => call_ext "xcb_ungrab_key" [VNint c; VNuint k; VNuint (scr_root s); VNuint (kb_modifiers b)]
                end) l
          end
      end)).

(** [describe_keybinding] *)
Definition modifier_text (modifiers : Z) : list string :=
  snd <$> filter (fun im : nat * string => Z.testbit modifiers (Z.of_nat (fst im)) = true) (imap pair modifier_names).
Definition describe_keybinding (b : binding) : string :=
  join_bytes "+" (modifier_text (kb_modifiers b) ++ [default "(invalid)" (xkb_keysym_get_name (kb_keysym b))]).

(** [binding_dtor] *)
Definition binding_dtor (kb : oid) : M unit :=
  b <- get_kb kb ;;
  match kb_keycodes b with Some _ => ungrab kb | None => ret tt end ;;
  b <- get_kb kb ;;
  put_kb kb (set_keycodes None b).

(** [refresh_binding] *)
Definition grab_key (c : Z) (s : option x_screen) (b : binding) (k : Z) : M unit :=
  match s with
  | None => stuck NullDereference
  | Some s =>
      err <- checked_request "xcb_grab_key_checked" [VNint c; VNint 1; VNuint (scr_root s); VNuint (kb_modifiers b); VNuint k; VNint 1; VNint 0] ;;
      when err (env_log DI_LOG_ERROR ("Cannot grab 0x" +:+ hex (Z.to_pos k) +:+ ", for keybinding " +:+ describe_keybinding b
                  +:+ String (Ascii.ascii_of_nat 10) ""))
  end.
Definition refresh_binding (kb : oid) : M Z :=
  with_object kb key_ext_member (fun key_obj =>
    with_connection key_obj (ret (-1)%Z) (fun dc =>
      b <- get_kb kb ;;
      match kb_keycodes b with
      | Some _ => ungrab kb ;; b <- get_kb kb ;; put_kb kb (set_keycodes None b)
      | None => ret tt
      end ;;
      let* (_, (keysyms, _)) := get_key key_obj in
      b <- get_kb kb ;;
      kc <- request "xcb_key_symbols_get_keycode" [VNint keysyms; VNuint (kb_keysym b)] (xcb_key_symbols_get_keycode keysyms (kb_keysym b)) ;;
      match kc with
      | None => ret (-1)%Z
      | Some kc =>
          put_kb kb (set_keycodes (Some kc) b) ;;
          x <- get_xc dc ;;
          c <- xcb_of dc ;;
          mapM_ (grab_key c (screen_of_display (xcb_setup_roots c) (x_dflt_scrn x)) b) kc ;;
          ret 0%Z
      end)).

(** ** Listening to the raw events *)

(** [key_register_listener] *)
Definition listen_opcode (k dc handler : oid) (t : Z) : M unit :=
  lh <- di_listen_to dc (Some (raw_event_signal t)) handler false ;;
  match lh with
  | inl _ => stuck NullDereference
  | inr lh =>
      rc <- di_call lh "auto_stop" [VNint 1] ;;
      DI_CHECK_OK rc ;;
      rc <- di_add_member_move k (Some (auto_handle_key t)) (VObject lh) ;;
      DI_CHECK_OK rc
  end.
Definition key_register_listener (k : oid) : M bool :=
  weak_k <- di_weakly_ref_object k ;;
  scoped
    (h <- di_create_closure "handle_key" DI_TYPE_NIL [VWeak weak_k] 1 [DI_TYPE_POINTER] ;;
     match h with
     | inl _ => stuck WildPointer
     | inr handler =>
         scoped
           (with_connection k (ret false) (fun dc =>
              mapM_ (listen_opcode k dc handler) opcodes ;;
              _ <- di_add_member_clone dc (Some (strong_ext_key "key")) (VObject k) ;;
              ret true))
           (di_unref_object handler)
     end)
    (di_drop_weak_ref weak_k).

(** [key_deregister_listener] *)
Definition key_deregister_listener (k : oid) : M unit :=
  with_connection k (ret tt) (fun dc =>
    mapM_ (fun t => _ <- di_delete_member_raw k (Some (auto_handle_key t)) ;; ret tt) opcodes ;;
    _ <- di_delete_member_raw dc (Some (strong_ext_key "key")) ;; ret tt).

(** ** Signals of a binding *)

Definition has_signals (obj : oid) : M bool :=
  p <- di_has_member obj "__signal_pressed" ;;
  if p then ret true else di_has_member obj "__signal_released".

(** [keybinding_new_signal] *)
Definition keybinding_new_signal (signal : string) (obj sig : oid) : M unit :=
  had_signal <- has_signals obj ;;
  rc <- di_add_member_clone obj (di_string_borrow signal) (VObject sig) ;;
  if negb (rc =? 0)%Z then ret tt
  else if had_signal then ret tt
  else
    let early_err := _ <- di_delete_member obj (di_string_borrow signal) false ;; ret tt in
    r <- refresh_binding obj ;;
    if negb (r =? 0)%Z then early_err
    else
      with_object obj key_ext_member (fun key_obj =>
        let* (e, (_, _)) := get_key key_obj in
        let n := s32 (ext_nsignals e + 1) in
        put_ext key_obj (set_ext_nsignals n e) ;;
        when (n =? 1)%Z (_ <- key_register_listener key_obj ;; ret tt) ;;
        rc <- di_add_member_clone key_obj (Some (own_key obj)) (VObject obj) ;;
        if (rc =? 0)%Z then ret tt else ungrab obj ;; early_err).

(** [keybinding_del_signal] *)
Definition keybinding_del_signal (signal : string) (obj : oid) : M unit :=
  rc <- di_delete_member_raw obj (di_string_borrow signal) ;;
  if negb (rc =? 0)%Z then ret tt
  else
    has_signal <- has_signals obj ;;
    if has_signal then ret tt
    else
      ungrab obj ;;
      with_object obj key_ext_member (fun key_obj =>
        let* (e, _) := get_key key_obj in
        let n := s32 (ext_nsignals e - 1) in
        put_ext key_obj (set_ext_nsignals n e) ;;
        when (n =? 0)%Z (key_deregister_listener key_obj) ;;
        _ <- di_delete_member_raw key_obj (Some (own_key obj)) ;; ret tt).

(** ** Bindings *)

Definition key_error {A} (line : Z) (msg : string) : M A :=
  e <- di_new_error "key.c" line "new_binding" msg ;; di_throw e.

(** the elements of the array of modifiers *)
Fixpoint string_elements (l : list val) : option (list di_string) :=
  match l with
  | [] => Some []
  | VString s :: l => cons s <$> string_elements l
  | _ :: _ => None
  end.

(** [new_binding] *)
Definition new_binding (k : oid) (et : di_type) (modifiers : list val) (key : di_string) (intercept : bool) : M oid :=
  with_connection k (key_error 228 "Connection died") (fun _ =>
    let ks := match di_string_to_chars_alloc key with Some s => xkb_keysym_from_name (c_str s) | None => 0%Z end in
    check NullDereference (bool_decide (is_Some (di_string_to_chars_alloc key))) ;;
    if (ks =? 0)%Z then key_error 234 "Invalid key name"
    else
      match modifiers, et with
      | _ :: _, DI_TYPE_STRING | [], _ =>
          match string_elements modifiers with
          | None => stuck WildPointer
          | Some arr =>
              match mods_of arr with
              | None => key_error 246 "Invalid modifiers"
              | Some m =>
                  kb <- di_new_object (PKeybinding 0 None 0 false) ;;
                  put_kb kb (Binding ks None (m mod 2 ^ 16) false) ;;
                  di_set_object_dtor kb (Some "binding_dtor") ;;
                  put_kb kb (Binding ks None (m mod 2 ^ 16) intercept) ;;
                  let* (_, (_, next)) := get_key k in
                  _ <- di_add_member_clone k (Some (keybinding_key next)) (VObject kb) ;;
                  let* (e, (keysyms, next)) := get_key k in
                  put_ext k (set_ext_fields (KeyFields keysyms ((next + 1) mod 2 ^ 64)) e) ;;
                  di_signal_setter_deleter_with_signal_name kb "pressed" "keybinding_new_signal" "keybinding_del_signal" ;;
                  di_signal_setter_deleter_with_signal_name kb "released" "keybinding_new_signal" "keybinding_del_signal" ;;
                  _ <- di_member_clone kb key_ext_member (VObject k) ;;
                  r <- refresh_binding kb ;;
                  if negb (r =? 0)%Z then di_unref_object kb ;; key_error 272 "Failed to setup key grab"
                  else ret kb
              end
          end
      | _, _ => key_error 238 "Invalid modifiers"
      end).

(** [free_key] *)
Definition free_key (k : oid) : M unit :=
  let* (_, (keysyms, _)) := get_key k in call_ext "xcb_key_symbols_free" [VNint keysyms].

(** [mod_from_keycode] *)
Definition mod_from_keycode (dc : oid) (kc : Z) : M Z :=
  c <- xcb_of dc ;;
  r <- request "xcb_get_modifier_mapping" [VNint c] (xcb_get_modifier_mapping c) ;;
  ret (mod_from_mapping kc r).

(** ** Events *)

(** the binding number [i] of the extension *)
Definition with_binding {A} (k : oid) (i : Z) (f : oid -> M A) : M A :=
  let* (r, _) := di_getxt k (Some (keybinding_key i)) DI_TYPE_OBJECT false in
  match r with
  | inr (VObject kb) => scoped (f kb) (di_unref_object kb)
  | inr _ => stuck WildPointer
  | inl _ => stuck Aborted
  end.

(** the loop over the keycodes of a binding: the array is read again after every signal *)
Fixpoint match_keycodes (fuel : nat) (kb : oid) (kc : Z) (event : string) (i : nat) (intercept : bool) : M bool :=
  match fuel with
  | O => stuck OutOfFuel
  | S fuel =>
      b <- get_kb kb ;;
      match kb_keycodes b with
      | None => stuck NullDereference
      | Some l =>
          match l !! i with
          | None => ret intercept
          | Some k =>
              if (k =? kc)%Z then
                _ <- di_emitn kb (Some event) [] ;;
                match_keycodes fuel kb kc event (S i) (intercept || kb_intercept b)
              else match_keycodes fuel kb kc event (S i) intercept
          end
      end
  end.

(** the loop over the bindings: their number is read again in every iteration *)
Fixpoint match_bindings (fuel : nat) (k : oid) (kc mod_ : Z) (event : string) (i : Z) (intercept : bool) : M bool :=
  match fuel with
  | O => stuck OutOfFuel
  | S fuel =>
      let* (_, (_, next)) := get_key k in
      if (i <? next)%Z then
        intercept <- with_binding k i (fun kb =>
          b <- get_kb kb ;;
          if negb (kb_modifiers b =? mod_)%Z then ret intercept
          else match_keycodes env_fuel kb kc event 0 intercept) ;;
        match_bindings fuel k kc mod_ event (i + 1) intercept
      else ret intercept
  end.

(** the loop of a new mapping *)
Fixpoint refresh_all (fuel : nat) (k : oid) (i : Z) : M unit :=
  match fuel with
  | O => stuck OutOfFuel
  | S fuel =>
      let* (_, (_, next)) := get_key k in
      if (i <? next)%Z then
        with_binding k i (fun kb =>
          r <- refresh_binding kb ;;
          if negb (r =? 0)%Z then di_finalize_object kb else ret tt) ;;
        refresh_all fuel k (i + 1)
      else ret tt
  end.

(** [handle_key] for a press or a release *)
Definition handle_press (k dc : oid) (kc mod_ : Z) (event : string) : M unit :=
  intercept <- match_bindings env_fuel k kc mod_ event 0 false ;;
  c <- xcb_of dc ;;
  call_ext "xcb_allow_events" [VNint c; VNint (if intercept then XCB_ALLOW_SYNC_KEYBOARD else XCB_ALLOW_REPLAY_KEYBOARD); VNint 0] ;;
  call_ext "xcb_flush" [VNint c].

(** [handle_key] *)
Definition handle_key (weak_ext : oid) (ev : Z) : M unit :=
  ext <- di_upgrade_weak_ref weak_ext ;;
  match ext with
  | None => ret tt
  | Some k =>
      scoped
        (with_connection k (ret tt) (fun dc =>
           e <- gets (x_event_at ev) ;;
           if (response_type e =? XCB_KEY_PRESS)%Z then handle_press k dc (ev_detail e) (ev_state e) "pressed"
           else if (response_type e =? XCB_KEY_RELEASE)%Z then
             m <- mod_from_keycode dc (ev_detail e) ;;
             handle_press k dc (ev_detail e) (Z.land (ev_state e) (Z.lnot m)) "released"
           else if (response_type e =? XCB_MAPPING_NOTIFY)%Z then
             if (ev_request e =? XCB_MAPPING_POINTER)%Z then ret tt
             else
               let* (_, (keysyms, _)) := get_key k in
               r <- request "xcb_refresh_keyboard_mapping" [VNint keysyms; VPointer ev] (xcb_refresh_keyboard_mapping keysyms ev) ;;
               if (r =? 1)%Z then refresh_all env_fuel k 0 else ret tt
           else ret tt))
        (di_unref_object k)
  end.

(** [new_key] *)
Definition new_key (dc : oid) : M (option oid) :=
  k <- di_new_object (PXorgExt (XorgExt "" 0 0 None (KeyFields 0 0))) ;;
  _ <- di_set_type k "deai.plugin.xorg:Key" ;;
  c <- xcb_of dc ;;
  keysyms <- request "xcb_key_symbols_alloc" [VNint c] (xcb_key_symbols_alloc c) ;;
  put_ext k (XorgExt "key" 0 0 None (KeyFields keysyms 0)) ;;
  save_xorg_connection k dc ;;
  _ <- di_method k "new" "new_binding" DI_TYPE_OBJECT [DI_TYPE_ARRAY; DI_TYPE_STRING; DI_TYPE_BOOL] ;;
  di_set_object_dtor k (Some "free_key") ;;
  ret (Some k).
End XKey.
