(* ===== verification/XInput.v ===== *)
(** * Input devices: [plugins/xorg/xinput.c] *)

From S2P Require Export Xcb.
From Stdlib Require Import SpecFloat.

Definition XI_LASTEVENT : Z := 26.
Definition XCB_INPUT_HIERARCHY : Z := 11.

(** ** The mask of events: an array of bytes *)

Definition byte_at (a : list Z) (m : Z) : Z := default 0%Z (a !! Z.to_nat (Z.shiftr m 3)).
Definition set_mask (a : list Z) (m : Z) : list Z :=
  <[Z.to_nat (Z.shiftr m 3) := Z.lor (byte_at a m) (Z.shiftl 1 (Z.land m 7))]> a.
Definition clear_mask (a : list Z) (m : Z) : list Z :=
  <[Z.to_nat (Z.shiftr m 3) := Z.land (byte_at a m) (Z.lnot (Z.shiftl 1 (Z.land m 7)))]> a.
Definition get_mask (a : list Z) (m : Z) : bool := negb (Z.land (byte_at a m) (Z.shiftl 1 (Z.land m 7)) =? 0)%Z.

Definition count_at (l : list Z) (ev : Z) : Z := default 0%Z (l !! Z.to_nat ev).
(** the fields after one more listener, or one less, and whether the server is to be told *)
Definition add_listener (mask counts : list Z) (ev : Z) : list Z * list Z * bool :=
  let n := ((count_at counts ev + 1) mod 2 ^ 32)%Z in
  let counts := <[Z.to_nat ev := n]> counts in
  if (1 <? n)%Z then (mask, counts, false) else (set_mask mask ev, counts, true).
Definition remove_listener (mask counts : list Z) (ev : Z) : list Z * list Z * bool :=
  let n := ((count_at counts ev - 1) mod 2 ^ 32)%Z in
  let counts := <[Z.to_nat ev := n]> counts in
  if (0 <? n)%Z then (mask, counts, false) else (clear_mask mask ev, counts, true).

(** ** Single-precision numbers *)

(** [(float)x] for a double, for an integer *)
Definition float_of_double (x : spec_float) : spec_float :=
  match x with
  | S754_finite s m e => binary_normalize 24 128 (if s then Z.neg m else Z.pos m) e s
  | _ => x
  end.
Definition float_of_int (z : Z) : spec_float := binary_normalize 24 128 z 0 false.
(** the 32 bits of a float, and the double with the value of a float *)
Definition float_bits (x : spec_float) : Z :=
  let sign (s : bool) := (if s then 2 ^ 31 else 0)%Z in
  match x with
  | S754_zero s => sign s
  | S754_infinity s => sign s + 255 * 2 ^ 23
  | S754_nan => 255 * 2 ^ 23 + 2 ^ 22
  | S754_finite s m e =>
      if (Z.pos m <? 2 ^ 23) then sign s + Z.pos m else sign s + (e + 150) * 2 ^ 23 + (Z.pos m - 2 ^ 23)
  end%Z.
Definition double_of_float_bits (b : Z) : spec_float :=
  let s := Z.testbit b 31 in
  let e := Z.land (Z.shiftr b 23) 255 in
  let m := Z.land b (2 ^ 23 - 1) in
  let finite m e := binary_normalize 53 1024 (if s then - m else m) e s in
  if (e =? 255)%Z then (if (m =? 0)%Z then S754_infinity s else S754_nan)
  else if (e =? 0)%Z then finite m (-149)%Z
  else finite (m + 2 ^ 23)%Z (e - 150)%Z.

Section XInput.
Context {E : Env} {F : Ffi} {Y : System} {K : Xkb} {X : Xcb}.

Definition get_xi (o : oid) : M (xorg_ext * (list Z * list Z)) :=
  e <- get_ext o ;;
  match ext_fields e with XInputFields m c => ret (e, (m, c)) | _ => stuck WildPointer end.
Definition put_xi (o : oid) (mask counts : list Z) : M unit :=
  e <- get_ext o ;; put_ext o (set_ext_fields (XInputFields mask counts) e).
(** [xcb_input_xi_select_events_checked] with [xi->ec], and its check *)
Definition select_events (dc : oid) (mask : list Z) : M unit :=
  scrn <- screen_of dc ;;
  c <- xcb_of dc ;;
  e <- checked_request "xcb_input_xi_select_events_checked" (VNint c :: VNuint (scr_root scrn) :: map VNint mask) ;;
  when e (env_log DI_LOG_ERROR ("select events failed" +:+ String (Ascii.ascii_of_nat 10) "")).

Definition invalid_event (ev : Z) : M unit := env_log DI_LOG_ERROR ("invalid xi event number " +:+ fmt_d ev).

(** [di_xorg_xi_start_listen_for_event], [di_xorg_xi_stop_listen_for_event] *)
Definition di_xorg_xi_start_listen_for_event (xi : oid) (ev : Z) : M unit :=
  with_connection xi (ret tt) (fun dc =>
    if (XI_LASTEVENT <? ev)%Z then invalid_event ev
    else
      let* (_, (mask, counts)) := get_xi xi in
      let '(mask', counts, changed) := add_listener mask counts ev in
      put_xi xi mask' counts ;;
      if changed then select_events dc mask' else ret tt).
Definition di_xorg_xi_stop_listen_for_event (xi : oid) (ev : Z) : M unit :=
  with_connection xi (ret tt) (fun dc =>
    if (XI_LASTEVENT <? ev)%Z then invalid_event ev
    else
      let* (_, (mask, counts)) := get_xi xi in
      assert (0 <? count_at counts ev)%Z ;;
      let '(mask', counts, changed) := remove_listener mask counts ev in
      put_xi xi mask' counts ;;
      if changed then select_events dc mask' else ret tt).
Definition enable_hierarchy_event (xi : oid) : M unit := di_xorg_xi_start_listen_for_event xi XCB_INPUT_HIERARCHY.
Definition disable_hierarchy_event (xi : oid) : M unit := di_xorg_xi_stop_listen_for_event xi XCB_INPUT_HIERARCHY.

(** [di_xorg_free_xinput]: the request is made twice *)
Definition di_xorg_free_xinput (x : oid) : M unit :=
  with_connection x (ret tt) (fun dc =>
    xc <- get_xc dc ;;
    match x_c xc with
    | None => ret tt
    | Some c =>
        let* (_, (_, counts)) := get_xi x in
        let mask := replicate 4 0%Z in
        put_xi x mask counts ;;
        scrn <- screen_of dc ;;
        call_ext "xcb_input_xi_select_events_checked" (VNint c :: VNuint (scr_root scrn) :: map VNint mask) ;;
        select_events dc mask
    end).

(** ** Devices *)

(** [struct di_xorg_xinput_device] *)
Definition get_device (o : oid) : M (Z * oid) :=
  ob <- get_obj o ;;
  match extra ob with PXInputDevice d xi => ret (d, xi) | _ => stuck WildPointer end.

(** [xcb_input_get_device_info] *)
Definition xcb_input_get_device_info (dc : oid) (deviceid : Z) : M (option xi_device_info) :=
  c <- xcb_of dc ;;
  r <- request "xcb_input_xi_query_device" [VNint c; VNint deviceid] (xcb_input_xi_query_device c deviceid) ;;
  ret (match r with None => None | Some l => find (fun i => xi_deviceid i =? deviceid)%Z l end).

(** [di_xorg_xinput_get_device_name], [di_xorg_xinput_get_device_use] *)
Definition di_xorg_xinput_get_device_name (dev : oid) : M di_string :=
  let* (id, xi) := get_device dev in
  with_connection xi (ret (Some "unknown")) (fun dc =>
    info <- xcb_input_get_device_info dc id ;;
    ret (match info with None => Some "unknown" | Some i => di_string_ndup (xi_name i) end)).
Definition device_use (t : Z) : string :=
  if (t =? 2)%Z then "master keyboard" else if (t =? 4)%Z then "keyboard"
  else if (t =? 1)%Z then "master pointer" else if (t =? 3)%Z then "pointer" else "unknown".
Definition di_xorg_xinput_get_device_use (dev : oid) : M string :=
  let* (id, xi) := get_device dev in
  with_connection xi (ret "unknown") (fun dc =>
    info <- xcb_input_get_device_info dc id ;;
    ret (match info with None => "unknown" | Some i => device_use (xi_type i) end)).

(** [di_xorg_xinput_get_device_type]: the type is read past the list when the device is not
    in it *)
Definition di_xorg_xinput_get_device_type (dev : oid) : M di_string :=
  let* (id, xi) := get_device dev in
  with_connection xi (ret (Some "unknown")) (fun dc =>
    c <- xcb_of dc ;;
    r <- request "xcb_input_list_input_devices" [VNint c] (xcb_input_list_input_devices c) ;;
    match r with
    | None => stuck NullDereference
    | Some l =>
        match find (fun d : Z * Z => fst d =? id)%Z l with
        | None => stuck UndefinedBehaviour
        | Some d =>
            dname <- di_xorg_get_atom_name dc (snd d) ;;
            ret (match dname with None => Some "unknown" | Some n => di_string_tolower (Some n) end)
        end
    end).
Definition di_xorg_xinput_get_device_id (o : oid) : M Z :=
  let* (id, _) := get_device o in ret id.

(** ** Properties *)

(** a request for a property, and its reply, which is looked at *)
Definition device_property (dc : oid) (id atom len : Z) : M property_reply :=
  c <- xcb_of dc ;;
  r <- request "xcb_input_xi_get_property" [VNint c; VNint id; VNuint atom; VNuint len] (xcb_input_xi_get_property c id atom len) ;;
  match r with None => stuck NullDereference | Some p => ret p end.

(** what one element of the new value becomes: the bits of the item ([None]: the item is
    left empty), a wrong type, or an error of the server *)
Inductive item_result := Item (bits : option Z) | WrongType | ServerError.

Definition integer_item (p : property_reply) (float_atom : Z) (i64 : Z) (f : spec_float) (et : di_type) : item_result :=
  if (p_type p =? XCB_ATOM_INTEGER)%Z || (p_type p =? XCB_ATOM_CARDINAL)%Z then
    if bool_decide (et = DI_TYPE_FLOAT) then WrongType
    else Item (if (p_format p =? 8)%Z || (p_format p =? 16)%Z || (p_format p =? 32)%Z
               then Some (i64 mod 2 ^ p_format p)%Z else None)
  else if (p_type p =? float_atom)%Z then Item (Some (float_bits f))
  else if (p_type p =? XCB_ATOM_ATOM)%Z then WrongType
  else Item None.
(** the last test is for [DI_TYPE_STRING] only *)
Definition atom_item (dc : oid) (p : property_reply) (s : di_string) (literal : bool) : M item_result :=
  if negb (p_type p =? XCB_ATOM_ATOM)%Z then ret WrongType
  else
    let* (atom, e) := di_xorg_intern_atom dc s in
    ret (if e then ServerError else if literal then WrongType else Item (Some (atom mod 2 ^ 32)%Z)).
Definition property_item (dc : oid) (p : property_reply) (float_atom : Z) (v : val) : M item_result :=
  match v with
  | VInt z | VNint z => ret (integer_item p float_atom z (float_of_int z) (type_of v))
  | VUint z | VNuint z =>
      let z := s64 z in ret (integer_item p float_atom z (float_of_int z) (type_of v))
  | VFloat x => ret (integer_item p float_atom (- 2 ^ 63)%Z (float_of_double x) DI_TYPE_FLOAT)
  | VString s => atom_item dc p s false
  | VStringLiteral s => atom_item dc p (di_string_borrow s) true
  | VLast => stuck Aborted
  | _ => ret WrongType
  end.
Fixpoint property_items (dc : oid) (p : property_reply) (float_atom : Z) (l : list val) : M (item_result + list (option Z)) :=
  match l with
  | [] => ret (inr [])
  | v :: l =>
      r <- property_item dc p float_atom v ;;
      match r with
      | Item b =>
          rs <- property_items dc p float_atom l ;;
          ret (match rs with inl r => inl r | inr bs => inr (b :: bs) end)
      | _ => ret (inl r)
      end
  end.

(** [di_xorg_xinput_set_prop] *)
Definition change_property (dc : oid) (id atom : Z) (p : property_reply) (key : di_string) (items : list (option Z)) : M unit :=
  c <- xcb_of dc ;;
  err <- checked_request "xcb_input_xi_change_property_aux_checked"
    (VNint c :: VNint id :: VNuint (p_format p) :: VNuint atom :: VNuint (p_type p) ::
     map (fun b => match b with Some b => VNuint b | None => VPointer 0 end) items) ;;
  when err (env_log DI_LOG_ERROR ("Failed to set property '" +:+ c_str (di_string_bytes key) +:+ "'" +:+ String (Ascii.ascii_of_nat 10) "")).
Definition di_xorg_xinput_set_prop (dev : oid) (key : di_string) (var : val) : M unit :=
  let* (id, xi) := get_device dev in
  with_connection xi (ret tt) (fun dc =>
    let '(et, l) := match var with VArray et _ l => (et, l) | v => (type_of v, [v]) end in
    let* (prop_atom, e) := di_xorg_intern_atom dc key in
    if (e : bool) then ret tt
    else
      let* (float_atom, _) := di_xorg_intern_atom dc (Some "FLOAT") in
      p <- device_property dc id prop_atom 0 ;;
      if (p_type p =? XCB_ATOM_NONE)%Z then env_log DI_LOG_DEBUG ("setting non-existent property: " +:+ c_str (di_string_bytes key) +:+ String (Ascii.ascii_of_nat 10) "")
      else if ((p_type p =? float_atom)%Z || (p_type p =? XCB_ATOM_ATOM)%Z) && negb (p_format p =? 32)%Z then
        env_log DI_LOG_ERROR ("Xorg return invalid format for float/atom type: " +:+ fmt_d (p_format p) +:+ String (Ascii.ascii_of_nat 10) "")
      else
        r <- property_items dc p float_atom l ;;
        match r with
        | inr items => change_property dc id prop_atom p key items
        | inl WrongType =>
            env_log DI_LOG_ERROR ("Try to set xinput property '" +:+ c_str (di_string_bytes key) +:+ "' with wrong type of data " +:+
              fmt_d (di_type_to_Z et) +:+ String (Ascii.ascii_of_nat 10) "")
        | inl _ => ret tt
        end).

(** [di_xorg_xinput_get_prop]; [%02x] of a byte *)
Definition fmt_02x (z : Z) : string :=
  (if z <? 16 then "0" else "")%Z +:+ match z with Z.pos p => hex p | _ => "0" end.
Definition prop_error {A} (line : Z) (msg : string) : M A :=
  e <- di_new_error "xinput.c" line "di_xorg_xinput_get_prop" msg ;; di_throw e.
(** the type of the elements *)
Definition property_elem_type (p : property_reply) (float_atom : Z) : option di_type :=
  if (p_type p =? XCB_ATOM_INTEGER)%Z || (p_type p =? XCB_ATOM_CARDINAL)%Z then Some DI_TYPE_INT
  else if (p_type p =? XCB_ATOM_ATOM)%Z || (p_type p =? XCB_ATOM_STRING)%Z then Some DI_TYPE_STRING
  else if (p_type p =? float_atom)%Z then Some DI_TYPE_FLOAT
  else None.
Definition property_value (dc : oid) (et : di_type) (item : Z) : M val :=
  match et with
  | DI_TYPE_INT => ret (VInt item)
  | DI_TYPE_STRING =>
      atom <- di_xorg_get_atom_name dc item ;;
      match atom with
      | None => ret (VString DI_STRING_INIT)
      | Some _ =>
          atom <- di_xorg_get_atom_name dc item ;;
          match atom with None => stuck NullDereference | Some n => ret (VString (di_clone_string (Some n))) end
      end
  | _ => ret (VFloat (double_of_float_bits item))
  end.
Definition property_variant (dc : oid) (p : property_reply) (float_atom : Z) : M val :=
  match property_elem_type p float_atom with
  | None =>
      env_log DI_LOG_WARN ("Unknown property type " +:+ fmt_d (p_type p) +:+ String (Ascii.ascii_of_nat 10) "") ;;
      prop_error 454 ("Property has unknown type: " +:+ fmt_d (p_type p))
  | Some et =>
      if negb ((p_format p =? 8)%Z || (p_format p =? 16)%Z || (p_format p =? 32)%Z) then
        env_log DI_LOG_WARN ("Xorg returns invalid format " +:+ fmt_d (p_format p) +:+ String (Ascii.ascii_of_nat 10) "") ;;
        prop_error 459 ("Property has invalid format " +:+ fmt_02x (p_format p))
      else if ((p_type p =? float_atom)%Z || (p_type p =? XCB_ATOM_ATOM)%Z) && negb (p_format p =? 32)%Z then
        env_log DI_LOG_WARN ("Xorg return invalid format for float/atom " +:+ fmt_d (p_format p) +:+ String (Ascii.ascii_of_nat 10) "") ;;
        prop_error 464 "X server is misbehaving"
      else if (p_type p =? XCB_ATOM_STRING)%Z then
        assert (p_format p =? 8)%Z ;;
        ret (VVariant (VString (di_string_dup (Some (p_bytes p)))))
      else
        l <- mapM (property_value dc et) (p_items p) ;;
        ret (VVariant (match l with [v] => v | _ => VArray et true l end))
  end.
Definition di_xorg_xinput_get_prop (dev : oid) (name_ : di_string) : M val :=
  let* (id, xi) := get_device dev in
  with_connection xi (prop_error 413 "Lost X connection") (fun dc =>
    let* (prop_atom, e) := di_xorg_intern_atom dc name_ in
    if (e : bool) then prop_error 421 "Failed to intern atom"
    else
      let* (float_atom, _) := di_xorg_intern_atom dc (Some "FLOAT") in
      p <- device_property dc id prop_atom 0 ;;
      if (p_type p =? XCB_ATOM_NONE)%Z then ret DI_BOTTOM_VARIANT
      else
        p <- device_property dc id prop_atom (p_bytes_after p) ;;
        if (p_type p =? XCB_ATOM_NONE)%Z then ret DI_BOTTOM_VARIANT
        else property_variant dc p float_atom).

(** [di_xorg_xinput_props]: the new object has the pointer to the extension without a
    reference to it *)
Definition device_typename : string := "deai.plugin.xorg.xi:Device".
Definition di_xorg_xinput_props (dev : oid) : M oid :=
  let* (id, xi) := get_device dev in
  obj <- di_new_object (PXInputDevice id xi) ;;
  _ <- di_set_type obj device_typename ;;
  _ <- di_method obj "__get" "di_xorg_xinput_get_prop" DI_TYPE_VARIANT [DI_TYPE_STRING] ;;
  _ <- di_method obj "__set" "di_xorg_xinput_set_prop" DI_TYPE_NIL [DI_TYPE_STRING; DI_TYPE_VARIANT] ;;
  ret obj.

(** [free_xi_device_object] *)
Definition free_xi_device_object (obj : oid) : M unit :=
  let* (_, xi) := get_device obj in di_unref_object xi.

(** [di_xorg_make_object_for_devid] *)
Definition di_xorg_make_object_for_devid (xi : oid) (deviceid : Z) : M oid :=
  obj <- di_new_object (PXInputDevice deviceid xi) ;;
  _ <- di_set_type obj device_typename ;;
  _ <- di_ref_object xi ;;
  di_set_object_dtor obj (Some "free_xi_device_object") ;;
  _ <- di_method obj "__get_name" "di_xorg_xinput_get_device_name" DI_TYPE_STRING [] ;;
  _ <- di_method obj "__get_use" "di_xorg_xinput_get_device_use" DI_TYPE_STRING_LITERAL [] ;;
  _ <- di_method obj "__get_id" "di_xorg_xinput_get_device_id" DI_TYPE_NINT [] ;;
  _ <- di_method obj "__get_type" "di_xorg_xinput_get_device_type" DI_TYPE_STRING [] ;;
  _ <- di_method obj "__get_props" "di_xorg_xinput_props" DI_TYPE_OBJECT [] ;;
  ret obj.

(** [di_xorg_get_all_devices] *)
Definition di_xorg_get_all_devices (xi : oid) : M val :=
  with_connection xi (ret DI_ARRAY_INIT) (fun dc =>
    c <- xcb_of dc ;;
    r <- request "xcb_input_xi_query_device" [VNint c; VNint 0] (xcb_input_xi_query_device c 0) ;;
    match r with
    | None => stuck NullDereference
    | Some l =>
        objs <- mapM (fun i => di_xorg_make_object_for_devid xi (xi_deviceid i)) l ;;
        ret (VArray DI_TYPE_OBJECT (match l with [] => false | _ => true end) (map VObject objs))
    end).

(** ** Events *)

(** the signals of the flags of one device, in their order *)
Definition hierarchy_signals (flags : Z) : list string :=
  snd <$> filter (fun bn : Z * string => Z.land flags (fst bn) <> 0%Z)
    [(4, "new-device"); (64, "device-enabled"); (128, "device-disabled")]%Z.
Definition handle_info (xi : oid) (info : Z * Z) : M unit :=
  let '(deviceid, flags) := info in
  obj <- di_xorg_make_object_for_devid xi deviceid ;;
  mapM_ (fun name => _ <- di_emitn xi (Some name) [VObject obj] ;; ret tt) (hierarchy_signals flags) ;;
  di_unref_object obj.
(** [handle_xinput_event]: 0 when the event was for this extension, 1 otherwise *)
Definition handle_xinput_event (xi : oid) (ev : Z) : M Z :=
  e <- gets (x_event_at ev) ;;
  if negb (response_type e =? XCB_GE_GENERIC)%Z then ret 1%Z
  else
    x <- get_ext xi ;;
    if negb (ev_extension e =? opcode x)%Z then ret 1%Z
    else
      when (event_type e =? XCB_INPUT_HIERARCHY)%Z (mapM_ (handle_info xi) (ev_infos e)) ;;
      ret 0%Z.

(** [new_xinput] *)
Definition new_xinput (dc : oid) : M (option oid) :=
  let name := "XInputExtension" in
  c <- xcb_of dc ;;
  has <- xorg_has_extension c name ;;
  if negb has then ret None
  else
    r <- request "xcb_query_extension" [VNint c; VStringLiteral name] (xcb_query_extension c name) ;;
    match r with
    | None => ret None
    | Some (major_opcode, _) =>
        xi <- di_new_object (PXorgExt (XorgExt "" 0 0 None (XInputFields (replicate 4 0%Z) (replicate 27 0%Z)))) ;;
        _ <- di_set_type xi "deai.plugin.xorg:XiExt" ;;
        put_ext xi (XorgExt "xinput" 0 major_opcode (Some "handle_xinput_event") (XInputFields (replicate 4 0%Z) (replicate 27 0%Z))) ;;
        di_set_object_dtor xi (Some "di_xorg_free_xinput") ;;
        save_xorg_connection xi dc ;;
        enable_hierarchy_event xi ;;
        _ <- di_method xi "__get_devices" "di_xorg_get_all_devices" DI_TYPE_ARRAY [] ;;
        di_signal_setter_deleter_with_signal_name xi "new-device" "di_xorg_ext_signal_setter" "di_xorg_ext_signal_deleter" ;;
        di_signal_setter_deleter_with_signal_name xi "device-enabled" "di_xorg_ext_signal_setter" "di_xorg_ext_signal_deleter" ;;
        di_signal_setter_deleter_with_signal_name xi "device-disabled" "di_xorg_ext_signal_setter" "di_xorg_ext_signal_deleter" ;;
        ret (Some xi)
    end.
End XInput.
