(* ===== verification/Randr.v ===== *)
(** * Outputs, views and modes: [plugins/xorg/randr.c] *)

From S2P Require Export Xcb.
From Stdlib Require Import SpecFloat.

(** ** Rotation and reflection *)

Definition ROTATE_0 : Z := 1.
Definition ROTATE_90 : Z := 2.
Definition ROTATE_180 : Z := 4.
Definition ROTATE_270 : Z := 8.
Definition REFLECT_X : Z := 16.
Definition REFLECT_Y : Z := 32.
Definition has_bits (mask rot : Z) : bool := negb (Z.land rot mask =? 0)%Z.

(** [get_view_config]: the fields [rotation] and [reflection]; the fields of a new object are
    zero *)
Definition rotation_of (rot : Z) : Z :=
  if has_bits ROTATE_0 rot then 0 else if has_bits ROTATE_90 rot then 1
  else if has_bits ROTATE_180 rot then 2 else if has_bits ROTATE_270 rot then 3 else 0.
Definition reflection_of (rot : Z) : Z :=
  if has_bits REFLECT_X rot then (if has_bits REFLECT_Y rot then 3 else 1)
  else if has_bits REFLECT_Y rot then 2 else 0.
(** [set_view_config]: the value for the server, unless the rotation is not known *)
Definition rr_rot (rotation reflection : Z) : option Z :=
  let base := if (rotation =? 0)%Z then Some ROTATE_0 else if (rotation =? 1)%Z then Some ROTATE_90
              else if (rotation =? 2)%Z then Some ROTATE_180 else if (rotation =? 3)%Z then Some ROTATE_270 else None in
  let with_bit (i bit : Z) (r : Z) := if Z.testbit reflection i then Z.lor r bit else r in
  with_bit 1%Z REFLECT_Y <$> (with_bit 0%Z REFLECT_X <$> base).

(** ** Modes *)

Definition MODE_FLAG_INTERLACE : Z := 16.
Definition MODE_FLAG_DOUBLE_SCAN : Z := 32.
Definition of_int (z : Z) : spec_float := binary_normalize 53 1024 z 0 false.
(** [make_object_for_modes]: the refresh rate *)
Definition mode_vtotal (m : mode_info) : spec_float :=
  let vtotal := of_int (mi_vtotal m) in
  let vtotal := if has_bits MODE_FLAG_INTERLACE (mi_flags m) then SFdiv 53 1024 vtotal (of_int 2) else vtotal in
  if has_bits MODE_FLAG_DOUBLE_SCAN (mi_flags m) then SFmul 53 1024 vtotal (of_int 2) else vtotal.
Definition is_zero (x : spec_float) : bool := match x with S754_zero _ => true | _ => false end.
Definition mode_fps (m : mode_info) : spec_float :=
  if negb (mi_htotal m =? 0)%Z && negb (is_zero (mode_vtotal m))
  then SFdiv 53 1024 (of_int (mi_dot_clock m)) (SFmul 53 1024 (of_int (mi_htotal m)) (mode_vtotal m))
  else S754_nan.
(** the modes of an output that the screen has, in the order of the output *)
Definition known_modes (modes : list Z) (infos : list mode_info) : list mode_info :=
  omap (fun id => find (fun m => mi_id m =? id)%Z infos) modes.

Section Randr.
Context {E : Env} {F : Ffi} {Y : System} {K : Xkb} {X : Xcb}.

Definition get_rr (o : oid) : M (xorg_ext * (Z * Z)) :=
  e <- get_ext o ;;
  match ext_fields e with RandrFields b cts => ret (e, (b, cts)) | _ => stuck WildPointer end.
Definition put_cts (o : oid) (cts : Z) : M unit :=
  let* (e, (b, _)) := get_rr o in put_ext o (set_ext_fields (RandrFields b cts) e).
Definition get_cts (o : oid) : M Z := let* (_, (_, cts)) := get_rr o in ret cts.

(** the [id] of an output, of a view *)
Definition get_output (o : oid) : M Z :=
  ob <- get_obj o ;;
  match extra ob with PXOutput id => ret id | _ => stuck WildPointer end.
Definition get_view (o : oid) : M Z :=
  ob <- get_obj o ;;
  match extra ob with PXView id => ret id | _ => stuck WildPointer end.

(** the extension of an output or a view, and its connection *)
Definition with_randr {A} (o : oid) (fail : M A) (k : oid -> oid -> M A) : M A :=
  with_object o "___randr" (fun rr => with_connection rr fail (k rr)).
Definition empty_object : M oid := di_new_object PObject.

Definition array_of (l : list oid) : val := VArray DI_TYPE_OBJECT true (map VObject l).
(** an array of new objects, or the empty array *)
Definition objects_or_empty {A} (l : list A) (make : A -> M oid) : M val :=
  match l with
  | [] => ret DI_ARRAY_INIT
  | _ => objs <- mapM make l ;; ret (array_of objs)
  end.

(** [make_object_for_modes] *)
Definition mode_struct : string := "di_xorg_mode".
Definition make_object_for_modes (m : mode_info) : M oid :=
  o <- di_new_object (PXMode 0 0 0 (S754_zero false) false false) ;;
  _ <- di_set_type o "deai.plugin.xorg.randr:Mode" ;;
  upd_obj o (set_extra (PXMode (mi_id m) (mi_width m) (mi_height m) (mode_fps m)
    (has_bits MODE_FLAG_INTERLACE (mi_flags m)) (has_bits MODE_FLAG_DOUBLE_SCAN (mi_flags m)))) ;;
  di_field o mode_struct "interlaced" DI_TYPE_BOOL ;;
  di_field o mode_struct "double_scan" DI_TYPE_BOOL ;;
  di_field o mode_struct "width" DI_TYPE_NUINT ;;
  di_field o mode_struct "height" DI_TYPE_NUINT ;;
  di_field o mode_struct "id" DI_TYPE_NUINT ;;
  di_field o mode_struct "fps" DI_TYPE_FLOAT ;;
  ret o.

(** [make_object_for_output] *)
Definition make_object_for_output (rr : oid) (id : Z) : M oid :=
  has <- di_has_member rr XORG_CONNECTION_MEMBER ;;
  DI_CHECK has ;;
  obj <- di_new_object (PXOutput 0) ;;
  _ <- di_set_type obj "deai.plugin.xorg.randr:Output" ;;
  upd_obj obj (set_extra (PXOutput id)) ;;
  di_field obj "di_xorg_output" "id" DI_TYPE_NUINT ;;
  _ <- di_getter obj "current_view" "get_output_current_view" DI_TYPE_OBJECT ;;
  _ <- di_getter obj "views" "get_output_views" DI_TYPE_ARRAY ;;
  _ <- di_getter obj "info" "get_output_info" DI_TYPE_OBJECT ;;
  _ <- di_getter_setter obj "backlight" "get_output_backlight" "set_output_backlight" DI_TYPE_NINT ;;
  _ <- di_getter obj "max_backlight" "get_output_max_backlight" DI_TYPE_NINT ;;
  _ <- di_getter obj "props" "get_output_props_object" DI_TYPE_OBJECT ;;
  _ <- di_member_clone obj "___randr" (VObject rr) ;;
  ret obj.

(** [make_object_for_view] *)
Definition make_object_for_view (rr : oid) (cid : Z) : M oid :=
  has <- di_has_member rr XORG_CONNECTION_MEMBER ;;
  DI_CHECK has ;;
  obj <- di_new_object (PXView 0) ;;
  _ <- di_set_type obj "deai.plugin.xorg.randr:View" ;;
  upd_obj obj (set_extra (PXView cid)) ;;
  _ <- di_getter obj "outputs" "get_view_outputs" DI_TYPE_ARRAY ;;
  di_field obj "di_xorg_view" "id" DI_TYPE_NUINT ;;
  _ <- di_getter_setter obj "config" "get_view_config" "set_view_config" DI_TYPE_OBJECT ;;
  _ <- di_member_clone obj "___randr" (VObject rr) ;;
  ret obj.

(** ** Properties of outputs *)

(** the items of an array of integers, read as signed numbers of 16 or 32 bits *)
Definition signed_items (p : property_reply) : M (list val) :=
  mapM (fun i =>
    if (p_format p =? 16)%Z then ret (VNint (sN 16 i))
    else if (p_format p =? 32)%Z then ret (VNint (sN 32 i))
    else stuck AssertFailed) (p_items p).
Definition atom_names (dc : oid) (l : list Z) : M (list val) :=
  mapM (fun a =>
    n <- di_xorg_get_atom_name dc a ;;
    match n with None => stuck NullDereference | Some n => ret (VString (di_clone_string (Some n))) end) l.

(** [output_props_getter] *)
Definition request_output_property (dc : oid) (id atom len : Z) : M (option property_reply) :=
  c <- xcb_of dc ;;
  request "xcb_randr_get_output_property" [VNint c; VNuint id; VNuint atom; VNuint len] (xcb_randr_get_output_property c id atom).
Definition output_property_value (dc : oid) (r : property_reply) : M val :=
  if (p_type r =? XCB_ATOM_INTEGER)%Z && (p_format r =? 8)%Z then ret (VVariant (VString (di_string_ndup (p_bytes r))))
  else if (p_type r =? XCB_ATOM_INTEGER)%Z then l <- signed_items r ;; ret (VVariant (VArray DI_TYPE_NINT true l))
  else if (p_type r =? XCB_ATOM_ATOM)%Z then l <- atom_names dc (p_items r) ;; ret (VVariant (VArray DI_TYPE_STRING true l))
  else ret (VVariant VNil).
Definition output_props_getter (this : oid) (prop : di_string) : M val :=
  let* (rr, _) := di_getxt this (Some "___randr") DI_TYPE_OBJECT false in
  let* (id, _) := di_getxt this (Some "___oid") DI_TYPE_NUINT false in
  match rr, id with
  | inr (VObject rr), inr (VNuint id) =>
      scoped
        (with_connection rr (ret (VVariant VNil)) (fun dc =>
           let* (atom, e) := di_xorg_intern_atom dc prop in
           if (e : bool) then ret (VVariant VNil)
           else
             r <- request_output_property dc id atom (2 ^ 32 - 1) ;;
             match r with None => ret (VVariant VNil) | Some r => output_property_value dc r end))
        (di_unref_object rr)
  | _, _ => stuck UndefinedBehaviour                         (* variables that are not set *)
  end.

(** [get_output_props_object] *)
Definition get_output_props_object (o : oid) : M oid :=
  r <- di_new_object PObject ;;
  rr <- get_checked o "___randr" DI_TYPE_OBJECT ;;
  _ <- di_member r "___randr" rr ;;
  id <- get_output o ;;
  _ <- di_member_clone r "___oid" (VNuint id) ;;
  _ <- di_method r "__get" "output_props_getter" DI_TYPE_VARIANT [DI_TYPE_STRING] ;;
  ret r.

(** ** Information about outputs *)

Definition request_output_info (rr dc : oid) (id : Z) : M (option output_info_reply) :=
  c <- xcb_of dc ;;
  cts <- get_cts rr ;;
  request "xcb_randr_get_output_info" [VNint c; VNuint id; VNuint cts] (xcb_randr_get_output_info c id cts).

(** [get_output_info] *)
Definition info_struct : string := "di_xorg_output_info".
Definition output_info_object (r : output_info_reply) (infos : list mode_info) : M oid :=
  o <- di_new_object (PXOutputInfo 0 0 0 0 0 "") ;;
  _ <- di_set_type o "deai.plugin.xorg.randr:OutputInfo" ;;
  modes <- mapM make_object_for_modes (known_modes (oi_modes r) infos) ;;
  upd_obj o (set_extra (PXOutputInfo (oi_mm_width r) (oi_mm_height r) (oi_connection r) (oi_subpixel_order r)
    (oi_num_preferred r) (c_str (oi_name r)))) ;;
  di_field o info_struct "connection" DI_TYPE_NINT ;;
  di_field o info_struct "mm_width" DI_TYPE_NUINT ;;
  di_field o info_struct "mm_height" DI_TYPE_NUINT ;;
  di_field o info_struct "name" DI_TYPE_STRING_LITERAL ;;
  di_field o info_struct "subpixel_order" DI_TYPE_NINT ;;
  di_field o info_struct "num_preferred" DI_TYPE_NUINT ;;
  _ <- di_member o "modes" (VArray DI_TYPE_OBJECT (match oi_modes r with [] => false | _ => true end) (map VObject modes)) ;;
  di_set_object_dtor o (Some "free_output_info") ;;
  ret o.
Definition get_output_info (o : oid) : M oid :=
  with_randr o empty_object (fun rr dc =>
    id <- get_output o ;;
    r <- request_output_info rr dc id ;;
    match r with
    | None => empty_object
    | Some r =>
        if negb (oi_status r =? 0)%Z then empty_object
        else
          scrn <- screen_of dc ;;
          c <- xcb_of dc ;;
          res <- request "xcb_randr_get_screen_resources" [VNint c; VNuint (scr_root scrn)] (xcb_randr_get_screen_resources c (scr_root scrn)) ;;
          match res with
          | None => empty_object
          | Some res =>
              i <- output_info_object r (sr_modes res) ;;
              with_object dc builtin_member_name (fun builtins =>
                di_xorg_copy_from_builtins i "randr_output_info" builtins ;; ret i)
          end
    end).
(** [free_output_info] *)
Definition free_output_info (o : oid) : M unit := _ <- get_obj o ;; ret tt.

(** [get_output_current_view] *)
Definition get_output_current_view (o : oid) : M oid :=
  with_randr o empty_object (fun rr dc =>
    id <- get_output o ;;
    r <- request_output_info rr dc id ;;
    match r with
    | None => empty_object
    | Some r => if negb (oi_status r =? 0)%Z || (oi_crtc r =? 0)%Z then empty_object else make_object_for_view rr (oi_crtc r)
    end).

(** [get_output_views] *)
Definition get_output_views (o : oid) : M val :=
  with_randr o (ret DI_ARRAY_INIT) (fun rr dc =>
    id <- get_output o ;;
    r <- request_output_info rr dc id ;;
    match r with
    | None => ret DI_ARRAY_INIT
    | Some r => if negb (oi_status r =? 0)%Z then ret DI_ARRAY_INIT else objects_or_empty (oi_crtcs r) (make_object_for_view rr)
    end).

(** ** The configuration of a view *)

Definition request_crtc_info (rr dc : oid) (id : Z) : M (option crtc_info_reply) :=
  c <- xcb_of dc ;;
  cts <- get_cts rr ;;
  request "xcb_randr_get_crtc_info" [VNint c; VNuint id; VNuint cts] (xcb_randr_get_crtc_info c id cts).

(** [get_view_config] *)
Definition config_struct : string := "di_xorg_view_config".
Definition view_config_object (cr : crtc_info_reply) : M oid :=
  o <- di_new_object (PXViewConfig 0 0 0 0 0 0) ;;
  _ <- di_set_type o "deai.plugin.xorg.randr:ViewConfig" ;;
  upd_obj o (set_extra (PXViewConfig (ci_x cr) (ci_y cr) (ci_width cr) (ci_height cr)
    (rotation_of (ci_rotation cr)) (reflection_of (ci_rotation cr)))) ;;
  di_field o config_struct "x" DI_TYPE_INT ;;
  di_field o config_struct "y" DI_TYPE_INT ;;
  di_field o config_struct "width" DI_TYPE_UINT ;;
  di_field o config_struct "height" DI_TYPE_UINT ;;
  di_field o config_struct "rotation" DI_TYPE_UINT ;;
  di_field o config_struct "reflection" DI_TYPE_UINT ;;
  _ <- di_member o "outputs"
    (match ci_outputs cr with [] => DI_ARRAY_INIT | l => VArray DI_TYPE_NUINT true (map VNuint l) end) ;;
  ret o.
Definition get_view_config (v : oid) : M oid :=
  with_randr v empty_object (fun rr dc =>
    id <- get_view v ;;
    cr <- request_crtc_info rr dc id ;;
    match cr with
    | None => empty_object
    | Some cr => if negb (ci_status cr =? 0)%Z then empty_object else view_config_object cr
    end).

(** [di_gets]: the function returns when the member is not there *)
Definition di_gets (o : oid) (prop : string) (t : di_type) (k : Z -> M unit) : M unit :=
  let* (r, _) := di_getxt o (Some prop) t false in
  match r with
  | inl _ => ret tt
  | inr (VNint z) | inr (VNuint z) => k z
  | inr _ => stuck WildPointer
  end.

(** the outputs of the configuration: [None] is one that is no number *)
Fixpoint output_ids (l : list val) : M (option (list Z)) :=
  match l with
  | [] => ret (Some [])
  | v :: l =>
      r <- di_type_conversion v DI_TYPE_UINT true ;;
      match r with
      | inl _ => ret None
      | inr (VUint id) =>
          rest <- output_ids l ;;
          ret (cons (id mod 2 ^ 32)%Z <$> rest)
      | inr _ => stuck WildPointer
      end
  end.

Definition SET_CONFIG_INVALID_TIME : Z := 2.
(** the loop around the request *)
Fixpoint set_crtc_config (fuel : nat) (rr dc : oid) (id x y mode rot : Z) (outputs : option (list Z)) : M unit :=
  match fuel with
  | O => stuck OutOfFuel
  | S fuel =>
      cr <- request_crtc_info rr dc id ;;
      match cr with
      | None => ret tt
      | Some cr =>
          if negb (ci_status cr =? 0)%Z then ret tt
          else
            c <- xcb_of dc ;;
            cts <- get_cts rr ;;
            let config := [id; ci_timestamp cr; cts; x; y; mode; rot] in
            let outs := default (ci_outputs cr) outputs in
            scr <- request "xcb_randr_set_crtc_config" (map VNint (c :: config ++ outs)) (xcb_randr_set_crtc_config c config outs) ;;
            match scr with
            | None => ret tt
            | Some status =>
                if (status =? SET_CONFIG_INVALID_TIME)%Z then set_crtc_config fuel rr dc id x y mode rot outputs else ret tt
            end
      end
  end.

Definition in_int16 (z : Z) : bool := ((- 2 ^ 15 <=? z) && (z <=? 2 ^ 15 - 1))%Z.
(** [set_view_config] *)
Definition set_view_config (v cfg : oid) : M unit :=
  with_randr v (ret tt) (fun rr dc =>
    di_gets cfg "x" DI_TYPE_NINT (fun x =>
    di_gets cfg "y" DI_TYPE_NINT (fun y =>
    di_gets cfg "mode" DI_TYPE_NUINT (fun mode =>
    di_gets cfg "rotation" DI_TYPE_NINT (fun rotation =>
    di_gets cfg "reflection" DI_TYPE_NINT (fun reflection =>
    let* (outputs, _) := di_getxt cfg (Some "outputs") DI_TYPE_ARRAY false in
    let free_outputs := match outputs with inr a => di_free_value a | inl _ => ret tt end in
    scoped
      (if negb (in_int16 x) || negb (in_int16 y) then ret tt
       else
         match rr_rot rotation reflection with
         | None => ret tt
         | Some rot =>
             id <- get_view v ;;
             match outputs with
             | inl _ => set_crtc_config env_fuel rr dc id x y mode rot None
             | inr (VArray _ _ l) =>
                 ids <- output_ids l ;;
                 match ids with
                 | None => ret tt
                 | Some ids => set_crtc_config env_fuel rr dc id x y mode rot (Some ids)
                 end
             | inr _ => stuck WildPointer
             end
         end)
      free_outputs)))))).

(** ** Backlight *)

Definition backlight_atom (dc : oid) : M (Z * bool) := di_xorg_intern_atom dc (Some "Backlight").
(** [get_output_backlight] *)
Definition get_output_backlight (o : oid) : M Z :=
  with_randr o (ret 0%Z) (fun rr dc =>
    let* (atom, e) := backlight_atom dc in
    if (e : bool) then ret (-1)%Z
    else
      id <- get_output o ;;
      r <- request_output_property dc id atom 4 ;;
      ret (match r with
           | Some r =>
               if (p_type r =? XCB_ATOM_INTEGER)%Z && (p_format r =? 32)%Z then
                 match p_items r with [v] => s32 v | _ => -1 end
               else -1
           | None => -1
           end)%Z).
(** [set_output_backlight] *)
Definition set_output_backlight (o : oid) (bkl : Z) : M unit :=
  with_randr o (ret tt) (fun rr dc =>
    let* (atom, e) := backlight_atom dc in
    if (e : bool) then ret tt
    else
      id <- get_output o ;;
      c <- xcb_of dc ;;
      err <- checked_request "xcb_randr_change_output_property" [VNint c; VNuint id; VNuint atom; VNint bkl] ;;
      when err (env_log DI_LOG_ERROR "Failed to set backlight")).
(** [get_output_max_backlight] *)
Definition get_output_max_backlight (o : oid) : M Z :=
  with_randr o (ret (-1)%Z) (fun rr dc =>
    let* (atom, e) := backlight_atom dc in
    if (e : bool) then ret (-1)%Z
    else
      id <- get_output o ;;
      c <- xcb_of dc ;;
      r <- request "xcb_randr_query_output_property" [VNint c; VNuint id; VNuint atom] (xcb_randr_query_output_property c id atom) ;;
      ret (match r with Some [_; max] => max | _ => -1 end)%Z).

(** [get_view_outputs] *)
Definition get_view_outputs (v : oid) : M val :=
  with_randr v (ret DI_ARRAY_INIT) (fun rr dc =>
    id <- get_view v ;;
    r <- request_crtc_info rr dc id ;;
    match r with
    | None => stuck NullDereference
    | Some r =>
        match ci_outputs r with
        | [] => ret (VArray DI_TYPE_OBJECT false [])
        | l => objs <- mapM (make_object_for_output rr) l ;; ret (array_of objs)
        end
    end).

(** ** Events *)

(** [handle_randr_event]: 0 when the event was for this extension, 1 otherwise *)
Definition handle_randr_event (rr : oid) (ev : Z) : M Z :=
  e <- gets (x_event_at ev) ;;
  let* (_, (evbase, _)) := get_rr rr in
  if (response_type e =? evbase)%Z then put_cts rr (config_timestamp e) ;; ret 0%Z
  else if (response_type e =? evbase + 1)%Z then
    if (subCode e =? 1)%Z then
      o <- make_object_for_output rr (ev_output e) ;;
      _ <- di_emitn rr (Some "output-change") [VObject o] ;;
      put_cts rr (config_timestamp e) ;;
      di_unref_object o ;; ret 0%Z
    else if (subCode e =? 0)%Z then
      o <- make_object_for_view rr (ev_crtc e) ;;
      _ <- di_emitn rr (Some "view-change") [VObject o] ;;
      di_unref_object o ;; ret 0%Z
    else ret 0%Z
  else ret 1%Z.

(** [rr_select_input] *)
Definition rr_select_input (rr : oid) (mask : Z) : M unit :=
  with_connection rr (ret tt) (fun dc =>
    x <- get_xc dc ;;
    match x_c x with
    | None => ret tt
    | Some c =>
        scrn <- screen_of dc ;;
        e <- checked_request "xcb_randr_select_input" [VNint c; VNuint (scr_root scrn); VNuint mask] ;;
        when e (env_log DI_LOG_ERROR ("randr select input failed" +:+ String (Ascii.ascii_of_nat 10) ""))
    end).

(** ** The extension *)

Definition request_current_resources (dc : oid) : M (option screen_resources) :=
  scrn <- screen_of dc ;;
  c <- xcb_of dc ;;
  request "xcb_randr_get_screen_resources_current" [VNint c; VNuint (scr_root scrn)] (xcb_randr_get_screen_resources_current c (scr_root scrn)).

(** [rr_outputs], [rr_modes] *)
Definition rr_outputs (rr : oid) : M val :=
  with_connection rr (ret DI_ARRAY_INIT) (fun dc =>
    sr <- request_current_resources dc ;;
    match sr with None => ret DI_ARRAY_INIT | Some sr => objects_or_empty (sr_outputs sr) (make_object_for_output rr) end).
Definition rr_modes (rr : oid) : M val :=
  with_connection rr (ret DI_ARRAY_INIT) (fun dc =>
    sr <- request_current_resources dc ;;
    match sr with None => ret DI_ARRAY_INIT | Some sr => objects_or_empty (sr_modes sr) make_object_for_modes end).

(** [rr_set_screen_size] *)
Definition rr_set_screen_size (rr size : oid) : M unit :=
  with_connection rr (ret tt) (fun dc =>
    scrn <- screen_of dc ;;
    di_gets size "width" DI_TYPE_NINT (fun width =>
    di_gets size "height" DI_TYPE_NINT (fun height =>
    di_gets size "mm_width" DI_TYPE_NINT (fun width_mm =>
    di_gets size "mm_height" DI_TYPE_NINT (fun height_mm =>
    c <- xcb_of dc ;;
    call_ext "xcb_randr_set_screen_size" [VNint c; VNuint (scr_root scrn); VNint width; VNint height; VNint width_mm; VNint height_mm] ;;
    call_ext "xcb_flush" [VNint c]))))).

(** [rr_screen_resources] *)
Definition rr_error {A} (line : Z) (msg : string) : M A :=
  e <- di_new_error "randr.c" line "rr_screen_resources" msg ;; di_throw e.
Definition add_objects {A} (o : oid) (name : string) (l : list A) (make : A -> M oid) : M unit :=
  match l with
  | [] => ret tt
  | _ => objs <- mapM make l ;; _ <- di_member o name (array_of objs) ;; ret tt
  end.
Definition rr_screen_resources (rr : oid) : M oid :=
  with_connection rr (rr_error 963 "no X connection") (fun dc =>
    scrn <- screen_of dc ;;
    c <- xcb_of dc ;;
    sr <- request "xcb_randr_get_screen_resources" [VNint c; VNuint (scr_root scrn)] (xcb_randr_get_screen_resources c (scr_root scrn)) ;;
    match sr with
    | None => rr_error 970 "failed to get screen resources"
    | Some sr =>
        o <- di_new_object PObject ;;
        _ <- di_set_type o "deai.plugin.xorg.randr:ScreenResources" ;;
        add_objects o "modes" (sr_modes sr) make_object_for_modes ;;
        add_objects o "outputs" (sr_outputs sr) (make_object_for_output rr) ;;
        add_objects o "views" (sr_crtcs sr) (make_object_for_view rr) ;;
        ret o
    end).

(** [free_randr] *)
Definition free_randr (rr : oid) : M unit := rr_select_input rr 0.

(** [new_randr] *)
Definition NOTIFY_MASKS : Z := 7.                             (* screen, CRTC and output changes *)
Definition new_randr (dc : oid) : M (option oid) :=
  let name := "RANDR" in
  c <- xcb_of dc ;;
  has <- xorg_has_extension c name ;;
  if negb has then ret None
  else
    r <- request "xcb_query_extension" [VNint c; VStringLiteral name] (xcb_query_extension c name) ;;
    match r with
    | None => ret None
    | Some (major_opcode, first_event) =>
        sr <- request_current_resources dc ;;
        match sr with
        | None => ret None
        | Some sr =>
            with_object dc builtin_member_name (fun builtins =>
              rr <- di_new_object (PXorgExt (XorgExt "" 0 0 None (RandrFields 0 0))) ;;
              _ <- di_set_type rr "deai.plugin.xorg:RandrExt" ;;
              put_ext rr (XorgExt "randr" 0 major_opcode (Some "handle_randr_event") (RandrFields first_event (sr_config_timestamp sr))) ;;
              _ <- di_getter rr "outputs" "rr_outputs" DI_TYPE_ARRAY ;;
              _ <- di_getter rr "modes" "rr_modes" DI_TYPE_ARRAY ;;
              _ <- di_getter rr "screen_resources" "rr_screen_resources" DI_TYPE_OBJECT ;;
              _ <- di_setter rr "screen_size" "rr_set_screen_size" DI_TYPE_OBJECT ;;
              di_signal_setter_deleter_with_signal_name rr "output-change" "di_xorg_ext_signal_setter" "di_xorg_ext_signal_deleter" ;;
              di_signal_setter_deleter_with_signal_name rr "view-change" "di_xorg_ext_signal_setter" "di_xorg_ext_signal_deleter" ;;
              di_set_object_dtor rr (Some "free_randr") ;;
              di_xorg_copy_from_builtins rr "randr" builtins ;;
              save_xorg_connection rr dc ;;
              rr_select_input rr NOTIFY_MASKS ;;
              ret (Some rr))
        end
    end.
End Randr.
