(* ===== verification/Xorg.v ===== *)
(** * The X11 plugin: [plugins/xorg/xorg.c] *)

From S2P Require Export XKey XInput Randr.

Definition weak_ext_key (name : di_string) : di_string := di_string_concat (di_string_borrow "___weak_x_ext_") name.
(** [xext_reg], without the functions *)
Definition xext_names : list string := ["xinput"; "randr"; "key"].
Definition key_event_name (e : x_event) : string :=
  if (response_type e =? XCB_GE_GENERIC)%Z then "___raw_x_event_ge_" +:+ fmt_d (event_type e)
  else "___raw_x_event_" +:+ fmt_d (response_type e).

Section Xorg.
Context {E : Env} {F : Ffi} {Y : System} {K : Xkb} {X : Xcb}.

(** [xorg_disconnect] *)
Definition xorg_disconnect (obj : oid) : M unit :=
  x <- get_xc obj ;;
  match x_xkb_ctx x with Some k => call_ext "xkb_context_unref" [VNint k] | None => ret tt end ;;
  match x_c x with
  | None => stuck Aborted
  | Some c =>
      call_ext "xcb_disconnect" [VNint c] ;;
      put_xc obj (Connection None (x_dflt_scrn x) 0 (x_xkb_ctx x) (x_atoms x)) ;;
      _ <- di_delete_member_raw obj (Some listen_handle_key) ;;
      x <- get_xc obj ;;
      put_xc obj (set_x_atoms [] x)
  end.

(** the member [new] of [xext_reg] *)
Definition new_ext (name : string) (xc : oid) : M (option oid) :=
  if String.eqb name "xinput" then new_xinput xc
  else if String.eqb name "randr" then new_randr xc else new_key xc.

(** [ext->handle_event (ext, ev)] *)
Definition call_handle_event (f : fnptr) (ext : oid) (ev : Z) : M Z :=
  if String.eqb f "handle_xinput_event" then handle_xinput_event ext ev
  else if String.eqb f "handle_randr_event" then handle_randr_event ext ev
  else stuck WildPointer.

(** the loop over the extensions that have signals: it ends with the first that does not
    answer 1 *)
Fixpoint offer_event (dc : oid) (names : list string) (ev : Z) : M unit :=
  match names with
  | [] => ret tt
  | name :: names =>
      let* (r, _) := di_getxt dc (Some (strong_ext_key name)) DI_TYPE_OBJECT false in
      match r with
      | inl _ => offer_event dc names ev
      | inr (VObject ext) =>
          status <- scoped
            (e <- get_ext ext ;;
             match handle_event_fn e with None => ret 1%Z | Some f => call_handle_event f ext ev end)
            (di_unref_object ext) ;;
          if (status =? 1)%Z then offer_event dc names ev else ret tt
      | inr _ => stuck WildPointer
      end
  end.

(** the body of the [while] loop *)
Definition xorg_event (dc : oid) (ev : Z) : M unit :=
  e <- gets (x_event_at ev) ;;
  _ <- di_emitn dc (Some (key_event_name e)) [VPointer ev] ;;
  offer_event dc xext_names ev ;;
  call_ext "free" [VPointer ev].

Fixpoint poll_events (fuel : nat) (dc : oid) : M unit :=
  match fuel with
  | O => stuck OutOfFuel
  | S fuel =>
      c <- xcb_of dc ;;
      ev <- request "xcb_poll_for_event" [VNint c] (xcb_poll_for_event c) ;;
      match ev with
      | None => ret tt
      | Some ev => xorg_event dc ev ;; poll_events fuel dc
      end
  end.

(** [di_xorg_ioev] *)
Definition di_xorg_ioev (dc : oid) : M unit :=
  poll_events env_fuel dc ;;
  c <- xcb_of dc ;;
  e <- gets (xcb_connection_has_error c) ;;
  when e (_ <- di_emitn dc (Some "connection-error") [] ;; di_finalize_object dc).

(** [di_xorg_get_resource] *)
Definition request_property (xc : oid) (long_length : Z) : M (option (Z * string)) :=
  scrn <- screen_of xc ;;
  c <- xcb_of xc ;;
  request "xcb_get_property" [VNint c; VNuint (scr_root scrn); VNuint long_length] (xcb_get_property c (scr_root scrn) long_length).
Definition di_xorg_get_resource (xc : oid) : M di_string :=
  r <- request_property xc 0 ;;
  match r with
  | None => ret DI_STRING_INIT
  | Some (real_size, _) =>
      r <- request_property xc real_size ;;
      ret (match r with None => DI_STRING_INIT | Some (_, v) => di_string_ndup v end)
  end.
(** [di_xorg_set_resource] *)
Definition di_xorg_set_resource (xc : oid) (rdb : di_string) : M unit :=
  scrn <- screen_of xc ;;
  c <- xcb_of xc ;;
  _ <- checked_request "xcb_change_property" [VNint c; VNuint (scr_root scrn); VString rdb] ;;
  ret tt.

(** [di_xorg_get_ext] *)
Definition make_ext (xc : oid) (name : di_string) : M val :=
  match find (fun n => di_string_eq (di_string_borrow n) name) xext_names with
  | None => ret VLast
  | Some n =>
      ext <- new_ext n xc ;;
      match ext with
      | None => ret VLast
      | Some ext =>
          weak_ext <- di_weakly_ref_object ext ;;
          scoped
            (rc <- di_add_member_clone xc (weak_ext_key name) (VWeak weak_ext) ;;
             DI_CHECK_OK rc ;;
             ret (VVariant (VObject ext)))
            (di_drop_weak_ref weak_ext)
      end
  end.
Definition di_xorg_get_ext (xc : oid) (name : di_string) : M val :=
  r <- di_rawgetxt xc (weak_ext_key name) DI_TYPE_WEAK_OBJECT ;;
  match r with
  | inl _ => make_ext xc name
  | inr (VWeak weak_ext) =>
      ext <- di_upgrade_weak_ref weak_ext ;;
      match ext with
      | Some ext => di_drop_weak_ref weak_ext ;; ret (VVariant (VObject ext))
      | None =>
          _ <- di_delete_member_raw xc (weak_ext_key name) ;;
          r <- make_ext xc name ;;
          (* the variable is overwritten when there is a new extension *)
          match r with VLast => di_drop_weak_ref weak_ext | _ => ret tt end ;;
          ret r
      end
  | inr _ => stuck WildPointer
  end.

(** [get_screen] *)
Definition get_screen (dc : oid) : M oid :=
  scrn <- screen_of dc ;;
  o <- di_new_object (PXScreen 0 0) ;;
  _ <- di_set_type o "deai.plugin.xorg:Screen" ;;
  upd_obj o (set_extra (PXScreen (scr_width scrn) (scr_height scrn))) ;;
  di_field o "xscreen" "height" DI_TYPE_UINT ;;
  di_field o "xscreen" "width" DI_TYPE_UINT ;;
  ret o.

(** ** The keyboard map *)

(** an optional member of the new map *)
Definition keymap_name (o : oid) (name : string) : M (option (option string)) :=
  let* (r, _) := di_getxt o (Some name) DI_TYPE_STRING false in
  match r with
  | inl _ => ret None
  | inr (VString s) => ret (Some (c_str <$> di_string_to_chars_alloc s))
  | inr _ => stuck WildPointer
  end.

(** the loop around the request for the modifiers *)
Definition MAPPING_STATUS_SUCCESS : Z := 0.
Definition MAPPING_STATUS_FAILURE : Z := 2.
Fixpoint set_modifier_mapping (fuel : nat) (xc : oid) (kpm : nat) (keycodes : list Z) : M unit :=
  match fuel with
  | O => stuck OutOfFuel
  | S fuel =>
      c <- xcb_of xc ;;
      r <- request "xcb_set_modifier_mapping" (map VNint (c :: Z.of_nat kpm :: keycodes))
             (xcb_set_modifier_mapping c (Z.of_nat kpm) keycodes) ;;
      match r with
      | None => env_log DI_LOG_ERROR "Failed to set modifiers, your keymap will be broken."
      | Some status =>
          if (status =? MAPPING_STATUS_FAILURE)%Z then env_log DI_LOG_ERROR "Failed to set modifiers, your keymap will be broken."
          else if (status =? MAPPING_STATUS_SUCCESS)%Z then ret tt
          else set_modifier_mapping fuel xc kpm keycodes
      end
  end.

(** the tables of a map, sent to the server *)
Definition send_keymap (xc : oid) (map_ : xkb_keymap) : M unit :=
  c <- xcb_of xc ;;
  let '(setup_min, setup_max) := xcb_setup_keycodes c in
  let '(min_keycode, max_keycode) := keycode_bounds map_ setup_min setup_max in
  let* (kpk, keysyms, warnings) := of_fault (keysym_table map_ (key_range min_keycode max_keycode)) in
  mapM_ (fun _ => env_log DI_LOG_WARN "Multiple keysyms per level is not supported") (seq 0 warnings) ;;
  r <- checked_request "xcb_change_keyboard_mapping_checked"
         (map VNint (c :: (max_keycode - min_keycode + 1)%Z :: min_keycode :: Z.of_nat kpk :: keysyms)) ;;
  when r (env_log DI_LOG_ERROR "Failed to set keymap.") ;;
  let* (kpm, keycodes) := of_fault (find_modifiers map_ min_keycode max_keycode) in
  set_modifier_mapping env_fuel xc kpm keycodes.

(** [set_keymap] *)
Definition set_keymap (xc : oid) (o : oid) : M unit :=
  layout <- keymap_name o "layout" ;;
  match layout with
  | None => env_log DI_LOG_ERROR ("Invalid keymap object, key " +:+ dquote +:+ "layout" +:+ dquote +:+ " is not set")
  | Some layout =>
      model <- keymap_name o "model" ;;
      variant <- keymap_name o "variant" ;;
      options <- keymap_name o "options" ;;
      let opt := default None in
      _ <- xcb_of xc ;;
      m <- gets (xkb_keymap_new_from_names [layout; opt model; opt variant; opt options]) ;;
      match m with
      | None => stuck NullDereference
      | Some m =>
          if negb (xkb_keymap_num_layouts m =? 1)%Z
          then env_log DI_LOG_ERROR "Using multiple layout at the same time is not currently supported."
          else send_keymap xc m
      end
  end.

(** ** Connecting *)

(** [di_xorg_new_clipboard] *)
Definition di_xorg_new_clipboard (x : oid) : M oid := stuck Aborted.

(** [di_xorg_load_builtin_lua] *)
Definition loaded_builtins (lua_module : oid) (path : string) : M (option oid) :=
  r <- di_callr lua_module "load_script" DI_TYPE_TUPLE [VString (Some path)] ;;
  match r with
  | inl _ | inr (VTuple []) => env_log DI_LOG_WARN "Failed to load builtins.lua for xorg plugin" ;; ret None
  | inr (VTuple [VObject b]) => ret (Some b)
  | inr v => di_free_value v ;; env_log DI_LOG_ERROR "Unexpected return value from xorg builtins.lua" ;; ret None
  end.
Definition di_xorg_load_builtin_lua (x : oid) : M unit :=
  di <- di_object_borrow_deai x ;;
  builtins <- rawget_object x builtin_member_name ;;
  match builtins with
  | Some _ => ret tt
  | None =>
      match di with
      | None => stuck NullDereference
      | Some di =>
          lua_module <- rawget_object di "lua" ;;
          match lua_module with
          | None => ret tt
          | Some lua_module =>
              dir <- get_string di "resources_dir" ;;
              builtins <- loaded_builtins lua_module (c_str (di_string_bytes dir) +:+ "/xorg/builtins.lua") ;;
              builtins <- match builtins with Some b => ret b | None => di_new_object PObject end ;;
              _ <- di_member x builtin_member_name (VObject builtins) ;; ret tt
          end
      end
  end.

Definition xorg_error {A} (line : Z) (msg : string) : M A :=
  e <- di_new_error "xorg.c" line "di_xorg_connect_to" msg ;; di_throw e.
(** [di_mgetm (x, event, ...)] *)
Definition event_module_of (x : oid) : M oid :=
  let gone {A} : M A := xorg_error 656 "Can't get event module" in
  di <- di_object_get_deai_strong x ;;
  match di with
  | None => gone
  | Some di =>
      scoped
        (let* (r, _) := di_getxt di (Some "event") DI_TYPE_OBJECT false in
         match r with inr (VObject eventm) => ret eventm | inr _ => stuck WildPointer | inl _ => gone end)
        (di_unref_object di)
  end.

(** the new connection object *)
Definition new_connection (c scrn : Z) (eventm builtins : oid) : M oid :=
  dc <- di_new_object (PXorgConnection None 0 0 None []) ;;
  _ <- di_set_type dc "deai.plugin.xorg:Connection" ;;
  put_xc dc (Connection (Some c) scrn 0 None []) ;;
  weak_eventm <- di_weakly_ref_object eventm ;;
  _ <- di_member dc "__weak_event_module" (VWeak weak_eventm) ;;
  di_set_object_dtor dc (Some "xorg_disconnect") ;;
  _ <- di_method dc "__get" "di_xorg_get_ext" DI_TYPE_VARIANT [DI_TYPE_STRING] ;;
  _ <- di_method dc "__set" "di_xorg_signal_setter" DI_TYPE_NIL [DI_TYPE_STRING; DI_TYPE_OBJECT] ;;
  _ <- di_method dc "__delete" "di_xorg_signal_deleter" DI_TYPE_NIL [DI_TYPE_STRING] ;;
  _ <- di_method dc "__get_xrdb" "di_xorg_get_resource" DI_TYPE_STRING [] ;;
  _ <- di_method dc "__set_xrdb" "di_xorg_set_resource" DI_TYPE_NIL [DI_TYPE_STRING] ;;
  _ <- di_method dc "__get_screen" "get_screen" DI_TYPE_OBJECT [] ;;
  _ <- di_method dc "__set_keymap" "set_keymap" DI_TYPE_NIL [DI_TYPE_OBJECT] ;;
  _ <- di_method dc "__get_clipboard" "di_xorg_new_clipboard" DI_TYPE_OBJECT [] ;;
  _ <- di_method dc "disconnect" "di_finalize_object" DI_TYPE_NIL [] ;;
  _ <- di_member dc builtin_member_name (VObject builtins) ;;
  ctx <- request "xkb_context_new" [] xkb_context_new ;;
  x <- get_xc dc ;;
  put_xc dc (Connection (x_c x) (x_dflt_scrn x) (x_nsignals x) ctx (x_atoms x)) ;;
  ret dc.

(** the cleanup of a variable that is moved when there is no exception *)
Definition on_throw {A} (m : M A) (cleanup : M unit) : M A := fun w =>
  match m w with Throw e w' => scoped (di_throw e) cleanup w' | r => r end.

(** [di_xorg_connect_to]; the reference to the members from Lua moves to the connection *)
Definition di_xorg_connect_to (x : oid) (displayname_ : di_string) : M oid :=
  di_xorg_load_builtin_lua x ;;
  b <- get_checked x builtin_member_name DI_TYPE_OBJECT ;;
  match b with
  | VObject builtins =>
      let displayname :=
        if (0 <? di_string_length displayname_)%nat then c_str <$> di_string_to_chars_alloc displayname_ else None in
      let free_builtins := di_unref_object builtins in
      conn <- gets (xcb_connect displayname) ;;
      call_ext "xcb_connect" [match displayname with Some s => VStringLiteral s | None => VPointer 0 end] ;;
      let '(c, scrn) := conn in
      failed <- gets (xcb_connection_has_error c) ;;
      if (failed : bool) then
        scoped (call_ext "xcb_disconnect" [VNint c] ;; xorg_error 653 "Cannot connect to the display") free_builtins
      else
        eventm <- on_throw (event_module_of x) free_builtins ;;
        scoped (new_connection c scrn eventm builtins) (di_unref_object eventm)
  | _ => stuck WildPointer
  end.

(** [di_xorg_connect], [new_xorg_module] and the entry point of the plugin *)
Definition di_xorg_connect (x : oid) : M oid := di_xorg_connect_to x DI_STRING_INIT.
Definition new_xorg_module (di : oid) : M oid :=
  x <- di_new_module di ;;
  _ <- di_method x "connect" "di_xorg_connect" DI_TYPE_OBJECT [] ;;
  _ <- di_method x "connect_to" "di_xorg_connect_to" DI_TYPE_OBJECT [DI_TYPE_STRING] ;;
  ret x.
Definition xorg_plugin_init (di : oid) : M unit :=
  x <- new_xorg_module di ;;
  _ <- di_register_module di (Some "xorg") x ;; ret tt.
End Xorg.
