(* ===== verification/Devices.v ===== *)
(** * The plugins in C++: [plugins/misc], [plugins/udev], [plugins/evdev], [plugins/hwinfo]

    The modules with their methods. libudev, libdisplay-info and the requests to input
    devices are parameters; their handles are numbers, 0 is NULL. *)

From S2P Require Export Cxx Misc.

Record input_id := { id_vendor : Z; id_product : Z; id_bustype : Z; id_version : Z }.

Class Devices := {
  udev_new : M Z;
  udev_unref : Z -> M unit;
  udev_device_new_from_syspath : Z -> option string -> M Z;
  udev_device_get_property_value : Z -> string -> M (option string);
  udev_device_unref : Z -> M unit;
  udev_enumerate_new : Z -> M Z;
  udev_enumerate_add_match_property : Z -> string -> string -> M unit;
  udev_enumerate_scan_devices : Z -> M unit;
  (** the name of the first entry, if there is one *)
  udev_enumerate_first : Z -> M (option string);
  udev_enumerate_unref : Z -> M unit;
  open_rdonly : string -> M Z;
  close : Z -> M unit;
  (** [ioctl] with [EVIOCGID], [None] on an error *)
  EVIOCGID : Z -> M (option input_id);
  (** [ioctl] with [EVIOCGNAME(size)]: how many bytes were copied, negative on an error, and
      the bytes *)
  EVIOCGNAME : Z -> nat -> M (Z * string);
  di_info_parse_edid : string -> M Z;
  di_info_destroy : Z -> M unit;
  di_info_get_model : Z -> M (option string);
  di_info_get_make : Z -> M (option string);
  di_info_get_serial : Z -> M (option string)
}.

Section Devices.
Context {E : Env} {F : Ffi} {D : Devices}.

(** the wrappers of methods without an argument, and with a string *)
Definition object_method (f : oid -> CM val) : list val -> CM (rc_or val) :=
  raw_wrapper [DI_TYPE_OBJECT] (fun xs => match xs with [VObject this] => f this | _ => stuck WildPointer end).
Definition string_method (f : oid -> string -> CM oid) : list val -> CM (rc_or val) :=
  raw_wrapper [DI_TYPE_OBJECT; DI_TYPE_STRING]
    (fun xs =>
       match xs with
       | [VObject this; VString s] => o <-! f this (di_string_bytes s) ;; cxret (VObject o)
       | _ => stuck WildPointer
       end).
(** an object with methods; it dies when one cannot be added *)
Fixpoint add_methods (o : oid) (methods : list (fnptr * string)) : CM unit :=
  match methods with
  | [] => cxret tt
  | (func, name) :: methods => _ <-! add_method o func name ;; add_methods o methods
  end.
Definition with_methods (o : oid) (methods : list (fnptr * string)) : CM oid :=
  guarded (_ <-! add_methods o methods ;; cxret o) (di_unref_object o).

(** ** misc *)

Definition int64_of (v : val) : M Z := match v with VInt z => ret z | _ => stuck WildPointer end.
(** an argument of type [std::vector<std::vector<int64_t>>] *)
Definition int64_lists (v : val) : M (list (list Z)) :=
  to_vector DI_TYPE_ARRAY "St6vectorIlSaIlEE" (to_vector DI_TYPE_INT "l" int64_of) v.
(** the wrapper of a function from lists to a list *)
Definition lists_method (f : list (list Z) -> cxx (list Z)) (args : list val) : CM (rc_or val) :=
  raw_wrapper [DI_TYPE_OBJECT; DI_TYPE_ARRAY]
    (fun xs =>
       graph <- match xs with [_; graph] => int64_lists graph | _ => stuck WildPointer end ;;
       r <-! of_cxx (f graph) ;;
       cxret (array_to_owned DI_TYPE_INT (VInt <$> r))) args.
Definition misc_bipartite_match : list val -> CM (rc_or val) := lists_method bipartite_match.
Definition misc_difference_constraints : list val -> CM (rc_or val) := lists_method difference_constraints.
(** [di_new_utils] *)
Definition di_new_utils (di : oid) : CM oid :=
  module <-! new_object "deai.plugin.utils:Module" "call_cpp_dtor_for_object<misc::Module>" PObject ;;
  with_methods module [("misc_difference_constraints", "difference_constraints"); ("misc_bipartite_match", "bipartite_match")].
Definition misc_plugin_init (di : oid) : CM unit :=
  cpp_plugin_init (fun di => register_new_module di "misc" (di_new_utils di)) di.

(** ** udev *)

Definition udev_context_of (ctx : oid) : M Z :=
  ob <- get_obj ctx ;; match extra ob with PUdevContext c => ret c | _ => stuck WildPointer end.
(** [Context::Context], [~Context] *)
Definition new_context : CM oid :=
  context <- udev_new ;;
  new_object "deai.plugin.udev:Context" "call_cpp_dtor_for_object<udev::Context>" (PUdevContext context).
Definition context_dtor (ctx : oid) : M unit := c <- udev_context_of ctx ;; udev_unref c.

(** the context the weak reference of the module stands for, if it lives, and what is left of
    the variant with the reference *)
Definition living_context (maybe_context_ref : val) : CM (option oid * val) :=
  copy <-! variant_to_lvalue DI_TYPE_WEAK_OBJECT maybe_context_ref ;;
  let '(copy, rest) := copy in
  match weak_ref_move copy with
  | (Some weak, _) => scoped (o <- weak_upgrade None weak ;; cxret (o, rest)) (di_drop_weak_ref weak)
  | (None, _) => cxthrow bad_optional_access
  end.
(** [Module::get_or_create_context] *)
Definition get_or_create_context (this : oid) : CM oid :=
  maybe_context_ref <- proxy_get true this "__udev_context" ;;
  r <-! match maybe_context_ref with Some v => living_context v | None => cxret (None, VNil) end ;;
  let '(maybe_context, rest) := r in
  scoped
    (match maybe_context with
     | Some c =>
         c <- downcast "deai.plugin.udev:Context" c ;;
         match c with Some c => cxret c | None => stuck UndefinedBehaviour end
     | None =>
         context <-! new_context ;;
         guarded
           (weak_context <- downgrade context ;;
            _ <-! proxy_assign_move true this "__udev_context" (Some (VWeak weak_context)) ;;
            cxret context)
           (di_unref_object context)
     end)
    (variant_dtor rest).

(** [Device::Device] takes a reference to the object and adds members to it before
    [new_object] has initialised its header *)
Definition device_ctor (ctx : oid) (syspath : option string) : CM oid := stuck UndefinedBehaviour.
(** [Module::device_from_dev_node] *)
Definition device_from_dev_node (this : oid) (dev_node : string) : CM oid :=
  context <-! get_or_create_context this ;;
  c <- udev_context_of context ;;
  e <- udev_enumerate_new c ;;
  udev_enumerate_add_match_property e "DEVNAME" (c_str dev_node) ;;
  udev_enumerate_scan_devices e ;;
  name <- udev_enumerate_first e ;;
  ret_ <-! device_ctor context name ;;
  udev_enumerate_unref e ;;
  cxret ret_.
(** [Module::search] *)
Definition search (this : oid) : CM oid :=
  context <-! get_or_create_context this ;;
  scoped
    (c <- udev_context_of context ;;
     raw <- udev_enumerate_new c ;;
     new_object "deai.plugin.udev:Enumerator" "call_cpp_dtor_for_object<udev::Enumerator>" (PUdevEnumerator raw))
    (di_unref_object context).
(** [di_new_udev] *)
Definition di_new_udev (di : oid) : CM oid :=
  module <-! new_object "deai.plugin.udev:Module" "call_cpp_dtor_for_object<udev::Module>" PObject ;;
  with_methods module [("udev_device_from_dev_node", "device_from_dev_node"); ("udev_search", "search")].
Definition udev_plugin_init (di : oid) : CM unit :=
  cpp_plugin_init (fun di => register_new_module di "udev" (di_new_udev di)) di.

(** ** evdev *)

Definition fd_of (this : oid) : M Z :=
  ob <- get_obj this ;; match extra ob with PInputDevice fd => ret fd | _ => stuck WildPointer end.
(** [~Device] *)
Definition evdev_device_dtor (this : oid) : M unit := fd <- fd_of this ;; close fd.

(** [InputId::vendor] and the others *)
Definition input_id_field (field : Z -> Z -> Z -> Z -> Z) (this : oid) : M val :=
  ob <- get_obj this ;;
  match extra ob with PInputId v p b ver => ret (VNint (field v p b ver)) | _ => stuck WildPointer end.
Definition vendor : oid -> M val := input_id_field (fun v p b ver => v).
Definition product : oid -> M val := input_id_field (fun v p b ver => p).
Definition bustype : oid -> M val := input_id_field (fun v p b ver => b).
Definition version : oid -> M val := input_id_field (fun v p b ver => ver).

(** [Device::id] *)
Definition device_id (this : oid) : CM val :=
  fd <- fd_of this ;;
  id <- EVIOCGID fd ;;
  match id with
  | None => e <- new_error "evdev.cc" 83 "id" "Failed to get device id information" ;; di_throw e
  | Some id =>
      obj <-! new_object "deai.plugin.evdev:InputId" "call_cpp_dtor_for_object<evdev::InputId>"
               (PInputId (id_vendor id) (id_product id) (id_bustype id) (id_version id)) ;;
      obj <-! with_methods obj [("evdev_vendor", "__get_vendor"); ("evdev_product", "__get_product");
                                ("evdev_bustype", "__get_bustype"); ("evdev_version", "__get_version")] ;;
      cxret (VObject obj)
  end.
(** the loop of [Device::name]: the buffer is doubled until the name fits; its last byte is
    dropped *)
Fixpoint read_name (fuel : nat) (fd : Z) (size : nat) : M string :=
  match fuel with
  | O => stuck OutOfFuel
  | S fuel =>
      let* (copied, bytes) := EVIOCGNAME fd size in
      if (copied <? 0)%Z then e <- new_error "evdev.cc" 101 "name" "Failed to get device name" ;; di_throw e
      else if (copied =? Z.of_nat size)%Z then read_name fuel fd (size * 2)
      else
        check UndefinedBehaviour (0 <? copied)%Z ;;
        ret (String.substring 0 (Z.to_nat copied - 1) bytes)
  end.
(** [Device::name] *)
Definition device_name (this : oid) : CM val :=
  fd <- fd_of this ;;
  name <- read_name env_fuel fd 80 ;;
  cxret (VString (Some name)).
(** [Module::device_from_dev_node]: the object dies with the exception *)
Definition evdev_open (this : oid) (dev_node : string) : CM oid :=
  fd <- open_rdonly (c_str dev_node) ;;
  device <-! new_object "deai.plugin.evdev:Device" "call_cpp_dtor_for_object<evdev::Device>" (PInputDevice fd) ;;
  if (fd <? 0)%Z then di_unref_object device ;; cxthrow (runtime_error "Failed to open device")
  else with_methods device [("evdev_id", "__get_id"); ("evdev_name", "__get_name")].
(** [di_new_evdev] *)
Definition di_new_evdev (di : oid) : CM oid :=
  module <-! new_object "deai.plugin.evdev:Module" "call_cpp_dtor_for_object<evdev::Module>" PObject ;;
  with_methods module [("evdev_open", "open")].
Definition evdev_plugin_init (di : oid) : CM unit :=
  cpp_plugin_init (fun di => register_new_module di "evdev" (di_new_evdev di)) di.

(** ** hwinfo *)

Definition info_of (this : oid) : M Z :=
  ob <- get_obj this ;; match extra ob with PDisplayInfo i => ret i | _ => stuck WildPointer end.
(** the [unique_ptr] of [DisplayInfo] *)
Definition display_info_dtor (this : oid) : M unit :=
  info <- info_of this ;; if (info =? 0)%Z then ret tt else di_info_destroy info.
(** [Display::from_edid] *)
Definition from_edid (this : oid) (edid : string) : CM oid :=
  info <- di_info_parse_edid edid ;;
  obj <-! new_object "deai.plugin.hwinfo.display:DisplayInfo" "call_cpp_dtor_for_object<DisplayInfo>" (PDisplayInfo info) ;;
  with_methods obj [("hwinfo_get_model", "__get_model"); ("hwinfo_get_make", "__get_make"); ("hwinfo_get_serial", "__get_serial")].
(** [DisplayInfo::get_model], [get_make], [get_serial]: the string of the library becomes the
    caller's *)
Definition info_string (get : Z -> M (option string)) (this : oid) : M val :=
  info <- info_of this ;;
  check NullDereference (negb (info =? 0)%Z) ;;
  name <- get info ;;
  match name with
  | None => ret (VString DI_STRING_INIT)
  | Some name => ret (VString (di_string_borrow name))
  end.
Definition get_model : oid -> M val := info_string di_info_get_model.
Definition get_make : oid -> M val := info_string di_info_get_make.
Definition get_serial : oid -> M val := info_string di_info_get_serial.
(** [Module::get_display] *)
Definition get_display (this : oid) : CM val :=
  display <-! new_object "deai.plugin.hwinfo.display:Module" "call_cpp_dtor_for_object<Display>" PObject ;;
  display <-! with_methods display [("hwinfo_from_edid", "from_edid")] ;;
  cxret (VObject display).
(** [di_new_hwinfo] *)
Definition di_new_hwinfo (di : oid) : CM oid :=
  module <-! new_object "deai.plugin.hwinfo:Module" "call_cpp_dtor_for_object<hwinfo::Module>" PObject ;;
  with_methods module [("hwinfo_get_display", "__get_display")].
Definition hwinfo_plugin_init (di : oid) : CM unit :=
  cpp_plugin_init (fun di => register_new_module di "hwinfo" (di_new_hwinfo di)) di.

(** ** The functions behind the objects *)

(** a search that returns a reference *)
Definition returning_object (f : oid -> CM oid) (this : oid) : CM val := o <-! f this ;; cxret (VObject o).
(** a field or a string, which cannot throw *)
Definition returning_value (f : oid -> M val) (this : oid) : CM val := v <- f this ;; cxret v.
(** what is called for an object whose [call] is one of the names *)
Definition devices_call (f : fnptr) (args : list val) : option (CM (rc_or val)) :=
  match f with
  | "misc_bipartite_match" => Some (misc_bipartite_match args)
  | "misc_difference_constraints" => Some (misc_difference_constraints args)
  | "udev_device_from_dev_node" => Some (string_method device_from_dev_node args)
  | "udev_search" => Some (object_method (returning_object search) args)
  | "evdev_open" => Some (string_method evdev_open args)
  | "evdev_id" => Some (object_method device_id args)
  | "evdev_name" => Some (object_method device_name args)
  | "evdev_vendor" => Some (object_method (returning_value vendor) args)
  | "evdev_product" => Some (object_method (returning_value product) args)
  | "evdev_bustype" => Some (object_method (returning_value bustype) args)
  | "evdev_version" => Some (object_method (returning_value version) args)
  | "hwinfo_get_display" => Some (object_method get_display args)
  | "hwinfo_from_edid" => Some (string_method from_edid args)
  | "hwinfo_get_model" => Some (object_method (returning_value get_model) args)
  | "hwinfo_get_make" => Some (object_method (returning_value get_make) args)
  | "hwinfo_get_serial" => Some (object_method (returning_value get_serial) args)
  | _ => None
  end.
End Devices.
