(* ===== verification/LuaApi.v ===== *)
(** * The C interface of Lua

    The functions of liblua that [plugins/lua/lua.c] calls, as a class: what can be read from
    a Lua state is a function of the world, what changes the state is an effect, because an
    allocation may run finalizers, and a call runs any code. The second part has the errors
    of Lua, which jump out of C functions without running their cleanups. *)

From S2P Require Export Promise Roots.
From Stdlib Require Import SpecFloat.

Inductive lua_type_tag :=
  | LUA_TNONE | LUA_TNIL | LUA_TBOOLEAN | LUA_TLIGHTUSERDATA | LUA_TNUMBER | LUA_TSTRING | LUA_TTABLE
  | LUA_TFUNCTION | LUA_TUSERDATA | LUA_TTHREAD.
#[global] Instance lua_type_tag_eq_dec : EqDecision lua_type_tag.
Proof. solve_decision. Defined.

(** [lua_Debug]; the fields that are read *)
Record lua_Debug := LuaDebug {
  ar_what : string; ar_source : option string; ar_short_src : string; ar_currentline : Z; ar_name : option string }.
Definition lua_debug_zero : lua_Debug := LuaDebug "" None "" 0 None.

(** the pseudo-indices of Lua 5.3 and 5.4 *)
Definition LUA_REGISTRYINDEX : Z := -1001000.
Definition lua_upvalueindex (i : Z) : Z := LUA_REGISTRYINDEX - i.
Definition LUA_MULTRET : Z := -1.

(** The first argument is the [lua_State]. Pointers are addresses, 0 is NULL. A function
    that may raise a Lua error returns [None] when it does, with the error on the stack. *)
Class Lua := {
  lua_gettop : Z -> world -> Z;
  lua_type : Z -> Z -> world -> lua_type_tag;
  lua_isinteger : Z -> Z -> world -> bool;
  lua_toboolean : Z -> Z -> world -> bool;
  lua_tointeger : Z -> Z -> world -> Z;
  lua_tonumber : Z -> Z -> world -> spec_float;
  lua_touserdata : Z -> Z -> world -> Z;
  (** the pointer in the block of a userdata *)
  userdata_pointer : Z -> world -> Z;
  (** [lua_getstack] with [lua_getinfo] *)
  lua_getframe : Z -> Z -> world -> option lua_Debug;

  lua_settop : Z -> Z -> M unit;
  lua_pushnil : Z -> M unit;
  lua_pushboolean : Z -> bool -> M unit;
  lua_pushinteger : Z -> Z -> M unit;
  lua_pushnumber : Z -> spec_float -> M unit;
  lua_pushlstring : Z -> string -> M unit;
  lua_pushlightuserdata : Z -> Z -> M unit;
  lua_pushvalue : Z -> Z -> M unit;
  lua_pushcclosure : Z -> fnptr -> Z -> M unit;
  lua_remove : Z -> Z -> M unit;
  lua_insert : Z -> Z -> M unit;
  lua_createtable : Z -> M unit;
  (** a userdata of the size of a pointer, with the pointer *)
  lua_newuserdata : Z -> Z -> M Z;
  lua_getmetatable : Z -> Z -> M bool;
  lua_setmetatable : Z -> Z -> M unit;
  lua_rawget : Z -> Z -> M unit;
  lua_rawset : Z -> Z -> M unit;
  lua_rawgeti : Z -> Z -> Z -> M unit;
  lua_rawseti : Z -> Z -> Z -> M unit;
  luaL_ref : Z -> Z -> M Z;
  luaL_unref : Z -> Z -> Z -> M unit;
  luaL_setfuncs : Z -> list (string * fnptr) -> M unit;
  lua_getglobal : Z -> string -> M unit;
  lua_setglobal : Z -> string -> M unit;
  (** a number becomes a string on the stack *)
  lua_tolstring : Z -> Z -> M (option string);
  luaL_checklstring : Z -> Z -> M (option string);
  lua_next : Z -> Z -> M (option bool);
  lua_gettable : Z -> Z -> M (option unit);
  lua_settable : Z -> Z -> M (option unit);
  (** the string, NULL when it is not one *)
  luaL_tolstring : Z -> Z -> M (option (option string));
  lua_pushfstring : Z -> string -> list val -> M (option unit);
  (** the message of an error, with its position *)
  luaL_push_error : Z -> string -> M unit;
  luaL_push_argerror : Z -> Z -> string -> M unit;
  lua_pcall : Z -> Z -> Z -> Z -> M Z;
  (** without a name: the standard input *)
  luaL_loadfile : Z -> option string -> M Z;
  luaL_loadstring : Z -> string -> M Z;
  luaL_newstate : M Z;
  luaL_openlibs : Z -> M unit;
  lua_close : Z -> M unit;

  (** [printf] of a double, in the C library *)
  fmt_lf : spec_float -> string
}.

(** ** Lua errors

    [None]: a Lua error was raised, and the function was left by a jump. *)
Definition LM (A : Type) : Type := M (option A).
Definition lret {A} (a : A) : LM A := ret (Some a).
Definition lbind {A B} (m : LM A) (k : A -> LM B) : LM B :=
  bind m (fun r => match r with Some a => k a | None => ret None end).
Notation "x <-? m1 ;; m2" := (lbind m1 (fun x => m2))
  (at level 100, m1 at next level, right associativity) : m_scope.
(** the cleanup of a variable: an exception runs it, a jump does not *)
Definition lscoped {A} (body : LM A) (cleanup : M unit) : LM A := fun w =>
  match body w with
  | Ret None w' => Ret None w'
  | Ret (Some a) w' => bind cleanup (fun _ => lret a) w'
  | Throw e w' => scoped (di_throw e) cleanup w'
  | Stuck f => Stuck f
  end.
(** a function that is not called by Lua: an error jumps out of it and of all its callers,
    up to a protected call that they know nothing of, if there is one *)
Definition unprotected {A} (m : LM A) : M A :=
  r <- m ;; match r with Some a => ret a | None => stuck Terminated end.

Section LuaApi.
Context {E : Env} {F : Ffi} {L0 : Lua}.

Definition lua_pop (L n : Z) : M unit := lua_settop L (- n - 1).
Definition lua_pushstring (L : Z) (s : string) : M unit := lua_pushlstring L (c_str s).
Definition lua_pushcfunction (L : Z) (f : fnptr) : M unit := lua_pushcclosure L f 0.
Definition lua_newtable (L : Z) : M unit := lua_createtable L.
Definition lua_isnil (L i : Z) (w : world) : bool := bool_decide (lua_type L i w = LUA_TNIL).
Definition lua_istable (L i : Z) (w : world) : bool := bool_decide (lua_type L i w = LUA_TTABLE).
Definition lua_isfunction (L i : Z) (w : world) : bool := bool_decide (lua_type L i w = LUA_TFUNCTION).
Definition lua_isstring (L i : Z) (w : world) : bool :=
  bool_decide (lua_type L i w = LUA_TSTRING \/ lua_type L i w = LUA_TNUMBER).
Definition lua_isuserdata (L i : Z) (w : world) : bool :=
  bool_decide (lua_type L i w = LUA_TUSERDATA \/ lua_type L i w = LUA_TLIGHTUSERDATA).
Definition lua_error {A} (L : Z) : LM A := ret None.
Definition luaL_error {A} (L : Z) (msg : string) : LM A := luaL_push_error L msg ;; ret None.
Definition luaL_argerror {A} (L i : Z) (msg : string) : LM A := luaL_push_argerror L i msg ;; ret None.

(** a pointer that is the address of an object *)
Definition as_object (p : Z) : M oid :=
  match p with Zpos o => ret o | Z0 => stuck NullDereference | Zneg _ => stuck WildPointer end.

(** [CHECK_LUA_STACK]: the rest of the block leaves the stack as high as it was *)
Definition CHECK_LUA_STACK {A} (L : Z) (body : M A) : M A :=
  old_top <- gets (lua_gettop L) ;;
  scoped body (top <- gets (lua_gettop L) ;; assert (top =? old_top)%Z).

(** [di_type_to_string] *)
Definition di_type_to_string (t : di_type) : string :=
  match t with
  | DI_TYPE_NIL => "NIL" | DI_TYPE_ANY => "ANY" | DI_TYPE_BOOL => "BOOL" | DI_TYPE_INT => "INT"
  | DI_TYPE_UINT => "UINT" | DI_TYPE_NINT => "NINT" | DI_TYPE_NUINT => "NUINT" | DI_TYPE_FLOAT => "FLOAT"
  | DI_TYPE_STRING => "STRING" | DI_TYPE_STRING_LITERAL => "STRING_LITERAL" | DI_TYPE_TUPLE => "TUPLE"
  | DI_TYPE_ARRAY => "ARRAY" | DI_TYPE_VARIANT => "VARIANT" | DI_TYPE_OBJECT => "OBJECT"
  | DI_TYPE_WEAK_OBJECT => "WEAK_OBJECT" | DI_TYPE_POINTER => "POINTER" | DI_TYPE_EMPTY_OBJECT => "EMPTY_OBJECT"
  | DI_LAST_TYPE => "LAST_TYPE"
  end.

(** [%p] *)
Definition fmt_pointer (p : Z) : string := match p with Zpos o => fmt_p o | _ => "(nil)" end.
(** [di_value_to_string] *)
Fixpoint di_value_to_string (v : val) : M string :=
  match v with
  | VObject o | VEmptyObject o =>
      t <- di_get_type o ;;
      match t with inr t => ret (c_str t +:+ ": " +:+ fmt_p o) | inl _ => stuck WildPointer end
  | VInt z | VUint z | VNint z | VNuint z => ret (fmt_d z)
  | VFloat f => ret (fmt_lf f)
  | VBool b => ret (if b then "true" else "false")
  | VString s => ret (c_str (di_string_bytes s))
  | VStringLiteral s => ret (c_str s)
  | VPointer p => ret (fmt_pointer p)
  | VWeak o => ret (fmt_p o)
  | VArray et _ l => ret ("[" +:+ di_type_to_string et +:+ "; " +:+ fmt_d (Z.of_nat (length l)) +:+ "]")
  | VVariant v => inner <- di_value_to_string v ;; ret ("variant(" +:+ inner +:+ ")")
  | VTuple _ | VNil | VLast => ret ""
  end.
End LuaApi.
