(* ===== verification/Lua.v ===== *)
(** * The Lua plugin: [plugins/lua/lua.c]

    Values go to Lua as Lua values, objects as proxies: userdata with the address of the
    object, of which there is one per object as long as Lua has it. Tables and functions of
    Lua come back as objects whose properties are read from the table. *)

From S2P Require Export LuaApi.
From Stdlib Require Import SpecFloat.

Definition ENOTSUP : Z := 95.
Definition INT_MAX : Z := 2 ^ 31 - 1.
Definition PTRDIFF_MAX : Z := 2 ^ 63 - 1.
Definition DI_LUA_REGISTRY_STATE_OBJECT_KEY : string := "__deai.di_lua.state_object".
Definition DEAI_LUA_REGISTRY_OBJECT_CACHE_KEY : string := "__deai.di_lua.object_cache".
Definition di_lua_object_methods : list (string * fnptr) :=
  [("__index", "di_lua_meta_index"); ("__newindex", "di_lua_meta_newindex"); ("__pairs", "di_lua_meta_pairs");
   ("__gc", "di_lua_gc"); ("__tostring", "di_lua_meta_to_string")].
Definition di_lua_weak_object_methods : list (string * fnptr) :=
  [("__index", "di_lua_meta_index_for_weak_object"); ("__gc", "di_lua_gc_for_weak_object")].
Definition di_lua_di_methods : list (string * fnptr) :=
  [("__index", "di_lua_meta_index"); ("__newindex", "di_lua_meta_newindex")].
Definition allowed_os : list string := ["time"; "difftime"; "clock"; "tmpname"; "date"].

(** the members of the state object that follow the proxies *)
Definition object_ref_key (obj : Z) : string := "___di_object_to_ref_" +:+ fmt_pointer obj.
Definition userdata_key (userdata : Z) : string := "___lua_userdata_to_object_" +:+ fmt_pointer userdata.
Definition lua_state_member : string := "___di_lua_state".

(** what [di_lua_type_to_di] answers: the result, [*t], and [*ret] when it is asked for *)
Abbreviation converted := (Z * di_type * val)%type.

Section Lua.
Context {E : Env} {F : Ffi} {L0 : Lua}.

(** ** The state *)

(** [struct di_lua_state], [struct di_lua_ref] *)
Definition lua_State_of (s : oid) : M (option Z) :=
  ob <- get_obj s ;;
  match extra ob with PLuaState l => ret l | _ => stuck WildPointer end.
Definition L_of (s : oid) : M Z :=
  l <- lua_State_of s ;;
  match l with Some l => ret l | None => stuck NullDereference end.
Definition tref_of (t : oid) : M Z :=
  ob <- get_obj t ;;
  match extra ob with PLuaRef r => ret r | _ => stuck WildPointer end.

(** [di_lua_get_state]: NULL without one *)
Definition di_lua_get_state (L : Z) : M Z :=
  lua_pushstring L DI_LUA_REGISTRY_STATE_OBJECT_KEY ;;
  lua_rawget L LUA_REGISTRYINDEX ;;
  s <- gets (lua_touserdata L (-1)) ;;
  lua_pop L 1 ;;
  ret s.

(** [DI_CHECK_OK(di_get(t, "___di_lua_state", state_obj))], the state, and the rest of the
    function *)
Definition with_lua_state {A} (t : oid) (k : Z -> M A) : M A :=
  v <- get_checked t lua_state_member DI_TYPE_OBJECT ;;
  match v with
  | VObject s => scoped (L <- L_of s ;; CHECK_LUA_STACK L (k L)) (di_unref_object s)
  | _ => stuck WildPointer
  end.

(** ** Proxies *)

(** [di_lua_isproxy]: two values are popped on every way out *)
Definition di_lua_isproxy (L index : Z) : M bool :=
  ud <- gets (lua_isuserdata L index) ;;
  r <- (if negb ud then ret false
        else
          has_metatable <- lua_getmetatable L index ;;
          if negb has_metatable then ret false
          else
            lua_pushstring L "__is_deai_proxy" ;;
            lua_rawget L (-2) ;;
            nil <- gets (lua_isnil L (-1)) ;;
            ret (negb nil)) ;;
  lua_pop L 2 ;;
  ret r.

(** [di_lua_checkproxy] *)
Definition di_lua_checkproxy (L index : Z) : LM Z :=
  p <- di_lua_isproxy L index ;;
  if (p : bool) then u <- gets (lua_touserdata L index) ;; lret u
  else luaL_argerror L index "not a di_object".
(** [*(di_object ** )lua_touserdata(L, i)] *)
Definition proxied (L i : Z) : M Z :=
  u <- gets (lua_touserdata L i) ;; gets (userdata_pointer u).

(** [di_lua_create_metatable_for_object] *)
Definition di_lua_create_metatable_for_object (L : Z) (reg : list (string * fnptr)) (callable : bool) : M unit :=
  when callable (lua_pushcclosure L "di_lua_method_handler" 2) ;;
  lua_newtable L ;;
  luaL_setfuncs L reg ;;
  lua_pushstring L "__is_deai_proxy" ;;
  lua_pushboolean L true ;;
  lua_rawset L (-3) ;;
  when callable
    (lua_insert L (-2) ;;
     lua_pushstring L "__call" ;;
     lua_insert L (-2) ;;
     lua_rawset L (-3)) ;;
  lua_setmetatable L (-2).

(** [di_lua_pushproxy] *)
Definition di_lua_pushproxy (L : Z) (name : di_string) (o : Z) (reg : list (string * fnptr)) (callable : bool) : M Z :=
  ptr <- lua_newuserdata L o ;;
  when callable
    (lua_pushlightuserdata L o ;;
     if (0 <? di_string_length name)%nat then lua_pushlstring L (di_string_bytes name)
     else lua_pushstring L "(anonymous)") ;;
  di_lua_create_metatable_for_object L reg callable ;;
  ret ptr.

(** [luaL_weakref], [luaL_weakref_get] *)
Definition luaL_weakref (L index : Z) : M Z :=
  lua_newtable L ;;
  lua_newtable L ;;
  lua_pushstring L "__mode" ;;
  lua_pushstring L "v" ;;
  lua_rawset L (-3) ;;
  lua_setmetatable L (-2) ;;
  lua_pushvalue L (-2) ;;
  lua_rawseti L (-2) 1 ;;
  lua_remove L (-2) ;;
  luaL_ref L index.
Definition luaL_weakref_get (L index r : Z) : M bool :=
  lua_rawgeti L index r ;;
  t <- gets (lua_istable L (-1)) ;;
  DI_CHECK t ;;
  lua_rawgeti L (-1) 1 ;;
  lua_remove L (-2) ;;
  nil <- gets (lua_isnil L (-1)) ;;
  ret (negb nil).

(** [di_lua_pushobject]: the reference to [obj] is consumed *)
Definition di_lua_pushobject (L : Z) (name : di_string) (obj : oid) : M unit :=
  s <- di_lua_get_state L ;;
  s <- as_object s ;;
  let ref_key := Some (object_ref_key (Zpos obj)) in
  let* (r, _) := di_getxt s ref_key DI_TYPE_INT false in
  known <- match r with
           | inr (VInt lua_ref) =>
               alive <- luaL_weakref_get L LUA_REGISTRYINDEX (s32 lua_ref) ;;
               when (negb alive) (lua_pop L 1) ;; ret alive
           | inr _ => stuck WildPointer
           | inl _ => ret false
           end ;;
  if (known : bool) then di_unref_object obj
  else
    userdata <- di_lua_pushproxy L name (Zpos obj) di_lua_object_methods true ;;
    lua_pushvalue L (-1) ;;
    lua_ref <- luaL_weakref L LUA_REGISTRYINDEX ;;
    let* (rc, _) := di_setx s ref_key (VInt lua_ref) false in
    DI_CHECK_OK rc ;;
    rc <- di_add_member_move s (Some (userdata_key userdata)) (VObject obj) ;;
    DI_CHECK_OK rc.

(** [di_lua_gc] *)
Definition di_lua_gc (L : Z) : LM Z :=
  optr <-? di_lua_checkproxy L 1 ;;
  o <- gets (userdata_pointer optr) ;;
  s <- di_lua_get_state L ;;
  DI_CHECK (negb (s =? 0)%Z) ;;
  s <- as_object s ;;
  rc <- di_delete_member_raw s (Some (userdata_key optr)) ;;
  DI_CHECK_OK rc ;;
  lua_ref <- di_rawget_borrowed2 s (Some (object_ref_key o)) DI_TYPE_INT ;;
  match lua_ref with
  | inl _ => lret 0%Z
  | inr (VInt lua_ref) =>
      alive <- luaL_weakref_get L LUA_REGISTRYINDEX (s32 lua_ref) ;;
      current_optr <-? (if (alive : bool) then di_lua_checkproxy L (-1) else lret optr) ;;
      if (current_optr =? optr)%Z
      then rc <- di_delete_member_raw s (Some (object_ref_key o)) ;; DI_CHECK_OK rc ;; lret 0%Z
      else lret 0%Z
  | inr _ => stuck WildPointer
  end.

(** [di_lua_gc_for_weak_object] *)
Definition di_lua_gc_for_weak_object (L : Z) : LM Z :=
  p <-? di_lua_checkproxy L 1 ;;
  weak <- gets (userdata_pointer p) ;;
  weak <- as_object weak ;;
  di_drop_weak_ref weak ;;
  lret 0%Z.

(** ** Objects of Lua as objects of deai *)

(** [lua_ref_dtor] *)
Definition lua_ref_dtor (obj : oid) : M unit :=
  let* (r, _) := di_getxt obj (Some lua_state_member) DI_TYPE_OBJECT false in
  match r with
  | inl _ => ret tt
  | inr (VObject state) =>
      scoped
        (l <- lua_State_of state ;;
         match l with
         | Some L => tref <- tref_of obj ;; luaL_unref L LUA_REGISTRYINDEX tref
         | None => ret tt
         end)
        (di_unref_object state)
  | inr _ => stuck WildPointer
  end.

(** the object for a table or a function, new *)
Definition new_lua_ref (L i : Z) (state : oid) (call : option fnptr) : M oid :=
  o <- di_new_object (PLuaRef 0) ;;
  _ <- di_set_type o "deai.plugin.lua:LuaProxy" ;;
  lua_pushvalue L i ;;
  tref <- luaL_ref L LUA_REGISTRYINDEX ;;
  upd_obj o (set_extra (PLuaRef tref)) ;;
  _ <- di_member_clone o lua_state_member (VObject state) ;;
  getter <- di_new_object PObject ;;
  di_set_object_call getter (Some "di_lua_di_getter") ;;
  _ <- di_add_member_move o (Some "__get") (VObject getter) ;;
  setter <- di_new_object PObject ;;
  di_set_object_call setter (Some "di_lua_di_setter") ;;
  _ <- di_add_member_move o (Some "__set") (VObject setter) ;;
  di_set_object_dtor o (Some "lua_ref_dtor") ;;
  di_set_object_call o call ;;
  _ <- di_method o "__next" "di_lua_di_next" DI_TYPE_TUPLE [DI_TYPE_STRING] ;;
  _ <- di_method o "__to_string" "di_lua_table_to_string" DI_TYPE_STRING [] ;;
  ret o.

(** [lua_type_to_di_object] *)
Definition lua_type_to_di_object (L i : Z) (call : option fnptr) : M oid :=
  top <- gets (lua_gettop L) ;;
  let i := if (i <? 0)%Z then (top + i + 1)%Z else i in
  ok <- gets (fun w => lua_istable L i w || lua_isfunction L i w) ;;
  DI_CHECK ok ;;
  state <- di_lua_get_state L ;;
  lua_pushstring L DEAI_LUA_REGISTRY_OBJECT_CACHE_KEY ;;
  lua_rawget L LUA_REGISTRYINDEX ;;
  lua_pushvalue L i ;;
  lua_rawget L (-2) ;;
  nil <- gets (lua_isnil L (-1)) ;;
  cached <- (if negb nil then
               p <- di_lua_isproxy L (-1) ;;
               assert p ;;
               weak <- proxied L (-1) ;;
               lua_pop L 1 ;;
               weak <- as_object weak ;;
               di_upgrade_weak_ref weak
             else lua_pop L 1 ;; ret None) ;;
  match cached with
  | Some obj => lua_pop L 1 ;; ret obj
  | None =>
      state <- as_object state ;;
      o <- new_lua_ref L i state call ;;
      weak <- di_weakly_ref_object o ;;
      lua_pushvalue L i ;;
      _ <- di_lua_pushproxy L DI_STRING_INIT (Zpos weak) di_lua_weak_object_methods false ;;
      lua_rawset L (-3) ;;
      lua_pop L 1 ;;
      ret o
  end.

(** ** From Lua to deai *)

Section tables.
(** [di_lua_type_to_di (L, i, type_hint, &t, &ret)] for the elements; with [want] false the
    last argument is NULL *)
Variable conv : Z -> di_type -> bool -> M converted.

(** the type of the elements after one more, of type [t] *)
Definition unify (elemt t : di_type) : option di_type :=
  if bool_decide (t = elemt) then Some elemt
  else if bool_decide (t = DI_TYPE_FLOAT /\ elemt = DI_TYPE_INT) then Some DI_TYPE_FLOAT
  else if bool_decide ((t = DI_TYPE_ARRAY \/ t = DI_TYPE_TUPLE) /\ elemt = DI_TYPE_EMPTY_OBJECT) then Some t
  else if bool_decide (t <> DI_TYPE_INT \/ elemt <> DI_TYPE_FLOAT) then None
  else Some elemt.

(** the loop of [di_lua_checkarray] *)
Fixpoint checkarray_rest (fuel : nat) (L index i : Z) (elemt : di_type) : M (option (Z * di_type)) :=
  match fuel with
  | O => stuck OutOfFuel
  | S fuel =>
      more <- unprotected (lua_next L index) ;;
      if negb more then ret (Some (i - 1, elemt)%Z)
      else
        lua_rawgeti L index i ;;
        let* (_, t, v) := conv (-1)%Z elemt true in
        di_free_value v ;;
        lua_pop L 2 ;;
        match unify elemt t with
        | None => lua_pop L 1 ;; ret None
        | Some elemt =>
            if (i + 1 =? INT_MAX)%Z then lua_pop L 1 ;; ret (Some (i, elemt))
            else checkarray_rest fuel L index (i + 1) elemt
        end
  end.

(** [di_lua_checkarray]: the number of elements and their type, if the table is an array *)
Definition di_lua_checkarray (L index : Z) : M (option (Z * di_type)) :=
  top <- gets (lua_gettop L) ;;
  let index := if (index <? 0)%Z then (top + index + 1)%Z else index in
  lua_pushnil L ;;
  more <- unprotected (lua_next L index) ;;
  if negb more then ret (Some (0%Z, DI_TYPE_ANY))
  else
    lua_rawgeti L index 1 ;;
    let* (_, elemt, v) := conv (-1)%Z DI_TYPE_ANY true in
    di_free_value v ;;
    lua_pop L 2 ;;
    assert (negb (bool_decide (elemt = DI_TYPE_UINT))) ;;
    if (di_type_to_Z elemt <? 0)%Z || bool_decide (elemt = DI_TYPE_NIL) then lua_pop L 1 ;; ret None
    else checkarray_rest env_fuel L index 2 elemt.

(** the loop of [di_lua_table_to_array], for the elements with these numbers *)
Fixpoint array_elements (L index : Z) (elemt : di_type) (js : list nat) : M (list val) :=
  match js with
  | [] => ret []
  | i :: js =>
      lua_rawgeti L index (Z.of_nat i) ;;
      let* (_, t, retd) := conv (-1)%Z elemt true in
      lua_pop L 1 ;;
      x <- (if negb (bool_decide (t = elemt)) then
              assert (bool_decide (t = DI_TYPE_INT /\ elemt = DI_TYPE_FLOAT)) ;;
              match retd with VInt z => ret (VFloat (CheckedInt.to_double z)) | _ => stuck UndefinedBehaviour end
            else ret retd) ;;
      xs <- array_elements L index elemt js ;;
      ret (x :: xs)
  end.
(** [di_lua_table_to_array] *)
Definition di_lua_table_to_array (L index nelem : Z) (elemt : di_type) : M val :=
  if (nelem =? 0)%Z then ret (VArray elemt false [])
  else
    z <- sizeof_is_zero elemt ;;
    assert (negb z) ;;
    l <- array_elements L index elemt (seq 1 (Z.to_nat nelem)) ;;
    ret (VArray elemt true l).
End tables.

(** [di_lua_type_to_di] *)
Fixpoint type_to_di (fuel : nat) (L i : Z) (type_hint : di_type) (want : bool) : M converted :=
  match fuel with
  | O => stuck OutOfFuel
  | S fuel =>
      let answer (v : val) : M converted := ret (0%Z, type_of v, if want then v else VNil) in
      let object (t : di_type) (mk : oid -> val) (call : option fnptr) : M converted :=
        if want then o <- lua_type_to_di_object L i call ;; ret (0%Z, t, mk o) else ret (0%Z, t, VNil) in
      let type_error : M converted := ret (- ENOTSUP, DI_TYPE_NIL, VNil)%Z in
      t <- gets (lua_type L i) ;;
      match t with
      | LUA_TBOOLEAN => b <- gets (lua_toboolean L i) ;; answer (VBool b)
      | LUA_TNUMBER =>
          int <- gets (lua_isinteger L i) ;;
          if (int : bool) then z <- gets (lua_tointeger L i) ;; answer (VInt z)
          else f <- gets (lua_tonumber L i) ;; answer (VFloat f)
      | LUA_TSTRING =>
          if want then
            s <- lua_tolstring L i ;;
            match s with
            | Some s => ret (0%Z, DI_TYPE_STRING, VString (di_string_ndup s))
            | None => stuck NullDereference
            end
          else ret (0%Z, DI_TYPE_STRING, VNil)
      | LUA_TUSERDATA =>
          p <- di_lua_isproxy L i ;;
          if negb p then type_error
          else if want then
            x <- proxied L i ;;
            x <- as_object x ;;
            x <- di_ref_object x ;;
            ret (0%Z, DI_TYPE_OBJECT, VObject x)
          else ret (0%Z, DI_TYPE_OBJECT, VNil)
      | LUA_TTABLE =>
          has_metatable <- lua_getmetatable L i ;;
          when has_metatable (lua_pop L 1) ;;
          a <- di_lua_checkarray (type_to_di fuel L) L i ;;
          match a, has_metatable with
          | None, _ | _, true => object DI_TYPE_OBJECT VObject None
          | Some (nelem, elemt), false =>
              if (nelem =? 0)%Z && negb (bool_decide (type_hint = DI_TYPE_ARRAY)) then
                assert (bool_decide (elemt = DI_TYPE_ANY)) ;;
                object DI_TYPE_EMPTY_OBJECT VEmptyObject None
              else if want then
                v <- di_lua_table_to_array (type_to_di fuel L) L i nelem elemt ;;
                ret (0%Z, DI_TYPE_ARRAY, v)
              else ret (0%Z, DI_TYPE_ARRAY, VNil)
          end
      | LUA_TFUNCTION => object DI_TYPE_OBJECT VObject (Some "call_lua_function")
      | LUA_TNIL => ret (0%Z, DI_TYPE_NIL, VNil)
      | _ => type_error
      end
  end.
Definition di_lua_type_to_di (L i : Z) (type_hint : di_type) (want : bool) : M converted :=
  type_to_di env_fuel L i type_hint want.

(** [di_lua_type_to_di_variant] *)
Definition di_lua_type_to_di_variant (L i : Z) : M (rc_or val) :=
  let* (rc, _, _) := di_lua_type_to_di L i DI_TYPE_ANY false in
  if negb (rc =? 0)%Z then ret (inl rc)
  else let* (_, _, v) := di_lua_type_to_di L i DI_TYPE_ANY true in ret (inr v).

(** [di_lua_values_to_di_tuple]: what cannot be converted is left out *)
Fixpoint convert_values (L : Z) (js : list Z) : M (list val) :=
  match js with
  | [] => ret []
  | i :: js =>
      let* (rc, t, _) := di_lua_type_to_di L i DI_TYPE_ANY false in
      if negb (rc =? 0)%Z then convert_values L js
      else if bool_decide (t = DI_TYPE_NIL) then vs <- convert_values L js ;; ret (VNil :: vs)
      else
        let* (rc, _, v) := di_lua_type_to_di L i DI_TYPE_ANY true in
        if negb (rc =? 0)%Z then convert_values L js
        else vs <- convert_values L js ;; ret (v :: vs)
  end.
Definition di_lua_values_to_di_tuple (L index : Z) : M val :=
  top <- gets (lua_gettop L) ;;
  vs <- convert_values L (seqZ index (top - index + 1)) ;;
  ret (VTuple vs).

(** ** From deai to Lua *)

(** [LUA_CHECK] *)
Definition LUA_CHECK (L line : Z) (cond : bool) (msg : string) : LM unit :=
  if cond then lret tt
  else
    err <- di_new_error "lua.c" line "di_lua_pushvariant" ("LUA_CHECK: " +:+ msg) ;;
    di_lua_pushobject L (Some "error") err ;;
    lua_error L.

(** the loops over the elements of an array and of a tuple *)
Section elements.
Variable push : val -> LM Z.
Fixpoint push_elements (L i : Z) (l : list val) : LM unit :=
  match l with
  | [] => lret tt
  | v :: l =>
      _ <-? push v ;;
      lua_rawseti L (-2) i ;;
      push_elements L (i + 1) l
  end.
End elements.

(** [di_lua_pushvariant]: the number of values it says it pushed *)
Fixpoint di_lua_pushvariant (L : Z) (name : di_string) (v : val) {struct v} : LM Z :=
  let pushed (m : M unit) : LM Z := m ;; lret 1%Z in
  match v with
  | VString None | VPointer 0 => pushed (lua_pushnil L)
  | VArray DI_TYPE_ANY _ _ => pushed (lua_createtable L)
  | VNuint i | VNint i | VInt i => pushed (lua_pushinteger L i)
  | VUint i =>
      _ <-? LUA_CHECK L 1285 (i <? PTRDIFF_MAX)%Z
              ("var.value->uint < PTRDIFF_MAXfailed: Value " +:+ fmt_d i +:+ " is too large for lua") ;;
      pushed (lua_pushinteger L i)
  | VFloat n => pushed (lua_pushnumber L n)
  | VPointer p => pushed (lua_pushlightuserdata L p)
  | VEmptyObject o | VObject o => o <- di_ref_object o ;; pushed (di_lua_pushobject L name o)
  | VWeak _ =>
      weak <- di_copy_value v ;;
      match weak with
      | VWeak weak => pushed (_ <- di_lua_pushproxy L name (Zpos weak) di_lua_weak_object_methods false ;; ret tt)
      | _ => stuck WildPointer
      end
  | VString (Some s) => pushed (lua_pushlstring L s)
  | VStringLiteral s => pushed (lua_pushstring L s)
  | VArray et _ l =>
      let n := Z.of_nat (length l) in
      _ <-? LUA_CHECK L 1319 (n <? INT_MAX)%Z
              ("arr->length < INT_MAXfailed: Array length " +:+ fmt_d n +:+ " is too large for lua") ;;
      _ <- sizeof_is_zero et ;;
      lua_createtable L ;;
      _ <-? push_elements (di_lua_pushvariant L DI_STRING_INIT) L 1 l ;;
      lret 1%Z
  | VTuple l =>
      let n := Z.of_nat (length l) in
      _ <-? LUA_CHECK L 1332 (n <? INT_MAX)%Z
              ("tuple->length < INT_MAXfailed: Tuple length " +:+ fmt_d n +:+ " is too large for lua") ;;
      lua_createtable L ;;
      _ <-? push_elements (di_lua_pushvariant L DI_STRING_INIT) L 1 l ;;
      lret 1%Z
  | VVariant v => di_lua_pushvariant L DI_STRING_INIT v
  | VBool b => pushed (lua_pushboolean L b)
  | VNil => lua_pushnil L ;; lret 0%Z
  | VLast => stuck AssertFailed
  end.
End Lua.
