(* ===== verification/LuaCalls.v ===== *)
(** * The Lua plugin: calls in both directions

    The C functions that Lua calls ([LM Z]: the number of results, or a Lua error), and the
    functions that deai calls to reach into Lua. *)

From S2P Require Export Lua.
From Stdlib Require Import Ascii.

Section LuaCalls.
Context {E : Env} {F : Ffi} {L0 : Lua}.

(** [lua_tolstring] into a [di_string], cloned *)
Definition clone_lua_string (L i : Z) : M di_string := s <- lua_tolstring L i ;; ret (di_clone_string s).
(** an object is pushed as the error *)
Definition raise_object {A} (L : Z) (name : di_string) (err : oid) : LM A := di_lua_pushobject L name err ;; lua_error L.
Definition newline : string := String (Ascii.ascii_of_nat 10) "".

(** ** Errors *)

(** [di_new_error2] with a file and a function that may be NULL *)
Definition di_new_error2 (file : option string) (line : Z) (func : option string) (msg : string) : M oid :=
  err <- di_new_object PObject ;;
  di_set_type err error_type ;;
  di_method err "__to_string" "di_error_to_string" DI_TYPE_STRING [] ;;
  di_member err "error" (VString (Some msg)) ;;
  match file with Some f => _ <- di_member_clone err "file" (VString (di_string_borrow f)) ;; ret tt | None => ret tt end ;;
  when (0 <=? line)%Z (_ <- di_member err "line" (VNint line) ;; ret tt) ;;
  match func with Some f => _ <- di_member_clone err "func" (VString (di_string_borrow f)) ;; ret tt | None => ret tt end ;;
  ret err.

(** the first frame that is not a C function, and its level *)
Fixpoint lua_frame (fuel : nat) (L level : Z) : M (Z * lua_Debug) :=
  match fuel with
  | O => stuck OutOfFuel
  | S fuel =>
      ar <- gets (lua_getframe L level) ;;
      match ar with
      | None => ret (level, lua_debug_zero)
      | Some ar => if String.eqb (ar_what ar) "C" then lua_frame fuel L (level + 1) else ret (level, ar)
      end
  end.
(** [ar.source + 1] of a source that is a file *)
Definition source_path (ar : lua_Debug) : option string :=
  let short_src := match ar_short_src ar with EmptyString => None | s => Some s end in
  match ar_source ar with
  | Some (String c s) => if Ascii.eqb c "@"%char then Some s else short_src
  | _ => short_src
  end.

(** the error object for what is on the top of the stack, and the level it comes from *)
Definition errfunc_object (L : Z) : M (oid * Z) :=
  let* (_, _, err) := di_lua_type_to_di L (-1) DI_TYPE_ANY true in
  match err with
  | VObject o => ret (o, 0%Z)
  | _ =>
      err_str <- di_value_to_string err ;;
      let* (level, ar) := lua_frame env_fuel L 0 in
      up <- gets (lua_isstring L (lua_upvalueindex 1)) ;;
      path <- (if (up : bool) then lua_tolstring L (lua_upvalueindex 1) else ret (source_path ar)) ;;
      o <- di_new_error2 path (ar_currentline ar) (ar_name ar) err_str ;;
      di_free_value err ;;
      ret (o, level)
  end.

(** the trace of the stack is added to the error, or the error to the one that was raised
    while the trace was made *)
Definition add_traceback (L : Z) (err_obj : oid) : M oid :=
  traceback <- lua_tolstring L (-1) ;;
  match traceback with
  | None => ret err_obj
  | Some traceback =>
      original <- di_rawget_borrowed2 err_obj (Some "detail") DI_TYPE_STRING ;;
      match original with
      | inr (VString original) =>
          _ <- di_delete_member_raw err_obj (Some "detail") ;;
          _ <- di_member err_obj "detail" (VString (Some (c_str (di_string_bytes original) +:+ newline +:+ c_str traceback))) ;;
          ret err_obj
      | _ => _ <- di_member_clone err_obj "detail" (VString (di_string_borrow traceback)) ;; ret err_obj
      end
  end.

(** [di_lua_errfunc] *)
Definition di_lua_errfunc (L : Z) : LM Z :=
  let* (err_obj, level) := errfunc_object L in
  lua_getglobal L "debug" ;;
  lua_pushstring L "traceback" ;;
  _ <-? lua_gettable L (-2) ;;
  lua_pushstring L "" ;;
  lua_pushinteger L (level + 1) ;;
  rc <- lua_pcall L 2 1 0 ;;
  err_obj <-? (if negb (rc =? 0)%Z then
                 msg <-? luaL_tolstring L (-1) ;;
                 err2 <- di_new_error "lua.c" 192 "di_lua_errfunc" (c_str (default "(null)" msg)) ;;
                 _ <- di_add_member_move err2 (Some "source") (VObject err_obj) ;;
                 lret err2
               else o <- add_traceback L err_obj ;; lret o) ;;
  di_lua_pushobject L DI_STRING_INIT err_obj ;;
  lret 1%Z.

(** ** The properties of an object of Lua *)

(** the first two arguments of a getter or a setter *)
Definition key_of (v : val) : option (Z -> M unit) :=
  match v with
  | VString s => Some (fun L => lua_pushlstring L (di_string_bytes s))
  | VStringLiteral s => Some (fun L => lua_pushstring L s)
  | _ => None
  end.

(** [di_lua_di_getter] *)
Definition di_lua_di_getter (m : oid) (tu : list val) : M (rc_or val) :=
  match tu with
  | [VObject t; key] =>
      match key_of key with
      | None => ret (inl (- EINVAL)%Z)
      | Some push_key =>
          with_lua_state t (fun L =>
            tref <- tref_of t ;;
            lua_rawgeti L LUA_REGISTRYINDEX tref ;;
            push_key L ;;
            _ <- unprotected (lua_gettable L (-2)) ;;
            let* (rc, _, v) := di_lua_type_to_di L (-1) DI_TYPE_ANY true in
            if negb (rc =? 0)%Z then ret (inl rc)
            else
              lua_pop L 2 ;;
              ret (inr (match v with VNil => VLast | v => v end)))
      end
  | [_; _] => stuck AssertFailed
  | _ => ret (inl (- EINVAL)%Z)
  end.

(** [di_lua_di_setter] *)
Definition di_lua_di_setter (m : oid) (tu : list val) : M (rc_or val) :=
  match tu with
  | [VObject t; key; v] =>
      match key_of key with
      | None => ret (inl (- EINVAL)%Z)
      | Some push_key =>
          with_lua_state t (fun L =>
            tref <- tref_of t ;;
            lua_rawgeti L LUA_REGISTRYINDEX tref ;;
            push_key L ;;
            n <- unprotected (di_lua_pushvariant L DI_STRING_INIT v) ;;
            if negb (n =? 1)%Z then lua_pop L 2 ;; ret (inl (- EINVAL)%Z)
            else
              _ <- unprotected (lua_settable L (-3)) ;;
              lua_pop L 1 ;;
              ret (inr VNil))
      end
  | [_; _; _] => stuck AssertFailed
  | _ => ret (inl (- EINVAL)%Z)
  end.

(** the loop of [di_lua_di_next] *)
Fixpoint next_string_key (fuel : nat) (L : Z) : M (option string) :=
  match fuel with
  | O => stuck OutOfFuel
  | S fuel =>
      more <- unprotected (lua_next L (-2)) ;;
      if negb more then lua_pop L 1 ;; ret None
      else
        str <- gets (lua_isstring L (-2)) ;;
        if negb str then lua_pop L 1 ;; next_string_key fuel L
        else
          key <- lua_tolstring L (-2) ;;
          if negb (di_string_starts_with key "__") then ret key
          else next_string_key fuel L
  end.
(** [di_lua_di_next]; [DI_TUPLE_INIT] is the empty tuple *)
Definition di_lua_di_next (t : oid) (name : di_string) : M val :=
  with_lua_state t (fun L =>
    tref <- tref_of t ;;
    lua_rawgeti L LUA_REGISTRYINDEX tref ;;
    nil <- gets (lua_isnil L (-1)) ;;
    if (nil : bool) then lua_pop L 1 ;; ret (VTuple [])
    else
      match name with Some s => lua_pushlstring L s | None => lua_pushnil L end ;;
      key <- next_string_key env_fuel L ;;
      match key with
      | None => ret (VTuple [])
      | Some key =>
          v <- di_lua_type_to_di_variant L (-1) ;;
          lua_pop L 3 ;;
          ret (VTuple [VString (Some key); match v with inr v => v | inl _ => VNil end])
      end).

(** [di_lua_table_to_string] *)
Definition di_lua_table_to_string (t : oid) : M di_string :=
  with_lua_state t (fun L =>
    tref <- tref_of t ;;
    lua_rawgeti L LUA_REGISTRYINDEX tref ;;
    nil <- gets (lua_isnil L (-1)) ;;
    if (nil : bool) then lua_pop L 1 ;; ret (Some ("<dead lua object " +:+ fmt_p t +:+ ">"))
    else
      s <- unprotected (luaL_tolstring L (-1)) ;;
      match s with
      | None =>
          err <- di_new_error "lua.c" 422 "di_lua_table_to_string" "Lua __tostring metamethod didn't return a string" ;;
          di_throw err
      | Some s => lua_pop L 2 ;; ret (Some s)
      end).

(** ** Calls *)

(** the arguments from number [i] on; [inr i]: the argument that could not be converted *)
Fixpoint lua_arguments (L : Z) (js : list Z) : M (list val * option Z) :=
  match js with
  | [] => ret ([], None)
  | i :: js =>
      v <- di_lua_type_to_di_variant L i ;;
      match v with
      | inl _ => ret ([], Some i)
      | inr v => let* (vs, bad) := lua_arguments L js in ret (v :: vs, bad)
      end
  end.

(** [di_lua_method_handler_impl] *)
Definition di_lua_method_handler_impl (L : Z) (name : string) (m : oid) : LM Z :=
  callable <- di_is_object_callable m ;;
  if negb callable then luaL_error L ("Object " +:+ name +:+ " is not callable" +:+ newline)
  else
    nargs <- gets (lua_gettop L) ;;
    check WildPointer (0 <? nargs)%Z ;;
    let* (t, bad) := lua_arguments L (seqZ 2 (nargs - 1)) in
    match bad with
    | Some i => di_free_value (VTuple t) ;; luaL_argerror L i "Unhandled lua type"
    | None =>
        lua_pop L nargs ;;
        let* (r, error) := di_call_object_catch m t in
        di_free_value (VTuple t) ;;
        match r, error with
        | inl rc, _ =>
            luaL_error L ("Failed to call function " +:+ dquote +:+ name +:+ dquote +:+ ": " +:+ strerror (- rc))
        | _, Some error => raise_object L (Some "error") error
        | inr v, None =>
            nret <-? di_lua_pushvariant L DI_STRING_INIT v ;;
            di_free_value v ;;
            lret nret
        end
    end.

(** [di_lua_method_handler] *)
Definition di_lua_method_handler (L : Z) : LM Z :=
  m <- gets (lua_touserdata L (lua_upvalueindex 1)) ;;
  name <- lua_tolstring L (lua_upvalueindex 2) ;;
  m <- as_object m ;;
  di_lua_method_handler_impl L (c_str (default "(null)" name)) m.

(** the arguments of a function of Lua *)
Fixpoint push_arguments (L : Z) (l : list val) : LM unit :=
  match l with
  | [] => lret tt
  | v :: l => _ <-? di_lua_pushvariant L DI_STRING_INIT v ;; push_arguments L l
  end.

(** the error of a protected call, made by [di_lua_errfunc] *)
Definition caught_error (L : Z) : M oid :=
  let* (rc, _, err) := di_lua_type_to_di L (-1) DI_TYPE_ANY true in
  DI_CHECK_OK rc ;;
  match err with VObject o => ret o | _ => stuck Aborted end.
Definition run_chunk (L : Z) (chunk : string) : M unit :=
  rc <- luaL_loadstring L chunk ;; DI_CHECK_OK rc ;;
  rc <- lua_pcall L 0 0 0 ;; DI_CHECK_OK rc.

(** [call_lua_function] *)
Definition call_lua_function (ref : oid) (t : list val) : M (rc_or val) :=
  with_lua_state ref (fun L =>
    lua_pushcfunction L "di_lua_errfunc" ;;
    tref <- tref_of ref ;;
    lua_rawgeti L LUA_REGISTRYINDEX tref ;;
    _ <- unprotected (push_arguments L t) ;;
    let n := Z.of_nat (length t) in
    rc <- lua_pcall L n 1 (- n - 2) ;;
    if negb (rc =? 0)%Z then
      err <- caught_error L ;;
      lua_pop L 2 ;;
      di_throw err
    else
      let* (_, _, v) := di_lua_type_to_di L (-1) DI_TYPE_ANY true in
      lua_pop L 2 ;;
      run_chunk L ("collectgarbage(" +:+ dquote +:+ "step" +:+ dquote +:+ ", 20)") ;;
      ret (inr v)).

(** ** Signals *)

(** [call_lua_signal_handler_once] *)
Definition call_lua_signal_handler_once (obj : oid) (t : list val) : M (rc_or val) :=
  h <- get_checked obj "wrapped" DI_TYPE_OBJECT ;;
  match h with
  | VObject handler =>
      scoped
        (lh <- get_checked obj "listen_handle" DI_TYPE_OBJECT ;;
         match lh with
         | VObject listen_handle =>
             scoped
               (rc <- di_call listen_handle "stop" [] ;;
                DI_CHECK_OK rc ;;
                di_call_object handler t)
               (di_unref_object listen_handle)
         | _ => stuck WildPointer
         end)
        (di_unref_object handler)
  | _ => stuck WildPointer
  end.

(** the handler that is given to [di_listen_to] *)
Definition listener_handler (L : Z) (once : bool) : M oid :=
  handler <- lua_type_to_di_object L (-1) (Some "call_lua_function") ;;
  if once then
    wrapped_handler <- di_new_object PObject ;;
    _ <- di_set_type wrapped_handler "deai.plugin.lua:OnceSignalHandler" ;;
    di_set_object_call wrapped_handler (Some "call_lua_signal_handler_once") ;;
    _ <- di_member wrapped_handler "wrapped" (VObject handler) ;;
    ret wrapped_handler
  else ret handler.

(** [di_lua_add_listener] *)
Definition di_lua_add_listener (L : Z) : LM Z :=
  once <- gets (lua_toboolean L (lua_upvalueindex 1)) ;;
  top <- gets (lua_gettop L) ;;
  if negb (top =? 3)%Z then luaL_error L "'on' takes 3 arguments"
  else
    t3 <- gets (lua_type L 3) ;;
    if negb (bool_decide (t3 = LUA_TFUNCTION)) then luaL_argerror L 3 "not a function"
    else
      t2 <- gets (lua_type L 2) ;;
      if negb (bool_decide (t2 = LUA_TSTRING)) then luaL_argerror L 2 "not a string"
      else
        p <- di_lua_isproxy L 1 ;;
        if negb p then luaL_argerror L 1 "not a di object"
        else
          o <- proxied L 1 ;;
          o <- as_object o ;;
          o <- di_ref_object o ;;
          r <- scoped
            (signame <- clone_lua_string L 2 ;;
             handler <- listener_handler L once ;;
             scoped
               (lua_pop L 3 ;;
                r <- di_listen_to o signame handler true ;;
                match r with
                | inr listen_handle =>
                    when once (_ <- di_member_clone handler "listen_handle" (VObject listen_handle) ;; ret tt) ;;
                    ret r
                | inl _ => ret r
                end)
               (di_unref_object handler))
            (di_unref_object o) ;;
          match r with
          | inl error => raise_object L (Some "error") error
          | inr listen_handle => di_lua_pushobject L DI_STRING_INIT listen_handle ;; lret 1%Z
          end.

(** [di_lua_emit_signal] *)
Definition di_lua_emit_signal (L : Z) : LM Z :=
  top <- gets (lua_gettop L) ;;
  if (top <? 2)%Z then luaL_error L "emit_signal requires at least 2 arguments"
  else
    p <- di_lua_isproxy L 1 ;;
    if negb p then luaL_argerror L 1 "not a di object"
    else
      str <- gets (lua_isstring L 2) ;;
      if negb str then luaL_argerror L 2 "not a string"
      else
        signame <- clone_lua_string L 2 ;;
        o <- proxied L 1 ;;
        o <- as_object o ;;
        o <- di_ref_object o ;;
        rc <-? lscoped
          (top <- gets (lua_gettop L) ;;
           let* (t, bad) := lua_arguments L (seqZ 3 (top - 2)) in
           lscoped
             (lua_pop L top ;;
              rc <- match bad with
                    | None => di_emitn o signame t
                    | Some _ => ret (- ENOTSUP)%Z
                    end ;;
              _ <-? (if negb (rc =? 0)%Z
                     then lua_pushfstring L "Failed to emit signal %.*s" [VNint (Z.of_nat (di_string_length signame)); VString signame]
                     else lret tt) ;;
              lret rc)
             (di_free_value (VTuple t)))
          (di_unref_object o) ;;
        if negb (rc =? 0)%Z then lua_error L else lret 0%Z.

(** ** Weak references *)

(** [di_lua_upgrade_weak_ref], [di_lua_weak_ref], [di_lua_meta_index_for_weak_object] *)
Definition di_lua_upgrade_weak_ref (L : Z) : LM Z :=
  p <-? di_lua_checkproxy L 1 ;;
  weak <- gets (userdata_pointer p) ;;
  weak <- as_object weak ;;
  strong <- di_upgrade_weak_ref weak ;;
  match strong with
  | None => lret 0%Z
  | Some strong => di_lua_pushobject L DI_STRING_INIT strong ;; lret 1%Z
  end.
Definition di_lua_weak_ref (L : Z) : LM Z :=
  p <-? di_lua_checkproxy L 1 ;;
  strong <- gets (userdata_pointer p) ;;
  strong <- as_object strong ;;
  weak <- di_weakly_ref_object strong ;;
  nret <-? di_lua_pushvariant L DI_STRING_INIT (VWeak weak) ;;
  di_drop_weak_ref weak ;;
  lret nret.
Definition di_lua_meta_index_for_weak_object (L : Z) : LM Z :=
  top <- gets (lua_gettop L) ;;
  if negb (top =? 2)%Z then luaL_error L "wrong number of arguments to __index"
  else
    key <-? luaL_checklstring L 2 ;;
    if String.eqb (c_str key) "upgrade" then lua_pushcclosure L "di_lua_upgrade_weak_ref" 0 ;; lret 1%Z else lret 0%Z.

(** ** Metamethods *)

(** the special methods of a proxy, which are pushed *)
Definition special_method (L : Z) (key : di_string) : option (M unit) :=
  if di_string_eq key (Some "on") then Some (lua_pushboolean L false ;; lua_pushcclosure L "di_lua_add_listener" 1)
  else if di_string_eq key (Some "once") then Some (lua_pushboolean L true ;; lua_pushcclosure L "di_lua_add_listener" 1)
  else if di_string_eq key (Some "emit") then Some (lua_pushcclosure L "di_lua_emit_signal" 0)
  else if di_string_eq key (Some "weakref") then Some (lua_pushcclosure L "di_lua_weak_ref" 0)
  else None.

(** [di_lua_meta_index] *)
Definition di_lua_meta_index (L : Z) : LM Z :=
  top <- gets (lua_gettop L) ;;
  if negb (top =? 2)%Z then luaL_error L "wrong number of arguments to __index"
  else
    p <- di_lua_isproxy L 1 ;;
    if negb p then luaL_argerror L 1 "not a di object"
    else
      str <- gets (lua_isstring L 2) ;;
      if negb str then luaL_argerror L 2 "not a string"
      else
        key <- clone_lua_string L 2 ;;
        ud <- proxied L 1 ;;
        ud <- as_object ud ;;
        ud <- di_ref_object ud ;;
        r <-? lscoped
          (lua_pop L 2 ;;
           match special_method L key with
           | Some push => push ;; lret (inr 1%Z)
           | None =>
               let* (r, error) := di_getx ud key true in
               match r, error with
               | inl _, _ => lua_pushnil L ;; lret (inr 1%Z)
               | inr _, Some error => lret (inl error)
               | inr v, None => n <-? di_lua_pushvariant L key v ;; di_free_value v ;; lret (inr n)
               end
           end)
          (di_unref_object ud) ;;
        match r with
        | inl error => raise_object L (Some "error") error
        | inr n => lret n
        end.

(** [di_lua_meta_newindex]; the messages print a [di_string] with [%s] *)
Definition di_lua_meta_newindex (L : Z) : LM Z :=
  top <- gets (lua_gettop L) ;;
  if negb (top =? 3)%Z then luaL_error L "wrong number of arguments to __newindex"
  else
    p <- di_lua_isproxy L 1 ;;
    if negb p then luaL_argerror L 1 "not a di object"
    else
      str <- gets (lua_isstring L 2) ;;
      if negb str then luaL_argerror L 2 "not a string"
      else
        let* (rc, _, val) := di_lua_type_to_di L 3 DI_TYPE_ANY true in
        if negb (rc =? 0)%Z then luaL_error L "unhandled lua type"
        else
          ud <- proxied L 1 ;;
          ud <- as_object ud ;;
          ud <- di_ref_object ud ;;
          ret_ <-? lscoped
            (key <- clone_lua_string L 2 ;;
             lua_pop L 3 ;;
             let* (rc, error) :=
               match val with
               | VNil => di_delete_member ud key true
               | _ => r <- di_setx ud key val true ;; di_free_value val ;; ret r
               end in
             assert (negb (bool_decide (is_Some error)) || (rc =? 0)%Z) ;;
             match error with
             | Some error => di_lua_pushobject L (Some "error") error ;; lret (-1)%Z
             | None => if (rc =? 0)%Z then lret 0%Z else stuck UndefinedBehaviour
             end)
            (di_unref_object ud) ;;
          if negb (ret_ =? 0)%Z then lua_error L else lret 0%Z.

(** [di_lua_meta_next], [di_lua_meta_pairs] *)
Definition di_lua_meta_next (L : Z) : LM Z :=
  top <- gets (lua_gettop L) ;;
  if negb (top =? 2)%Z && negb (top =? 1)%Z then luaL_error L "wrong number of arguments to __next"
  else
    p <- di_lua_isproxy L 1 ;;
    if negb p then luaL_argerror L 1 "not a di object"
    else
      nil <- gets (lua_isnil L 2) ;;
      str <- gets (lua_isstring L 2) ;;
      if (top =? 2)%Z && negb nil && negb str then luaL_argerror L 2 "not a string or nil"
      else
        ud <- proxied L 1 ;;
        ud <- as_object ud ;;
        ud <- di_ref_object ud ;;
        lscoped
          (key <- (if (top =? 2)%Z && negb nil then clone_lua_string L 2 else ret DI_STRING_INIT) ;;
           top <- gets (lua_gettop L) ;;
           lua_pop L top ;;
           next <- di_object_next_member ud key ;;
           lscoped
             (match next with
              | VTuple (k :: v :: _) =>
                  _ <-? di_lua_pushvariant L DI_STRING_INIT k ;;
                  _ <-? di_lua_pushvariant L DI_STRING_INIT v ;;
                  lret 2%Z
              | _ => lret 0%Z
              end)
             (di_free_value next))
          (di_unref_object ud).
Definition di_lua_meta_pairs (L : Z) : LM Z :=
  top <- gets (lua_gettop L) ;;
  if negb (top =? 1)%Z then luaL_error L "wrong number of arguments to __pairs"
  else
    lua_pushcfunction L "di_lua_meta_next" ;;
    lua_insert L 1 ;;
    lua_pushnil L ;;
    lret 3%Z.

(** [di_lua_meta_to_string] *)
Definition di_lua_meta_to_string (L : Z) : LM Z :=
  p <- di_lua_isproxy L 1 ;;
  if negb p then luaL_argerror L 1 "not a di_object"
  else
    o <- proxied L 1 ;;
    o <- as_object o ;;
    o <- di_ref_object o ;;
    lua_pop L 1 ;;
    let* (str, error) := di_object_to_string o true in
    di_unref_object o ;;
    match error with
    | Some error => raise_object L DI_STRING_INIT error
    | None => lua_pushlstring L (di_string_bytes str) ;; lret 1%Z
    end.
End LuaCalls.
