(* ===== verification/LuaModule.v ===== *)
(** * The Lua plugin: the state, scripts, globals and the module *)

From S2P Require Export LuaCalls.

Section LuaModule.
Context {E : Env} {F : Ffi} {L0 : Lua}.

(** [lua_state_dtor] *)
Definition lua_state_dtor (obj : oid) : M unit :=
  L <- L_of obj ;;
  lua_close L ;;
  upd_obj obj (set_extra (PLuaState None)).

(** the [os] table of scripts *)
Definition copy_field (L : Z) (name : string) : M unit :=
  lua_pushstring L name ;;
  lua_pushstring L name ;;
  lua_rawget L (-4) ;;
  lua_rawset L (-3).
Definition restrict_os (L : Z) : M unit :=
  lua_getglobal L "os" ;;
  lua_createtable L ;;
  mapM_ (copy_field L) allowed_os ;;
  lua_setglobal L "os" ;;
  lua_pop L 1.
(** the entries of the registry *)
Definition fill_registry (L : Z) (state : oid) : M unit :=
  lua_pushstring L DI_LUA_REGISTRY_STATE_OBJECT_KEY ;;
  lua_pushlightuserdata L (Zpos state) ;;
  lua_rawset L LUA_REGISTRYINDEX ;;
  lua_pushstring L DEAI_LUA_REGISTRY_OBJECT_CACHE_KEY ;;
  lua_newtable L ;;
  lua_newtable L ;;
  lua_pushstring L "__mode" ;;
  lua_pushstring L "k" ;;
  lua_rawset L (-3) ;;
  lua_setmetatable L (-2) ;;
  lua_rawset L LUA_REGISTRYINDEX.

(** [lua_new_state] *)
Definition lua_new_state (m : oid) : M oid :=
  s <- di_new_object (PLuaState None) ;;
  _ <- di_set_type s "deai.plugin.lua:LuaState" ;;
  L <- luaL_newstate ;;
  upd_obj s (set_extra (PLuaState (Some L))) ;;
  di_set_object_dtor s (Some "lua_state_dtor") ;;
  luaL_openlibs L ;;
  di <- di_object_get_deai_strong m ;;
  match di with
  | None => stuck NullDereference
  | Some di =>
      _ <- di_lua_pushproxy L (Some "di") (Zpos di) di_lua_di_methods false ;;
      lua_setglobal L "di" ;;
      _ <- di_member s DEAI_MEMBER_NAME_RAW (VObject di) ;;
      restrict_os L ;;
      weak <- di_weakly_ref_object s ;;
      _ <- di_member m "__lua_state" (VWeak weak) ;;
      fill_registry L s ;;
      top <- gets (lua_gettop L) ;;
      assert (top =? 0)%Z ;;
      ret s
  end.

(** the state object of the module, if there is one that lives, and what is done with it
    while the weak reference is held; [inl]: the module never had a state *)
Definition with_living_state {A} (m : oid) (k : rc_or (option oid) -> M A) : M A :=
  let* (r, _) := di_getxt m (Some "__lua_state") DI_TYPE_WEAK_OBJECT false in
  match r with
  | inr (VWeak weak) => scoped (s <- di_upgrade_weak_ref weak ;; k (inr s)) (di_drop_weak_ref weak)
  | inr _ => stuck WildPointer
  | inl rc => k (inl rc)
  end.
(** the state for a script: a new one if the last one died *)
Definition state_for_script (m : oid) : M oid :=
  with_living_state m (fun r =>
    s <- match r with
         | inr s => ret s
         | inl rc => DI_CHECK (rc =? - ENOENT)%Z ;; ret None
         end ;;
    match s with
    | Some s => ret s
    | None => _ <- di_delete_member_raw m (Some "__lua_state") ;; lua_new_state m
    end).

(** running a script in a state *)
Definition run_script (L : Z) (path : option string) : M val :=
  old_top <- gets (lua_gettop L) ;;
  match path with Some path => lua_pushstring L path | None => lua_pushnil L end ;;
  lua_pushcclosure L "di_lua_errfunc" 1 ;;
  rc <- luaL_loadfile L (c_str <$> path) ;;
  if negb (rc =? 0)%Z then
    err <- lua_tolstring L (-1) ;;
    log_error ("Failed to load lua script " +:+ default "(null)" (c_str <$> path) +:+ ": "
                +:+ c_str (default "(null)" err) +:+ newline) ;;
    lua_pop L 2 ;;
    ret (VTuple [])
  else
    rc <- lua_pcall L 0 LUA_MULTRET (-2) ;;
    lua_remove L 1 ;;
    func_ret <- (if (rc =? 0)%Z then
                   t <- di_lua_values_to_di_tuple L (old_top + 1) ;;
                   top <- gets (lua_gettop L) ;;
                   lua_pop L (top - old_top) ;;
                   ret t
                 else ret (VTuple [])) ;;
    run_chunk L "collectgarbage()" ;;
    if negb (rc =? 0)%Z then
      err <- caught_error L ;;
      lua_pop L 1 ;;
      di_throw err
    else ret func_ret.

(** [di_lua_load_script] *)
Definition di_lua_load_script (m : oid) (path_ : di_string) : M val :=
  match path_ with
  | None => log_error "Path is null" ;; ret (VTuple [])
  | Some _ =>
      let path := di_string_to_chars_alloc path_ in
      s <- state_for_script m ;;
      scoped (L <- L_of s ;; CHECK_LUA_STACK L (run_script L path)) (di_unref_object s)
  end.

(** the value of a global variable *)
Definition global_value (s : oid) (key : di_string) : M val :=
  match di_string_to_chars_alloc key with
  | None => stuck NullDereference
  | Some keystr =>
      L <- L_of s ;;
      lua_getglobal L (c_str keystr) ;;
      let* (_, _, v) := di_lua_type_to_di L (-1) DI_TYPE_ANY true in
      lua_pop L 1 ;;
      ret (VVariant v)
  end.
(** [di_lua_globals_getter]; [DI_VARIANT_INIT] is nil *)
Definition di_lua_globals_getter (globals : oid) (key : di_string) : M val :=
  let* (r, _) := di_getxt globals (Some "___di_lua_module") DI_TYPE_OBJECT false in
  match r with
  | inl _ => stuck NullDereference
  | inr (VObject m) =>
      scoped
        (with_living_state m (fun r =>
           match r with
           | inl rc => DI_CHECK (rc =? - ENOENT)%Z ;; ret (VVariant VNil)
           | inr None => _ <- di_delete_member_raw m (Some "__lua_state") ;; ret (VVariant VNil)
           | inr (Some s) => scoped (global_value s key) (di_unref_object s)
           end))
        (di_unref_object m)
  | inr _ => stuck WildPointer
  end.
(** [di_lua_get_globals] *)
Definition di_lua_get_globals (lua : oid) : M oid :=
  g <- di_new_object PObject ;;
  _ <- di_set_type g "deai.plugin.lua:Globals" ;;
  _ <- di_member_clone g "___di_lua_module" (VObject lua) ;;
  _ <- di_method g "__get" "di_lua_globals_getter" DI_TYPE_VARIANT [DI_TYPE_STRING] ;;
  ret g.

(** [di_lua_as_di_object] *)
Definition di_lua_as_di_object (lua obj : oid) : M oid := di_ref_object obj.

(** [di_new_lua] *)
Definition di_new_lua (di : oid) : M oid :=
  m <- di_new_module di ;;
  _ <- di_method m "load_script" "di_lua_load_script" DI_TYPE_TUPLE [DI_TYPE_STRING] ;;
  _ <- di_method m "as_di_object" "di_lua_as_di_object" DI_TYPE_OBJECT [DI_TYPE_OBJECT] ;;
  _ <- di_method m "__get_globals" "di_lua_get_globals" DI_TYPE_OBJECT [] ;;
  dir <- get_string di "resources_dir" ;;
  r <- di_lua_load_script m (Some (c_str (di_string_bytes dir) +:+ "/lua/builtins.lua")) ;;
  di_free_value r ;;
  ret m.
Definition lua_plugin_init (di : oid) : M unit :=
  m <- di_new_lua di ;;
  _ <- di_register_module di (Some "lua") m ;; ret tt.
End LuaModule.
