(* ===== verification/Demo.v ===== *)
(** * Concrete instances of the interfaces

    An environment whose destructors and callees do nothing, a libffi whose functions
    return nil, a libev whose clock stands still, the type codes of D-Bus: the smallest
    instances of the classes the other files are parametrised by, to evaluate definitions
    and to discharge hypotheses on concrete stores. *)

From S2P Require Export Table Spawn Log DBus Xcb.
From Stdlib Require Import SpecFloat.

Definition quiet_env : Env := {|
  env_fuel := 40;
  env_call := fun _ _ _ => ret (inr VNil);
  env_dtor := fun _ _ => ret tt;
  env_log := fun _ _ => ret tt
|}.

Lemma quiet_env_ok strict N : @env_ok quiet_env strict N.
Proof. intros d o ext extw pin w HI _ _. split; [done|apply frame_refl]. Qed.

Definition null_ffi : Ffi := {|
  ffi_prep_cif := fun _ _ => true;
  ffi_call := fun _ _ => ret VNil;
  uninitialised_result := VNil;
  strerror := fun rc => "error " +:+ fmt_d rc;
  call_raw_fn := fun _ _ _ => ret (inr VNil);
  load_field := fun _ _ _ => ret VNil
|}.

Definition still_libev : Libev := {|
  ev_now := fun _ => S754_zero false;
  ev_io_init_events := fun e => Z.lor e 128;
  ev_io_start_events := fun e => Z.land e 3;
  ev_io_modify_events := fun old flags => Z.lor (Z.land old 128) flags
|}.

(** every call succeeds, and there are no files *)
Definition null_system : System := {|
  sys := fun _ _ _ => 0%Z;
  sys_pipe := fun _ => Some (3, 4)%Z;
  sys_readdir := fun _ _ => None;
  sys_realpath := fun _ _ => None;
  sys_is_regular := fun _ _ _ => None;
  sys_getenv := fun _ _ => None;
  sys_uname := fun _ => None;
  sys_dlopen := fun _ _ => None;
  call_init_fn := fun _ _ => ret tt;
  sys_proc := fun _ => None;
  strtod := fun s => (S754_zero false, s);
  ev_run := ret tt;
  plugin_install_dir := "/usr/lib/deai";
  resources_dir := "/usr/share/deai"
|}.

Definition spec_libdbus : Libdbus := {|
  dbus_type_is_basic := fun c => existsb (Ascii.eqb c) (String.list_ascii_of_string "ybnqiuxtdsogh");
  dbus_type_is_valid := fun c => existsb (Ascii.eqb c) (String.list_ascii_of_string "ybnqiuxtdsoghavr(){}em");
  dbus_type_is_fixed := fun c => existsb (Ascii.eqb c) (String.list_ascii_of_string "ybnqiuxtdh")
|}.

#[export] Instance spec_libdbus_laws : LibdbusLaws spec_libdbus.
Proof.
  constructor; try reflexivity. intros c. simpl. rewrite !orb_true_iff. intuition.
Qed.

(** keyboards of the keys 8 to 11 with one level, where key 10 is shift *)
Definition small_xkb : Xkb := {|
  xkb_keymap := unit;
  xkb_state := bool;
  xkb_keymap_num_layouts := fun _ => 1%Z;
  xkb_keymap_min_keycode := fun _ => 8%Z;
  xkb_keymap_max_keycode := fun _ => 11%Z;
  xkb_keymap_num_levels_for_key := fun _ _ => 1;
  xkb_keymap_key_get_syms_by_level := fun _ k _ => [(k + 100)%Z];
  xkb_map_mod_get_index := fun _ _ => Some 0%Z;
  xkb_state_new := fun _ => false;
  xkb_state_update_key := fun _ k down => (down, if (k =? 10)%Z then 1%Z else 0%Z);
  xkb_state_mod_name_is_active := fun _ n _ => if String.eqb n "Shift" then 1%Z else 0%Z;
  xkb_context_new := fun _ => Some 5%Z;
  xkb_keymap_new_from_names := fun _ _ => Some tt;
  xkb_keysym_from_name := fun n => Z.of_nat (String.length n);
  xkb_keysym_get_name := fun _ => Some "a"
|}.

(** a server with one screen, the atoms 200 and 201 and one input device, that takes every
    request and has no events *)
Definition small_xcb : Xcb := {|
  xcb_connect := fun _ _ => (7, 0)%Z;
  xcb_connection_has_error := fun _ _ => false;
  xcb_get_file_descriptor := fun _ => 9%Z;
  xcb_setup_roots := fun _ => [XScreen 300 1920 1080];
  xcb_setup_keycodes := fun _ => (8, 255)%Z;
  xcb_poll_for_event := fun _ _ => None;
  x_event_at := fun _ _ => XEvent 2 38 4 0 0 0 [] 0 0 0 0;
  xcb_request_check := fun _ _ _ => false;
  xcb_intern_atom := fun _ n _ => if String.eqb n "FLOAT" then inr 200%Z else if String.eqb n "Backlight" then inr 201%Z else inl true;
  xcb_get_atom_name := fun _ a _ => if (a =? 200)%Z then Some "FLOAT" else if (a =? 201)%Z then Some "Backlight" else None;
  xcb_get_property := fun _ _ _ _ => None;
  xcb_list_extensions := fun _ _ => Some ["RANDR"; "XInputExtension"];
  xcb_query_extension := fun _ _ _ => Some (131, 90)%Z;
  xcb_set_modifier_mapping := fun _ _ _ _ => Some 0%Z;
  xcb_get_modifier_mapping := fun _ _ => None;
  xcb_key_symbols_alloc := fun _ _ => 11%Z;
  xcb_key_symbols_get_keycode := fun _ _ _ => None;
  xcb_refresh_keyboard_mapping := fun _ _ _ => 0%Z;
  xcb_input_xi_query_device := fun _ _ _ => Some [XiDeviceInfo 2 1 "pointer"];
  xcb_input_list_input_devices := fun _ _ => Some [(2, 200)%Z];
  xcb_input_xi_get_property := fun _ _ _ _ _ => None;
  xcb_randr_get_output_info := fun _ _ _ _ => None;
  xcb_randr_get_screen_resources := fun _ _ _ => None;
  xcb_randr_get_screen_resources_current := fun _ _ _ => None;
  xcb_randr_get_crtc_info := fun _ _ _ _ => None;
  xcb_randr_set_crtc_config := fun _ _ _ _ => Some 0%Z;
  xcb_randr_get_output_property := fun _ _ _ _ => None;
  xcb_randr_query_output_property := fun _ _ _ _ => None;
  offset_of := fun _ _ => 0%Z
|}.

(** a store from a list of objects; address 1 is [dead_weak_ref] *)
Definition store (l : list (oid * object)) : world :=
  World (<[dead_weak_ref := dead_weakly_referenced_object]> (list_to_map l))
    (Pos.succ (fold_right Pos.max 1%positive (map fst l)))
    (Some []) [] None None DI_LOG_WARN 0 false [].

Definition plain (members : list member) (rc wc : Z) : object :=
  Object members None None rc wc 0 0 false PObject.
Definition with_extra (p : payload) (ob : object) : object := set_extra p ob.
