(* ===== verification/Backtrace.v ===== *)
(** * Stack traces: [stacktrace.c], and what [ENABLE_STACK_TRACE] adds to error objects

    libunwind and libdw are interfaces: the frames above a function, its caller first, and
    the symbols of the process. The other files are compiled without the option; here are the
    functions of [stacktrace.c] and the blocks that [object.c] has for them. *)

From S2P Require Export Errors Arrays Demo.

(** what libunwind says of a frame: its instruction pointer, the start of its procedure and
    its name, empty when it is unknown; [unw_step] goes through them and fails at the end *)
Record stack_frame := StackFrame { sf_ip : Z; sf_start_ip : Z; sf_name : string }.

(** the functions of libdw; [module] and [line] are its handles *)
Class Libdw := {
  module : Type;
  line_info : Type;
  dwfl_begin : bool;
  dwfl_linux_proc_report : Z;
  dwfl_report_end : Z;
  dwfl_addrmodule : Z -> option module;
  dwfl_module_addrname : option module -> Z -> option string;
  dwfl_module_getsrc : option module -> Z -> option line_info;
  dwfl_lineinfo : line_info -> option string * Z
}.

(** ** Formats *)

(** [%#lx] *)
Definition fmt_x (z : Z) : string := match z with Zpos p => fmt_p p | _ => "0" end.
(** a field of [n] characters, aligned to the right *)
Definition field (n : nat) (s : string) : string :=
  String.concat "" (replicate (n - String.length s) " ") +:+ s.
(** [%.*s] with the length and the data of a string *)
Definition fmt_string (s : di_string) : string := c_str (di_string_bytes s).
Definition newline : string := String (Ascii.ascii_of_nat 10) "".

(** ** [stacktrace.c] *)

Section Backtrace.
Context {E : Env} {F : Ffi} {D : Libdw}.

(** whether there is a context *)
Definition stack_trace_annotate_prepare : bool :=
  dwfl_begin && (dwfl_linux_proc_report =? 0)%Z && (dwfl_report_end =? 0)%Z.

Definition stack_trace_annotate (ip : Z) : string :=
  let ip := u64 (ip - 1) in
  let m := dwfl_addrmodule ip in
  let function_name := default "(null)" (dwfl_module_addrname m ip) in
  match dwfl_module_getsrc m ip with
  | Some l =>
      let (filename, nline) := dwfl_lineinfo l in
      function_name +:+ " (" +:+ default "(null)" filename +:+ ":" +:+ fmt_d nline +:+ ")"
  | None => function_name +:+ " (" +:+ fmt_x ip +:+ ")"
  end.

(** the arrays [ips], [procs] and [proc_names] *)
Record traces := Traces { t_ips : list Z; t_procs : list Z; t_names : list di_string }.

Definition put_frame (i : nat) (f : stack_frame) (t : traces) : or_fault traces :=
  fbind (awrite (t_ips t) i (sf_ip f)) (fun ips =>
  fbind (awrite (t_procs t) i (sf_start_ip f)) (fun procs =>
  fbind (awrite (t_names t) i (if String.eqb (sf_name f) "" then DI_STRING_INIT else Some (sf_name f))) (fun names =>
  inr (Traces ips procs names)))).

(** the [while] loop of [stack_trace_get] *)
Fixpoint stack_trace_go (fs : list stack_frame) (skip : Z) (i limit : nat) (t : traces) : or_fault (nat * traces) :=
  match fs with
  | [] => inr (i, t)
  | f :: fs =>
      if (skip <=? 0)%Z then
        fbind (put_frame i f t) (fun t =>
        if decide (limit <= S i) then inr (S i, t)
        else if String.eqb (sf_name f) "main" then inr (S i, t)
        else stack_trace_go fs skip (S i) limit t)
      else
        if String.eqb (sf_name f) "main" then inr (i, t)
        else stack_trace_go fs (skip - 1) i limit t
  end.
Definition stack_trace_get (fs : list stack_frame) (skip : Z) (limit : nat) (t : traces) : or_fault (nat * traces) :=
  stack_trace_go fs skip 0 limit t.

Fixpoint frame_count_go (fs : list stack_frame) (i : Z) : Z :=
  match fs with [] => i | _ :: fs => frame_count_go fs (u32 (i + 1)) end.
Definition stack_trace_frame_count (fs : list stack_frame) : Z := frame_count_go fs 0.

(** the line of a frame *)
Definition print_frame (dwfl : bool) (ip : Z) (name : di_string) : string :=
  if dwfl then "  " +:+ c_str (stack_trace_annotate ip)
  else if decide (0 < String.length (di_string_bytes name)) then
    "  " +:+ field 16 (fmt_x ip) +:+ " (" +:+ fmt_string name +:+ ")"
  else "  " +:+ field 16 (fmt_x ip) +:+ " (??)".

Fixpoint print_frames (dwfl : bool) (n i : nat) (t : traces) : M unit :=
  match n with
  | O => ret tt
  | S n =>
      ip <- of_fault (aread (t_ips t) i) ;;
      name <- of_fault (aread (t_names t) i) ;;
      env_log DI_LOG_DEBUG (print_frame dwfl ip name) ;;
      print_frames dwfl n (S i) t
  end.

(** arrays of [n] elements with any contents *)
Definition uninitialised (word : nat -> Z) (name : nat -> di_string) (n : nat) : traces :=
  Traces (map word (seq 0 n)) (map word (seq 0 n)) (map name (seq 0 n)).

(** [print_stack_trace], whose own frame is the first of [fs]; the arrays need a positive
    length, and [skip + 1] must not overflow *)
Definition print_stack_trace (fs : list stack_frame) (word : nat -> Z) (name : nat -> di_string) (skip limit : Z) : M unit :=
  of_fault (fcheck UndefinedBehaviour ((0 <? limit) && (skip <? 2 ^ 31 - 1))%Z) ;;
  let limit := Z.to_nat limit in
  let* (n, t) := of_fault (stack_trace_get fs (skip + 1) limit (uninitialised word name limit)) in
  print_frames stack_trace_annotate_prepare n 0 t.

(** ** The stack of a new error: [di_new_error_from_string] *)

(** the addresses of [di_new_error_from_string] and [di_new_error2] *)
Context (self1 self2 : Z).

Definition outside (p : Z) : bool := negb (p =? self1)%Z && negb (p =? self2)%Z.

(** [memmove (l, l + i, n)] for elements *)
Definition move_down {A} (i n : nat) (l : list A) : or_fault (list A) :=
  if decide (i + n <= length l) then inr (take n (drop i l) ++ drop n l) else inl UndefinedBehaviour.

(** the loop over the frames, and the three arrays up to their lengths; freeing the names
    that go leaves no trace in the model *)
Fixpoint trim_go (fuel i frame_count : nat) (t : traces) : or_fault traces :=
  match fuel with
  | O => inr (Traces [] [] [])
  | S fuel =>
      fbind (aread (t_procs t) i) (fun p =>
      if outside p then
        let n := frame_count - i in
        fbind (if decide (0 < i) then
                 fbind (move_down i n (t_ips t)) (fun ips =>
                 fbind (move_down i n (t_procs t)) (fun procs =>
                 fbind (move_down i n (t_names t)) (fun names => inr (Traces ips procs names))))
               else inr t) (fun t =>
        inr (Traces (take n (t_ips t)) (take n (t_procs t)) (take n (t_names t))))
      else trim_go fuel (S i) frame_count t)
  end.

Definition error_stack (fs : list stack_frame) : or_fault traces :=
  let frame_count := Z.to_nat (stack_trace_frame_count fs) in
  fbind (stack_trace_get fs 0 frame_count
           (Traces (replicate frame_count 0%Z) (replicate frame_count 0%Z) (replicate frame_count DI_STRING_INIT)))
    (fun '(frame_count, t) => trim_go frame_count 0 frame_count t).

(** the three members *)
Definition add_stack (err : oid) (fs : list stack_frame) : M unit :=
  t <- of_fault (error_stack fs) ;;
  di_member err "stack_ips" (VArray DI_TYPE_UINT true (map VUint (t_ips t))) ;;
  di_member err "stack_procs" (VArray DI_TYPE_UINT true (map VUint (t_procs t))) ;;
  _ <- di_member err "stack_proc_names" (VArray DI_TYPE_STRING true (map VString (t_names t))) ;;
  ret tt.

(** [di_new_error_from_string] with the block *)
Definition di_new_error_from_string_traced (fs : list stack_frame) (file : string) (line : Z) (func : string)
    (message : di_string) : M oid :=
  err <- di_new_object PObject ;;
  di_set_type err error_type ;;
  add_stack err fs ;;
  di_method err "__to_string" "di_error_to_string" DI_TYPE_STRING [] ;;
  di_member err "error" (VString message) ;;
  di_member_clone err "file" (VString (di_string_borrow file)) ;;
  when (0 <=? line)%Z (rc <- di_member err "line" (VNint line) ;; ret tt) ;;
  di_member_clone err "func" (VString (di_string_borrow func)) ;;
  ret err.

(** ** The text of the stack: [di_error_to_string] *)

Definition traceback_line (ctx : bool) (i : nat) (ip proc : Z) (name : di_string) : string :=
  let number := field 10 (fmt_d (Z.of_nat i)) in
  if ctx then number +:+ ": " +:+ field 16 (fmt_x ip) +:+ " " +:+ c_str (stack_trace_annotate ip)
  else
    let offsets := if (proc =? 0)%Z then 0%Z else u64 (ip - proc) in
    let proc_name := if decide (String.length (di_string_bytes name) = 0) then Some "<unknown>" else name in
    if (offsets =? 0)%Z then number +:+ field 16 (fmt_x ip) +:+ "(" +:+ fmt_string proc_name +:+ ")"
    else number +:+ ": " +:+ field 16 (fmt_x ip) +:+ "(" +:+ fmt_string proc_name +:+ "+" +:+ fmt_x offsets +:+ ")".

(** the elements of the arrays are read as words and as strings without a look at the types *)
Definition as_word (v : val) : or_fault Z := match v with VUint z => inr z | _ => inl UndefinedBehaviour end.
Definition as_name (v : val) : or_fault di_string :=
  match v with VString s => inr s | _ => inl UndefinedBehaviour end.

Fixpoint put_lines (ctx : bool) (n i pos : nat) (ips procs names : list val) (parts : list di_string) :
    or_fault (list di_string) :=
  match n with
  | O => inr parts
  | S n =>
      fbind (fbind (aread ips i) as_word) (fun ip =>
      fbind (if ctx then inr (0%Z, DI_STRING_INIT)
             else fbind (fbind (aread procs i) as_word) (fun proc =>
                  fbind (fbind (aread names i) as_name) (fun name => inr (proc, name)))) (fun '(proc, name) =>
      fbind (awrite parts (i + pos) (Some (traceback_line ctx i ip proc name)))
        (put_lines ctx n (S i) pos ips procs names)))
  end.

(** [parts] grows by one more than there are addresses *)
Definition traceback (ctx : bool) (parts : list di_string) (pos : nat) (ips procs names : list val) :
    or_fault (list di_string * nat) :=
  let n := pos + length ips + 1 in
  let parts := take n parts ++ replicate (n - length parts) DI_STRING_INIT in
  fbind (awrite parts pos (Some (newline +:+ "stack traceback:"))) (fun parts =>
  fbind (put_lines ctx (length ips) 0 (S pos) ips procs names parts) (fun parts =>
  inr (parts, S pos + length ips))).

(** the block, on the array of 5 strings of which some are set *)
Definition stack_parts (err : oid) (parts : list string) : M (list string) :=
  ips <- di_rawget_borrowed2 err (Some "stack_ips") DI_TYPE_ARRAY ;;
  match ips with
  | inr (VArray _ _ ips) =>
      procs <- di_rawget_borrowed2 err (Some "stack_procs") DI_TYPE_ARRAY ;;
      match procs with
      | inr (VArray _ _ procs) =>
          names <- di_rawget_borrowed2 err (Some "stack_proc_names") DI_TYPE_ARRAY ;;
          match names with
          | inr (VArray _ _ names) =>
              let arr := map Some parts ++ replicate (5 - length parts) DI_STRING_INIT in
              let* (arr, pos) := of_fault (traceback stack_trace_annotate_prepare arr (length parts) ips procs names) in
              ret (map di_string_bytes (take pos arr))
          | _ => ret parts
          end
      | _ => ret parts
      end
  | _ => ret parts
  end.
Definition di_error_to_string_traced : nat -> oid -> M string := error_to_string_with stack_parts.
End Backtrace.

(** ** What the functions do *)

(** the frames up to [main] *)
Fixpoint upto_main (fs : list stack_frame) : list stack_frame :=
  match fs with
  | [] => []
  | f :: fs => if String.eqb (sf_name f) "main" then [f] else f :: upto_main fs
  end.

Definition frame_name (f : stack_frame) : di_string := if String.eqb (sf_name f) "" then DI_STRING_INIT else Some (sf_name f).
Definition traces_of (fs : list stack_frame) : traces := Traces (map sf_ip fs) (map sf_start_ip fs) (map frame_name fs).

(** the arrays begin with the frames [fs] and go on with others *)
Definition begins (t : traces) (n : nat) (fs : list stack_frame) : Prop :=
  exists ips procs names, t = Traces (map sf_ip fs ++ ips) (map sf_start_ip fs ++ procs) (map frame_name fs ++ names) /\
    length fs + length ips = n /\ length fs + length procs = n /\ length fs + length names = n.

Lemma awrite_next {A} (l1 : list A) y l2 x i : i = length l1 -> awrite (l1 ++ y :: l2) i x = inr (l1 ++ x :: l2).
Proof.
  intros ->. rewrite awrite_eq by (rewrite length_app; simpl; lia). f_equal.
  rewrite insert_app_r_alt by done. by rewrite Nat.sub_diag.
Qed.
Lemma aread_next {A} (l1 : list A) y l2 i : i = length l1 -> aread (l1 ++ y :: l2) i = inr y.
Proof. intros ->. apply aread_eq. by apply list_lookup_middle. Qed.

Lemma put_frame_next t n done f : begins t n done -> length done < n ->
  exists t', put_frame (length done) f t = inr t' /\ begins t' n (done ++ [f]).
Proof.
  intros (ips & procs & names & -> & H1 & H2 & H3) Hn.
  destruct ips as [|ip ips]; [simpl in H1; lia|]. destruct procs as [|proc procs]; [simpl in H2; lia|].
  destruct names as [|name names]; [simpl in H3; lia|].
  unfold put_frame. cbn [t_ips t_procs t_names]. rewrite !awrite_next by (by rewrite length_map). cbn [fbind].
  eexists. split; [reflexivity|]. exists ips, procs, names. rewrite !map_app, <- !app_assoc. split; [done|].
  rewrite length_app. simpl in *. lia.
Qed.

(** the frames that are skipped are not stored, the rest up to the limit or [main] *)
Lemma stack_trace_go_run n limit fs : forall skip t taken, begins t n taken -> length taken < limit -> limit <= n ->
  let l := take (limit - length taken) (drop (Z.to_nat skip) (upto_main fs)) in
  exists t', stack_trace_go fs skip (length taken) limit t = inr (length taken + length l, t') /\ begins t' n (taken ++ l).
Proof.
  induction fs as [|f fs IH]; intros skip t taken Ht Hlt Hn; cbn [upto_main stack_trace_go].
  - rewrite drop_nil, take_nil, app_nil_r. simpl. rewrite Nat.add_0_r. by exists t.
  - destruct (skip <=? 0)%Z eqn:Hs; [apply Z.leb_le in Hs|apply Z.leb_gt in Hs].
    + replace (Z.to_nat skip) with 0 by lia. rewrite drop_0.
      destruct (put_frame_next t n taken f Ht ltac:(lia)) as (t1 & -> & Ht1). cbn [fbind].
      replace (limit - length taken) with (S (limit - S (length taken))) by lia.
      pose proof (IH skip t1 (taken ++ [f]) Ht1) as IH1. rewrite length_app in IH1. cbn [length] in IH1.
      rewrite Nat.add_1_r in IH1. replace (Z.to_nat skip) with 0 in IH1 by lia. rewrite drop_0 in IH1.
      case_decide as Hl.
      * replace (limit - S (length taken)) with 0 by lia. exists t1.
        assert (Ht0 : take 1 (if String.eqb (sf_name f) "main" then [f] else f :: upto_main fs) = [f]) by (by destruct (String.eqb _ _)).
        rewrite Ht0. cbn [length]. by rewrite Nat.add_1_r.
      * destruct (String.eqb (sf_name f) "main"); cbn [take]; [rewrite take_nil; cbn [length]; rewrite Nat.add_1_r; by exists t1|].
        destruct (IH1 ltac:(lia) Hn) as (t' & Hr & Ht'). exists t'. rewrite Hr. cbn [length].
        rewrite <- app_assoc in Ht'. split; [|done]. do 2 f_equal. lia.
    + replace (Z.to_nat skip) with (S (Z.to_nat (skip - 1))) by lia.
      destruct (String.eqb (sf_name f) "main"); cbn [drop]; [|by apply IH].
      rewrite drop_nil, take_nil, app_nil_r. simpl. rewrite Nat.add_0_r. by exists t.
Qed.

Lemma begins_zero n w1 w2 (s : list di_string) : length w1 = n -> length w2 = n -> length s = n -> begins (Traces w1 w2 s) n [].
Proof. intros. by exists w1, w2, s. Qed.

Lemma frame_count_go_eq fs : forall i, (0 <= i)%Z -> (i + Z.of_nat (length fs) < 2 ^ 32)%Z ->
  frame_count_go fs i = (i + Z.of_nat (length fs))%Z.
Proof.
  induction fs as [|f fs IH]; intros i Hi Hl; cbn [frame_count_go length] in *; [lia|].
  unfold u32. rewrite Z.mod_small by lia. rewrite IH by lia. lia.
Qed.

Lemma upto_main_length fs : length (upto_main fs) <= length fs.
Proof. induction fs as [|f fs IH]; simpl; [lia|]. destruct (String.eqb _ _); simpl; lia. Qed.

Lemma move_down_front {A} (l1 l2 l3 : list A) i n : i = length l1 -> n = length l2 ->
  exists l, move_down i n (l1 ++ l2 ++ l3) = inr (l2 ++ l).
Proof.
  intros -> ->. unfold move_down. rewrite decide_True by (rewrite !length_app; lia).
  rewrite drop_app_length, take_app_length. by eexists.
Qed.

Section callers.
Context (self1 self2 : Z).

(** the frames from the first that is not of the functions that make errors *)
Fixpoint caller_frames (fs : list stack_frame) : list stack_frame :=
  match fs with
  | [] => []
  | f :: fs' => if outside self1 self2 (sf_start_ip f) then fs else caller_frames fs'
  end.

Lemma trim_go_run n rest : forall before t, begins t n (before ++ rest) ->
  trim_go self1 self2 (length rest) (length before) (length before + length rest) t = inr (traces_of (caller_frames rest)).
Proof.
  induction rest as [|f rest IH]; intros before t Ht; cbn [trim_go length caller_frames]; [done|].
  pose proof Ht as (ips & procs & names & -> & _). cbn [t_procs].
  rewrite map_app, <- app_assoc. cbn [map app]. rewrite aread_next by (by rewrite length_map). cbn [fbind].
  destruct (outside self1 self2 (sf_start_ip f)).
  - replace (length before + S (length rest) - length before) with (length (f :: rest)) by (simpl; lia).
    cbn [t_ips t_names]. rewrite !map_app, <- !app_assoc. cbn [map app].
    assert (Hfront : forall A (g : stack_frame -> A) l, take (length (f :: rest)) (map g (f :: rest) ++ l) = map g (f :: rest)).
    { intros A g l. by rewrite <- (length_map g), take_app_length. }
    case_decide as Hb.
    + destruct (move_down_front (map sf_ip before) (map sf_ip (f :: rest)) ips (length before) (length (f :: rest))) as [l1 E1];
        [by rewrite length_map|by rewrite length_map|].
      destruct (move_down_front (map sf_start_ip before) (map sf_start_ip (f :: rest)) procs (length before) (length (f :: rest)))
        as [l2 E2]; [by rewrite length_map|by rewrite length_map|].
      destruct (move_down_front (map frame_name before) (map frame_name (f :: rest)) names (length before) (length (f :: rest)))
        as [l3 E3]; [by rewrite length_map|by rewrite length_map|].
      cbn [map app] in E1, E2, E3. rewrite E1, E2, E3. cbn [fbind t_ips t_procs t_names].
      pose proof (Hfront _ sf_ip l1) as F1. pose proof (Hfront _ sf_start_ip l2) as F2. pose proof (Hfront _ frame_name l3) as F3.
      cbn [map app] in F1, F2, F3. rewrite F1, F2, F3. done.
    + destruct before; [|simpl in Hb; lia]. cbn [fbind t_ips t_procs t_names map app].
      pose proof (Hfront _ sf_ip ips) as F1. pose proof (Hfront _ sf_start_ip procs) as F2.
      pose proof (Hfront _ frame_name names) as F3. cbn [map app] in F1, F2, F3. rewrite F1, F2, F3. done.
  - pose proof (IH (before ++ [f]) _ ltac:(rewrite <- app_assoc; exact Ht)) as IH'.
    rewrite length_app in IH'. cbn [length] in IH'. rewrite Nat.add_1_r in IH'. rewrite <- IH'.
    rewrite Nat.add_succ_comm, !map_app, <- !app_assoc. done.
Qed.

(** the stack of a new error is that of its caller, up to [main] *)
Lemma error_stack_frames fs : (Z.of_nat (length fs) < 2 ^ 32)%Z ->
  error_stack self1 self2 fs = inr (traces_of (caller_frames (upto_main fs))).
Proof.
  intros Hl. unfold error_stack, stack_trace_frame_count. rewrite frame_count_go_eq by lia. rewrite Z.add_0_l, Nat2Z.id.
  destruct fs as [|f fs]; [done|]. set (n := length (f :: fs)). unfold stack_trace_get.
  destruct (stack_trace_go_run n n (f :: fs) 0 (Traces (replicate n 0%Z) (replicate n 0%Z) (replicate n DI_STRING_INIT)) [])
    as (t & Hr & Ht); [by apply begins_zero; rewrite length_replicate|unfold n; simpl; lia|done|].
  cbn [length] in Hr. rewrite Hr. cbn [fbind]. cbn [app length] in Ht.
  rewrite Nat.sub_0_r, drop_0, take_ge in Hr, Ht |- * by (apply upto_main_length). cbn [Nat.add].
  exact (trim_go_run n (upto_main (f :: fs)) [] t Ht).
Qed.
End callers.

Section text.
Context {E : Env} {F : Ffi} {D : Libdw}.

Definition frame_line (ctx : bool) (i : nat) (f : stack_frame) : string :=
  if ctx then traceback_line true i (sf_ip f) 0 DI_STRING_INIT
  else traceback_line false i (sf_ip f) (sf_start_ip f) (frame_name f).

Lemma put_lines_run ctx ips procs names pos fs : forall i parts junk,
  length parts = i + pos -> length junk = length fs ->
  (forall j f, fs !! j = Some f -> ips !! (i + j) = Some (VUint (sf_ip f)) /\
     procs !! (i + j) = Some (VUint (sf_start_ip f)) /\ names !! (i + j) = Some (VString (frame_name f))) ->
  put_lines ctx (length fs) i pos ips procs names (parts ++ junk) =
    inr (parts ++ imap (fun j f => Some (frame_line ctx (i + j) f)) fs).
Proof.
  induction fs as [|f fs IH]; intros i parts junk Hp Hj Hfs; cbn [put_lines length].
  - destruct junk; [done|done].
  - destruct junk as [|x junk]; [done|]. destruct (Hfs 0 f eq_refl) as (H1 & H2 & H3). rewrite Nat.add_0_r in H1, H2, H3.
    rewrite (aread_eq _ _ _ H1), (aread_eq _ _ _ H2), (aread_eq _ _ _ H3). cbn [fbind as_word as_name].
    assert (Hline : forall k, fbind (if ctx then inr (0%Z, DI_STRING_INIT) else inr (sf_start_ip f, frame_name f))
      (fun '(proc, name) => fbind (awrite (parts ++ x :: junk) (i + pos) (Some (traceback_line ctx i (sf_ip f) proc name))) k)
      = (k : _ -> or_fault (list di_string)) ((parts ++ [Some (frame_line ctx i f)]) ++ junk)).
    { intros k. rewrite <- app_assoc. unfold frame_line. destruct ctx; cbn [fbind]; by rewrite awrite_next by lia. }
    rewrite Hline, (IH (S i)).
    + rewrite imap_cons, Nat.add_0_r, <- app_assoc. do 3 f_equal. apply imap_ext. intros j g _. simpl. by rewrite Nat.add_succ_r.
    + rewrite length_app. simpl. lia.
    + simpl in Hj. lia.
    + intros j g Hg. rewrite Nat.add_succ_comm. by apply Hfs.
Qed.

(** the strings that are set stay, the lines of the frames follow *)
Lemma traceback_run ctx parts pos fs : pos <= length parts ->
  traceback ctx parts pos (map VUint (map sf_ip fs)) (map VUint (map sf_start_ip fs)) (map VString (map frame_name fs)) =
    inr (take pos parts ++ Some (newline +:+ "stack traceback:") :: imap (fun i f => Some (frame_line ctx i f)) fs,
         S pos + length fs).
Proof.
  intros Hpos. unfold traceback. rewrite !length_map. set (n := pos + length fs + 1).
  set (arr := take n parts ++ replicate (n - length parts) DI_STRING_INIT).
  assert (Hlen : length arr = n) by (unfold arr; rewrite length_app, length_take, length_replicate; lia).
  assert (Hfront : take pos arr = take pos parts).
  { unfold arr. rewrite take_app_le by (rewrite length_take; lia). rewrite take_take. f_equal. lia. }
  rewrite <- (take_drop pos arr), Hfront. pose proof (length_drop arr pos) as Hd.
  destruct (drop pos arr) as [|x junk]; [simpl in Hd; lia|]. simpl in Hd.
  rewrite awrite_next by (rewrite length_take; lia). cbn [fbind].
  change (?a ++ ?b :: ?l) with (a ++ [b] ++ l). rewrite app_assoc.
  rewrite (put_lines_run ctx _ _ _ (S pos) fs 0).
  - cbn [fbind]. by rewrite <- app_assoc.
  - rewrite length_app, length_take. simpl. lia.
  - lia.
  - intros j f Hj. simpl. by rewrite !list_lookup_fmap, Hj.
Qed.

Lemma print_frames_run dwfl t fs : forall i w,
  (forall j f, fs !! j = Some f -> t_ips t !! (i + j) = Some (sf_ip f) /\ t_names t !! (i + j) = Some (frame_name f)) ->
  print_frames dwfl (length fs) i t w = mapM_ (fun f => env_log DI_LOG_DEBUG (print_frame dwfl (sf_ip f) (frame_name f))) fs w.
Proof.
  induction fs as [|f fs IH]; intros i w Hfs; [done|]. destruct (Hfs 0 f eq_refl) as [H1 H2]. rewrite Nat.add_0_r in H1, H2.
  cbn [length print_frames mapM_]. rewrite (aread_eq _ _ _ H1), (aread_eq _ _ _ H2). unfold of_fault, bind, ret at 1 2.
  destruct (env_log DI_LOG_DEBUG _ w) as [u w'|e w'|ft]; [|done|done]. apply IH. intros j g Hg.
  rewrite Nat.add_succ_comm. by apply Hfs.
Qed.

(** [print_stack_trace] logs the frames after those that are skipped, up to [main] or the
    limit, and touches nothing outside of its arrays *)
Theorem print_stack_trace_lines fs word name skip limit w :
  (0 < limit)%Z -> (-1 <= skip < 2 ^ 31 - 1)%Z ->
  print_stack_trace fs word name skip limit w =
  mapM_ (fun f => env_log DI_LOG_DEBUG (print_frame stack_trace_annotate_prepare (sf_ip f) (frame_name f)))
    (take (Z.to_nat limit) (drop (Z.to_nat (skip + 1)) (upto_main fs))) w.
Proof.
  intros Hl Hs. unfold print_stack_trace. rewrite (proj2 (andb_true_iff _ _)) by (split; apply Z.ltb_lt; lia).
  set (n := Z.to_nat limit). set (l := take n (drop (Z.to_nat (skip + 1)) (upto_main fs))).
  destruct (stack_trace_go_run n n fs (skip + 1) (uninitialised word name n) []) as (t & Hr & Ht).
  - by apply begins_zero; rewrite length_map, length_seq.
  - unfold n. simpl. lia.
  - done.
  - rewrite Nat.sub_0_r in Hr, Ht. fold l in Hr, Ht. cbn [app length Nat.add] in Hr, Ht.
    unfold stack_trace_get. rewrite Hr. unfold bind at 1. cbn [fcheck of_fault]. unfold ret at 1. unfold bind at 1, ret at 1.
    apply print_frames_run. destruct Ht as (ips & procs & names & -> & _). intros j f Hj. cbn [t_ips t_names Nat.add].
    assert (Hm : forall A (g : stack_frame -> A) r, (map g l ++ r) !! j = Some (g f)).
    { intros A g r. rewrite lookup_app_l by (rewrite length_map; by eapply lookup_lt_Some). by rewrite list_lookup_fmap, Hj. }
    by rewrite !Hm.
Qed.
End text.

(** A new error with its stack, printed: the three arrays are filled within their bounds from
    any stack, and hold the same frames, those from the first that is not of the functions
    that make errors to [main]; and from them the lines of the traceback are added, in order,
    to the array of the text, the strings of which stay. C17. *)
Theorem error_traceback {D : Libdw} self1 self2 fs ctx parts pos :
  (Z.of_nat (length fs) < 2 ^ 32)%Z -> pos <= length parts ->
  let kept := caller_frames self1 self2 (upto_main fs) in
  exists t, error_stack self1 self2 fs = inr t /\
    t_ips t = map sf_ip kept /\ t_procs t = map sf_start_ip kept /\ t_names t = map frame_name kept /\
    traceback ctx parts pos (map VUint (t_ips t)) (map VUint (t_procs t)) (map VString (t_names t)) =
      inr (take pos parts ++ Some (newline +:+ "stack traceback:") :: imap (fun i f => Some (frame_line ctx i f)) kept,
           S pos + length kept).
Proof.
  intros Hl Hpos kept. exists (traces_of kept). split_and!; [by apply error_stack_frames|done|done|done|].
  by apply traceback_run.
Qed.

(** a process without debugging symbols, and the stack of an error from [di_getx] *)
Definition no_symbols : Libdw := {|
  module := unit; line_info := unit; dwfl_begin := false; dwfl_linux_proc_report := 0; dwfl_report_end := 0;
  dwfl_addrmodule := fun _ => None; dwfl_module_addrname := fun _ _ => None; dwfl_module_getsrc := fun _ _ => None;
  dwfl_lineinfo := fun _ => (None, 0%Z)
|}.
Definition some_stack : list stack_frame := [
  StackFrame 1050 1000 "di_new_error_from_string"; StackFrame 2010 2000 "di_new_error2";
  StackFrame 3010 3000 "di_getx"; StackFrame 4000 0 ""; StackFrame 5001 5000 "main"; StackFrame 6001 6000 "_start"].

Lemma error_traceback_witness : (Z.of_nat (length some_stack) < 2 ^ 32)%Z /\ exists t,
  error_stack 1000 2000 some_stack = inr t /\ t_ips t = [3010; 4000; 5001]%Z /\
  @traceback no_symbols false [Some "error caught: "; None; None; None; None] 1 (map VUint (t_ips t)) (map VUint (t_procs t))
    (map VString (t_names t)) =
  inr ([Some "error caught: "; Some (newline +:+ "stack traceback:");
        Some "         0:            0xbc2(di_getx+0xa)"; Some "         1           0xfa0(<unknown>)";
        Some "         2:           0x1389(main+0x1)"], 5).
Proof.
  split; [done|].
  destruct (@error_traceback no_symbols 1000 2000 some_stack false
    [Some "error caught: "; None; None; None; None] 1) as (t & H1 & H2 & H3 & H4 & H5); [done|simpl; lia|].
  exists t. rewrite H1, H5, H2. split_and!; [done|done|vm_compute; reflexivity].
Defined.

(** the two functions one after the other *)
Definition traced_text : M string :=
  err <- @di_new_error_from_string_traced quiet_env null_ffi 1000 2000 some_stack "object.c" 3 "f" (Some "no such member") ;;
  @di_error_to_string_traced quiet_env no_symbols 2 err.

Example traced_error_text :
  match traced_text (store []) with
  | Ret s _ => String.concat newline [
      "error caught in " +:+ dquote +:+ "f" +:+ dquote +:+ " (object.c:3): "; "no such member"; "(no detail)"; "";
      "stack traceback:"; "         0:            0xbc2(di_getx+0xa)"; "         1           0xfa0(<unknown>)";
      "         2:           0x1389(main+0x1)"] = s
  | _ => False
  end.
Proof. vm_compute. reflexivity. Qed.
