(* ===== verification/Ownership.v ===== *)
(** * What the object layer promises about references

    The theorems of [RefCount.v], [Destroy.v], [Copy.v] and [Table.v] as statements about
    whole runs of the operations of [object.c]. *)

From S2P Require Export Demo.

(** two objects, the first owns the second, and is held once by the caller *)
Definition pair_store : world :=
  store [(2%positive, plain [("x", VObject 3); ("n", VInt 5)] 1 1); (3%positive, plain [] 1 1)].
(** the second is also held by the caller, and a weak reference to it is around *)
Definition shared_store : world :=
  store [(2%positive, plain [("x", VObject 3)] 1 1); (3%positive, plain [] 2 2)].

Section statements.
Context {E : Env} (strict : Prop) (N : Z).

(** Dropping a strong reference that the caller holds runs to completion whatever cascade
    of destructions it starts. It gives up exactly that reference, keeps every count
    equal to the number of references there are, and leaves alone what it should: an
    object with other references only loses one count, and an object that loses its last
    one is gone or empty. C3. *)
Theorem di_unref_object_correct o ext extw w :
  env_ok strict N -> (N <= Z.of_nat env_fuel)%Z ->
  Inv (o :: ext) extw [] w -> (alive w < N)%Z ->
  exists w', di_unref_object o w = Ret tt w' /\ Inv ext extw [] w' /\
    frame strict None w w' /\ unref_effect o w w'.
Proof.
  intros Henv HN HI Hal.
  destruct (wp_run _ _ _ (di_unref_object_spec strict N Henv HN _ _ _ _ _ HI Hal))
    as ([] & w' & Hrun & [HI' HF'] & He). eauto.
Qed.

(** Freeing a value gives up the references stored anywhere inside it, through arrays,
    tuples and variants, and nothing else. C4. *)
Theorem di_free_value_correct v ext extw w :
  env_ok strict N -> (N <= Z.of_nat env_fuel)%Z -> val_ok v = true ->
  Inv (strong_refs v ++ ext) (weak_refs v ++ extw) [] w -> (alive w < N)%Z ->
  exists w', di_free_value v w = Ret tt w' /\ Inv ext extw [] w' /\ frame strict None w w'.
Proof.
  intros Henv HN Hok HI Hal.
  destruct (wp_run _ _ _ (di_free_value_ok strict N Henv HN v Hok _ _ _ _ HI Hal))
    as ([] & w' & Hrun & HI' & HF'). eauto.
Qed.

(** A copy is equal to the original, but for the strings, which never have NULL data; the
    store changes by one count for each reference inside the value, and the copy and the
    original can be freed independently, in either order. C5. *)
Theorem di_copy_value_correct v ext extw w :
  env_ok strict N -> (N <= Z.of_nat env_fuel)%Z -> val_ok v = true -> copyable v = true ->
  Inv (strong_refs v ++ ext) (weak_refs v ++ extw) [] w -> (alive w < N)%Z ->
  takable (strong_refs v) (weak_refs v) (heap w) ->
  exists w1 w2 w3,
    di_copy_value v w = Ret (clone_val v) w1 /\
    w1 = set_heap (add_refs (strong_refs v) (weak_refs v) (heap w)) w /\
    di_free_value v w1 = Ret tt w2 /\ Inv (strong_refs v ++ ext) (weak_refs v ++ extw) [] w2 /\
    di_free_value (clone_val v) w2 = Ret tt w3 /\ Inv ext extw [] w3.
Proof.
  intros Henv HN Hok Hcp HI Hal Ht.
  destruct (wp_run _ _ _ (di_copy_value_spec strict None _ _ _ _ _ HI Hok Hcp Ht))
    as (v' & w1 & Hrun & -> & -> & HI1 & HF1).
  rewrite strong_refs_clone, weak_refs_clone in HI1.
  destruct (wp_run _ _ _ (di_free_value_ok strict N Henv HN v Hok _ _ _ _ HI1
              (frame_bound _ _ _ _ _ HF1 Hal))) as ([] & w2 & Hrun2 & HI2 & HF2).
  pose proof HI2 as HI2'.
  rewrite <- (strong_refs_clone v), <- (weak_refs_clone v) in HI2'.
  destruct (wp_run _ _ _ (di_free_value_ok strict N Henv HN _ (val_ok_clone _ Hok) _ _ _ _ HI2'
              (frame_bound _ _ _ _ _ HF2 (frame_bound _ _ _ _ _ HF1 Hal)))) as ([] & w3 & Hrun3 & HI3 & _).
  eexists _, w2, w3. split_and!; done.
Qed.

(** [di_add_member]: without a name the value stays with the caller and -EINVAL is
    returned; under a name that is taken the value is freed and -EEXIST returned; under a
    new name the member goes to the end of the table and takes the references over. C7. *)
Theorem di_add_member_correct o n v ob ext extw w :
  env_ok strict N -> (N <= Z.of_nat env_fuel)%Z -> val_ok v = true ->
  Inv (strong_refs v ++ ext) (weak_refs v ++ extw) [] w -> (alive w < N)%Z ->
  heap w !! o = Some ob -> (0 < ref_count ob)%Z ->
  match n with
  | None => di_add_member o None v w = Ret (inl (- EINVAL)%Z) w
  | Some n =>
      match find_member n (members ob) with
      | Some _ => exists w', di_add_member o (Some n) v w = Ret (inl (- EEXIST)%Z) w' /\
                    Inv ext extw [] w' /\ frame strict None w w'
      | None => let w' := set_heap (<[o := set_members (members ob ++ [(n, v)]) ob]> (heap w)) w in
                di_add_member o (Some n) v w = Ret (inr n) w' /\ Inv ext extw [] w'
      end
  end.
Proof.
  intros Henv HN Hok HI Hal Ho Hp. destruct n as [n|]; [|done].
  destruct (find_member n (members ob)) as [v0|] eqn:Hf.
  - destruct (wp_run _ _ _ (di_add_member_exists strict N Henv HN _ _ _ _ _ _ _ _ _ HI Hal Ho Hf Hok))
      as (r & w' & Hrun & -> & HI' & HF'). eauto.
  - eapply di_add_member_new; eauto.
Qed.

(** [di_delete_member_raw] removes the member and frees its value; a name that is not there
    gives -ENOENT and no change. C8. *)
Theorem di_delete_member_raw_correct o n ob ext extw w :
  env_ok strict N -> (N <= Z.of_nat env_fuel)%Z ->
  Inv ext extw [] w -> (alive w < N)%Z -> heap w !! o = Some ob ->
  match find_member n (members ob) with
  | None => di_delete_member_raw o (Some n) w = Ret (- ENOENT)%Z w
  | Some v =>
      let w1 := set_heap (<[o := set_members (del_member n (members ob)) ob]> (heap w)) w in
      Inv (strong_refs v ++ ext) (weak_refs v ++ extw) [] w1 /\
      exists w', di_delete_member_raw o (Some n) w = Ret 0%Z w' /\ Inv ext extw [] w' /\
        frame strict None w1 w'
  end.
Proof.
  intros Henv HN HI Hal Ho. destruct (find_member n (members ob)) as [v|] eqn:Hf.
  - destruct (wp_run _ _ _ (di_delete_member_raw_spec strict N Henv HN _ _ _ _ _ _ _ _ HI Hal Ho Hf))
      as (r & w' & Hrun & -> & HI' & HF' & HI1). split; [done|]. eauto.
  - by eapply di_delete_member_raw_none.
Qed.
End statements.

Lemma di_unref_object_correct_witness :
  exists w', @di_unref_object quiet_env 2 pair_store = Ret tt w' /\ Inv [] [dead_weak_ref] [] w' /\
    frame True None pair_store w' /\ unref_effect 2 pair_store w'.
Proof.
  apply (@di_unref_object_correct quiet_env True 10 2 [] [dead_weak_ref] pair_store).
  - apply quiet_env_ok.
  - simpl. lia.
  - apply Invb_sound. vm_compute. reflexivity.
  - vm_compute. reflexivity.
Defined.

Definition nested_value : val := VTuple [VInt 3; VVariant (VObject 3); VWeak 3; VArray DI_TYPE_OBJECT true [VObject 2]].
Definition nested_store : world :=
  store [(2%positive, plain [("x", VObject 3)] 1 1); (3%positive, plain [("a", VString (Some "b"))] 2 2)].

Lemma di_free_value_correct_witness :
  exists w', @di_free_value quiet_env nested_value nested_store = Ret tt w' /\
    Inv [] [dead_weak_ref] [] w' /\ frame True None nested_store w'.
Proof.
  apply (@di_free_value_correct quiet_env True 10 nested_value [] [dead_weak_ref]).
  - apply quiet_env_ok.
  - simpl. lia.
  - reflexivity.
  - apply Invb_sound. vm_compute. reflexivity.
  - vm_compute. reflexivity.
Defined.

Lemma di_copy_value_correct_witness :
  exists w1 w2 w3,
    @di_copy_value nested_value nested_store = Ret (clone_val nested_value) w1 /\
    w1 = set_heap (add_refs (strong_refs nested_value) (weak_refs nested_value) (heap nested_store)) nested_store /\
    @di_free_value quiet_env nested_value w1 = Ret tt w2 /\
    Inv (strong_refs nested_value ++ []) (weak_refs nested_value ++ [dead_weak_ref]) [] w2 /\
    @di_free_value quiet_env (clone_val nested_value) w2 = Ret tt w3 /\ Inv [] [dead_weak_ref] [] w3.
Proof.
  apply (@di_copy_value_correct quiet_env True 10 nested_value [] [dead_weak_ref]).
  - apply quiet_env_ok.
  - simpl. lia.
  - reflexivity.
  - reflexivity.
  - apply Invb_sound. vm_compute. reflexivity.
  - vm_compute. reflexivity.
  - split; repeat constructor; eexists; (split; [vm_compute; reflexivity|]); vm_compute; auto.
Defined.

Lemma di_add_member_correct_witness :
  (exists w', @di_add_member quiet_env 2 (Some "x") (VObject 3) shared_store = Ret (inl (- EEXIST)%Z) w' /\
     Inv [2%positive] [dead_weak_ref; 3%positive] [] w' /\ frame True None shared_store w') /\
  (let w' := set_heap (<[2%positive := plain [("x", VObject 3); ("y", VObject 3)] 1 1]> (heap shared_store)) shared_store in
   @di_add_member quiet_env 2 (Some "y") (VObject 3) shared_store = Ret (inr "y") w' /\
     Inv [2%positive] [dead_weak_ref; 3%positive] [] w').
Proof.
  split.
  - apply (@di_add_member_correct quiet_env True 10 2 (Some "x") (VObject 3)
             (plain [("x", VObject 3)] 1 1) [2%positive] [dead_weak_ref; 3%positive]);
      first [apply quiet_env_ok | apply Invb_sound; vm_compute; reflexivity | vm_compute; reflexivity | simpl; lia].
  - apply (@di_add_member_correct quiet_env True 10 2 (Some "y") (VObject 3)
             (plain [("x", VObject 3)] 1 1) [2%positive] [dead_weak_ref; 3%positive]);
      first [apply quiet_env_ok | apply Invb_sound; vm_compute; reflexivity | vm_compute; reflexivity | simpl; lia].
Defined.

Lemma di_delete_member_raw_correct_witness :
  let w1 := set_heap (<[2%positive := plain [("n", VInt 5)] 1 1]> (heap pair_store)) pair_store in
  Inv [3; 2]%positive [dead_weak_ref] [] w1 /\
  exists w', @di_delete_member_raw quiet_env 2 (Some "x") pair_store = Ret 0%Z w' /\
    Inv [2%positive] [dead_weak_ref] [] w' /\ frame True None w1 w'.
Proof.
  apply (@di_delete_member_raw_correct quiet_env True 10 2 "x"
           (plain [("x", VObject 3); ("n", VInt 5)] 1 1) [2%positive] [dead_weak_ref] pair_store);
    first [apply quiet_env_ok | apply Invb_sound; vm_compute; reflexivity | vm_compute; reflexivity | simpl; lia].
Defined.

(** ** Setting and getting *)

Section setget.
Context {E : Env} (N : Z).

(** A member that was set is read back, as a copy whose references belong to the caller;
    the other members of the object keep their values and their order, and no other live
    object changes its members, provided destructors leave alone what is still
    referenced. C6. *)
Theorem di_rawsetx_then_rawgetx o n v ob ext extw w :
  env_ok True N -> (N <= Z.of_nat env_fuel)%Z ->
  Inv ext extw [] w -> (alive w < N)%Z -> o ∈ ext -> heap w !! o = Some ob ->
  type_of v <> DI_TYPE_NIL -> val_ok v = true -> copyable v = true ->
  holds_value 2 ext extw v (heap w) ->
  exists w1 w2 ob',
    di_rawsetx o (Some n) v w = Ret 0%Z w1 /\ Inv ext extw [] w1 /\ others_kept o w w1 /\
    heap w1 !! o = Some ob' /\ members ob' = del_member n (members ob) ++ [(n, clone_val v)] /\
    di_rawgetx o (Some n) w1 = Ret (inr (clone_val (clone_val v))) w2 /\
    Inv (strong_refs v ++ ext) (weak_refs v ++ extw) [] w2.
Proof.
  intros Henv HN HI Hal Hin Ho Hnil Hok Hcp Hh.
  destruct (wp_run _ _ _ (di_rawsetx_spec N Henv HN ext extw w o n v ob 1 ltac:(lia) HI Hal Hin Ho
              Hnil Hok Hcp Hh)) as (rc & w1 & Hrun & -> & HI1 & Hh1 & Hot & ob' & Ho' & Hm').
  assert (Hf : find_member n (members ob') = Some (clone_val v)).
  { rewrite Hm', find_member_app, find_del_member.
    - simpl. by rewrite String.eqb_refl.
    - apply (inv_obj _ _ _ _ HI _ _ Ho). }
  assert (Hcp' : copyable (clone_val v) = true) by (by apply copyable_clone).
  destruct (wp_run _ _ _ (di_rawgetx_spec ext extw [] w1 o n ob' (clone_val v) HI1 Ho' Hf
              ltac:(by rewrite type_of_clone) Hcp'
              ltac:(rewrite strong_refs_clone, weak_refs_clone;
                    eapply (holds_takable ext extw [] w1 v 1); try done; lia)))
    as (r & w2 & Hrun2 & -> & -> & HI2).
  rewrite !strong_refs_clone, !weak_refs_clone in Hrun2, HI2.
  eexists w1, _, ob'. split_and!; [exact Hrun|done..|exact Hrun2|exact HI2].
Qed.
End setget.

Lemma di_rawsetx_then_rawgetx_witness :
  exists w1 w2 ob',
    @di_rawsetx quiet_env 2 (Some "x") (VString (Some "s")) pair_store = Ret 0%Z w1 /\
    Inv [2%positive] [dead_weak_ref] [] w1 /\ others_kept 2 pair_store w1 /\
    heap w1 !! 2%positive = Some ob' /\
    members ob' = [("n", VInt 5)] ++ [("x", VString (Some "s"))] /\
    @di_rawgetx 2 (Some "x") w1 = Ret (inr (VString (Some "s"))) w2 /\
    Inv [2%positive] [dead_weak_ref] [] w2.
Proof.
  apply (@di_rawsetx_then_rawgetx quiet_env 10 2 "x" (VString (Some "s"))
           (plain [("x", VObject 3); ("n", VInt 5)] 1 1) [2%positive] [dead_weak_ref] pair_store).
  - apply quiet_env_ok.
  - simpl. lia.
  - apply Invb_sound. vm_compute. reflexivity.
  - vm_compute. reflexivity.
  - by left.
  - vm_compute. reflexivity.
  - discriminate.
  - reflexivity.
  - reflexivity.
  - split; constructor.
Defined.

(** ** Weak references *)

(** Upgrading a weak reference that the caller holds gives a new strong reference exactly
    when the object still has one and the collector has not condemned it; otherwise it
    returns NULL and changes nothing. In particular a destroyed object is never handed
    out. C9. *)
Theorem di_upgrade_weak_ref_correct o ob ext extw w :
  Inv ext extw [] w -> o ∈ extw -> heap w !! o = Some ob -> (ref_count ob < 2 ^ 64 - 1)%Z ->
  if (0 <? ref_count ob)%Z && (mark ob =? 0)%Z then
    exists w', di_upgrade_weak_ref o w = Ret (Some o) w' /\ Inv (o :: ext) extw [] w' /\
      heap w' = <[o := set_ref_count (ref_count ob + 1) ob]> (heap w)
  else di_upgrade_weak_ref o w = Ret None w.
Proof.
  intros HI _ Ho Hb.
  destruct (wp_run _ _ _ (di_upgrade_weak_ref_spec ext extw [] w o ob HI Ho Hb)) as (r & w' & Hrun & Hr).
  case_match; destruct Hr as [-> Hr]; [by exists w'|by subst].
Qed.

Lemma di_upgrade_weak_ref_correct_witness :
  (exists w', di_upgrade_weak_ref 3 nested_store = Ret (Some 3%positive) w' /\
     Inv (3 :: [3; 2])%positive [3%positive; dead_weak_ref] [] w' /\
     heap w' = <[3%positive := plain [("a", VString (Some "b"))] 3 2]> (heap nested_store)) /\
  di_upgrade_weak_ref dead_weak_ref nested_store = Ret None nested_store.
Proof.
  split.
  - apply (di_upgrade_weak_ref_correct 3 (plain [("a", VString (Some "b"))] 2 2) [3; 2]%positive
             [3%positive; dead_weak_ref] nested_store).
    + apply Invb_sound. vm_compute. reflexivity.
    + by left.
    + vm_compute. reflexivity.
    + vm_compute. reflexivity.
  - apply (di_upgrade_weak_ref_correct dead_weak_ref dead_weakly_referenced_object [3; 2]%positive
             [3%positive; dead_weak_ref] nested_store).
    + apply Invb_sound. vm_compute. reflexivity.
    + right. by left.
    + vm_compute. reflexivity.
    + vm_compute. reflexivity.
Defined.
