(* ===== verification/Conversions.v ===== *)
(** * Type conversion: what [conv.cc] does to numbers and to ownership

    The range checks of [DeaiCheckedIntConverter] against the mathematical ranges, the path
    the integers actually take (through a [double]), and the two modes of
    [di_type_conversion]: a borrowed value leaves the store alone, an owned one moves its
    references into the result or gives them up. *)

From S2P Require Export Demo.
From Stdlib Require Import SpecFloat.

(** ** Integers and doubles *)

(** what the union of the converter can hold *)
Definition checked_wf (c : CheckedInt.t) : Prop :=
  (if CheckedInt.is_unsigned c then 0 <= CheckedInt.z c < 2 ^ 64
   else - 2 ^ 63 <= CheckedInt.z c < 2 ^ 63)%Z.

Lemma digits2_pos_bound p : (2 ^ (Zpos (digits2_pos p) - 1) <= Zpos p < 2 ^ Zpos (digits2_pos p))%Z.
Proof.
  induction p as [p IH|p IH|]; cbn [digits2_pos]; [| |done];
    rewrite Pos2Z.inj_succ; replace (Z.succ _ - 1)%Z with (Z.succ (Zpos (digits2_pos p) - 1)) by lia;
    rewrite !Z.pow_succ_r by lia; lia.
Qed.

Lemma digits2_pos_le p n : (0 < n)%Z -> (Zpos p < 2 ^ n)%Z -> (Zpos (digits2_pos p) <= n)%Z.
Proof.
  intros Hn Hp. pose proof (digits2_pos_bound p) as [Hl _].
  destruct (Z.le_gt_cases (Zpos (digits2_pos p)) n) as [|Hg]; [done|].
  assert (2 ^ n <= 2 ^ (Zpos (digits2_pos p) - 1))%Z by (apply Z.pow_le_mono_r; lia). lia.
Qed.

Lemma digits2_shift p d : Zpos (digits2_pos (Pos.iter xO p d)) = (Zpos (digits2_pos p) + Zpos d)%Z.
Proof.
  induction d as [|d IH] using Pos.peano_ind; [simpl; lia|].
  rewrite Pos.iter_succ. cbn [digits2_pos]. lia.
Qed.

Lemma iter_xO_mul p d : Zpos (Pos.iter xO p d) = (Zpos p * 2 ^ Zpos d)%Z.
Proof.
  induction d as [|d IH] using Pos.peano_ind; [simpl; lia|].
  rewrite Pos.iter_succ, Pos2Z.inj_succ, Z.pow_succ_r by lia. lia.
Qed.

(** a mantissa of 53 digits is not rounded *)
Lemma binary_round_aux_exact s m e :
  Zpos (digits2_pos m) = 53%Z -> (-1021 <= e <= 971)%Z ->
  binary_round_aux 53 1024 s (Zpos m) e loc_Exact = S754_finite s m e.
Proof.
  intros Hd He. unfold binary_round_aux, shr_fexp, fexp, emin.
  cbn [Zdigits2]. rewrite Hd.
  replace (Z.max (53 + e - 53) (3 - 1024 - 53) - e)%Z with 0%Z by lia.
  cbn [shr shr_record_of_loc shr_m loc_of_shr_record round_nearest_even Zdigits2]. rewrite Hd.
  replace (Z.max (53 + e - 53) (3 - 1024 - 53) - e)%Z with 0%Z by lia.
  cbn [shr shr_record_of_loc shr_m].
  by destruct (Z.leb_spec e (1024 - 53)); [|lia].
Qed.

Lemma binary_round_exact s p : (Zpos p < 2 ^ 53)%Z ->
  truncate (binary_round 53 1024 s p 0) = Some (if s then Zneg p else Zpos p).
Proof.
  intros Hp. pose proof (digits2_pos_le p 53 ltac:(lia) Hp) as Hd.
  unfold binary_round, shl_align, fexp, emin.
  replace (Z.max (Zpos (digits2_pos p) + 0 - 53) (3 - 1024 - 53) - 0)%Z
    with (Zpos (digits2_pos p) - 53)%Z by lia.
  replace (Z.max (Zpos (digits2_pos p) + 0 - 53) (3 - 1024 - 53))%Z
    with (Zpos (digits2_pos p) - 53)%Z by lia.
  destruct (Zpos (digits2_pos p) - 53)%Z as [|d|d] eqn:Hx; [|lia|].
  - rewrite binary_round_aux_exact by lia. unfold truncate. simpl Z.leb. cbv iota.
    destruct s; simpl; rewrite ?Pos.mul_1_r, ?Z.mul_1_r; done.
  - rewrite binary_round_aux_exact by (rewrite ?digits2_shift; lia).
    unfold truncate. simpl Z.leb. cbv iota. rewrite Pos2Z.opp_neg, iter_xO_mul, Z.div_mul by (apply Z.pow_nonzero; lia).
    by destruct s.
Qed.

(** integers of 53 bits survive the way through [double] *)
Lemma to_double_exact z : (Z.abs z < 2 ^ 53)%Z -> truncate (CheckedInt.to_double z) = Some z.
Proof.
  intros Hz. unfold CheckedInt.to_double, binary_normalize.
  destruct z as [|p|p]; [done| |]; apply binary_round_exact; lia.
Qed.

(** ** The range checks of the conversion functions *)
Section operators.
Variable c : CheckedInt.t.
Hypothesis Hwf : checked_wf c.

Definition exactly (lo hi : Z) : option Z :=
  if in_range lo hi (CheckedInt.z c) then Some (CheckedInt.z c) else None.

Lemma operator_int_exact bits : bits ∈ [8; 16; 32]%Z ->
  CheckedInt.operator_int bits c = exactly (- 2 ^ (bits - 1))%Z (2 ^ (bits - 1) - 1)%Z.
Proof using Hwf.
  intros Hb. assert (Hbs : bits = 8%Z \/ bits = 16%Z \/ bits = 32%Z) by set_solver.
  unfold CheckedInt.operator_int, exactly, checked_wf, in_range in *.
  destruct (CheckedInt.is_unsigned c); destruct Hbs as [->|[->| ->]]; compare_cases;
    simpl in *; try lia; try done; f_equal; apply sN_small; lia.
Qed.

Lemma mod_in_range bits : (0 < bits)%Z ->
  (CheckedInt.z c mod 2 ^ bits = CheckedInt.z c <-> 0 <= CheckedInt.z c < 2 ^ bits)%Z.
Proof.
  intros Hb. split; [|by apply Z.mod_small].
  intros <-. apply Z.mod_pos_bound. by apply Z.pow_pos_nonneg; lia.
Qed.

Lemma operator_uint_exact bits : bits ∈ [8; 16; 32]%Z ->
  CheckedInt.operator_uint bits c = exactly 0%Z (2 ^ bits - 1)%Z.
Proof using Hwf.
  intros Hb. assert (Hbs : bits = 8%Z \/ bits = 16%Z \/ bits = 32%Z) by set_solver.
  unfold CheckedInt.operator_uint, exactly, checked_wf, in_range in *.
  assert (Hu : u32 (CheckedInt.z c mod 2 ^ bits) = (CheckedInt.z c mod 2 ^ bits)%Z).
  { apply Z.mod_small. pose proof (Z.mod_pos_bound (CheckedInt.z c) (2 ^ bits)).
    destruct Hbs as [->|[->| ->]]; simpl in *; lia. }
  pose proof (mod_in_range bits ltac:(lia)) as Hm. rewrite Hu.
  destruct (Z.eqb_spec (CheckedInt.z c mod 2 ^ bits) (CheckedInt.z c)) as [He|He]; rewrite ?He;
    destruct (CheckedInt.is_unsigned c); compare_cases; simpl; try done;
    exfalso; try apply He; try apply Hm; try (apply Hm in He); lia.
Qed.

Lemma operator_int64_exact : CheckedInt.operator_int64 c = exactly (- 2 ^ 63)%Z (2 ^ 63 - 1)%Z.
Proof using Hwf.
  unfold CheckedInt.operator_int64, exactly, checked_wf, in_range in *.
  destruct (CheckedInt.is_unsigned c); compare_cases; simpl; done || lia.
Qed.

Lemma operator_uint64_exact : CheckedInt.operator_uint64 c = exactly 0%Z (2 ^ 64 - 1)%Z.
Proof using Hwf.
  unfold CheckedInt.operator_uint64, exactly, checked_wf, in_range in *.
  destruct (CheckedInt.is_unsigned c); compare_cases; simpl; done || lia.
Qed.
End operators.

(** The range checks are right: each conversion function returns the value exactly when it
    lies in the range of its type, for signed and for unsigned sources, and nothing
    otherwise. C14. *)
Theorem checked_int_operators_exact c bits : checked_wf c -> bits ∈ [8; 16; 32]%Z ->
  CheckedInt.operator_int bits c = exactly c (- 2 ^ (bits - 1))%Z (2 ^ (bits - 1) - 1)%Z /\
  CheckedInt.operator_uint bits c = exactly c 0%Z (2 ^ bits - 1)%Z /\
  CheckedInt.operator_int64 c = exactly c (- 2 ^ 63)%Z (2 ^ 63 - 1)%Z /\
  CheckedInt.operator_uint64 c = exactly c 0%Z (2 ^ 64 - 1)%Z.
Proof.
  intros Hwf Hb. split_and!;
    [by apply operator_int_exact|by apply operator_uint_exact|by apply operator_int64_exact|
     by apply operator_uint64_exact].
Qed.

Lemma checked_int_operators_exact_witness :
  let c := CheckedInt.Make 200 false in
  CheckedInt.operator_int 8 c = None /\ CheckedInt.operator_uint 8 c = Some 200%Z /\
  CheckedInt.operator_int64 c = Some 200%Z /\ CheckedInt.operator_uint64 c = Some 200%Z.
Proof. apply (checked_int_operators_exact (CheckedInt.Make 200 false) 8);
  [unfold checked_wf; simpl; lia|by left]. Defined.

(** ** The conversions between the integer types *)

(** the value of an integer type, and the arithmetic type it is converted to *)
Definition int_val (t : di_type) (z : Z) : option val :=
  match t with
  | DI_TYPE_INT => Some (VInt z) | DI_TYPE_UINT => Some (VUint z)
  | DI_TYPE_NINT => Some (VNint z) | DI_TYPE_NUINT => Some (VNuint z)
  | _ => None
  end.
Definition int_number (t : di_type) : number :=
  match t with
  | DI_TYPE_INT => NInt 64 | DI_TYPE_UINT => NUint 64
  | DI_TYPE_NINT => NInt 32 | DI_TYPE_NUINT => NUint 32
  | _ => NDouble
  end.

Section ints.
Context {E : Env}.

(** an integer value on its way to another integer type *)
Lemma convert_int_run b t t' z v v' w :
  int_val t z = Some v -> int_val t' z = Some v' -> t <> t' ->
  di_type_conversion v t' b w =
  (let '(lo, hi) := number_range (int_number t') in
   match truncate (CheckedInt.to_double z) with
   | Some z => if in_range lo hi z then Ret (inr (default v' (int_val t' z))) w
               else Stuck UndefinedBehaviour
   | None => Stuck UndefinedBehaviour
   end).
Proof.
  intros Hv Hv' Ht. unfold di_type_conversion.
  assert (Hty : type_of v = t) by (destruct t; simplify_eq/=; done).
  rewrite Hty, decide_False by done.
  destruct t; simplify_eq/=; destruct t'; simplify_eq/=; destruct b;
    unfold bind, convert_number, to_number, convert, sizeof_; simpl;
    unfold bind, CheckedInt.operator_double; simpl;
    destruct (truncate _); simpl; try done; by destruct (in_range _ _ _).
Qed.

(** An integer of at most 53 bits is converted exactly between the integer types, in
    both modes and without touching the store, when it is in the range of the
    destination; outside of the range the behaviour is undefined, where the interface
    promises -ERANGE. *)
Theorem int_conversion_53_bits b t t' z v v' w :
  int_val t z = Some v -> int_val t' z = Some v' -> t <> t' -> (Z.abs z < 2 ^ 53)%Z ->
  di_type_conversion v t' b w =
  if in_range (fst (number_range (int_number t'))) (snd (number_range (int_number t'))) z
  then Ret (inr v') w else Stuck UndefinedBehaviour.
Proof.
  intros Hv Hv' Ht Hz. rewrite (convert_int_run b t t' z v v' w) by done.
  destruct (number_range _) as [lo hi]. simpl fst. simpl snd.
  by rewrite to_double_exact, Hv'.
Qed.

(** Larger integers do not survive: INT64_MAX becomes 2^63 as an unsigned integer, and
    converting UINT64_MAX to a signed one, which a range check would refuse, is undefined
    behaviour. *)
Theorem int_conversion_loses_precision b w :
  di_type_conversion (VInt (2 ^ 63 - 1)) DI_TYPE_UINT b w = Ret (inr (VUint (2 ^ 63))) w /\
  di_type_conversion (VUint (2 ^ 64 - 1)) DI_TYPE_INT b w = Stuck UndefinedBehaviour.
Proof.
  split.
  - by rewrite (convert_int_run b DI_TYPE_INT DI_TYPE_UINT (2 ^ 63 - 1) _ (VUint (2 ^ 63 - 1))).
  - by rewrite (convert_int_run b DI_TYPE_UINT DI_TYPE_INT (2 ^ 64 - 1) _ (VInt (2 ^ 64 - 1))).
Qed.
End ints.

Lemma int_conversion_53_bits_witness :
  @di_type_conversion quiet_env (VInt 300) DI_TYPE_NUINT false (store []) = Ret (inr (VNuint 300)) (store []) /\
  @di_type_conversion quiet_env (VInt (-1)) DI_TYPE_NUINT false (store []) = Stuck UndefinedBehaviour.
Proof.
  split.
  - apply (@int_conversion_53_bits quiet_env false DI_TYPE_INT DI_TYPE_NUINT 300); done.
  - apply (@int_conversion_53_bits quiet_env false DI_TYPE_INT DI_TYPE_NUINT (-1) (VInt (-1)) (VNuint (-1))); done.
Defined.

(** ** Borrowed conversions *)

(** the ways of getting stuck that conversion has *)
Definition conv_fault (f : fault) : Prop := f = UndefinedBehaviour \/ f = WildPointer \/ f = Aborted.
Notation quiet_run := (looks conv_fault).

Section quiet.
Context {E : Env}.

Lemma quiet_sizeof t w : quiet_run (fun _ => True) (sizeof_ t) w.
Proof. unfold looks, conv_fault, sizeof_. destruct (di_sizeof_type t); simpl; auto. Qed.

Lemma quiet_checked num c w : quiet_run (fun _ => True) (checked_number num c) w.
Proof.
  unfold looks, conv_fault, checked_number. destruct num; simpl; try done;
    destruct (truncate _); simpl; auto; destruct (in_range _ _ _); simpl; auto.
Qed.

(** [convert], for a relation between the value and the result that unwrapping respects *)
Section convert.
Context {R : Type} (direct : val -> option (M (option R * val))) (Q : val -> R -> Prop).
Definition result_ok (v : val) (r : option R * val) : Prop := forall x, fst r = Some x -> Q v x.
Hypothesis Hunwrap : forall u v x, strong_refs u ⊆ strong_refs v -> Q u x -> Q v x.
Hypothesis Hdirect : forall v m w, direct v = Some m -> quiet_run (result_ok v) m w.

Lemma quiet_none v u w : quiet_run (result_ok v) (ret (None, u)) w.
Proof. apply looks_ret. intros x. discriminate. Qed.

Lemma convert_quiet v w : quiet_run (result_ok v) (convert true direct v) w.
Proof using Hunwrap Hdirect.
  induction v as [v Hl|et nn l IH|l IH|v IH] using val_ind'; cbn [convert].
  - destruct v; try done; cbn [convert];
      (case_match; [by apply Hdirect|by apply quiet_none]).
  - destruct (direct (VArray et nn l)) as [m|] eqn:Hm; [by apply Hdirect|].
    destruct l as [|x [|y l]]; [by apply quiet_none| |by apply quiet_none].
    right. by left.
  - destruct (direct (VTuple l)) as [m|] eqn:Hm; [by apply Hdirect|].
    destruct l as [|x [|y l]]; [by apply quiet_none| |by apply quiet_none].
    right. by left.
  - destruct (direct (VVariant v)) as [m|] eqn:Hm; [by apply Hdirect|].
    eapply looks_bind; [done|]. intros r Hr. apply looks_ret. intros x Hx. simpl in Hx.
    eapply Hunwrap; [|by apply Hr]. done.
Qed.
End convert.

(** the result of a conversion to [t] *)
Definition borrowed_from (t : di_type) (v x : val) : Prop :=
  type_of x = t /\ strong_refs x ⊆ strong_refs v.

Lemma borrowed_unwrap t u v x : strong_refs u ⊆ strong_refs v ->
  borrowed_from t u x -> borrowed_from t v x.
Proof. intros Hs [Ht Hx]. split; [done|]. by etrans. Qed.

(** one conversion operator of the list in [di_type_conversion_impl] *)
Lemma impl_quiet t v (m : M (option val * val)) w :
  quiet_run (result_ok (borrowed_from t) v) m w ->
  quiet_run (fun r => match r with
                      | inr x => borrowed_from t v x
                      | inl rc => rc = (- EINVAL)%Z
                      end)
    (r <- m ;; converter_dtor true (snd r) ;;
     ret (match fst r with Some x => inr x | None => inl (- EINVAL)%Z end)) w.
Proof.
  intros Hm. eapply looks_bind; [done|]. intros [[x|] u] Hr; simpl; apply looks_ret; [|done].
  by apply Hr.
Qed.

Lemma number_quiet num t v w : (forall x y, number_value t x = Some y -> type_of y = t) ->
  quiet_run (result_ok (borrowed_from t) v) (convert_number true num t v) w.
Proof.
  intros Ht. unfold convert_number. eapply looks_bind.
  { unfold to_number. apply (convert_quiet _ (fun _ _ => True)); [done|].
    intros u m w' Hm. destruct u; simplify_eq/=;
      (eapply looks_bind; [apply quiet_checked|]; intros; by apply looks_ret) || by apply looks_ret. }
  intros [[x|] u] _; apply looks_ret; intros y Hy; simplify_eq/=.
  split; [by eapply Ht|]. destruct x, t; simplify_eq/=; apply list_subseteq_nil.
Qed.

(** A borrowed conversion changes nothing: whatever the value, it returns in the store
    it was called in, or it is stuck in one of the known ways; a result has the type asked
    for and only refers to objects the value refers to; the only error is -EINVAL. *)
Theorem borrowed_conversion_pure v t w :
  match di_type_conversion v t true w with
  | Ret r w' => w' = w /\
      match r with
      | inr x => type_of x = t /\ strong_refs x ⊆ strong_refs v
      | inl rc => rc = (- EINVAL)%Z
      end
  | Throw _ _ => False
  | Stuck f => f = UndefinedBehaviour \/ f = WildPointer \/ f = Aborted
  end.
Proof.
  change (quiet_run (fun r => match r with
                      | inr x => borrowed_from t v x
                      | inl rc => rc = (- EINVAL)%Z
                      end) (di_type_conversion v t true) w).
  unfold di_type_conversion. case_decide as Ht.
  { eapply looks_bind; [apply quiet_sizeof|]. intros _ _. apply looks_ret. by split. }
  unfold di_type_conversion_impl.
  destruct t; apply impl_quiet; try (apply looks_ret; intros x; discriminate);
    try (apply number_quiet; intros [?|?] y Hy; by simplify_eq/=);
    (apply convert_quiet; [by intros; eapply borrowed_unwrap|]);
    intros u m w' Hm; destruct u; simplify_eq/=; unfold tuple_to_array, array_to_tuple;
    repeat case_match; apply looks_ret; intros x Hx; simplify_eq/=;
    (split; [done|simpl; rewrite ?app_nil_r; done || apply list_subseteq_nil]).
Qed.
End quiet.

(** ** Owned conversions *)

(** no count is at the end of its range *)
Definition room (w : world) : Prop :=
  map_Forall (fun _ ob => ref_count ob < 2 ^ 64 - 1 /\ weak_ref_count ob < 2 ^ 64 - 1)%Z (heap w).

#[global] Instance room_dec w : Decision (room w).
Proof. unfold room. apply _. Defined.

(** the values on which the ownership of the result is what the interface promises: not a
    nil that becomes a weak reference, not a tuple of one element that becomes an array *)
Fixpoint conv_safe (t : di_type) (v : val) : bool :=
  match v with
  | VNil => negb (bool_decide (t = DI_TYPE_WEAK_OBJECT))
  | VVariant u => conv_safe t u
  | VTuple [u] => match t with DI_TYPE_TUPLE => true | DI_TYPE_ARRAY => false | _ => conv_safe t u end
  | VArray _ _ [u] => match t with DI_TYPE_TUPLE | DI_TYPE_ARRAY => true | _ => conv_safe t u end
  | _ => true
  end.

(** the destinations other than the integers and variants *)
Definition owned_target (t : di_type) : bool :=
  match t with
  | DI_TYPE_INT | DI_TYPE_UINT | DI_TYPE_NINT | DI_TYPE_NUINT | DI_TYPE_VARIANT => false
  | _ => true
  end.

Lemma type_of_not_any v : type_of v <> DI_TYPE_ANY.
Proof. by destruct v. Qed.

Section owned.
Context {E : Env} (strict : Prop) (N : Z).
Hypothesis Henv : env_ok strict N.
Hypothesis HN : (N <= Z.of_nat env_fuel)%Z.

Lemma sizeof_ok v (Q : Z -> world -> Prop) w : val_ok v = true -> (forall z, Q z w) ->
  wp (sizeof_ (type_of v)) Q w.
Proof using. intros Hv HQ. by destruct v; simplify_eq/=; apply wp_ret. Qed.

Section convert.
Context {R : Type} (t : di_type) (direct : val -> option (M (option R * val))).
(** the references of a result, and what else is to hold of it *)
Context (sR wR : R -> list oid) (okR : R -> Prop).

Definition opt_refs (f : R -> list oid) (r : option R) : list oid :=
  match r with Some x => f x | None => [] end.

Definition moved (ext extw : list oid) (r : option R * val) (w : world) : Prop :=
  (alive w < N)%Z /\ val_ok (snd r) = true /\
  Inv (opt_refs sR (fst r) ++ strong_refs (snd r) ++ ext)
      (opt_refs wR (fst r) ++ weak_refs (snd r) ++ extw) [] w /\
  (forall x, fst r = Some x -> okR x).

Definition moves (v : val) (m : M (option R * val)) : Prop := forall ext extw w,
  val_ok v = true -> room w -> (alive w < N)%Z ->
  Inv (strong_refs v ++ ext) (weak_refs v ++ extw) [] w ->
  wp m (moved ext extw) w.

Lemma moves_none v : moves v (ret (None, v)).
Proof using. intros ext extw w Hv Hr Ha HI. apply wp_ret. by split_and!. Qed.

(** what the destructor of a converter does to the value it is left with *)
Lemma moved_drop ext extw r w : moved ext extw r w ->
  wp (converter_dtor false (snd r)) (fun _ w' => moved ext extw (fst r, VNil) w') w.
Proof using Henv HN.
  intros (Ha & Hv & HI & Hx). eapply wp_mono.
  { eapply (di_free_value_ok strict N Henv HN (snd r) Hv); [|done].
    eapply Inv_perm; [| |exact HI].
    - by rewrite Permutation_app_swap_app.
    - by rewrite Permutation_app_swap_app. }
  cbv beta. intros _ w' [HI' HF]. split_and!; try done.
  by eapply frame_bound.
Qed.

Hypothesis Hdirect : forall v m, direct v = Some m -> conv_safe t v = true -> moves v m.
(** arrays and tuples are not unwrapped on the way to one another *)
Hypothesis Hcontainer : t = DI_TYPE_ARRAY \/ t = DI_TYPE_TUPLE ->
  forall et nn l, direct (VArray et nn l) <> None /\ direct (VTuple l) <> None.

Lemma moves_unwrap u (m : M (option R * val)) v :
  strong_refs v = strong_refs u -> weak_refs v = weak_refs u -> (val_ok v = true -> val_ok u = true) ->
  moves u m ->
  moves v (sizeof_ (type_of u) ;; r <- m ;; converter_dtor false (snd r) ;; ret (fst r, VNil)).
Proof using Henv HN.
  intros Hs Hw Hok Hm ext extw w Hv Hr Ha HI. rewrite Hs, Hw in HI.
  apply wp_bind. apply sizeof_ok; [by apply Hok|]. intros _. apply wp_bind.
  eapply wp_mono; [apply (Hm ext extw w); auto|]. intros r w1 Hmv. apply wp_bind.
  eapply wp_mono; [by apply moved_drop|]. intros ? w2 Hmv2. by apply wp_ret.
Qed.

Lemma convert_moves v : conv_safe t v = true -> moves v (convert false direct v).
Proof using All.
  induction v as [v Hl|et nn l IH|l IH|v IH] using val_ind'; intros Hs.
  - destruct v; try done; cbn [convert];
      (case_match; [by apply Hdirect|by apply moves_none]).
  - cbn [convert]. destruct (direct (VArray et nn l)) as [m|] eqn:Hm; [by apply Hdirect|].
    destruct l as [|x [|y l]]; [by apply moves_none| |by apply moves_none].
    assert (Hsx : conv_safe t x = true).
    { destruct t; try done; by (destruct (Hcontainer ltac:(auto) et nn [x]) as [? _]). }
    apply Forall_cons in IH as [IH _].
    intros ext extw w Hv. pose proof Hv as Hv'. simpl in Hv'. rewrite !andb_true_r in Hv'.
    apply andb_true_iff in Hv' as [[He _]%andb_true_iff Hx]. apply bool_decide_eq_true in He as <-.
    revert Hv. apply moves_unwrap; [by simpl; rewrite app_nil_r..|done|by apply IH].
  - cbn [convert]. destruct (direct (VTuple l)) as [m|] eqn:Hm; [by apply Hdirect|].
    destruct l as [|x [|y l]]; [by apply moves_none| |by apply moves_none].
    assert (Hsx : conv_safe t x = true).
    { destruct t; try done; by (destruct (Hcontainer ltac:(auto) DI_TYPE_NIL true [x]) as [_ ?]). }
    apply Forall_cons in IH as [IH _].
    apply moves_unwrap; [by simpl; rewrite app_nil_r..| |by apply IH].
    simpl. by rewrite andb_true_r.
  - cbn [convert]. destruct (direct (VVariant v)) as [m|] eqn:Hm; [by apply Hdirect|].
    apply moves_unwrap; [done..|by apply IH].
Qed.
End convert.

(** what is asked of a result of type [t] *)
Definition result_of (t : di_type) (x : val) : Prop := type_of x = t /\ val_ok x = true.
Notation moves_to t := (moves strong_refs weak_refs (result_of t)).

(** the references go to the result and to what the converter is left with *)
Lemma moves_ret t v x u :
  strong_refs x ++ strong_refs u ≡ₚ strong_refs v -> weak_refs x ++ weak_refs u ≡ₚ weak_refs v ->
  (val_ok v = true -> val_ok u = true /\ result_of t x) ->
  moves_to t v (ret (Some x, u)).
Proof using.
  intros Hs Hw Hok ext extw w Hv Hr Ha HI. destruct (Hok Hv). apply wp_ret. split_and!; try done.
  - simpl. eapply Inv_perm; [| |exact HI]; by rewrite app_assoc, ?Hs, ?Hw.
  - by intros y [= <-].
Qed.

Lemma moves_tuple_to_array l : conv_safe DI_TYPE_ARRAY (VTuple l) = true ->
  moves_to DI_TYPE_ARRAY (VTuple l) (tuple_to_array false l).
Proof using.
  intros Hs. destruct l as [|v0 [|v1 l]]; [by apply moves_ret|done|].
  unfold tuple_to_array. intros ext extw w Hv Hr Ha HI. apply wp_bind.
  pose proof Hv as Hv0. simpl in Hv0. apply andb_true_iff in Hv0 as [Hv0 _].
  apply sizeof_ok; [done|]. intros _. destruct (forallb _ _) eqn:Hf; [|by apply (moves_none _ _ _ (VTuple _))].
  apply (moves_ret DI_TYPE_ARRAY (VTuple (v0 :: v1 :: l)) (VArray (type_of v0) true (v0 :: v1 :: l)) VNil);
    try done; [by simpl; rewrite app_nil_r..|].
  intros _. split; [done|]. split; [done|]. simpl in *. by rewrite Hf, Hv.
Qed.

Lemma moves_array_to_tuple et nn l :
  moves_to DI_TYPE_TUPLE (VArray et nn l) (array_to_tuple false et nn l).
Proof using.
  destruct l as [|v0 l]; [by apply moves_ret|].
  unfold array_to_tuple. intros ext extw w Hv Hr Ha HI. apply wp_bind.
  pose proof Hv as Hv0. simpl in Hv0. apply andb_true_iff in Hv0 as [[Hf _]%andb_true_iff Hok].
  apply andb_true_iff in Hf as [<-%bool_decide_eq_true _].
  pose proof Hok as Hok0. apply andb_true_iff in Hok0 as [Hok0 _].
  apply sizeof_ok; [done|]. intros _.
  apply (moves_ret DI_TYPE_TUPLE (VArray (type_of v0) nn (v0 :: l)) (VTuple (v0 :: l)) VNil);
    try done; by simpl; rewrite app_nil_r.
Qed.

Lemma moves_upgrade o :
  moves_to DI_TYPE_OBJECT (VWeak o) (r <- di_upgrade_weak_ref o ;; ret (VObject <$> r, VWeak o)).
Proof using E.
  intros ext extw w _ Hr Ha HI. simpl in HI.
  destruct (Inv_weakly_held _ _ _ _ o HI) as [ob Ho]; [by left|].
  apply wp_bind. eapply wp_mono; [apply (di_upgrade_weak_ref_spec _ _ _ _ _ _ HI Ho); apply (Hr _ _ Ho)|].
  intros r w' Hw'. apply wp_ret. case_match eqn:Hc; destruct Hw' as [-> Hw'].
  - destruct Hw' as [HI' Hh]. split_and!; try done.
    + unfold alive. rewrite Hh, (msum_update _ _ _ ob) by done. fold (alive w).
      apply andb_true_iff in Hc as [Hc _]. apply Z.ltb_lt in Hc. unfold implicit_weak. simpl.
      repeat case_match; lia.
    + by intros y [= <-].
  - subst w'. by split_and!.
Qed.

Lemma moves_weaken v o : strong_refs v = [o] -> weak_refs v = [] ->
  moves_to DI_TYPE_WEAK_OBJECT v (x <- di_weakly_ref_object o ;; ret (Some (VWeak x), v)).
Proof using E.
  intros Hs Hw ext extw w Hv Hr Ha HI. rewrite Hs, Hw in HI. simpl in HI.
  destruct (Inv_held _ _ _ _ o HI) as (ob & Ho & _); [by left|].
  apply wp_bind. eapply wp_mono; [apply (di_weakly_ref_object_spec _ _ _ _ _ _ HI Ho); apply (Hr _ _ Ho)|].
  intros r w' (-> & HI' & Hh & _). apply wp_ret. split_and!; try done.
  - unfold alive. rewrite Hh, (msum_update _ _ _ ob) by done. fold (alive w).
    unfold implicit_weak. simpl. lia.
  - simpl. by rewrite Hs, Hw.
  - by intros y [= <-].
Qed.

Lemma moves_float v : conv_safe DI_TYPE_FLOAT v = true ->
  moves_to DI_TYPE_FLOAT v (convert_number false NDouble DI_TYPE_FLOAT v).
Proof using Henv HN.
  intros Hs ext extw w Hv Hr Ha HI. unfold convert_number. apply wp_bind. eapply wp_mono.
  - unfold to_number.
    eapply (convert_moves DI_TYPE_FLOAT _ (fun _ => []) (fun _ => []) (fun x => exists f, x = inl f));
      [| |exact Hs|exact Hv|exact Hr|exact Ha|exact HI]; [|by intros [?|?]].
    intros u m Hm _ ext' extw' w' Hu _ Ha' HI'.
    destruct u; simplify_eq/=; try (apply wp_bind, wp_ret); apply wp_ret;
      (split_and!; [done..|intros x [= <-]; eauto]).
  - intros [[x|] u] w' (Ha' & Hu & HI' & Hx); apply wp_ret; [|by split_and!].
    destruct (Hx x) as [f ->]; [done|]. split_and!; try done. by intros y [= <-].
Qed.

(** the direct conversions of [di_type_conversion_impl<false>] *)
Lemma moves_direct t v : owned_target t = true -> conv_safe t v = true ->
  match t with
  | DI_TYPE_FLOAT => moves_to t v (convert_number false NDouble t v)
  | DI_TYPE_BOOL => moves_to t v (to_bool false v)
  | DI_TYPE_STRING => moves_to t v (to_string false v)
  | DI_TYPE_STRING_LITERAL => moves_to t v (to_string_literal false v)
  | DI_TYPE_ARRAY => moves_to t v (to_array false v)
  | DI_TYPE_TUPLE => moves_to t v (to_tuple false v)
  | DI_TYPE_OBJECT => moves_to t v (to_object false v)
  | DI_TYPE_WEAK_OBJECT => moves_to t v (to_weak_object false v)
  | DI_TYPE_POINTER => moves_to t v (to_pointer false v)
  | _ => True
  end.
Proof using Henv HN.
  intros Ht Hs. destruct t; try done; try (by apply moves_float);
    match type of Hs with conv_safe ?t _ = _ => apply (convert_moves t) end;
    try done; try (by intros [?|?]); try (by intros _ et nn l);
    intros u m Hm Hu; destruct u; simplify_eq/=;
    try (by apply moves_ret);
    try (apply moves_ret; [by simpl; rewrite ?app_nil_r..|done]);
    try (by apply moves_tuple_to_array); try (by apply moves_array_to_tuple);
    try (by apply moves_upgrade); try (by apply moves_weaken).
Qed.

Lemma impl_moves t v (m : M (option val * val)) ext extw w :
  moves_to t v m -> val_ok v = true -> room w -> (alive w < N)%Z ->
  Inv (strong_refs v ++ ext) (weak_refs v ++ extw) [] w ->
  wp (r <- m ;; converter_dtor false (snd r) ;;
      ret (match fst r with Some x => inr x | None => inl (- EINVAL)%Z end))
    (fun r w' => match r with
       | inr x => result_of t x /\ Inv (strong_refs x ++ ext) (weak_refs x ++ extw) [] w'
       | inl rc => rc = (- EINVAL)%Z /\ Inv ext extw [] w'
       end) w.
Proof using Henv HN.
  intros Hm Hv Hr Ha HI. apply wp_bind. eapply wp_mono; [by apply (Hm ext extw w)|].
  intros r w1 Hmv. apply wp_bind. eapply wp_mono; [by apply moved_drop|].
  intros ? w2 (_ & _ & HI2 & Hx). apply wp_ret.
  destruct r as [[x|] u]; simpl in *; [split; [by apply Hx|]|]; done.
Qed.

(** An owned conversion takes the value over: on success the result has the type asked
    for and owns what the value owned, with counts that are exact (an upgraded or weakened
    reference is counted as what it became); on failure, always -EINVAL, everything the
    value owned is released. The destinations are all but the integers and variants, the
    values all but those of [conv_safe]. *)
Theorem owned_conversion_moves v t ext extw w :
  owned_target t = true -> conv_safe t v = true -> val_ok v = true ->
  Inv (strong_refs v ++ ext) (weak_refs v ++ extw) [] w -> room w -> (alive w < N)%Z ->
  exists r w', di_type_conversion v t false w = Ret r w' /\
    match r with
    | inr x => result_of t x /\ Inv (strong_refs x ++ ext) (weak_refs x ++ extw) [] w'
    | inl rc => rc = (- EINVAL)%Z /\ Inv ext extw [] w'
    end.
Proof using Henv HN.
  intros Ht Hs Hv HI Hr Ha. apply wp_run. unfold di_type_conversion. case_decide as Hty.
  { apply wp_bind, (sizeof_ok v); [done|]. intros _. apply wp_ret. by split. }
  apply wp_bind, (sizeof_ok v); [done|]. intros _. pose proof (moves_direct t v Ht Hs) as Hm.
  destruct t; try done; (apply (impl_moves _ v); [|done..]); try done; apply (moves_none _ _ _ v).
Qed.
End owned.

Lemma owned_conversion_moves_witness :
  exists r w', @di_type_conversion quiet_env (VTuple [VObject 3; VObject 3]) DI_TYPE_ARRAY false
      (store [(3%positive, plain [] 2 1)]) = Ret r w' /\
    match r with
    | inr x => result_of DI_TYPE_ARRAY x /\ Inv (strong_refs x ++ []) (weak_refs x ++ [dead_weak_ref]) [] w'
    | inl rc => rc = (- EINVAL)%Z /\ Inv [] [dead_weak_ref] [] w'
    end.
Proof.
  apply (@owned_conversion_moves quiet_env True 10 (quiet_env_ok True 10) ltac:(simpl; lia)
           (VTuple [VObject 3; VObject 3]) DI_TYPE_ARRAY [] [dead_weak_ref]).
  - reflexivity.
  - reflexivity.
  - reflexivity.
  - apply Invb_sound. vm_compute. reflexivity.
  - apply (bool_decide_unpack _). vm_compute. exact I.
  - vm_compute. reflexivity.
Defined.

(** ** Where the ownership goes wrong *)
Section wrong.
Context {E : Env} (strict : Prop) (N : Z).

(** An owned value wrapped into a variant is released all the same: the variant that is
    returned holds the value, but the references in it are no longer counted, so that an
    object nobody else holds is already destroyed. *)
Theorem owned_to_variant_releases v ext extw w :
  env_ok strict N -> (N <= Z.of_nat env_fuel)%Z ->
  type_of v <> DI_TYPE_VARIANT -> val_ok v = true ->
  Inv (strong_refs v ++ ext) (weak_refs v ++ extw) [] w -> (alive w < N)%Z ->
  exists w', di_type_conversion v DI_TYPE_VARIANT false w = Ret (inr (VVariant v)) w' /\
    Inv ext extw [] w'.
Proof.
  intros Henv HN Ht Hv HI Ha. unfold di_type_conversion. rewrite decide_False by done.
  assert (Hc : to_variant false v = (sizeof_ (type_of v) ;; ret (Some (VVariant v), v))) by (by destruct v).
  cut (wp (sizeof_ (type_of v) ;; di_type_conversion_impl false v DI_TYPE_VARIANT)
         (fun r w' => r = inr (VVariant v) /\ Inv ext extw [] w') w).
  { intros Hw. destruct (wp_run _ _ _ Hw) as (r & w' & Hrun & -> & HI'). eauto. }
  apply wp_bind, (sizeof_ok v); [done|]. intros _. unfold di_type_conversion_impl. rewrite Hc.
  apply wp_bind, wp_bind, (sizeof_ok v); [done|]. intros _. apply wp_ret, wp_bind.
  eapply wp_mono; [by apply (di_free_value_ok strict N Henv HN v Hv ext extw [])|].
  intros ? w' [HI' _]. by apply wp_ret.
Qed.

(** Nil as an owned weak reference is the dead reference, without a count of its own:
    dropping it as its owner must frees the static object behind it. *)
Theorem nil_to_weak_uncounted w :
  heap w !! dead_weak_ref = Some dead_weakly_referenced_object ->
  exists w', (r <- di_type_conversion VNil DI_TYPE_WEAK_OBJECT false ;;
              match r with inr x => di_free_value x | inl _ => ret tt end) w = Ret tt w' /\
    heap w' = delete dead_weak_ref (heap w).
Proof.
  intros Hd. eexists. split.
  - unfold bind at 1. unfold di_type_conversion, di_type_conversion_impl, bind. simpl.
    unfold di_drop_weak_ref, di_decrement_weak_ref_count, upd_obj, bind, get_obj. rewrite Hd. simpl.
    rewrite lookup_insert_eq. simpl. reflexivity.
  - simpl. apply delete_insert_eq.
Qed.
End wrong.

Lemma owned_to_variant_releases_witness :
  exists w', @di_type_conversion quiet_env (VObject 3) DI_TYPE_VARIANT false
      (store [(3%positive, plain [] 1 1)]) = Ret (inr (VVariant (VObject 3))) w' /\
    Inv [] [dead_weak_ref] [] w'.
Proof.
  apply (@owned_to_variant_releases quiet_env True 10 (VObject 3) [] [dead_weak_ref]).
  - apply quiet_env_ok.
  - simpl. lia.
  - discriminate.
  - reflexivity.
  - apply Invb_sound. vm_compute. reflexivity.
  - vm_compute. reflexivity.
Defined.

Lemma nil_to_weak_uncounted_witness :
  exists w', (r <- @di_type_conversion quiet_env VNil DI_TYPE_WEAK_OBJECT false ;;
              match r with inr x => @di_free_value quiet_env x | inl _ => ret tt end) (store []) = Ret tt w' /\
    heap w' = delete dead_weak_ref (heap (store [])).
Proof. apply (@nil_to_weak_uncounted quiet_env). vm_compute. reflexivity. Defined.
