(* ===== verification/Members.v ===== *)
(** * Properties of objects: enumeration, lookup order and assignment

    What [di_object_next_member], [di_getx] and [di_setx] promise to a script: the names
    come in insertion order without the internal ones, raw members shadow the getters, and
    an assignment without setters replaces a value in place or appends a member. *)

From S2P Require Export Demo Lookup.

(** ** Enumerating members *)

Definition is_public (m : member) : bool := negb (di_string_starts_with (Some (fst m)) "__").

(** the references inside the values of a list of members *)
Definition members_strong (l : list member) : list oid := concat (map (fun m => strong_refs (snd m)) l).
Definition members_weak (l : list member) : list oid := concat (map (fun m => weak_refs (snd m)) l).

Definition clone_member (m : member) : string * val := (fst m, clone_val (snd m)).

Lemma skip_internal_filter l :
  match skip_internal l with
  | [] => List.filter is_public l = []
  | m :: l' => List.filter is_public l = m :: List.filter is_public l' /\ exists pre, l = pre ++ m :: l'
  end.
Proof.
  induction l as [|[n v] l IH]; cbn [skip_internal List.filter]; [done|].
  change (is_public (n, v)) with (negb (di_string_starts_with (Some n) "__")).
  destruct (di_string_starts_with (Some n) "__") eqn:Hn; cbn [negb].
  - destruct (skip_internal l) as [|m l']; [done|]. destruct IH as [Hf [pre ->]].
    split; [done|]. by exists ((n, v) :: pre).
  - split; [done|]. by exists [].
Qed.

Lemma members_after_split n v pre l : NoDup (map fst (pre ++ (n, v) :: l)) ->
  members_after n (pre ++ (n, v) :: l) = Some l.
Proof.
  induction pre as [|[m u] pre IH]; simpl; [by rewrite String.eqb_refl|].
  intros [Hm Hnd]%NoDup_cons. destruct (String.eqb_spec m n) as [->|]; [|by apply IH].
  destruct Hm. rewrite map_app. apply elem_of_app. right. by left.
Qed.

Section enumerate.
Context {E : Env}.

(** a script's loop: from no name, until there is no next member *)
Fixpoint member_list (fuel : nat) (o : oid) (name : di_string) : M (list (string * val)) :=
  match fuel with
  | O => stuck OutOfFuel
  | S fuel =>
      r <- di_object_next_member o name ;;
      match r with
      | VTuple [VString (Some k); v] => rest <- member_list fuel o (Some k) ;; ret ((k, v) :: rest)
      | _ => ret []
      end
  end.

(** the member that follows, when there is no ["__next"] *)
Definition next_of (rest : list member) : M val :=
  match skip_internal rest with
  | [] => ret DI_TUPLE_INIT
  | (n, v) :: _ =>
      sizeof_ (type_of v) ;;
      v' <- di_copy_value v ;;
      ret (VTuple [VString (di_clone_string (Some n)); v'])
  end.

Lemma di_object_next_member_eq o ob name w :
  heap w !! o = Some ob -> find_member "__next" (members ob) = None ->
  di_object_next_member o name w =
  next_of (match name with None => members ob | Some n => default [] (members_after n (members ob)) end) w.
Proof.
  intros Ho Hn. unfold di_object_next_member. rewrite (bind_ret_run _ _ _ None w).
  - by rewrite (bind_get_obj _ ob).
  - by apply (rawget_object_none _ _ ob).
Qed.

(** one step of the loop, and the rest of it *)
Lemma member_list_spec fuel : forall o ob name w rest pre,
  heap w !! o = Some ob -> find_member "__next" (members ob) = None ->
  NoDup (map fst (members ob)) -> members ob = pre ++ rest ->
  match name with None => members ob | Some n => default [] (members_after n (members ob)) end = rest ->
  Forall (fun m => val_ok (snd m) = true /\ copyable (snd m) = true) rest ->
  let l := List.filter is_public rest in
  (length l < fuel)%nat ->
  refs_ok (members_strong l) (members_weak l) (heap w) ->
  member_list fuel o name w =
    Ret (map clone_member l) (set_heap (add_refs (members_strong l) (members_weak l) (heap w)) w).
Proof.
  induction fuel as [|fuel IH]; intros o ob name w rest pre Ho Hnx Hnd Hpre Hrest Hok l Hlen Href; [lia|].
  cbn [member_list]. unfold bind at 1. rewrite (di_object_next_member_eq _ ob) by done. rewrite Hrest.
  unfold next_of. pose proof (skip_internal_filter rest) as Hsk.
  destruct (skip_internal rest) as [|[n v] l'].
  { unfold l. rewrite Hsk. cbn. by rewrite add_refs_nil, set_heap_same. }
  destruct Hsk as [Hf [pre' ->]]. unfold l in *. rewrite Hf in *. clear l.
  apply Forall_app in Hok as [_ Hok]. apply Forall_cons in Hok as [[Hv Hc] Hok].
  destruct (sizeof_run v w Hv) as [z Hz]. unfold bind at 1. rewrite Hz.
  cbn [members_strong members_weak map concat snd] in Href |- *.
  apply refs_ok_app in Href as [Href1 Href2].
  unfold bind at 1. rewrite (di_copy_value_eq v Hv Hc _ Href1). cbn [ret di_clone_string di_string_ndup].
  unfold bind. set (w1 := set_heap _ w). simpl di_string_bytes.
  erewrite (IH o _ (Some n) w1 l' (pre ++ pre' ++ [(n, v)])).
  - unfold w1. cbn [heap set_heap]. cbn [ret map clone_member fst snd]. f_equal.
    by rewrite set_heap_twice, add_refs_app.
  - unfold w1. simpl. rewrite lookup_add_refs, Ho. done.
  - done.
  - done.
  - simpl. rewrite Hpre. by rewrite <- !app_assoc.
  - simpl. rewrite Hpre. rewrite app_assoc. rewrite (members_after_split n v); [done|].
    rewrite <- app_assoc, <- Hpre. done.
  - done.
  - simpl in Hlen. lia.
  - done.
Qed.
End enumerate.

(** Going through an object with [di_object_next_member], each time with the name returned
    before, yields every public member exactly once, in the order of insertion, as copies
    that own their references, and then stops; names that start with two underscores are
    left out. C19. *)
Theorem di_object_next_member_enumerates `{E : Env} o ob ext extw w :
  Inv ext extw [] w -> heap w !! o = Some ob -> find_member "__next" (members ob) = None ->
  forallb (fun m => copyable (snd m)) (members ob) = true ->
  let public := List.filter is_public (members ob) in
  takable (members_strong public) (members_weak public) (heap w) ->
  exists w', member_list (S (length (members ob))) o None w = Ret (map clone_member public) w' /\
    Inv (members_strong public ++ ext) (members_weak public ++ extw) [] w' /\
    (forall p, members <$> heap w' !! p = members <$> heap w !! p).
Proof.
  intros HI Ho Hnx Hcp public Ht. eexists. split_and!.
  - apply (member_list_spec _ o ob None w (members ob) []); try done.
    + apply (inv_obj _ _ _ _ HI _ _ Ho).
    + pose proof (oi_vals _ _ _ _ _ _ (inv_obj _ _ _ _ HI _ _ Ho)) as Hv.
      apply forallb_Forall in Hcp. rewrite Forall_forall in Hv, Hcp. apply Forall_forall. auto.
    + apply Nat.lt_succ_r, filter_length_le.
    + by eapply takable_refs_ok.
  - by apply Inv_add_refs.
  - intros p. simpl. rewrite lookup_add_refs. by destruct (heap w !! p).
Qed.

Lemma di_object_next_member_enumerates_witness :
  let ob := plain [("a", VInt 1); ("__type", VStringLiteral "t"); ("b", VObject 3)] 1 1 in
  let w := store [(2%positive, ob); (3%positive, plain [] 1 1)] in
  exists w', @member_list quiet_env 4 2 None w = Ret [("a", VInt 1); ("b", VObject 3)] w' /\
    Inv [3; 2]%positive [dead_weak_ref] [] w' /\
    (forall p, members <$> heap w' !! p = members <$> heap w !! p).
Proof.
  intros ob w.
  apply (di_object_next_member_enumerates (E := quiet_env) 2 ob [2%positive] [dead_weak_ref] w).
  - apply Invb_sound. vm_compute. reflexivity.
  - vm_compute. reflexivity.
  - vm_compute. reflexivity.
  - vm_compute. reflexivity.
  - split; [|constructor]. apply Forall_singleton. exists (plain [] 1 1).
    split_and!; [vm_compute; reflexivity..].
Defined.

(** ** Reading a property *)
Section getx.
Context {E : Env}.

End getx.

(** an object with a raw member and a generic getter, object 3 *)
Definition getter_store : world :=
  store [(2%positive, plain [("x", VInt 1); ("__get", VObject 3)] 1 1);
         (3%positive, set_call (Some "getter") (plain [] 1 1))].

(** an environment whose only callee answers the name it was asked for *)
Definition echo_env : Env := {|
  env_fuel := 40;
  env_call := fun _ _ args => ret (inr (default VNil (args !! 1)));
  env_dtor := fun _ _ => ret tt;
  env_log := fun _ _ => ret tt
|}.

Lemma getter_store_ok : members_ok (plain [("x", VInt 1); ("__get", VObject 3)] 1 1).
Proof.
  intros n v. cbn [members plain find_member].
  destruct (String.eqb _ n); [by intros [= <-]|]. destruct (String.eqb _ n); [by intros [= <-]|done].
Qed.


(** ** Assigning a property *)

Section setx.
Context {E : Env}.

Definition no_handler (ob : object) (prefix n : string) : Prop :=
  handler_of ob (handler_name prefix (Some n)) = None /\ handler_of ob prefix = None.

Lemma no_handler_eq o ob prefix n arg want catch w :
  heap w !! o = Some ob -> members_ok ob -> no_handler ob prefix n ->
  call_handler_with_fallback o prefix (Some n) arg want catch w = Ret (inl (- ENOENT)%Z, None, false) w.
Proof.
  intros Ho Hok [Hh Hg]. unfold call_handler_with_fallback.
  rewrite (bind_ret_run _ _ _ None w) by (by rewrite (rawget_object_eq _ _ ob), Hh by (done || apply Hok)).
  unfold bind at 1. simpl.
  by rewrite (bind_ret_run _ _ _ None w) by (by rewrite (rawget_object_eq _ _ ob), Hg by (done || apply Hok)).
Qed.

Lemma replace_value_eq o n old v ob ob1 w w1 :
  find_member n (members ob) = Some old -> val_ok old = true ->
  strong_refs old = [] -> weak_refs old = [] -> val_ok v = true ->
  heap w !! o = Some ob -> heap w1 !! o = Some ob1 -> di_copy_value v w = Ret (clone_val v) w1 ->
  replace_value o n old v w =
    Ret tt (set_heap (<[o := set_members (put_member n (clone_val v) (members ob1)) ob1]> (heap w1)) w1).
Proof.
  intros Hf Hvo Hs Hw Hv Ho Ho1 Hcopy. unfold replace_value.
  rewrite (bind_ret_run _ _ _ tt w) by (by apply free_value_no_refs).
  rewrite (bind_get_obj _ ob), Hf by done.
  destruct (sizeof_run v w Hv) as [z Hz].
  rewrite (bind_ret_run _ _ _ tt w) by done. rewrite (bind_ret_run _ _ _ _ _ Hz).
  rewrite (bind_ret_run _ _ _ _ _ Hcopy). unfold upd_obj. by rewrite (bind_get_obj _ ob1).
Qed.

(** Assigning to an object without setters and deleters returns 0; a member of that name
    is replaced where it stands, a new one comes last; the value stored is a copy that
    owns its references; no other object changes its members. The value that is replaced
    is one without references (an integer, a string, ...): [di_setx] frees it while the
    member still leads to it, see below. *)
Theorem di_setx_assigns o ob n v ext extw w catch :
  Inv ext extw [] w -> heap w !! o = Some ob -> (0 < ref_count ob)%Z -> members_ok ob ->
  no_handler ob "__set" n -> no_handler ob "__delete" n ->
  type_of v <> DI_TYPE_NIL -> val_ok v = true -> copyable v = true ->
  takable (strong_refs v) (weak_refs v) (heap w) ->
  (forall old, find_member n (members ob) = Some old -> strong_refs old = [] /\ weak_refs old = []) ->
  exists w' ob', di_setx o (Some n) v catch w = Ret (0%Z, None) w' /\ Inv ext extw [] w' /\
    heap w' !! o = Some ob' /\ members ob' = assigned n (clone_val v) (members ob) /\
    find_member n (members ob') = Some (clone_val v) /\
    (forall p, p <> o -> members <$> heap w' !! p = members <$> heap w !! p).
Proof.
  intros HI Ho Hp Hok Hset Hdel Hnil Hv Hc Ht Hold.
  destruct (assign_copy ext extw w o ob n v HI Ho Hp Hv Hc Ht Hold) as (ob1 & Ho1 & Hm1 & HI1).
  set (w1 := set_heap (add_refs _ _ _) w) in *.
  assert (Hcopy : di_copy_value v w = Ret (clone_val v) w1)
    by (apply di_copy_value_eq; [done..|by eapply takable_refs_ok]).
  exists (set_heap (<[o := set_members (assigned n (clone_val v) (members ob)) ob1]> (heap w1)) w1).
  eexists. split_and!; [|exact HI1|simpl; by rewrite lookup_insert_eq|done|simpl; apply find_assigned|].
  - unfold di_setx. unfold bind at 1. rewrite (no_handler_eq _ ob) by done. cbn beta iota.
    unfold bind at 1. rewrite (no_handler_eq _ ob) by done. cbn [andb].
    unfold bind at 1. rewrite (di_lookup_eq _ _ ob) by done. unfold assigned.
    destruct (find_member n (members ob)) as [old|] eqn:Hf.
    + destruct (Hold old eq_refl) as [Hs Hw]. destruct (Hok n old Hf) as [Hvo _].
      by rewrite (bind_ret_run _ _ _ _ _ (replace_value_eq o n old v ob ob1 w w1 Hf Hvo Hs Hw Hv Ho Ho1 Hcopy)), Hm1.
    + unfold di_add_member_clone, di_add_member_clone2, bind.
      rewrite sizeof_is_zero_spec by (by destruct v). rewrite bool_decide_eq_false_2 by done.
      rewrite Hcopy. unfold di_add_member. change (di_clone_string (Some n)) with (Some n).
      unfold bind. rewrite (di_insert_member_eq _ _ _ ob1) by done. by rewrite Hm1, Hf.
  - intros p Hne. simpl. rewrite lookup_insert_ne by done. rewrite lookup_add_refs.
    by destruct (heap w !! p).
Qed.
End setx.

Lemma di_setx_assigns_witness :
  let ob := plain [("x", VInt 1); ("y", VInt 2)] 1 1 in
  let w := store [(2%positive, ob); (3%positive, plain [] 1 1)] in
  exists w' ob', @di_setx quiet_env 2 (Some "x") (VObject 3) false w = Ret (0%Z, None) w' /\
    Inv [2; 3]%positive [dead_weak_ref] [] w' /\ heap w' !! 2%positive = Some ob' /\
    members ob' = [("x", VObject 3); ("y", VInt 2)] /\
    find_member "x" (members ob') = Some (VObject 3) /\
    (forall p, p <> 2%positive -> members <$> heap w' !! p = members <$> heap w !! p).
Proof.
  intros ob w.
  apply (di_setx_assigns (E := quiet_env) 2 ob "x" (VObject 3) [2; 3]%positive [dead_weak_ref] w).
  - apply Invb_sound. vm_compute. reflexivity.
  - vm_compute. reflexivity.
  - reflexivity.
  - intros n v. cbn [members ob plain find_member].
    destruct (String.eqb _ n); [by intros [= <-]|]. destruct (String.eqb _ n); [by intros [= <-]|done].
  - split; reflexivity.
  - split; reflexivity.
  - discriminate.
  - reflexivity.
  - reflexivity.
  - split; [|constructor]. apply Forall_singleton. exists (plain [] 1 1).
    split_and!; [vm_compute; reflexivity..].
  - intros old [= <-]. done.
Defined.

(** ** The value that is replaced is freed too early *)

(** a destructor that reads a property of object 2 *)
Definition peeking_env : Env := {|
  env_fuel := 40;
  env_call := fun _ _ _ => ret (inr VNil);
  env_dtor := fun _ _ => _ <- di_rawgetx 2 (Some "x") ;; ret tt;
  env_log := fun _ _ => ret tt
|}.

(** A destructor that runs while [di_setx] frees the old value and that looks at the property
    finds the value that is being freed: here the destructor of object 3, which is the value
    of the property, reads the property of object 2, which revives object 3 in the middle of
    its destruction, and an assertion fails. *)
Example di_setx_frees_before_replacing :
  @di_setx peeking_env 2 (Some "x") (VInt 1) false
    (store [(2%positive, plain [("x", VObject 3)] 1 1);
            (3%positive, set_dtor (Some "peek") (plain [] 1 1))]) = Stuck AssertFailed.
Proof. vm_compute. reflexivity. Qed.
