(* ===== verification/Closures.v ===== *)
(** * Closures: creation and calls

    A closure made by [di_create_closure] behaves like the function it wraps: called with
    the right number of arguments it calls the function with the captures followed by the
    arguments, with anything else it refuses. *)

From S2P Require Export Demo Lookup.

(** the types a parameter or a captured value may have *)
Definition valid_arg (t : di_type) : bool :=
  match t with
  | DI_TYPE_NIL | DI_TYPE_ANY | DI_TYPE_EMPTY_OBJECT | DI_LAST_TYPE => false
  | _ => true
  end.

(** one object, held by the caller *)
Definition one_object : world := store [(2%positive, plain [] 1 1)].

Section Closures.
Context {E : Env} {F : Ffi}.

Lemma any_zero_sized_valid ts w : forallb valid_arg ts = true -> any_zero_sized ts w = Ret false w.
Proof.
  induction ts as [|t ts IH]; simpl; [done|]. intros [Ht Hts]%andb_true_iff.
  unfold bind. rewrite sizeof_is_zero_spec by (by destruct t).
  rewrite bool_decide_eq_false_2; [by apply IH|by destruct t].
Qed.

Lemma valid_arg_ffi ts : forallb valid_arg ts = true -> forallb di_type_to_ffi ts = true.
Proof. rewrite !forallb_Forall. intros Hf. eapply Forall_impl; [exact Hf|by intros []]. Qed.

(** arguments that already have the types of the parameters go through unchanged *)
Lemma convert_args_same args : forall ts w, map type_of args = ts -> forallb val_ok args = true ->
  convert_args ts args w = Ret (inr args) w.
Proof.
  induction args as [|v args IH]; intros ts w <- Hok; [done|].
  simpl in Hok. apply andb_true_iff in Hok as [Hv Hok]. cbn [map convert_args].
  destruct (sizeof_run v w Hv) as [z Hz]. rewrite (bind_ret_run _ _ _ _ _ Hz).
  rewrite (bind_ret_run _ _ _ _ _ (di_type_conversion_same v _ true w Hv eq_refl)).
  by rewrite (bind_ret_run _ _ _ _ _ (IH _ w eq_refl Hok)).
Qed.

(** the object of a closure *)
Record closure_object (cb : object) (fn : fnptr) (nargs : Z) (rtype : di_type)
    (atypes : list di_type) (captures : list val) : Prop := {
  co_call : call cb = Some "raw_closure_trampoline";
  co_dtor : dtor cb = Some "free_closure";
  co_extra : extra cb = PClosure "closure_trampoline" fn nargs rtype atypes;
  co_captures : find_member "captures" (members cb) = Some (VTuple captures);
  co_type : find_member "__type" (members cb) = Some (VStringLiteral closure_type)
}.

Lemma closure_call_run cl cb fn nargs rtype atypes captures t w :
  heap w !! cl = Some cb -> closure_object cb fn nargs rtype atypes captures ->
  forallb val_ok captures = true -> (length (captures ++ t) <= MAX_NARGS)%nat ->
  raw_closure_trampoline cl t w =
    if (Z.of_nat (length (captures ++ t)) =? nargs)%Z
    then (xargs <- convert_args atypes (captures ++ t) ;;
          match xargs with
          | inl rc => ret (inl rc)
          | inr xargs => v <- ffi_call fn xargs ;; ret (inr v)
          end) w
    else Ret (inl (- EINVAL)%Z) w.
Proof.
  intros Ho [Hcall _ Hx Hcap Hty] Hok Hlen. unfold raw_closure_trampoline.
  rewrite (bind_ret_run _ _ _ (inr (VTuple captures)) w)
    by (by rewrite (di_rawget_borrowed2_eq _ _ _ cb (VTuple captures))).
  cbv beta iota zeta. rewrite (bind_get_obj _ cb), Hx by done. unfold call_fn. rewrite String.eqb_refl. unfold closure_trampoline.
  rewrite (bind_ret_run _ _ _ true w) by (by rewrite (di_check_type_eq _ closure_type _ cb)).
  cbn [negb]. rewrite (bind_get_obj _ cb), Hx by done.
  destruct (Z.eqb_spec (Z.of_nat (length (captures ++ t))) nargs); [|done].
  cbn [negb]. unfold di_typed_trampoline.
  by rewrite (proj2 (Nat.leb_le _ _) Hlen).
Qed.

(** ** Creation *)
Section create.
Variables (fn : fnptr) (nargs : Z) (rtype : di_type) (arg_types : list di_type) (captures : list val).
Definition all_types : list di_type := map type_of captures ++ arg_types.
Definition closure_struct : payload :=
  PClosure "closure_trampoline" fn (nargs + Z.of_nat (length captures)) rtype all_types.

(** the stages of the new object *)
Definition stage_call : object := set_call (Some "raw_closure_trampoline") (di_init_object closure_struct).
Definition stage_captures : object :=
  set_members (members stage_call ++ [("captures", clone_val (VTuple captures))]) stage_call.
Definition stage_raw : object :=
  set_members (with_type "deai:raw_closure" (members stage_captures)) stage_captures.
Definition stage_dtor : object := set_dtor (Some "free_closure") stage_raw.
Definition stage_done : object := set_members (with_type closure_type (members stage_dtor)) stage_dtor.

Lemma stage_done_closure : closure_object stage_done fn (nargs + Z.of_nat (length captures)) rtype
  all_types (map clone_val captures).
Proof. by constructor. Qed.

Hypothesis Hvalid : forallb valid_arg all_types = true.
Hypothesis Hok : forallb val_ok captures = true.
Hypothesis Hcp : forallb copyable captures = true.
Hypothesis Hlen : (length captures <= MAX_NARGS)%nat.

Definition capture_strong := strong_refs (VTuple captures).
Definition capture_weak := weak_refs (VTuple captures).

Section run.
Variables (ext extw : list oid) (w : world).
Hypothesis HI : Inv ext extw [] w.
Hypothesis Ht : takable capture_strong capture_weak (heap w).
Definition captured : gmap oid object := add_refs capture_strong capture_weak (heap w).

Lemma captures_old : cnt (next_addr w) capture_strong = 0%Z /\ cnt (next_addr w) capture_weak = 0%Z.
Proof using HI Ht.
  destruct Ht as [Hs Hw]. rewrite Forall_forall in Hs, Hw. pose proof (fresh_not_live _ _ _ _ HI) as Hn.
  split; apply cnt_zero; intros Hin; [destruct (Hs _ Hin) as (? & ? & _)|destruct (Hw _ Hin) as (? & ? & _)];
    congruence.
Qed.

Lemma captures_takable cb :
  takable capture_strong capture_weak (heap (new_world w (heap w) cb)).
Proof using HI Ht.
  destruct captures_old as [Hs0 Hw0]. apply cnt_zero in Hs0, Hw0.
  destruct Ht as [Hs Hw]. split; apply Forall_forall; intros x Hx.
  - rewrite Forall_forall in Hs. simpl. rewrite lookup_insert_ne by (by intros <-). by apply Hs.
  - rewrite Forall_forall in Hw. simpl. rewrite lookup_insert_ne by (by intros <-). by apply Hw.
Qed.

Lemma di_create_raw_closure_run :
  di_create_raw_closure closure_struct captures w = Ret (inr (next_addr w)) (new_world w captured stage_raw).
Proof using All.
  destruct captures_old as [Hs0 Hw0]. unfold di_create_raw_closure.
  rewrite (proj2 (Nat.ltb_ge _ _) Hlen).
  rewrite (bind_ret_run _ _ _ false w).
  2: { apply any_zero_sized_valid. unfold all_types in Hvalid. rewrite forallb_app in Hvalid.
       by apply andb_true_iff in Hvalid as [? _]. }
  cbv iota. rewrite (bind_ret_run _ _ _ _ _ (di_new_object_run w closure_struct)).
  rewrite (bind_ret_run _ _ _ _ _ (upd_new w (heap w) _ _)). fold stage_call.
  rewrite (bind_ret_run _ _ _ 0%Z (new_world w captured stage_captures)).
  2: { unfold di_member_clone, di_add_member_clonev, bind. simpl sizeof_is_zero. cbv beta iota.
       apply add_member_clone_new; try done. by eapply takable_refs_ok. }
  by rewrite (bind_ret_run _ _ _ _ _ (set_type_new w captured stage_captures "deai:raw_closure"
       ltac:(done) ltac:(apply NoDup_singleton))).
Qed.

Lemma di_create_closure_run :
  (0 <= nargs)%Z -> (Z.of_nat (length captures) + nargs <= Z.of_nat MAX_NARGS)%Z ->
  di_type_to_ffi rtype = true -> ffi_prep_cif rtype all_types = true ->
  di_create_closure fn rtype captures nargs arg_types w =
    Ret (inr (next_addr w)) (new_world w captured stage_done).
Proof using All.
  intros Hn Hmax Hr Hprep. unfold di_create_closure.
  destruct (Z.ltb_spec nargs 0); [lia|]. destruct (Z.ltb_spec (Z.of_nat MAX_NARGS) (Z.of_nat (length captures) + nargs)); [lia|].
  cbn [orb]. cbv iota. pose proof Hvalid as Hv. unfold all_types in Hv. rewrite forallb_app in Hv.
  apply andb_true_iff in Hv as [Hv1 Hv2].
  rewrite (bind_ret_run _ _ _ _ _ (any_zero_sized_valid _ w Hv1)). cbv iota.
  rewrite (bind_ret_run _ _ _ _ _ (any_zero_sized_valid _ w Hv2)). cbv iota zeta.
  fold all_types. fold closure_struct. rewrite (bind_ret_run _ _ _ _ _ di_create_raw_closure_run). cbv iota.
  rewrite (bind_ret_run _ _ _ true (new_world w captured stage_raw)).
  2: { unfold di_ffi_prep_cif. by rewrite Hr, (valid_arg_ffi _ Hvalid), Hprep. }
  cbn [negb]. cbv iota.
  rewrite (bind_ret_run _ _ _ _ _ (upd_new w captured stage_raw _)). fold stage_dtor.
  rewrite (bind_ret_run _ _ _ _ _ (set_type_new w captured stage_dtor closure_type
       ltac:(intros old [= <-]; done) ltac:(by apply with_type_names, NoDup_singleton))).
  done.
Qed.

Lemma Inv_created : Inv (next_addr w :: ext) extw [] (new_world w captured stage_done).
Proof using All.
  destruct captures_old as [Hs0 Hw0].
  assert (H1 : Inv (next_addr w :: ext) extw [] (new_world w (heap w) stage_call)).
  { apply (Inv_upd_new w _ _ _ (di_init_object closure_struct)); [by apply Inv_new_world|done]. }
  assert (H2 : Inv (next_addr w :: ext) extw [] (new_world w captured stage_captures)).
  { apply (Inv_add_new w _ _ (heap w) stage_call "captures" (VTuple captures)); try done.
    apply captures_takable. }
  assert (H3 : Inv (next_addr w :: ext) extw [] (new_world w captured stage_raw)) by (by apply Inv_type_new).
  assert (H4 : Inv (next_addr w :: ext) extw [] (new_world w captured stage_dtor))
    by (by apply (Inv_upd_new w _ _ _ stage_raw)).
  apply Inv_type_new; [done|done|]. by intros old [= <-].
Qed.
End run.
End create.

Definition too_many (captures : list val) (nargs : Z) : bool :=
  ((nargs <? 0) || (Z.of_nat MAX_NARGS <? Z.of_nat (length captures) + nargs))%Z.

Lemma any_zero_sized_spec ts w : DI_TYPE_ANY ∉ ts -> DI_LAST_TYPE ∉ ts ->
  any_zero_sized ts w = Ret (bool_decide (DI_TYPE_NIL ∈ ts)) w.
Proof.
  induction ts as [|t ts IH]; intros Ha Hl; [done|]. cbn [any_zero_sized].
  apply not_elem_of_cons in Ha as [Ha Ha']. apply not_elem_of_cons in Hl as [Hl Hl'].
  unfold bind. rewrite sizeof_is_zero_spec by congruence.
  destruct (decide (t = DI_TYPE_NIL)) as [->|Hne].
  - by rewrite !bool_decide_eq_true_2 by (done || by left).
  - rewrite (bool_decide_eq_false_2 (t = _)) by done. rewrite IH by done. f_equal.
    apply bool_decide_ext. rewrite elem_of_cons. naive_solver.
Qed.

(** A closure is refused, before anything is allocated, when the captures and parameters
    are more than MAX_NARGS or their number is negative (-E2BIG), or when one of them is
    nil (-EINVAL). *)
Theorem di_create_closure_refuses fn rtype captures nargs arg_types w :
  DI_TYPE_ANY ∉ map type_of captures ++ arg_types -> DI_LAST_TYPE ∉ map type_of captures ++ arg_types ->
  too_many captures nargs = true \/ DI_TYPE_NIL ∈ map type_of captures ++ arg_types ->
  di_create_closure fn rtype captures nargs arg_types w =
    Ret (inl (if too_many captures nargs then - E2BIG else - EINVAL)%Z) w.
Proof.
  intros Ha Hl Hbad. unfold di_create_closure. fold (too_many captures nargs).
  destruct (too_many captures nargs); [done|]. destruct Hbad as [|Hnil]; [done|].
  rewrite not_elem_of_app in Ha, Hl. destruct Ha as [Ha1 Ha2], Hl as [Hl1 Hl2].
  unfold bind. rewrite any_zero_sized_spec by done. case_bool_decide as Hc; [done|].
  rewrite any_zero_sized_spec by done. case_bool_decide as Hc2; [done|].
  by apply elem_of_app in Hnil as [?|?].
Qed.

(** what stays of an object that is only referenced and unreferenced *)
Definition same_closure (cb cb2 : object) : Prop :=
  members cb2 = members cb /\ extra cb2 = extra cb /\ call cb2 = call cb /\ dtor cb2 = dtor cb.

(** A closure that is created belongs to the caller, with copies of the captures inside;
    as long as nobody changes it, calling it with arguments of the types of its parameters
    calls the function with the captures followed by the arguments and returns its result,
    and calling it with any other number of arguments gives -EINVAL and calls
    nothing. C21. *)
Theorem di_create_closure_correct fn rtype captures arg_types ext extw w :
  Inv ext extw [] w -> takable (capture_strong captures) (capture_weak captures) (heap w) ->
  forallb valid_arg (all_types arg_types captures) = true ->
  forallb val_ok captures = true -> forallb copyable captures = true ->
  (length captures + length arg_types <= MAX_NARGS)%nat ->
  di_type_to_ffi rtype = true -> ffi_prep_cif rtype (all_types arg_types captures) = true ->
  exists cl w1 cb,
    di_create_closure fn rtype captures (Z.of_nat (length arg_types)) arg_types w = Ret (inr cl) w1 /\
    Inv (cl :: ext) extw [] w1 /\
    heap w1 !! cl = Some cb /\ call cb = Some "raw_closure_trampoline" /\
    (forall w2 cb2 args, heap w2 !! cl = Some cb2 -> same_closure cb cb2 ->
      (length captures + length args <= MAX_NARGS)%nat ->
      (map type_of args = arg_types -> forallb val_ok args = true ->
       forall v w3, ffi_call fn (map clone_val captures ++ args) w2 = Ret v w3 ->
       raw_closure_trampoline cl args w2 = Ret (inr v) w3) /\
      (length args <> length arg_types -> raw_closure_trampoline cl args w2 = Ret (inl (- EINVAL)%Z) w2)).
Proof.
  intros HI Ht Hv Hok Hcp Hlen Hr Hprep.
  set (nargs := Z.of_nat (length arg_types)).
  exists (next_addr w), (new_world w (captured captures w) (stage_done fn nargs rtype arg_types captures)).
  eexists. split_and!.
  - apply (di_create_closure_run fn nargs rtype arg_types captures Hv Hok Hcp ltac:(lia) ext extw); try done; lia.
  - apply (Inv_created fn nargs rtype arg_types captures Hv Hok Hcp ltac:(lia)); done.
  - apply new_world_lookup.
  - done.
  - intros w2 cb2 args Ho2 (Hm & Hx & Hc & Hd) Hargs.
    pose proof (stage_done_closure fn nargs rtype arg_types captures) as [C1 C2 C3 C4 C5].
    assert (Hco : closure_object cb2 fn (nargs + Z.of_nat (length captures)) rtype
              (all_types arg_types captures) (map clone_val captures))
      by (constructor; congruence).
    assert (Hvc : forallb val_ok (map clone_val captures) = true).
    { clear -Hok. induction captures as [|v l IH]; simpl in *; [done|].
      apply andb_true_iff in Hok as [? ?]. rewrite val_ok_clone, IH; done. }
    assert (Hl : (length (map clone_val captures ++ args) = length captures + length args)%nat)
      by (by rewrite length_app, length_map).
    rewrite (closure_call_run _ cb2 _ _ _ _ _ _ _ Ho2 Hco Hvc) by lia. rewrite Hl. split.
    + intros Hty Hva v w3 Hcall.
      rewrite (proj2 (Z.eqb_eq _ _)) by (rewrite <- (length_map type_of args), Hty; lia).
      rewrite (bind_ret_run _ _ _ (inr (map clone_val captures ++ args)) w2).
      * unfold bind. by rewrite Hcall.
      * apply convert_args_same; [|by rewrite forallb_app, Hvc, Hva].
        unfold all_types. rewrite map_app, Hty. f_equal. rewrite map_map. apply map_ext, type_of_clone.
    + intros Hne. by rewrite (proj2 (Z.eqb_neq _ _)) by lia.
Qed.
End Closures.

Lemma di_create_closure_refuses_witness :
  @di_create_closure quiet_env null_ffi "f" DI_TYPE_NIL [VNil] 1 [DI_TYPE_INT] (store []) =
    Ret (inl (- EINVAL)%Z) (store []) /\
  @di_create_closure quiet_env null_ffi "f" DI_TYPE_NIL [VInt 1] 128 [DI_TYPE_INT] (store []) =
    Ret (inl (- E2BIG)%Z) (store []).
Proof.
  split.
  - apply (@di_create_closure_refuses quiet_env null_ffi "f" DI_TYPE_NIL [VNil] 1 [DI_TYPE_INT]);
      [by apply (bool_decide_unpack _)|by apply (bool_decide_unpack _)|right; by left].
  - apply (@di_create_closure_refuses quiet_env null_ffi "f" DI_TYPE_NIL [VInt 1] 128 [DI_TYPE_INT]);
      [by apply (bool_decide_unpack _)|by apply (bool_decide_unpack _)|by left].
Defined.

Lemma di_create_closure_correct_witness :
  exists cl w1,
    @di_create_closure quiet_env null_ffi "f" DI_TYPE_INT [VInt 7; VObject 2] 1 [DI_TYPE_STRING] one_object =
      Ret (inr cl) w1 /\
    Inv [cl; 2%positive] [dead_weak_ref] [] w1 /\
    @raw_closure_trampoline quiet_env null_ffi cl [VString (Some "a")] w1 = Ret (inr VNil) w1 /\
    @raw_closure_trampoline quiet_env null_ffi cl [] w1 = Ret (inl (- EINVAL)%Z) w1.
Proof.
  destruct (@di_create_closure_correct quiet_env null_ffi "f" DI_TYPE_INT [VInt 7; VObject 2]
              [DI_TYPE_STRING] [2%positive] [dead_weak_ref] one_object) as (cl & w1 & cb & H1 & H2 & H3 & _ & H5).
  - apply Invb_sound. vm_compute. reflexivity.
  - split; [|constructor]. apply Forall_singleton. exists (plain [] 1 1).
    split_and!; [vm_compute; reflexivity..].
  - reflexivity.
  - reflexivity.
  - reflexivity.
  - vm_compute. lia.
  - reflexivity.
  - reflexivity.
  - exists cl, w1. split; [exact H1|]. split; [exact H2|]. split.
    + apply (H5 w1 cb [VString (Some "a")]); [exact H3|done|vm_compute; lia|reflexivity|reflexivity|reflexivity].
    + apply (H5 w1 cb []); [exact H3|done|vm_compute; lia|discriminate].
Defined.
