(* ===== verification/Typed.v ===== *)
(** * Typed access: what is returned, and what is passed, has the type that was asked for *)

From S2P Require Export Roots Demo.

(** a conversion operator that answers with values of type [t] only *)
Definition yields (t : di_type) (m : M (option val * val)) : Prop :=
  forall w x u w', m w = Ret (Some x, u) w' -> type_of x = t.

Section yields.
Variable t : di_type.

Lemma yields_ret x u : (forall y, x = Some y -> type_of y = t) -> yields t (ret (x, u)).
Proof. intros H w y u' w' [= -> _ _]. by apply H. Qed.
Lemma yields_none u : yields t (ret (None, u)).
Proof. by apply yields_ret. Qed.
Lemma yields_some x u : type_of x = t -> yields t (ret (Some x, u)).
Proof. intros H. apply yields_ret. by intros y [= <-]. Qed.
Lemma yields_bind {A} (n : M A) k : (forall a, yields t (k a)) -> yields t (bind n k).
Proof. intros Hk w x u w'. unfold bind. destruct (n w); [apply Hk|done|done]. Qed.
Lemma yields_stuck f : yields t (stuck f).
Proof. by intros w x u w' [=]. Qed.
Lemma yields_fst m u : yields t m -> yields t (r <- m ;; ret (fst r, u)).
Proof.
  intros Hm w x u' w'. unfold bind. destruct (m w) as [[y l] w1|e w1|f] eqn:Hw; [|done..].
  intros [= -> _ _]. by eapply Hm.
Qed.

Context {E : Env} (b : bool).

Lemma yields_unwrap (m : M (option val * val)) T v : yields t m ->
  yields t (if b then r <- m ;; ret (fst r, v)
            else sizeof_ T ;; r <- m ;; converter_dtor b (snd r) ;; ret (fst r, VNil)).
Proof.
  intros Hm. destruct b; [by apply yields_fst|]. apply yields_bind. intros _ w x u w'. unfold bind.
  destruct (m w) as [[y l] w1|e w1|f] eqn:Hw; [|done..]. simpl.
  destruct (di_free_value l w1); [|done..]. intros [= -> _ _]. by eapply Hm.
Qed.

Lemma yields_convert (direct : val -> option (M (option val * val))) :
  (forall v m, direct v = Some m -> yields t m) -> forall v, yields t (convert b direct v).
Proof.
  intros Hd v. induction v as [v Hl|et nn l IH|l IH|v IH] using val_ind'.
  - destruct (direct v) as [m|] eqn:Hv.
    + replace (convert b direct v) with m by (destruct v; simpl; by rewrite Hv). by eapply Hd.
    + replace (convert b direct v) with (ret (@None val, v)); [apply yields_none|].
      destruct v; try done; simpl; by rewrite Hv.
  - simpl. destruct (direct (VArray et nn l)) as [m|] eqn:Hv; [by eapply Hd|].
    destruct l as [|x [|y l]]; [apply yields_none| |apply yields_none].
    apply Forall_cons in IH as [IH _]. pose proof (yields_unwrap (convert b direct x) et (VArray et nn [x]) IH).
    destruct b; [apply yields_stuck|done].
  - simpl. destruct (direct (VTuple l)) as [m|] eqn:Hv; [by eapply Hd|].
    destruct l as [|x [|y l]]; [apply yields_none| |apply yields_none].
    apply Forall_cons in IH as [IH _]. pose proof (yields_unwrap (convert b direct x) (type_of x) (VTuple [x]) IH).
    destruct b; [apply yields_stuck|done].
  - simpl. destruct (direct (VVariant v)) as [m|] eqn:Hv; [by eapply Hd|].
    by apply yields_unwrap.
Qed.

Lemma yields_number num v : (forall x y, number_value t x = Some y -> type_of y = t) ->
  yields t (convert_number b num t v).
Proof.
  intros Hn. apply yields_bind. intros [r u]. apply yields_ret. intros y. destruct r as [x|]; [|done]. apply Hn.
Qed.

Lemma impl_yields (m : M (option val * val)) w x w' : yields t m ->
  (r <- m ;; converter_dtor b (snd r) ;;
   ret (match fst r with Some x => inr x | None => inl (- EINVAL)%Z end)) w = Ret (inr x) w' -> type_of x = t.
Proof.
  intros Hm. unfold bind. destruct (m w) as [[y l] w1|e w1|f] eqn:Hw; [|done..]. simpl.
  destruct (converter_dtor b l w1); [|done..]. destruct y as [y|]; [|done]. intros [= -> _]. by eapply Hm.
Qed.
End yields.

Ltac yields :=
  repeat first
    [ apply yields_none | apply yields_stuck | apply yields_some; reflexivity
    | apply yields_bind; intros
    | case_match; simplify_eq ].

Section Typed.
Context {E : Env} {F : Ffi}.

Lemma di_type_conversion_typed v t b w x w' : di_type_conversion v t b w = Ret (inr x) w' -> type_of x = t.
Proof.
  unfold di_type_conversion. case_decide as Ht.
  { unfold bind. destruct (sizeof_ (type_of v) w); [|done..]. by intros [= <- _]. }
  assert (Himpl : forall b w, di_type_conversion_impl b v t w = Ret (inr x) w' -> type_of x = t).
  { clear b w. intros b w.
    assert (Hd : forall d, (forall v m, d v = Some m -> yields t m) ->
      yields t (convert b d v)) by (intros; by apply yields_convert).
    destruct t; apply impl_yields;
      first [ by apply yields_number; intros [] ? ?; simplify_eq/= | apply yields_none | apply Hd; clear Hd Ht v ].
    all: intros v m Hm; destruct v; simplify_eq/=; unfold tuple_to_array, array_to_tuple in *; yields.
    apply yields_ret. intros y Hy. match type of Hy with _ <$> ?a = _ => destruct a end; by simplify_eq/=. }
  destruct b; [apply Himpl|]. unfold bind. destruct (sizeof_ (type_of v) w); [|done..]. apply Himpl.
Qed.

Lemma convert_args_typed args : forall ts w xs w', convert_args ts args w = Ret (inr xs) w' ->
  map type_of xs = take (length args) ts.
Proof.
  induction args as [|v args IH]; intros [|t ts] w xs w'; simpl; [by intros [= <- _]..|done|].
  unfold bind. destruct (sizeof_ t w) as [? w0|? w0|]; [|done..].
  destruct (di_type_conversion v t true w0) as [[rc|x] w1|e w1|f] eqn:Hx; [done| |done..].
  destruct (convert_args ts args w1) as [[rc|ys] w2|e w2|f] eqn:Hys; [done| |done..].
  intros [= <- _]. simpl. f_equal; [by eapply di_type_conversion_typed|by eapply IH].
Qed.

(** a libffi that refuses arguments of other types than [ts] *)
Definition guarded (ts : list di_type) : Ffi := {|
  ffi_prep_cif := ffi_prep_cif;
  ffi_call := fun fn xs => if decide (map type_of xs = ts) then ffi_call fn xs else stuck AssertFailed;
  uninitialised_result := uninitialised_result;
  strerror := strerror;
  call_raw_fn := call_raw_fn;
  load_field := load_field
|}.

Lemma trampoline_guarded fn ts args w : length args = length ts ->
  @di_typed_trampoline E (guarded ts) fn ts args w = di_typed_trampoline fn ts args w.
Proof.
  intros Hl. unfold di_typed_trampoline, bind. destruct (assert _ w) as [? w0|? w0|]; [|done..].
  destruct (convert_args ts args w0) as [[rc|xs] w1|e w1|f] eqn:Hxs; [done| |done..].
  simpl. apply convert_args_typed in Hxs. rewrite Hl, firstn_all in Hxs. by rewrite decide_True.
Qed.

Lemma di_getxt_typed o prop t c w x e w' : di_getxt o prop t c w = Ret (inr x, e) w' -> type_of x = t.
Proof.
  unfold di_getxt, bind. destruct (di_getx o prop c w) as [[[rc|v] e1] w1|e1 w1|f]; [done| |done..].
  destruct (di_type_conversion v t false w1) as [[rc|y] w2|e2 w2|f] eqn:Hy; [done| |done..].
  intros [= -> _ _]. by eapply di_type_conversion_typed.
Qed.

Lemma di_callr_typed o name t args w x w' : di_callr o name t args w = Ret (inr x) w' -> type_of x = t.
Proof.
  unfold di_callr, bind. destruct (di_callx o (di_string_borrow name) args w) as [[[rc|v] e1] w1|e1 w1|f]; [done| |done..].
  case_decide as Ht; [by intros [= <- _]|]. by destruct (di_free_value _ w1).
Qed.
End Typed.

(** Values that cross a typed boundary have the type of the boundary: what a typed read
    of a property or a typed call returns has the type the caller asked for, and a C function
    called through a closure gets arguments of exactly its parameter types, converted where
    they had others: a libffi that refused any other argument would make no difference. C39. *)
Theorem typed_boundaries {E : Env} {F : Ffi} fn ts args w : length args = length ts ->
  @di_typed_trampoline E (guarded ts) fn ts args w = di_typed_trampoline fn ts args w /\
  (forall o prop t c x e w', di_getxt o prop t c w = Ret (inr x, e) w' -> type_of x = t) /\
  (forall o name t x w', di_callr o name t args w = Ret (inr x) w' -> type_of x = t).
Proof.
  intros Hl. split_and!; [by apply trampoline_guarded|intros; by eapply di_getxt_typed|].
  intros; by eapply di_callr_typed.
Qed.

(** an [nint] and a string literal are passed as an [int] and a string *)
Definition echo_ffi : Ffi := {|
  ffi_prep_cif := fun _ _ => true;
  ffi_call := fun _ xs => ret (VTuple xs);
  uninitialised_result := VNil;
  strerror := fun rc => "error";
  call_raw_fn := fun _ _ _ => ret (inr VNil);
  load_field := fun _ _ _ => ret VNil
|}.
Lemma typed_boundaries_witness :
  @di_typed_trampoline quiet_env echo_ffi "f" [DI_TYPE_INT; DI_TYPE_STRING] [VNint (-7); VStringLiteral "x"] (store [])
    = Ret (inr (VTuple [VInt (-7); VString (Some "x")])) (store []) /\
  (forall o name t x w', @di_callr quiet_env echo_ffi o name t [VNint (-7); VStringLiteral "x"] (store []) = Ret (inr x) w' ->
    type_of x = t).
Proof.
  split; [vm_compute; reflexivity|].
  apply (@typed_boundaries quiet_env echo_ffi "f" [DI_TYPE_INT; DI_TYPE_STRING] [VNint (-7); VStringLiteral "x"] (store [])).
  reflexivity.
Defined.
