(* ===== verification/Signals.v ===== *)
(** * Signals: a list of handlers

    [sig_repr sob hs]: the signal object [sob] stands for the list of handlers [hs]. Adding
    appends, removing deletes, dispatching goes through the list; [nhandlers] is its length,
    which [di_signal_dispatch] asserts. *)

From S2P Require Export Demo Lookup.

(** ** Printed addresses are different *)

Definition unhex_digit (c : Ascii.ascii) : N :=
  let n := Ascii.N_of_ascii c in if (n <? 58)%N then n - 48 else n - 87.
Fixpoint unhex (acc : N) (s : string) : N :=
  match s with
  | EmptyString => acc
  | String c s => unhex (acc * 16 + unhex_digit c) s
  end.

Lemma unhex_hex_digit d : (d < 16)%N -> unhex_digit (hex_digit d) = d.
Proof.
  intros Hd. assert (Hd' : (N.to_nat d < 16)%nat) by lia.
  rewrite <- (N2Nat.id d). revert Hd'. generalize (N.to_nat d) as n. clear.
  intros n Hn. do 16 (destruct n as [|n]; [done|]). lia.
Qed.

Lemma unhex_go fuel : forall n acc, (n < 16 ^ N.of_nat fuel)%N -> (0 < fuel)%nat ->
  unhex 0 (hex_pos_go fuel n acc) = unhex n acc.
Proof.
  induction fuel as [|fuel IH]; intros n acc Hn Hf; [lia|]. cbn [hex_pos_go].
  assert (Hdm : (n = n / 16 * 16 + n mod 16)%N) by (rewrite N.mul_comm; apply N.div_mod; lia).
  assert (Hm : (n mod 16 < 16)%N) by (apply N.mod_lt; lia).
  assert (Hstep : forall s, unhex (n / 16) (String (hex_digit (n mod 16)) s) = unhex n s).
  { intros s. cbn [unhex]. rewrite unhex_hex_digit by done. by rewrite <- Hdm. }
  destruct (N.eqb_spec (n / 16) 0) as [H0|H0]; [by rewrite <- Hstep, H0|].
  rewrite IH; [apply Hstep| |].
  - rewrite Nat2N.inj_succ, N.pow_succ_r' in Hn. apply N.Div0.div_lt_upper_bound. lia.
  - destruct fuel; [|lia]. simpl in Hn. exfalso. apply H0. apply N.div_small. lia.
Qed.

Lemma unhex_hex p : unhex 0 (hex p) = Npos p.
Proof.
  unfold hex. apply unhex_go; [|destruct p; simpl; lia].
  assert (Hp : (Npos p < 2 ^ N.of_nat (Pos.size_nat p))%N).
  { induction p as [p IH|p IH|]; [| |done]; cbn [Pos.size_nat];
      rewrite Nat2N.inj_succ, N.pow_succ_r'; lia. }
  eapply N.lt_le_trans; [exact Hp|]. apply N.pow_le_mono_l. lia.
Qed.

Lemma append_inj_l (a : string) : forall b c, a +:+ b = a +:+ c -> b = c.
Proof. induction a as [|x a IH]; intros b c H; [done|]. simpl in H. injection H as H. auto. Qed.

Lemma fmt_p_inj p q : fmt_p p = fmt_p q -> p = q.
Proof.
  unfold fmt_p. intros Hh%append_inj_l.
  apply (f_equal (unhex 0)) in Hh. rewrite !unhex_hex in Hh. congruence.
Qed.

Lemma handler_member_name_inj h h' : handler_member_name h = handler_member_name h' -> h = h'.
Proof. unfold handler_member_name. intros H%append_inj_l. by apply fmt_p_inj. Qed.

(** ** The handlers of a signal object *)

Definition is_handler (m : member) : bool := di_string_starts_with (Some (fst m)) HANDLER_PREFIX.
Definition handler_entry (h : oid) : string * val := (handler_member_name h, VObject h).

Record sig_repr (sob : object) (hs : list oid) : Prop := {
  sr_count : extra sob = PSignal (Z.of_nat (length hs));
  sr_handlers : List.filter is_handler (members sob) = map handler_entry hs
}.

Lemma is_handler_entry h v : is_handler (handler_member_name h, v) = true.
Proof. reflexivity. Qed.

Lemma find_member_In n v l : find_member n l = Some v -> In (n, v) l.
Proof.
  induction l as [|[m u] l IH]; simpl; [done|].
  destruct (String.eqb_spec m n) as [->|]; [intros [= ->]; by left|right; auto].
Qed.

Lemma find_handler sob hs h : sig_repr sob hs -> NoDup (map fst (members sob)) ->
  find_member (handler_member_name h) (members sob) = if decide (h ∈ hs) then Some (VObject h) else None.
Proof.
  intros [_ Hf] Hnd.
  assert (Hin : forall v, In (handler_member_name h, v) (members sob) -> h ∈ hs /\ v = VObject h).
  { intros v Hv. assert (Hm : In (handler_member_name h, v) (map handler_entry hs))
      by (rewrite <- Hf; by apply filter_In).
    apply in_map_iff in Hm as (h' & Heq & Hh').
    assert (h' = h) by (apply handler_member_name_inj; exact (f_equal fst Heq)). subst h'.
    apply (f_equal snd) in Heq. simpl in Heq. subst v.
    split; [by apply list_elem_of_In|done]. }
  destruct (decide (h ∈ hs)) as [Hh|Hh].
  - destruct (find_member (handler_member_name h) (members sob)) as [v|] eqn:Hfm.
    + apply find_member_In in Hfm. by destruct (Hin v Hfm) as [_ ->].
    + apply find_member_None in Hfm. destruct Hfm.
      assert (Hm : In (handler_entry h) (List.filter is_handler (members sob)))
        by (rewrite Hf; apply in_map, list_elem_of_In, Hh).
      apply filter_In in Hm as [Hm _]. apply list_elem_of_In, in_map_iff. by exists (handler_entry h).
  - destruct (find_member (handler_member_name h) (members sob)) as [v|] eqn:Hfm; [|done].
    apply find_member_In in Hfm. by destruct (Hin v Hfm).
Qed.

Lemma get_nhandlers_eq sig sob n w : heap w !! sig = Some sob -> extra sob = PSignal n ->
  get_nhandlers sig w = Ret n w.
Proof. intros Ho He. unfold get_nhandlers. by rewrite (bind_get_obj _ sob), He. Qed.

Lemma set_nhandlers_eq sig sob n n' w : heap w !! sig = Some sob -> extra sob = PSignal n ->
  set_nhandlers sig n' w = Ret tt (set_heap (<[sig := set_extra (PSignal n') sob]> (heap w)) w).
Proof.
  intros Ho He. unfold set_nhandlers. rewrite (bind_ret_run _ _ _ _ _ (get_nhandlers_eq _ _ _ _ Ho He)).
  unfold upd_obj. by rewrite (bind_get_obj _ sob).
Qed.

Lemma sig_repr_add sob hs h : sig_repr sob hs ->
  sig_repr (set_extra (PSignal (Z.of_nat (length hs) + 1))
    (set_members (members sob ++ [handler_entry h]) sob)) (hs ++ [h]).
Proof.
  intros [He Hf]. split; simpl.
  - f_equal. rewrite length_app. simpl. lia.
  - by rewrite List.filter_app, Hf, map_app.
Qed.

Lemma filter_del_member n l : is_handler (n, VNil) = true ->
  List.filter is_handler (del_member n l) = del_member n (List.filter is_handler l).
Proof.
  intros Hn. induction l as [|[m v] l IH]; [done|]. cbn [del_member List.filter].
  destruct (String.eqb_spec m n) as [->|Hne].
  - change (is_handler (n, v)) with (is_handler (n, VNil)). rewrite Hn. cbn [del_member].
    by rewrite String.eqb_refl.
  - cbn [List.filter]. destruct (is_handler (m, v)); cbn [del_member]; [|done].
    destruct (String.eqb_spec m n); [done|]. by rewrite IH.
Qed.

Lemma del_handler h hs : NoDup hs ->
  del_member (handler_member_name h) (map handler_entry hs) = map handler_entry (list_remove_oid h hs).
Proof.
  unfold list_remove_oid. induction 1 as [|x hs Hx Hnd IH]; [done|]. cbn [map del_member handler_entry].
  rewrite filter_cons. destruct (String.eqb_spec (handler_member_name x) (handler_member_name h)) as [Heq|Hne].
  - apply handler_member_name_inj in Heq. subst x. rewrite decide_False by tauto. f_equal.
    symmetry. clear -Hx. induction hs as [|y hs IH]; [done|]. rewrite filter_cons.
    rewrite decide_True by (intros ->; apply Hx; left). f_equal. apply IH. intros H. apply Hx. by right.
  - rewrite decide_True by congruence. cbn [map]. by rewrite IH.
Qed.

Lemma sig_repr_nodup sob hs : sig_repr sob hs -> NoDup (map fst (members sob)) -> NoDup hs.
Proof.
  intros [_ Hf] Hnd.
  assert (Hnd' : NoDup (map fst (List.filter is_handler (members sob)))).
  { clear Hf. induction (members sob) as [|m l IH]; [constructor|]. cbn [List.filter].
    cbn [map] in Hnd. apply NoDup_cons in Hnd as [Hm Hnd]. destruct (is_handler m); [|by apply IH].
    cbn [map]. apply NoDup_cons. split; [|by apply IH]. intros Hin. apply Hm.
    apply list_elem_of_In, in_map_iff in Hin as (m' & <- & Hin). apply filter_In in Hin as [Hin _].
    apply list_elem_of_In. by apply in_map. }
  rewrite Hf, map_map in Hnd'. by apply NoDup_fmap_1 in Hnd'.
Qed.

Lemma length_list_remove h hs : NoDup hs -> h ∈ hs ->
  Z.of_nat (length (list_remove_oid h hs)) = (Z.of_nat (length hs) - 1)%Z.
Proof.
  intros Hnd Hin. rewrite <- (length_map handler_entry), <- del_handler by done.
  revert Hin. clear Hnd. induction hs as [|x hs IH]; [by intros ?%not_elem_of_nil|]. intros Hin.
  cbn [map del_member handler_entry].
  destruct (String.eqb_spec (handler_member_name x) (handler_member_name h)) as [Heq|Hne].
  - rewrite length_map. simpl. lia.
  - apply elem_of_cons in Hin as [->|Hin]; [done|]. cbn [length]. specialize (IH Hin). lia.
Qed.

Lemma sig_repr_remove sob hs h : sig_repr sob hs -> NoDup (map fst (members sob)) -> h ∈ hs ->
  sig_repr (set_extra (PSignal (Z.of_nat (length hs) - 1))
    (set_members (del_member (handler_member_name h) (members sob)) sob)) (list_remove_oid h hs).
Proof.
  intros Hr Hnd Hin. pose proof (sig_repr_nodup _ _ Hr Hnd) as Hnd'. destruct Hr as [He Hf]. split; simpl.
  - by rewrite length_list_remove.
  - rewrite filter_del_member, Hf by apply is_handler_entry. by apply del_handler.
Qed.

(** the snapshot of the handlers *)
Lemma collect_handlers_eq l : forall hs n w,
  List.filter is_handler l = map handler_entry hs -> (Z.of_nat (length hs) <= n)%Z ->
  refs_ok hs [] (heap w) ->
  collect_handlers n l w = Ret hs (set_heap (add_refs hs [] (heap w)) w).
Proof.
  induction l as [|[m v] l IH]; intros hs n w Hf Hn Hr; cbn [collect_handlers List.filter] in *.
  { destruct hs; [|done]. by rewrite add_refs_nil, set_heap_same. }
  change (is_handler (m, v)) with (di_string_starts_with (Some m) HANDLER_PREFIX) in Hf.
  destruct (di_string_starts_with (Some m) HANDLER_PREFIX); cbn [negb]; [|by apply IH].
  destruct hs as [|h hs]; [done|]. apply (f_equal (fun x => (hd (m, v) x, tl x))) in Hf.
  cbn [map hd tl] in Hf. assert (Hv : v = VObject h) by exact (f_equal (fun x => snd (fst x)) Hf).
  apply (f_equal snd) in Hf. cbn [snd] in Hf. subst v. cbn [length] in Hn.
  rewrite (proj2 (Z.ltb_lt 0 n)) by lia. unfold check. unfold bind at 1. simpl ret.
  unfold ret at 1. cbv beta iota.
  change (h :: hs) with ([h] ++ hs) in *. change (@nil oid) with (@nil oid ++ []) in Hr.
  apply refs_ok_app in Hr as [Hr1 Hr2].
  rewrite (bind_ret_run _ _ _ _ _ (di_ref_object_eq h w Hr1)).
  erewrite bind_ret_run; [|apply (IH hs); [done|lia|done]].
  unfold ret. cbn [heap set_heap]. rewrite <- (add_refs_app [h] hs [] []). by rewrite set_heap_twice.
Qed.

Section statements.
Context {E : Env} {F : Ffi}.

(** Adding a handler that is not there yet makes it the last of the signal's handlers: the
    signal takes a reference to it and counts one more, and no other object changes its
    members. *)
Theorem di_signal_add_handler_appends sig sob hs h ext extw w :
  Inv ext extw [] w -> heap w !! sig = Some sob -> (0 < ref_count sob)%Z ->
  sig_repr sob hs -> h ∉ hs -> (Z.of_nat (length hs) < 2 ^ 31 - 1)%Z -> takable [h] [] (heap w) ->
  exists w' sob', di_signal_add_handler sig h w = Ret tt w' /\ Inv ext extw [] w' /\
    heap w' !! sig = Some sob' /\ sig_repr sob' (hs ++ [h]) /\
    (forall p, p <> sig -> members <$> heap w' !! p = members <$> heap w !! p).
Proof.
  intros HI Ho Hp Hr Hh Hlen Ht.
  assert (Hnd : NoDup (map fst (members sob))) by apply (inv_obj _ _ _ _ HI _ _ Ho).
  assert (Hf : find_member (handler_member_name h) (members sob) = None)
    by (by rewrite (find_handler _ hs), decide_False).
  destruct (assign_copy ext extw w sig sob (handler_member_name h) (VObject h) HI Ho Hp
    eq_refl eq_refl Ht) as (ob1 & Ho1 & Hm1 & HI1); [intros ? ?; congruence|].
  pose proof (di_add_member_clone_eq sig (handler_member_name h) (VObject h) sob w Ho Hf ltac:(done)
    eq_refl eq_refl (takable_refs_ok _ _ _ _ _ _ HI Ht) ob1 Ho1) as Hrun.
  set (w1 := set_heap (add_refs _ _ _) w) in *. unfold assigned in HI1. rewrite Hf in HI1.
  set (ob2 := set_members _ ob1) in *. set (w2 := set_heap _ w1) in *.
  assert (Ho2 : heap w2 !! sig = Some ob2) by apply lookup_insert_eq.
  assert (He2 : extra ob2 = PSignal (Z.of_nat (length hs))).
  { unfold w1 in Ho1. cbn [heap set_heap] in Ho1. rewrite lookup_add_refs, Ho in Ho1.
    injection Ho1 as <-. apply (sr_count _ _ Hr). }
  eexists _, _. split_and!.
  - unfold di_signal_add_handler. rewrite (bind_ret_run _ _ _ _ _ Hrun).
    rewrite (bind_ret_run _ _ _ _ _ (get_nhandlers_eq _ _ _ _ Ho2 He2)).
    apply (set_nhandlers_eq _ _ _ _ _ Ho2 He2).
  - eapply Inv_same_counts; [exact HI1|exact Ho2|]. by split_and!.
  - apply lookup_insert_eq.
  - rewrite s32_small by lia.
    pose proof (sig_repr_add sob hs h Hr) as [Hc Hl]. split; [exact Hc|exact Hl].
  - intros p Hne. unfold w2, w1. cbn [heap set_heap]. rewrite !lookup_insert_ne by done.
    rewrite lookup_add_refs. by destruct (heap w !! p).
Qed.



(** Emitting: too many arguments are refused; an object without the signal has nothing to
    do; otherwise the signal is dispatched with a reference held, which is given up at
    the end on every way out. *)
Theorem di_emitn_cases o ob name args w :
  heap w !! o = Some ob -> members_ok ob ->
  (MAX_NARGS < length args -> di_emitn o name args w = Ret (- E2BIG)%Z w)%nat /\
  (length args <= MAX_NARGS ->
   find_member (signal_member_of name) (members ob) = None ->
   handler_of ob (handler_name "__get" (Some (signal_member_of name))) = None ->
   handler_of ob "__get" = None ->
   di_emitn o name args w = Ret 0%Z w)%nat /\
  (forall sig, (length args <= MAX_NARGS)%nat ->
   find_member (signal_member_of name) (members ob) = Some (VObject sig) ->
   refs_ok [sig] [] (heap w) ->
   di_emitn o name args w =
     (scoped (di_signal_dispatch sig args) (di_unref_object sig) ;; ret 0%Z)
       (set_heap (add_refs [sig] [] (heap w)) w)).
Proof.
  intros Ho Hok. unfold di_emitn. split_and!.
  - intros Hlen. by rewrite (proj2 (Nat.ltb_lt _ _) Hlen).
  - intros Hlen Hf Hh Hg. rewrite (proj2 (Nat.ltb_ge _ _) Hlen).
    erewrite bind_ret_run; [|by apply (di_getxt_none _ _ _ ob)]. done.
  - intros sig Hlen Hf Hr. rewrite (proj2 (Nat.ltb_ge _ _) Hlen).
    erewrite bind_ret_run; [|by apply (di_getxt_eq _ _ _ ob (VObject sig))]. done.
Qed.

(** Adding a handler a second time makes the next emission fail: the member exists
    already, which [di_signal_add_handler] does not look at, so the count no longer is
    the number of handlers, and the assertion of [di_signal_dispatch] fails. *)
Theorem di_signal_add_handler_twice N sig sob hs h args ext extw w :
  env_ok True N -> (N <= Z.of_nat env_fuel)%Z ->
  Inv ext extw [] w -> (alive w < N)%Z -> sig ∈ ext -> heap w !! sig = Some sob ->
  sig_repr sob hs -> (Z.of_nat (length hs) < 2 ^ 31 - 1)%Z -> h ∈ hs ->
  takable [h] [] (heap w) ->
  exists w', di_signal_add_handler sig h w = Ret tt w' /\ Inv ext extw [] w' /\
    (takable hs [] (heap w') -> di_signal_dispatch sig args w' = Stuck AssertFailed).
Proof.
  intros Henv HN HI Hal Hin Ho Hr Hlen Hh Ht.
  assert (Hnd : NoDup (map fst (members sob))) by apply (inv_obj _ _ _ _ HI _ _ Ho).
  pose proof (find_handler _ _ h Hr Hnd) as Hf. rewrite decide_True in Hf by done.
  destruct (wp_run _ _ _ (di_copy_value_spec True None ext extw [] w (VObject h) HI eq_refl eq_refl Ht))
    as (v & w1 & Hcopy & -> & Hw1 & HI1 & HF1).
  pose proof (fr_quiet _ _ _ _ HF1 I) as HQ1.
  assert (Ho1 : exists ob1, heap w1 !! sig = Some ob1 /\ members ob1 = members sob).
  { rewrite Hw1. cbn [heap set_heap]. rewrite lookup_add_refs, Ho. by eexists. }
  destruct Ho1 as (ob1 & Ho1 & Hm1).
  destruct (wp_run _ _ _ (di_add_member_exists True N Henv HN _ _ _ _ sig (handler_member_name h)
    (VObject h) _ _ HI1 (frame_bound _ _ _ _ _ HF1 Hal) Ho1 ltac:(by rewrite Hm1) eq_refl))
    as (r & w2 & Hadd & -> & HI2 & HF2).
  pose proof (quiet_frame_trans _ _ _ _ HQ1 (fr_quiet _ _ _ _ HF2 I)) as HQ.
  destruct (Inv_held _ _ _ _ _ HI2 Hin) as (sob2 & Ho2 & Hp2 & _).
  destruct (qf_obj _ _ _ HQ _ _ Ho2) as (ob & Ho' & _ & _ & _ & Hk). simplify_eq.
  destruct Hk as (Hm2 & _ & _ & He2 & _); [lia|done|]. rewrite (sr_count _ _ Hr) in He2.
  eexists. split_and!.
  - unfold di_signal_add_handler, di_add_member_clone, di_add_member_clone2.
    erewrite bind_ret_run.
    2:{ erewrite bind_ret_run; [|erewrite bind_ret_run; [|by apply sizeof_is_zero_spec]].
        2:{ cbv beta. rewrite bool_decide_eq_false_2 by done. rewrite (bind_ret_run _ _ _ _ _ Hcopy).
            exact Hadd. }
        reflexivity. }
    rewrite (bind_ret_run _ _ _ _ _ (get_nhandlers_eq _ _ _ _ Ho2 He2)).
    apply (set_nhandlers_eq _ _ _ _ _ Ho2 He2).
  - eapply Inv_same_counts; [exact HI2|exact Ho2|]. by split_and!.
  - rewrite s32_small by lia. intros Ht2. unfold di_signal_dispatch.
    match goal with |- bind _ _ ?w3 = _ => set (w3' := w3) in * end.
    assert (Ho3 : heap w3' !! sig = Some (set_extra (PSignal (Z.of_nat (length hs) + 1)) sob2))
      by apply lookup_insert_eq.
    rewrite (bind_ret_run _ _ _ _ _ (get_nhandlers_eq _ _ _ _ Ho3 eq_refl)).
    rewrite (bind_get_obj _ _ _ _ Ho3).
    assert (HI3 : Inv ext extw [] w3').
    { eapply Inv_same_counts; [exact HI2|exact Ho2|]. by split_and!. }
    erewrite bind_ret_run; [|apply (collect_handlers_eq _ hs);
      [cbn [members set_extra]; rewrite Hm2; apply (sr_handlers _ _ Hr)|lia|by eapply takable_refs_ok]].
    unfold assert, check, bind. rewrite (proj2 (Z.eqb_neq _ _)) by lia. done.
Qed.
End statements.

(** ** Examples: an emitter 2 with the signal 3, whose handlers are 4 and 5 *)

Definition handler_object : object := set_call (Some "handler") (plain [] 2 1).
Definition signal_store : world :=
  store [(2%positive, plain [("__signal_s", VObject 3)] 1 2);
         (3%positive, set_extra (PSignal 2) (plain
            [("weak_source", VWeak 2); ("handler_object_0x4", VObject 4);
             ("signal_name", VString (Some "__signal_s")); ("handler_object_0x5", VObject 5)] 2 1));
         (4%positive, handler_object); (5%positive, handler_object);
         (6%positive, set_call (Some "handler") (plain [] 1 1))].
Definition signal_object : object := default (plain [] 0 0) (heap signal_store !! 3%positive).
Notation signal_ext := [2; 3; 4; 5; 6]%positive.

Lemma signal_store_repr : sig_repr signal_object [4; 5]%positive.
Proof. split; vm_compute; reflexivity. Qed.

Lemma di_signal_add_handler_appends_witness :
  exists w' sob', @di_signal_add_handler quiet_env 3 6 signal_store = Ret tt w' /\
    Inv signal_ext [dead_weak_ref] [] w' /\ heap w' !! 3%positive = Some sob' /\
    sig_repr sob' [4; 5; 6]%positive /\
    (forall p, p <> 3%positive -> members <$> heap w' !! p = members <$> heap signal_store !! p).
Proof.
  apply (di_signal_add_handler_appends (E := quiet_env) 3 signal_object [4; 5]%positive 6).
  - apply Invb_sound. vm_compute. reflexivity.
  - vm_compute. reflexivity.
  - vm_compute. reflexivity.
  - apply signal_store_repr.
  - apply (bool_decide_unpack _). vm_compute. exact I.
  - vm_compute. reflexivity.
  - split; [|constructor]. apply Forall_singleton. exists (set_call (Some "handler") (plain [] 1 1)).
    split_and!; [vm_compute; reflexivity..].
Defined.



Lemma di_emitn_cases_witness :
  @di_emitn quiet_env null_ffi 2 (Some "s") (replicate 129 VNil) signal_store = Ret (- E2BIG)%Z signal_store /\
  @di_emitn quiet_env null_ffi 2 (Some "t") [] signal_store = Ret 0%Z signal_store.
Proof.
  assert (Hok : members_ok (plain [("__signal_s", VObject 3)] 1 2)).
  { intros n v. cbn [members plain find_member]. destruct (String.eqb _ n); [by intros [= <-]|done]. }
  split.
  - apply (proj1 (di_emitn_cases (E := quiet_env) (F := null_ffi) 2 (plain [("__signal_s", VObject 3)] 1 2)
      (Some "s") (replicate 129 VNil) signal_store ltac:(vm_compute; reflexivity) Hok)).
    vm_compute. lia.
  - apply (proj1 (proj2 (di_emitn_cases (E := quiet_env) (F := null_ffi) 2 (plain [("__signal_s", VObject 3)] 1 2)
      (Some "t") [] signal_store ltac:(vm_compute; reflexivity) Hok))).
    + vm_compute. lia.
    + vm_compute. reflexivity.
    + vm_compute. reflexivity.
    + vm_compute. reflexivity.
Defined.

Lemma di_signal_add_handler_twice_witness :
  exists w', @di_signal_add_handler quiet_env 3 4 signal_store = Ret tt w' /\
    Inv signal_ext [dead_weak_ref] [] w' /\
    (takable [4; 5]%positive [] (heap w') ->
     @di_signal_dispatch quiet_env null_ffi 3 [] w' = Stuck AssertFailed).
Proof.
  apply (di_signal_add_handler_twice (E := quiet_env) (F := null_ffi) 20 3 signal_object [4; 5]%positive 4).
  - apply quiet_env_ok.
  - simpl. lia.
  - apply Invb_sound. vm_compute. reflexivity.
  - vm_compute. reflexivity.
  - right. left.
  - vm_compute. reflexivity.
  - apply signal_store_repr.
  - vm_compute. reflexivity.
  - left.
  - split; [|constructor]. apply Forall_singleton. exists handler_object.
    split_and!; [vm_compute; reflexivity..].
Defined.
