(* ===== verification/ObjectAt.v ===== *)
(** * Objects with their members and counts

    [obj_at o l rc wc m w]: in the store [w] the object [o] has the members [l], the counts
    [rc] and [wc] and the mark [m]. The operations on members as they change this, for
    proofs that follow a few objects through many of them. *)

From S2P Require Export Signals Promise.

(** ** Members *)

Lemma find_put_other n m v l : n <> m -> find_member n (put_member m v l) = find_member n l.
Proof.
  intros Hne. induction l as [|[k u] l IH]; simpl; [done|].
  destruct (String.eqb_spec k m) as [->|]; simpl.
  - by rewrite (proj2 (String.eqb_neq m n)) by congruence.
  - destruct (String.eqb k n); [done|]. apply IH.
Qed.

Lemma find_snoc_other n m v l : n <> m -> find_member n (l ++ [(m, v)]) = find_member n l.
Proof.
  intros Hne. rewrite find_member_app. destruct (find_member n l); [done|]. simpl.
  by rewrite (proj2 (String.eqb_neq m n)) by congruence.
Qed.

Lemma find_snoc n v l : find_member n l = None -> find_member n (l ++ [(n, v)]) = Some v.
Proof. intros Hn. rewrite find_member_app, Hn. simpl. by rewrite String.eqb_refl. Qed.

(** the references in the members after one of them was replaced *)
Lemma put_member_refs (f : val -> list oid) n v old l x : NoDup (map fst l) -> find_member n l = Some old ->
  (cnt x (concat (map (fun m => f (snd m)) (put_member n v l))) + cnt x (f old) =
   cnt x (concat (map (fun m => f (snd m)) l)) + cnt x (f v))%Z.
Proof.
  intros Hnd Hf. destruct (find_member_split _ _ _ Hnd Hf) as (l1 & l2 & -> & _).
  rewrite map_app in Hnd. apply NoDup_app in Hnd as (_ & Hd & _).
  rewrite put_member_split.
  - rewrite !obj_refs_split. lia.
  - apply find_member_None. intros Hin. apply (Hd n Hin). left.
Qed.

Lemma put_member_ok (P : val -> Prop) n v l :
  Forall (fun m => P (snd m)) l -> P v -> Forall (fun m => P (snd m)) (put_member n v l).
Proof.
  intros Hl Hv. induction Hl as [|[m u] l Hm Hl IH]; simpl; [done|]. destruct (String.eqb m n); by constructor.
Qed.

(** an operation on an object that is alive leaves the members and the data of the others
    alone *)
Definition content (ob : object) : list member * payload := (members ob, extra ob).
Definition only_members_of (p : oid) (w w' : world) : Prop :=
  forall q, q <> p -> content <$> heap w' !! q = content <$> heap w !! q.

Lemma only_members_add_refs p s wk w : only_members_of p w (set_heap (add_refs s wk (heap w)) w).
Proof. intros q _. cbn [heap set_heap]. rewrite lookup_add_refs. by destruct (heap w !! q). Qed.

Lemma only_members_insert p ob w : only_members_of p w (set_heap (<[p := ob]> (heap w)) w).
Proof. intros q Hq. cbn [heap set_heap]. by rewrite lookup_insert_ne. Qed.

Lemma only_members_trans p w1 w2 w3 :
  only_members_of p w1 w2 -> only_members_of p w2 w3 -> only_members_of p w1 w3.
Proof. intros H1 H2 q Hq. by rewrite H2, H1. Qed.

Lemma takable_same_counts s wk h h' : takable s wk h ->
  (forall x ob, h !! x = Some ob -> exists ob', h' !! x = Some ob' /\ ref_count ob' = ref_count ob /\
     weak_ref_count ob' = weak_ref_count ob) -> takable s wk h'.
Proof.
  intros [Hs Hw] Hh. split; (eapply Forall_impl; [eassumption|]); simpl.
  - intros x (ob & (ob' & ? & Hr & _)%Hh & ? & ?). exists ob'. by rewrite Hr.
  - intros x (ob & (ob' & ? & _ & Hr)%Hh & ?). exists ob'. by rewrite Hr.
Qed.

Lemma bind_split_run {A B C} (m : M A) (f : A -> M B) (k : B -> M C) b w w' :
  bind m f w = Ret b w' -> bind m (fun a => bind (f a) k) w = k b w'.
Proof. unfold bind. destruct (m w) as [a w1| |]; [|done|done]. by intros ->. Qed.

(** ** References that come and go *)

(** one reference of an object that keeps others is given up *)
Lemma di_unref_object_alive `{E : Env} o ext extw w ob : 0 < env_fuel ->
  Inv (o :: ext) extw [] w -> heap w !! o = Some ob -> (1 < ref_count ob)%Z ->
  exists w', di_unref_object o w = Ret tt w' /\ Inv ext extw [] w' /\
    heap w' = <[o := set_ref_count (ref_count ob - 1) ob]> (heap w) /\ trace w' = trace w.
Proof.
  intros Hfuel HI Ho Hrc. pose proof (inv_obj _ _ _ _ HI _ _ Ho) as [Hrc0 Hwrc Hwp Hde Hzo Hma Hbo Hva Hna Hst Hwe].
  set (w1 := set_heap (<[o := set_ref_count (ref_count ob - 1) ob]> (heap w)) w).
  assert (HI1 : Inv ext extw [] w1).
  { eapply (Inv_upd (o :: ext) extw [] ext extw []); try done;
      unfold obj_strong, obj_weak, implicit_weak; cbn [ref_count weak_ref_count members set_ref_count]; try lia.
    - intros x Hx. rewrite cnt_cons_ne by done. lia.
    - rewrite cnt_cons_eq. lia.
    - repeat case_match; lia.
    - intros _. apply Hde. lia. }
  assert (Ho1 : heap w1 !! o = Some (set_ref_count (ref_count ob - 1) ob)) by apply lookup_insert_eq.
  unfold di_unref_object. destruct env_fuel as [|n]; [lia|]. cbn [unref_object_fuel].
  rewrite (bind_get_obj _ ob) by done.
  rewrite (proj2 (Z.ltb_lt _ _)), bind_assert_true, Hde, bind_assert_true by lia.
  erewrite (bind_ret_run (upd_obj _ _)); [|unfold upd_obj; rewrite (bind_get_obj _ ob) by done; reflexivity].
  rewrite u64_small by lia. fold w1. rewrite (bind_get_obj _ _ _ _ Ho1). cbn [mark set_ref_count ref_count].
  assert (Hmk : ((mark ob =? 0) || (mark ob =? 2) || (mark ob =? 3))%Z = true)
    by (destruct Hma as [->|[->| ->]]; done).
  rewrite Hmk, bind_assert_true, (proj2 (Z.eqb_neq _ _)) by lia.
  unfold list_empty_node, bind at 1. cbn [gets].
  match goal with |- context [if ?b then _ else _] => destruct b eqn:Hb end; [|by exists w1].
  eexists. split_and!; [reflexivity| |done|done].
  apply andb_true_iff in Hb as [[Hl1%negb_true_iff Hl2%negb_true_iff]%andb_true_iff _].
  rewrite bool_decide_eq_false in Hl1, Hl2.
  pose proof (inv_lists _ _ _ _ HI1) as HF. pose proof (inv_nodup _ _ _ _ HI1) as HN.
  constructor; try apply HI1; unfold on_lists in *; cbn in *.
  - apply Forall_cons. split; [|done]. eexists. split; [done|]. simpl. lia.
  - apply NoDup_cons. split; [|done]. rewrite elem_of_app. naive_solver.
Qed.

(** one weak reference to an object that is alive is given up *)
Lemma di_drop_weak_ref_alive o ext extw w ob :
  Inv ext (o :: extw) [] w -> heap w !! o = Some ob -> (0 < ref_count ob)%Z ->
  exists w', di_drop_weak_ref o w = Ret tt w' /\ Inv ext extw [] w' /\
    heap w' = <[o := set_weak_ref_count (weak_ref_count ob - 1) ob]> (heap w) /\ trace w' = trace w.
Proof.
  intros HI Ho Hp. pose proof (inv_obj _ _ _ _ HI _ _ Ho) as [_ Hwrc _ _ _ _ Hbo _ _ _ _].
  destruct (wp_run _ _ _ (di_drop_weak_ref_spec True None _ _ _ _ _ HI)) as ([] & w' & Hrun & HI' & _).
  exists w'. split; [done|]. split; [done|]. revert Hrun.
  rewrite cnt_cons_eq in Hwrc. pose proof (cnt_nonneg o extw). pose proof (wrefs_to_nonneg (heap w) o).
  unfold implicit_weak in Hwrc. rewrite (proj2 (Z.ltb_lt _ _) Hp) in Hwrc. simpl cnt in Hwrc.
  unfold di_drop_weak_ref, di_decrement_weak_ref_count.
  erewrite (bind_ret_run (upd_obj _ _)); [|unfold upd_obj; rewrite (bind_get_obj _ ob) by done; reflexivity].
  rewrite u64_small by lia. erewrite bind_get_obj by apply lookup_insert_eq.
  cbn [weak_ref_count set_weak_ref_count]. rewrite (proj2 (Z.eqb_neq _ _)) by lia. by intros [= <-].
Qed.

(** ** Operations on members *)

(** an object with its members, its counts and its mark *)
Definition obj_at (o : oid) (l : list member) (rc wc m : Z) (w : world) : Prop :=
  exists ob, heap w !! o = Some ob /\ members ob = l /\ ref_count ob = rc /\ weak_ref_count ob = wc /\ mark ob = m.

Section object_at.
Context {E : Env} {F : Ffi}.

Lemma di_has_member_eq p n pob w : c_str n = n -> heap w !! p = Some pob ->
  di_has_member p n w = Ret (bool_decide (is_Some (find_member n (members pob)))) w.
Proof.
  intros Hn Ho. unfold di_has_member, di_string_borrow. rewrite Hn. by rewrite (bind_ret_run _ _ _ _ _ (di_lookup_eq p n pob w Ho)).
Qed.

Lemma di_member_clone_is p n v w : c_str n = n -> type_of v <> DI_TYPE_NIL -> val_ok v = true ->
  di_member_clone p n v w = di_add_member_clone p (Some n) v w.
Proof.
  intros Hn Hnil Hok. unfold di_member_clone, di_add_member_clonev, di_string_borrow. rewrite Hn.
  rewrite (bind_ret_run _ _ _ _ _ (sizeof_is_zero_spec (type_of v) ltac:(by destruct v) ltac:(by destruct v) w)).
  by rewrite bool_decide_eq_false_2.
Qed.

Lemma obj_at_names ext extw o l rc wc m w : Inv ext extw [] w -> obj_at o l rc wc m w -> NoDup (map fst l).
Proof. intros HI (ob & Ho & <- & _). apply (inv_obj _ _ _ _ HI _ _ Ho). Qed.

(** references are taken *)
Lemma obj_at_add_refs s wk q l rc wc m w : obj_at q l rc wc m w ->
  obj_at q l (rc + cnt q s) (wc + cnt q wk) m (set_heap (add_refs s wk (heap w)) w).
Proof.
  intros (ob & Ho & <- & <- & <- & <-). eexists. split; [cbn [heap set_heap]; by rewrite lookup_add_refs, Ho|].
  by split_and!.
Qed.

Lemma obj_at_insert_ne o ob q l rc wc m w : q <> o -> obj_at q l rc wc m w ->
  obj_at q l rc wc m (set_heap (<[o := ob]> (heap w)) w).
Proof. intros Hne (obq & Ho & Hq). exists obq. split; [cbn [heap set_heap]; by rewrite lookup_insert_ne|done]. Qed.

(** a copy of a value becomes a new member *)
Lemma add_clone_at ext extw o n v l rc wc m w : Inv ext extw [] w -> obj_at o l rc wc m w -> (0 < rc)%Z ->
  find_member n l = None -> type_of v <> DI_TYPE_NIL -> val_ok v = true -> copyable v = true ->
  takable (strong_refs v) (weak_refs v) (heap w) ->
  exists w', di_add_member_clone o (Some n) v w = Ret 0%Z w' /\ Inv ext extw [] w' /\
    obj_at o (l ++ [(n, clone_val v)]) (rc + cnt o (strong_refs v)) (wc + cnt o (weak_refs v)) m w' /\
    (forall q lq rq wq mq, q <> o -> obj_at q lq rq wq mq w ->
       obj_at q lq (rq + cnt q (strong_refs v)) (wq + cnt q (weak_refs v)) mq w') /\
    only_members_of o w w' /\ trace w' = trace w.
Proof.
  intros HI (ob & Ho & <- & <- & <- & <-) Hp Hf Hnil Hok Hcp Ht.
  destruct (assign_copy ext extw w o ob n v HI Ho Hp Hok Hcp Ht) as (ob1 & Ho1 & Hm1 & HI1); [congruence|].
  unfold assigned in HI1. rewrite Hf in HI1.
  pose proof (takable_refs_ok _ _ _ _ _ _ HI Ht) as Hr.
  eexists. split_and!; [by apply (di_add_member_clone_eq o n v ob w Ho Hf Hnil Hok Hcp Hr ob1)|exact HI1| | | |done].
  - cbn [heap set_heap] in Ho1. rewrite lookup_add_refs, Ho in Ho1. injection Ho1 as <-.
    eexists. split; [apply lookup_insert_eq|]. by split_and!.
  - intros q lq rq wq mq Hne Hq. apply obj_at_insert_ne; [done|]. by apply obj_at_add_refs.
  - eapply only_members_trans; [apply only_members_add_refs|apply only_members_insert].
Qed.

(** a member without references is removed *)
Lemma delete_plain_at ext extw o n old l rc wc m w : Inv ext extw [] w -> obj_at o l rc wc m w -> (0 < rc)%Z ->
  find_member n l = Some old -> strong_refs old = [] -> weak_refs old = [] ->
  exists w', di_delete_member_raw o (Some n) w = Ret 0%Z w' /\ Inv ext extw [] w' /\
    obj_at o (del_member n l) rc wc m w' /\ (forall q, q <> o -> heap w' !! q = heap w !! q) /\ trace w' = trace w.
Proof.
  intros HI (ob & Ho & <- & <- & <- & <-) Hp Hf Hs Hw.
  pose proof (inv_obj _ _ _ _ HI _ _ Ho) as [_ _ _ _ _ _ _ Hva Hna _ _].
  destruct (find_member_split _ _ _ Hna Hf) as (l1 & l2 & Hl & Hd & _).
  assert (Hold : val_ok old = true).
  { rewrite Hl in Hva. apply Forall_app in Hva as [_ [Hv _]%Forall_cons]. exact Hv. }
  eexists. split_and!; [by apply (di_delete_member_raw_eq o n old ob w Ho Hf Hold Hs Hw)| | | |done].
  - apply (Inv_set_members ext extw ext extw [] w o ob _ HI Ho Hp); [| | |by apply del_member_nodup].
    + intros x. rewrite Hd. unfold obj_strong. rewrite Hl, (obj_refs_split strong_refs), Hs. simpl. lia.
    + intros x. rewrite Hd. unfold obj_weak. rewrite Hl, (obj_refs_split weak_refs), Hw. simpl. lia.
    + rewrite Hd. rewrite Hl in Hva. apply Forall_app in Hva as [? [_ ?]%Forall_cons]. by apply Forall_app.
  - eexists. split; [apply lookup_insert_eq|]. by split_and!.
  - intros q Hq. cbn [heap set_heap]. by rewrite lookup_insert_ne.
Qed.

(** a member that is removed holds an object that others hold too *)
Lemma delete_shared_run ext extw o n x ob obx w : 0 < env_fuel -> x <> o -> Inv ext extw [] w ->
  heap w !! o = Some ob -> heap w !! x = Some obx -> (1 < ref_count obx)%Z -> find_member n (members ob) = Some (VObject x) ->
  exists w', di_delete_member_raw o (Some n) w = Ret 0%Z w' /\ Inv ext extw [] w' /\
    heap w' = <[x := set_ref_count (ref_count obx - 1) obx]> (<[o := set_members (del_member n (members ob)) ob]> (heap w)) /\
    trace w' = trace w.
Proof.
  intros Hfuel Hne HI Ho Hx Hrx Hf.
  destruct (wp_run _ _ _ (remove_member_spec _ _ _ _ _ _ _ _ HI Ho Hf)) as (v & w1 & Hrun & -> & _ & Hw1 & HI1).
  assert (Hx1 : heap w1 !! x = Some obx) by (rewrite Hw1; cbn [heap set_heap]; by rewrite lookup_insert_ne).
  destruct (di_unref_object_alive x ext extw w1 obx Hfuel HI1 Hx1 Hrx) as (w2 & Hrun2 & HI2 & Hh2 & Ht2).
  exists w2. split_and!; [|done|by rewrite Hh2, Hw1|by rewrite Ht2, Hw1].
  unfold di_delete_member_raw. rewrite (bind_ret_run _ _ _ _ _ (di_lookup_eq _ _ _ _ Ho)), Hf.
  change (di_string_bytes (Some n)) with n. rewrite (bind_ret_run _ _ _ _ _ Hrun).
  change (di_free_value (VObject x)) with (di_unref_object x). by rewrite (bind_ret_run _ _ _ _ _ Hrun2).
Qed.

(** a member without references is set again *)
Lemma rawset_plain_at ext extw o n old v l rc wc m w : Inv ext extw [] w -> obj_at o l rc wc m w -> (0 < rc)%Z ->
  find_member n l = Some old -> strong_refs old = [] -> weak_refs old = [] ->
  type_of v <> DI_TYPE_NIL -> val_ok v = true -> copyable v = true -> strong_refs v = [] -> weak_refs v = [] ->
  exists w', di_rawsetx o (Some n) v w = Ret 0%Z w' /\ Inv ext extw [] w' /\
    obj_at o (del_member n l ++ [(n, clone_val v)]) rc wc m w' /\
    (forall q lq rq wq mq, q <> o -> obj_at q lq rq wq mq w -> obj_at q lq rq wq mq w') /\
    only_members_of o w w' /\ trace w' = trace w.
Proof.
  intros HI Ho Hp Hf Hs Hw Hnil Hok Hcp Hvs Hvw.
  destruct (delete_plain_at ext extw o n old l rc wc m w HI Ho Hp Hf Hs Hw) as (w1 & Hrun1 & HI1 & Ho1 & Hoth1 & Ht1).
  destruct (add_clone_at ext extw o n v _ _ _ _ w1 HI1 Ho1 Hp) as (w' & Hrun & HI' & Hat & Hoth & Honly & Htr); try done.
  - apply find_del_member. exact (obj_at_names _ _ _ _ _ _ _ _ HI Ho).
  - rewrite Hvs, Hvw. split; constructor.
  - exists w'. rewrite Hvs, Hvw in Hat, Hoth. simpl in Hat. rewrite !Z.add_0_r in Hat. split_and!; [|done|done| | |congruence].
    + unfold di_rawsetx. rewrite (bind_ret_run _ _ _ _ _ Hrun1). cbn [negb Z.eqb andb]. exact Hrun.
    + intros q lq rq wq mq Hne (obq & Hq & Hobq).
      assert (Hq1 : obj_at q lq rq wq mq w1) by (exists obq; by rewrite Hoth1).
      specialize (Hoth q lq rq wq mq Hne Hq1). simpl in Hoth. by rewrite !Z.add_0_r in Hoth.
    + intros q Hne. by rewrite Honly, Hoth1.
Qed.

Lemma takable_weak e le re we m w : obj_at e le re we m w -> (we < 2 ^ 64 - 1)%Z -> takable [] [e] (heap w).
Proof.
  intros (ob & Ho & _ & _ & <- & _) Hw. split; [constructor|]. apply Forall_singleton. exists ob. split; [done|].
  rewrite cnt_cons_eq. simpl. lia.
Qed.
Lemma takable_strong p lp rp wp_ m w : obj_at p lp rp wp_ m w -> (0 < rp < 2 ^ 64 - 1)%Z -> takable [p] [] (heap w).
Proof.
  intros (ob & Ho & _ & <- & _ & _) Hw. split; [|constructor]. apply Forall_singleton. exists ob. split_and!; [done|lia|].
  rewrite cnt_cons_eq. simpl. lia.
Qed.

Lemma upgrade_trace o r w w' : di_upgrade_weak_ref o w = Ret r w' -> trace w' = trace w.
Proof.
  unfold di_upgrade_weak_ref, di_ref_object, upd_obj, get_obj, put_obj, modify, assert, check, bind, ret, stuck.
  intros H. repeat case_match; by simplify_eq.
Qed.

Lemma get_nint_at o n l z rc wc m w : obj_at o l rc wc m w -> find_member n l = Some (VNint z) ->
  get_nint o n w = Ret z w.
Proof.
  intros (ob & Ho & <- & _) Hf. unfold get_nint, get_checked, bind.
  rewrite (di_getxt_eq o n DI_TYPE_NINT ob (VNint z) w) by (done || by apply (no_refs_ok (VNint z))).
  by rewrite add_refs_nil, set_heap_same.
Qed.

Lemma Inv_add_trace ext extw c w : Inv ext extw [] w -> Inv ext extw [] (add_trace c w).
Proof. intros HI. constructor; apply HI. Qed.

End object_at.
