(* ===== verification/PromiseFacts.v ===== *)
(** * Promises: settled once, handlers in order, a stack of pending promises

    [promise_repr l st hs]: the members [l] of the promise stand for the settlement [st] and
    the list of handlers [hs] that wait for it. Attaching a handler appends it; the first
    [resolve] or [reject] settles the promise for good; a dispatch takes the handlers off
    and calls each of them once. *)

From S2P Require Export ObjectAt.

(** ** What the members of a promise stand for *)

Inductive settlement := Resolved (v : val) | Rejected (e : oid).

Record promise_repr (l : list member) (st : option settlement) (hs : list oid) : Prop := {
  pr_handlers : find_member "___handlers" l =
      Some (VArray DI_TYPE_OBJECT (negb (length hs =? 0)%nat) (map VObject hs)) \/
    find_member "___handlers" l = None /\ hs = [];
  pr_resolved : find_member "___resolved" l =
    match st with Some (Resolved v) => Some (VVariant v) | _ => None end;
  pr_rejected : find_member "___rejected" l =
    match st with Some (Rejected e) => Some (VObject e) | _ => None end
}.

(** the operations that change the state of a promise *)
Inductive promise_op := Attach (h : oid) | Resolve (v : val) | Reject (e : oid).

Definition promise_run `{E : Env, F : Ffi} (p : oid) (op : promise_op) : M unit :=
  match op with
  | Attach h => di_promise_add_handler p h
  | Resolve v => di_promise_resolve p v
  | Reject e => di_promise_reject p e
  end.

(** the value an operation stores, and the member it stores it in *)
Definition op_value (op : promise_op) : val :=
  match op with Attach h => VObject h | Resolve v => VVariant v | Reject e => VObject e end.

(** what they do to the state *)
Definition settle (st : option settlement) (op : promise_op) : option settlement :=
  match st, op with
  | None, Resolve v => Some (Resolved (clone_val v))
  | None, Reject e => Some (Rejected e)
  | _, _ => st
  end.
Definition listeners (hs : list oid) (op : promise_op) : list oid :=
  match op with Attach h => hs ++ [h] | _ => hs end.

(** does the operation leave something to dispatch? *)
Definition starts (st : option settlement) (op : promise_op) : bool :=
  match st, op with
  | None, Attach _ => false
  | None, _ => true
  | Some _, Attach _ => true
  | Some _, _ => false
  end.

Definition promise_names : list string := ["___handlers"; "___resolved"; "___rejected"].

(** ** The list of handlers *)

Lemma strong_refs_objects hs : strong_refs (VArray DI_TYPE_OBJECT true (map VObject hs)) = hs.
Proof. simpl. induction hs as [|h hs IH]; [done|]. simpl in *. by rewrite IH. Qed.
Lemma weak_refs_objects hs : weak_refs (VArray DI_TYPE_OBJECT true (map VObject hs)) = [].
Proof. simpl. induction hs as [|h hs IH]; [done|]. simpl in *. by rewrite IH. Qed.

Lemma handlers_ok hs : val_ok (VArray DI_TYPE_OBJECT (negb (length hs =? 0)%nat) (map VObject hs)) = true.
Proof.
  cbn [val_ok]. rewrite length_map, eqb_reflx, andb_true_r. apply andb_true_iff. split.
  - by induction hs.
  - by induction hs.
Qed.

(** the references of the handlers once one more is in the list *)
Lemma Inv_push_handler ext extw p pob hs h w : Inv (h :: ext) extw [] w -> heap w !! p = Some pob ->
  (0 < ref_count pob)%Z ->
  find_member "___handlers" (members pob) = Some (VArray DI_TYPE_OBJECT (negb (length hs =? 0)%nat) (map VObject hs)) ->
  Inv ext extw [] (set_heap (<[p := set_members (put_member "___handlers"
    (VArray DI_TYPE_OBJECT true (map VObject hs ++ [VObject h])) (members pob)) pob]> (heap w)) w).
Proof.
  intros HI Ho Hp Hf. change [VObject h] with (map VObject [h]). rewrite <- map_app. destruct (inv_obj _ _ _ _ HI _ _ Ho) as [_ _ _ _ _ _ _ Hva Hna _ _].
  assert (Hok : val_ok (VArray DI_TYPE_OBJECT true (map VObject (hs ++ [h]))) = true).
  { pose proof (handlers_ok (hs ++ [h])) as Hok. rewrite length_app, Nat.add_comm in Hok. exact Hok. }
  apply (Inv_set_members (h :: ext) extw ext extw [] w p pob _ HI Ho Hp).
  - intros x. pose proof (put_member_refs strong_refs "___handlers"
      (VArray DI_TYPE_OBJECT true (map VObject (hs ++ [h]))) _ _ x Hna Hf) as Hc.
    rewrite strong_refs_objects, cnt_app in Hc.
    change (strong_refs (VArray DI_TYPE_OBJECT (negb (length hs =? 0)%nat) (map VObject hs)))
      with (strong_refs (VArray DI_TYPE_OBJECT true (map VObject hs))) in Hc.
    rewrite strong_refs_objects in Hc. unfold obj_strong. simpl in *. lia.
  - intros x. pose proof (put_member_refs weak_refs "___handlers"
      (VArray DI_TYPE_OBJECT true (map VObject (hs ++ [h]))) _ _ x Hna Hf) as Hc.
    rewrite weak_refs_objects in Hc.
    change (weak_refs (VArray DI_TYPE_OBJECT (negb (length hs =? 0)%nat) (map VObject hs)))
      with (weak_refs (VArray DI_TYPE_OBJECT true (map VObject hs))) in Hc.
    rewrite weak_refs_objects in Hc. unfold obj_weak. simpl in *. lia.
  - by apply (put_member_ok (fun v => val_ok v = true)).
  - by rewrite put_member_names.
Qed.

(** ** One operation *)

Section operations.
Context {E : Env} {F : Ffi}.

(** the question [di_promise_resolve], [di_promise_reject] and [di_promise_add_handler] ask *)
Lemma has_resolved_eq p l rc wc m st hs w : obj_at p l rc wc m w -> promise_repr l st hs ->
  has_member p "___resolved" w = Ret (match st with Some (Resolved _) => true | _ => false end) w.
Proof.
  intros (ob & Ho & <- & _) [_ Hr _]. unfold has_member. rewrite (di_has_member_eq p "___resolved" ob w eq_refl Ho), Hr.
  by destruct st as [[]|].
Qed.
Lemma has_rejected_eq p l rc wc m st hs w : obj_at p l rc wc m w -> promise_repr l st hs ->
  has_member p "___rejected" w = Ret (match st with Some (Rejected _) => true | _ => false end) w.
Proof.
  intros (ob & Ho & <- & _) [_ _ Hr]. unfold has_member. rewrite (di_has_member_eq p "___rejected" ob w eq_refl Ho), Hr.
  by destruct st as [[]|].
Qed.

(** the references [s] and [wk] were taken, and only [p] has other members than before *)
Definition taken_for (p : oid) (s wk : list oid) (w w' : world) : Prop :=
  (forall q l rc wc m, q <> p -> obj_at q l rc wc m w -> obj_at q l (rc + cnt q s) (wc + cnt q wk) m w') /\
  only_members_of p w w' /\ trace w' = trace w.

Lemma taken_for_nothing p w w' : (forall q, q <> p -> heap w' !! q = heap w !! q) -> trace w' = trace w ->
  taken_for p [] [] w w'.
Proof.
  intros Hq Ht. split_and!; [|intros q Hne; by rewrite Hq|done].
  intros q l rc wc m Hne (ob & Ho & Hob). exists ob. simpl. by rewrite Hq, !Z.add_0_r.
Qed.

Lemma taken_for_trans p s s' wk wk' w1 w2 w3 : taken_for p s wk w1 w2 -> taken_for p s' wk' w2 w3 ->
  taken_for p (s ++ s') (wk ++ wk') w1 w3.
Proof.
  intros (H1 & O1 & T1) (H2 & O2 & T2). split_and!; [|by eapply only_members_trans|congruence].
  intros q l rc wc m Hne Hq. rewrite !cnt_app, !Z.add_assoc. auto.
Qed.

Definition op_ok (op : promise_op) : Prop := val_ok (op_value op) = true /\ copyable (op_value op) = true.

(** the references an operation takes *)
Definition op_refs (f : val -> list oid) (st : option settlement) (op : promise_op) : list oid :=
  match st, op with
  | Some _, Resolve _ | Some _, Reject _ => []
  | _, _ => f (op_value op)
  end.

(** what an operation leaves: the state it makes, and nothing else changed *)
Definition op_result (p : oid) (l : list member) (rc wc m : Z) st hs s wk ext extw (w w1 : world) : Prop :=
  Inv ext extw [] w1 /\ taken_for p s wk w w1 /\
  exists l1, obj_at p l1 (rc + cnt p s) (wc + cnt p wk) m w1 /\ promise_repr l1 st hs /\
    forall n, n ∉ promise_names -> find_member n l1 = find_member n l.

(** the list of handlers is there, with an empty one added when there was none *)
Lemma handlers_member_there ext extw p l rc wc m st hs w :
  Inv ext extw [] w -> obj_at p l rc wc m w -> (0 < rc)%Z -> promise_repr l st hs ->
  exists w1 l1,
    (handlers_member <- di_lookup p (Some "___handlers") ;;
     match handlers_member with
     | Some _ => ret tt
     | None => _ <- di_add_member_move2 p (Some "___handlers") (VArray DI_TYPE_OBJECT false []) ;; ret tt
     end) w = Ret tt w1 /\
    Inv ext extw [] w1 /\ obj_at p l1 rc wc m w1 /\ taken_for p [] [] w w1 /\
    find_member "___handlers" l1 = Some (VArray DI_TYPE_OBJECT (negb (length hs =? 0)%nat) (map VObject hs)) /\
    (forall n, n <> "___handlers" -> find_member n l1 = find_member n l).
Proof.
  intros HI (ob & Ho & <- & <- & <- & <-) Hp Hr. rewrite (bind_ret_run _ _ _ _ _ (di_lookup_eq _ _ _ _ Ho)).
  destruct (pr_handlers _ _ _ Hr) as [Hf|[Hf ->]]; rewrite Hf.
  { exists w, (members ob). split_and!; try done; [by exists ob|by apply taken_for_nothing]. }
  destruct (di_add_member_new ext extw [] w p "___handlers" (VArray DI_TYPE_OBJECT false []) ob HI Ho (or_introl Hp) Hf eq_refl)
    as [Hrun HI1].
  eexists _, _. split_and!; [|exact HI1|eexists; split; [apply lookup_insert_eq|by split_and!]| |by apply find_snoc|].
  - unfold di_add_member_move2. erewrite bind_ret_run; [reflexivity|].
    rewrite (bind_ret_run _ _ _ _ _ (sizeof_is_zero_spec DI_TYPE_ARRAY ltac:(done) ltac:(done) w)). exact Hrun.
  - apply taken_for_nothing; [|done]. intros q Hq. cbn [heap set_heap]. by rewrite lookup_insert_ne.
  - intros n Hn. by apply find_snoc_other.
Qed.

(** a member that settles the promise is added *)
Lemma settle_member ext extw p l rc wc m n v w : Inv ext extw [] w -> obj_at p l rc wc m w -> (0 < rc)%Z ->
  c_str n = n -> find_member n l = None -> type_of v <> DI_TYPE_NIL -> val_ok v = true -> copyable v = true ->
  takable (strong_refs v) (weak_refs v) (heap w) ->
  exists w1, di_member_clone p n v w = Ret 0%Z w1 /\ Inv ext extw [] w1 /\
    taken_for p (strong_refs v) (weak_refs v) w w1 /\
    obj_at p (l ++ [(n, clone_val v)]) (rc + cnt p (strong_refs v)) (wc + cnt p (weak_refs v)) m w1.
Proof.
  intros HI Ho Hp Hn Hf Hnil Hok Hcp Ht.
  destruct (add_clone_at ext extw p n v l rc wc m w HI Ho Hp Hf Hnil Hok Hcp Ht)
    as (w1 & Hrun & HI1 & Hat & Hoth & Honly & Htr).
  exists w1. rewrite di_member_clone_is by done. by split_and!.
Qed.

(** [resolve] and [reject] of a promise that is not settled *)
Lemma settle_run ext extw p l rc wc m hs op w :
  Inv ext extw [] w -> obj_at p l rc wc m w -> (0 < rc)%Z -> promise_repr l None hs ->
  starts None op = true -> op_ok op -> takable (strong_refs (op_value op)) (weak_refs (op_value op)) (heap w) ->
  exists w1, promise_run p op w = di_promise_start_dispatch p w1 /\
    op_result p l rc wc m (settle None op) (listeners hs op) (op_refs strong_refs None op) (op_refs weak_refs None op)
      ext extw w w1.
Proof.
  intros HI Ho Hp Hr Hs [Hok Hcp] Ht. pose proof Hr as [Hh Hres Hrej].
  pose proof (has_resolved_eq _ _ _ _ _ _ _ _ Ho Hr) as Hq1. pose proof (has_rejected_eq _ _ _ _ _ _ _ _ Ho Hr) as Hq2.
  destruct op as [h|v|e]; [done| |].
  - destruct (settle_member ext extw p l rc wc m "___resolved" (VVariant v) w HI Ho Hp eq_refl Hres
      ltac:(done) Hok Hcp Ht) as (w1 & Hrun & HI1 & Htk & Hat).
    exists w1. split.
    + unfold promise_run, di_promise_resolve. rewrite (bind_ret_run _ _ _ _ _ Hq1), (bind_ret_run _ _ _ _ _ Hq2).
      cbn [orb]. by rewrite (bind_ret_run _ _ _ _ _ Hrun).
    + split_and!; [done|done|]. eexists. split_and!; [exact Hat| |].
      * split; [by rewrite find_snoc_other|by rewrite find_snoc|by rewrite find_snoc_other].
      * intros n Hn. apply find_snoc_other. intros ->. apply Hn. right. left.
  - destruct (settle_member ext extw p l rc wc m "___rejected" (VObject e) w HI Ho Hp eq_refl Hrej
      ltac:(done) Hok Hcp Ht) as (w1 & Hrun & HI1 & Htk & Hat).
    exists w1. split.
    + unfold promise_run, di_promise_reject. rewrite (bind_ret_run _ _ _ _ _ Hq1), (bind_ret_run _ _ _ _ _ Hq2).
      cbn [orb]. by rewrite (bind_ret_run _ _ _ _ _ Hrun).
    + split_and!; [done|done|]. eexists. split_and!; [exact Hat| |].
      * split; [by rewrite find_snoc_other|by rewrite find_snoc_other|by rewrite find_snoc].
      * intros n Hn. apply find_snoc_other. intros ->. apply Hn. right. right. left.
Qed.

(** [resolve] and [reject] of a promise that is settled *)
Lemma settled_run ext extw p l rc wc m s hs op w :
  Inv ext extw [] w -> obj_at p l rc wc m w -> promise_repr l (Some s) hs -> starts (Some s) op = false ->
  promise_run p op w = Ret tt w /\
  op_result p l rc wc m (settle (Some s) op) (listeners hs op) (op_refs strong_refs (Some s) op)
    (op_refs weak_refs (Some s) op) ext extw w w.
Proof.
  intros HI Ho Hr Hs. pose proof (has_resolved_eq _ _ _ _ _ _ _ _ Ho Hr) as Hq1.
  pose proof (has_rejected_eq _ _ _ _ _ _ _ _ Ho Hr) as Hq2. split.
  - destruct op as [h|v|e]; [done| |]; unfold promise_run, di_promise_resolve, di_promise_reject;
      rewrite (bind_ret_run _ _ _ _ _ Hq1), (bind_ret_run _ _ _ _ _ Hq2); by destruct s.
  - assert (Hset : settle (Some s) op = Some s) by (by destruct s, op).
    assert (Hl : listeners hs op = hs) by (by destruct op).
    assert (Hrf : forall f, op_refs f (Some s) op = []) by (intros f; by destruct op).
    rewrite Hset, Hl, !Hrf. split_and!; [done|by apply taken_for_nothing|]. exists l.
    simpl. by rewrite !Z.add_0_r.
Qed.

(** the handler is appended to the array in place *)
Lemma push_handler ext extw p l rc wc m hs h w : Inv (h :: ext) extw [] w -> obj_at p l rc wc m w -> (0 < rc)%Z ->
  find_member "___handlers" l = Some (VArray DI_TYPE_OBJECT (negb (length hs =? 0)%nat) (map VObject hs)) ->
  let l' := put_member "___handlers" (VArray DI_TYPE_OBJECT true (map VObject hs ++ [VObject h])) l in
  exists w', upd_obj p (fun ob => set_members (put_member "___handlers"
      (VArray DI_TYPE_OBJECT true (map VObject hs ++ [VObject h])) (members ob)) ob) w = Ret tt w' /\
    Inv ext extw [] w' /\ obj_at p l' rc wc m w' /\ taken_for p [] [] w w'.
Proof.
  intros HI (ob & Ho & <- & <- & <- & <-) Hp Hf l'.
  eexists. split_and!; [unfold upd_obj; rewrite (bind_get_obj _ ob) by done; reflexivity|by eapply Inv_push_handler| |].
  - eexists. split; [apply lookup_insert_eq|]. by split_and!.
  - apply taken_for_nothing; [|done]. intros q Hq. cbn [heap set_heap]. by rewrite lookup_insert_ne.
Qed.

Lemma attach_run ext extw p l rc wc m st hs h w :
  Inv ext extw [] w -> obj_at p l rc wc m w -> (0 < rc)%Z -> promise_repr l st hs -> takable [h] [] (heap w) ->
  exists w1, promise_run p (Attach h) w =
      (if bool_decide (is_Some st) then di_promise_start_dispatch p else ret tt) w1 /\
    op_result p l rc wc m st (hs ++ [h]) [h] [] ext extw w w1.
Proof.
  intros HI Ho Hp Hr Ht.
  destruct (handlers_member_there ext extw p l rc wc m st hs w HI Ho Hp Hr)
    as (w1 & l1 & Hrun & HI1 & Ho1 & Htk1 & Hf1 & Hk1).
  assert (Ht1 : takable [h] [] (heap w1)).
  { eapply takable_same_counts; [exact Ht|]. intros x ob Hx. destruct (decide (x = p)) as [->|Hne].
    - destruct Ho as (ob' & ? & _ & ? & ? & _), Ho1 as (ob1 & ? & _ & ? & ? & _). exists ob1. simplify_eq. split_and!; congruence.
    - destruct (proj1 Htk1 x (members ob) (ref_count ob) (weak_ref_count ob) (mark ob) Hne) as (ob' & Hx' & _ & Hr1 & Hr2 & _);
        [by exists ob|]. exists ob'. simpl in Hr1, Hr2. split_and!; [done|lia|lia]. }
  pose proof (Inv_add_refs _ _ _ _ _ _ HI1 Ht1) as HI2.
  pose proof (obj_at_add_refs [h] [] _ _ _ _ _ _ Ho1) as Ho2. pose proof (cnt_nonneg p [h]).
  destruct (push_handler ext extw p l1 _ _ m hs h _ HI2 Ho2 ltac:(lia) Hf1) as (w3 & Hrun3 & HI3 & Ho3 & Htk3).
  assert (Hr3 : promise_repr (put_member "___handlers"
    (VArray DI_TYPE_OBJECT true (map VObject hs ++ [VObject h])) l1) st (hs ++ [h])).
  { split.
    - left. rewrite find_put_member by (by rewrite Hf1). by rewrite length_app, Nat.add_comm, map_app.
    - rewrite find_put_other, Hk1 by done. apply Hr.
    - rewrite find_put_other, Hk1 by done. apply Hr. }
  exists w3. split.
  - unfold promise_run, di_promise_add_handler. rewrite (bind_split_run _ _ _ _ _ _ Hrun).
    destruct Ho1 as (ob1 & Hob1 & Hm1 & _).
    rewrite (bind_ret_run _ _ _ _ _ (di_lookup_eq _ _ _ _ Hob1)), Hm1, Hf1.
    erewrite bind_ret_run.
    2:{ rewrite (bind_ret_run _ _ _ _ _ (di_ref_object_eq _ _ (takable_refs_ok _ _ _ _ _ _ HI1 Ht1))). exact Hrun3. }
    rewrite (bind_ret_run _ _ _ _ _ (has_resolved_eq _ _ _ _ _ _ _ _ Ho3 Hr3)).
    rewrite (bind_ret_run _ _ _ _ _ (has_rejected_eq _ _ _ _ _ _ _ _ Ho3 Hr3)).
    by destruct st as [[]|].
  - split_and!; [done| |].
    + assert (Htk2 : taken_for p [h] [] w1 (set_heap (add_refs [h] [] (heap w1)) w1)).
      { split_and!; [|apply only_members_add_refs|done]. intros q lq rq wq mq _ Hq. by apply obj_at_add_refs. }
      exact (taken_for_trans _ _ _ _ _ _ _ _ Htk1 (taken_for_trans _ _ _ _ _ _ _ _ Htk2 Htk3)).
    + eexists. split_and!; [exact Ho3|done|]. intros n Hn.
      rewrite find_put_other, Hk1; [done|intros ->; apply Hn; left|intros ->; apply Hn; left].
Qed.

(** an operation settles the promise or adds a handler, and says whether there is something
    to dispatch; a promise that is settled is not changed any more *)
Lemma promise_run_split ext extw p l rc wc m st hs op w :
  Inv ext extw [] w -> obj_at p l rc wc m w -> (0 < rc)%Z -> promise_repr l st hs -> op_ok op ->
  takable (strong_refs (op_value op)) (weak_refs (op_value op)) (heap w) ->
  exists w1, promise_run p op w = (if starts st op then di_promise_start_dispatch p else ret tt) w1 /\
    op_result p l rc wc m (settle st op) (listeners hs op) (op_refs strong_refs st op) (op_refs weak_refs st op)
      ext extw w w1.
Proof.
  intros HI Ho Hp Hr Hok Ht. assert ((exists h, op = Attach h) \/ ~ exists h, op = Attach h) as [[h ->]|Hno]
    by (destruct op; [left; by eexists|right; by intros [? ?]..]).
  - destruct (attach_run ext extw p l rc wc m st hs h w HI Ho Hp Hr Ht) as (w1 & Hrun & Hres).
    exists w1. rewrite Hrun. by destruct st as [[]|].
  - destruct st as [s|].
    + assert (Hs : starts (Some s) op = false) by (destruct op; [by destruct Hno; eexists|done..]).
      destruct (settled_run ext extw p l rc wc m s hs op w HI Ho Hr Hs) as [Hrun Hres].
      exists w. by rewrite Hs.
    + assert (Hs : starts None op = true) by (destruct op; [by destruct Hno; eexists|done..]).
      rewrite Hs. by apply settle_run.
Qed.
End operations.

(** ** The stack of pending promises

    The event module counts the promises that wait for the next iteration of the main loop
    and keeps each in a member named after its position. *)

Record queue_repr (l : list member) (q : list oid) : Prop := {
  qr_count : find_member "pending_count" l = Some (VNint (Z.of_nat (length q)));
  qr_items : forall i, find_member (pending_key (Z.of_nat i)) l = VObject <$> q !! i
}.

Lemma pending_key_inj m n : pending_key m = pending_key n -> m = n.
Proof. unfold pending_key. intros H%append_inj_l. by apply (pretty.pretty_Z_inj _ _ H). Qed.

(** the members of the event module after a promise was pushed *)
Definition pushed (l : list member) (q : list oid) (p : oid) : list member :=
  (del_member "pending_count" l ++ [("pending_count", VNint (Z.of_nat (length q) + 1))]) ++
  [(pending_key (Z.of_nat (length q)), VObject p)].
(** and after the last one was popped *)
Definition popped (l : list member) (q : list oid) : list member :=
  del_member "pending_count" (del_member (pending_key (Z.of_nat (length q))) l) ++
  [("pending_count", VNint (Z.of_nat (length q)))].

Lemma pushed_other n l q p : n <> "pending_count" -> n <> pending_key (Z.of_nat (length q)) ->
  find_member n (pushed l q p) = find_member n l.
Proof. intros H1 H2. unfold pushed. by rewrite !find_snoc_other, find_del_member_ne. Qed.

Lemma queue_push l q p : NoDup (map fst l) -> queue_repr l q -> queue_repr (pushed l q p) (q ++ [p]).
Proof.
  intros Hnd [Hc Hi]. split.
  - unfold pushed. rewrite find_snoc_other by done. rewrite find_snoc by (by apply find_del_member).
    do 2 f_equal. rewrite length_app. simpl. lia.
  - intros i. destruct (decide (i = length q)) as [->|Hne].
    + rewrite lookup_app_r, Nat.sub_diag by done. apply find_snoc.
      rewrite find_snoc_other, find_del_member_ne, Hi by done. by rewrite lookup_ge_None_2.
    + rewrite pushed_other; [|done|intros H%pending_key_inj; lia]. rewrite Hi.
      destruct (decide (i < length q)); [by rewrite lookup_app_l|].
      rewrite !lookup_ge_None_2; [done|rewrite length_app; simpl; lia|lia].
Qed.

Lemma queue_pop l q p : NoDup (map fst l) -> queue_repr l (q ++ [p]) -> queue_repr (popped l q) q.
Proof.
  intros Hnd [Hc Hi]. split.
  - unfold popped. apply find_snoc, find_del_member. by apply del_member_nodup.
  - intros i. unfold popped. rewrite find_snoc_other, find_del_member_ne by done.
    destruct (decide (i = length q)) as [->|Hne].
    + rewrite find_del_member by done. by rewrite lookup_ge_None_2.
    + rewrite find_del_member_ne, Hi by (intros H%pending_key_inj; lia).
      destruct (decide (i < length q)); [by rewrite lookup_app_l|].
      rewrite !lookup_ge_None_2; [done|lia|rewrite length_app; simpl; lia].
Qed.


Definition kept_but (p e : oid) (w w' : world) : Prop :=
  forall q, q <> p -> q <> e -> content <$> heap w' !! q = content <$> heap w !! q.

Section queue.
Context {E : Env} {F : Ffi}.

(** [di_promise_start_dispatch] borrows the event module *)
Lemma take_event ext extw p e lp le rp wp_ mp re we w : p <> e ->
  Inv ext extw [] w -> obj_at p lp rp wp_ mp w -> obj_at e le re we 0 w ->
  find_member "___weak_event_module" lp = Some (VWeak e) -> (0 < re < 2 ^ 64 - 1)%Z -> (we < 2 ^ 64 - 1)%Z ->
  exists w1 w2, get_weak p "___weak_event_module" w = Ret e w1 /\ di_upgrade_weak_ref e w1 = Ret (Some e) w2 /\
    Inv (e :: ext) (e :: extw) [] w2 /\ obj_at p lp rp wp_ mp w2 /\ obj_at e le (re + 1) (we + 1) 0 w2 /\
    kept_but p e w w2 /\ trace w2 = trace w.
Proof.
  intros Hpe HI Hp He Hf Hre Hwe. pose proof (takable_weak _ _ _ _ _ _ He Hwe) as Ht.
  pose proof (Inv_add_refs _ _ _ _ _ _ HI Ht) as HI1. simpl app in HI1.
  pose proof (obj_at_add_refs [] [e] _ _ _ _ _ _ He) as He1. rewrite cnt_cons_eq in He1.
  pose proof (obj_at_add_refs [] [e] _ _ _ _ _ _ Hp) as Hp1. rewrite cnt_cons_ne in Hp1 by done.
  simpl cnt in He1, Hp1. rewrite !Z.add_0_r in Hp1. rewrite Z.add_0_r in He1.
  set (w1 := set_heap _ w) in HI1, He1, Hp1. destruct He1 as (eob & Ho & Hm & Hrc & Hwc & Hmk).
  destruct (wp_run _ _ _ (di_upgrade_weak_ref_spec ext (e :: extw) [] w1 e eob HI1 Ho ltac:(lia)))
    as (r & w2 & Hup & Hpost). rewrite (proj2 (Z.ltb_lt 0 (ref_count eob))) in Hpost by lia. rewrite Hmk in Hpost.
  destruct Hpost as (-> & HI2 & Hh2).
  exists w1, w2. split_and!; [|done|done| | | |].
  - destruct Hp as (pob & Hop & Hmp & _). unfold get_weak, get_checked, bind.
    by rewrite (di_getxt_eq p "___weak_event_module" DI_TYPE_WEAK_OBJECT pob (VWeak e) w) by
      (done || by rewrite Hmp || by eapply takable_refs_ok).
  - destruct Hp1 as (pob & Hop & Hq). exists pob. rewrite Hh2, lookup_insert_ne by done. done.
  - eexists. rewrite Hh2, lookup_insert_eq. split; [done|]. cbn. split_and!; [done|lia|lia|done].
  - intros q H1 H2. rewrite Hh2, lookup_insert_ne by done. unfold w1. cbn [heap set_heap].
    rewrite lookup_add_refs. by destruct (heap w !! q).
  - by rewrite (upgrade_trace _ _ _ _ Hup).
Qed.

(** the promise becomes the last one of the queue, which other promises are in already *)
Lemma enqueue_run ext extw p e d le lp q rp wp_ mp re we w : p <> e ->
  Inv ext extw [] w -> obj_at p lp rp wp_ mp w -> obj_at e le re we 0 w ->
  (0 < rp < 2 ^ 64 - 1)%Z -> (0 < re)%Z -> find_member DEAI_MEMBER_NAME_RAW le = Some (VObject d) ->
  queue_repr le q -> q <> [] -> (Z.of_nat (length q) < 2 ^ 31 - 1)%Z ->
  find_member "is_pending" lp = None ->
  exists w', enqueue_promise p e w = Ret tt w' /\ Inv ext extw [] w' /\
    obj_at p (lp ++ [("is_pending", VNint 1)]) (rp + 1) wp_ mp w' /\ obj_at e (pushed le q p) re we 0 w' /\
    kept_but p e w w' /\ trace w' = ExtCall "ev_idle_start" [VObject e] :: trace w.
Proof.
  intros Hpe HI Hp He Hrp Hre Hd Hq Hne Hlen Hpend.
  set (w1 := add_trace (ExtCall "ev_idle_start" [VObject e]) w).
  assert (Hp1 : obj_at p lp rp wp_ mp w1) by exact Hp. assert (He1 : obj_at e le re we 0 w1) by exact He.
  assert (HI1 : Inv ext extw [] w1) by by apply Inv_add_trace.
  destruct (rawset_plain_at ext extw e "pending_count" _ (VNint (Z.of_nat (length q) + 1)) le re we 0 w1 HI1 He1 Hre
    (qr_count _ _ Hq)) as (w2 & Hrun2 & HI2 & He2 & Hoth2 & Honly2 & Ht2); try done.
  assert (Hp2 : obj_at p lp rp wp_ mp w2) by by apply Hoth2.
  assert (Hf2 : find_member (pending_key (Z.of_nat (length q)))
    (del_member "pending_count" le ++ [("pending_count", VNint (Z.of_nat (length q) + 1))]) = None).
  { rewrite find_snoc_other, find_del_member_ne, (qr_items _ _ Hq) by done. by rewrite lookup_ge_None_2. }
  destruct (add_clone_at ext extw e (pending_key (Z.of_nat (length q))) (VObject p) _ _ _ _ w2 HI2 He2 Hre Hf2)
    as (w3 & Hrun3 & HI3 & He3 & Hoth3 & Honly3 & Ht3); try done; [by eapply takable_strong|].
  pose proof (Hoth3 p _ _ _ _ Hpe Hp2) as Hp3. simpl strong_refs in Hp3, He3. simpl weak_refs in Hp3, He3.
  rewrite cnt_cons_eq in Hp3. rewrite cnt_cons_ne in He3 by done. simpl cnt in Hp3, He3. rewrite !Z.add_0_r in He3.
  rewrite !Z.add_0_r in Hp3.
  destruct (add_clone_at ext extw p "is_pending" (VNint 1) _ _ _ _ w3 HI3 Hp3 ltac:(lia) Hpend)
    as (w4 & Hrun4 & HI4 & Hp4 & Hoth4 & Honly4 & Ht4); try done.
  assert (He4 : obj_at e (pushed le q p) re we 0 w4).
  { pose proof (Hoth4 e _ _ _ _ (not_eq_sym Hpe) He3) as H. simpl in H. by rewrite !Z.add_0_r in H. }
  simpl in Hp4. rewrite !Z.add_0_r in Hp4.
  exists w4. split_and!; [|done|done|done| |by rewrite Ht4, Ht3, Ht2].
  - unfold enqueue_promise.
    destruct He as (eob & Ho & Hm & Hrest).
    assert (Hborrow : di_object_borrow_deai e w = Ret (Some d) w).
    { unfold di_object_borrow_deai. rewrite (rawget_object_eq e DEAI_MEMBER_NAME_RAW eob w Ho).
      - unfold handler_of. by rewrite Hm, Hd.
      - rewrite Hm, Hd. by intros ? [= <-]. }
    rewrite (bind_ret_run _ _ _ _ _ Hborrow).
    erewrite bind_ret_run; [|reflexivity]. fold w1.
    rewrite (bind_ret_run _ _ _ _ _ (get_nint_at _ _ _ _ _ _ _ _ He1 (qr_count _ _ Hq))).
    rewrite s32_small by lia. rewrite (bind_ret_run _ _ _ _ _ Hrun2).
    rewrite (proj2 (Z.eqb_neq (Z.of_nat (length q)) 0)) by (destruct q; [done|simpl; lia]).
    unfold when. rewrite (bind_ret_run (ret tt) _ w2 tt w2 eq_refl).
    rewrite (bind_ret_run _ _ _ _ _ Hrun3). unfold bind. by rewrite di_member_clone_is, Hrun4.
  - intros x Hxp Hxe. by rewrite Honly4, Honly3, Honly2 by done.
Qed.

(** the references to the event module are given up again *)
Lemma release_event ext extw p e lp le rp wp_ mp re we w : p <> e -> 0 < env_fuel ->
  Inv (e :: ext) (e :: extw) [] w -> obj_at p lp rp wp_ mp w -> obj_at e le (re + 1) (we + 1) 0 w -> (0 < re)%Z ->
  exists w1 w2, di_unref_object e w = Ret tt w1 /\ di_drop_weak_ref e w1 = Ret tt w2 /\ Inv ext extw [] w2 /\
    obj_at p lp rp wp_ mp w2 /\ obj_at e le re we 0 w2 /\ kept_but p e w w2 /\ trace w2 = trace w.
Proof.
  intros Hpe Hfuel HI Hp (ob & Ho & Hm & Hr & Hw & Hk) Hre.
  destruct (di_unref_object_alive e ext (e :: extw) w ob Hfuel HI Ho ltac:(lia)) as (w1 & Hrun1 & HI1 & Hh1 & Ht1).
  assert (Ho1 : heap w1 !! e = Some (set_ref_count (ref_count ob - 1) ob)) by (rewrite Hh1; apply lookup_insert_eq).
  destruct (di_drop_weak_ref_alive e ext extw w1 _ HI1 Ho1) as (w2 & Hrun2 & HI2 & Hh2 & Ht2); [simpl; lia|].
  assert (Hne : forall q, q <> e -> heap w2 !! q = heap w !! q).
  { intros q Hq. by rewrite Hh2, lookup_insert_ne, Hh1, lookup_insert_ne. }
  exists w1, w2. split_and!; [done|done|done| | | |congruence].
  - destruct Hp as (pob & Hop & Hq). exists pob. by rewrite Hne.
  - eexists. rewrite Hh2, lookup_insert_eq. split; [done|]. simpl. split_and!; [done|lia|lia|done].
  - intros q _ Hq. by rewrite Hne.
Qed.

(** a promise that waits already *)
Lemma start_dispatch_waiting p l rc wc m v w : obj_at p l rc wc m w -> find_member "is_pending" l = Some v ->
  di_promise_start_dispatch p w = Ret tt w.
Proof.
  intros (ob & Ho & <- & _) Hf. unfold di_promise_start_dispatch.
  by rewrite (bind_ret_run _ _ _ _ _ (di_lookup_eq _ _ _ _ Ho)), Hf.
Qed.

Lemma start_dispatch_run ext extw p e d le lp q rp wp_ mp re we w : p <> e -> 0 < env_fuel ->
  Inv ext extw [] w -> obj_at p lp rp wp_ mp w -> obj_at e le re we 0 w ->
  (0 < rp < 2 ^ 64 - 1)%Z -> (0 < re < 2 ^ 64 - 1)%Z -> (we < 2 ^ 64 - 1)%Z ->
  find_member DEAI_MEMBER_NAME_RAW le = Some (VObject d) ->
  find_member "___weak_event_module" lp = Some (VWeak e) ->
  queue_repr le q -> q <> [] -> (Z.of_nat (length q) < 2 ^ 31 - 1)%Z ->
  find_member "is_pending" lp = None ->
  exists w', di_promise_start_dispatch p w = Ret tt w' /\ Inv ext extw [] w' /\
    obj_at p (lp ++ [("is_pending", VNint 1)]) (rp + 1) wp_ mp w' /\ obj_at e (pushed le q p) re we 0 w' /\
    kept_but p e w w' /\ trace w' = ExtCall "ev_idle_start" [VObject e] :: trace w.
Proof.
  intros Hpe Hfuel HI Hp He Hrp Hre Hwe Hd Hwk Hq Hne Hlen Hpend.
  destruct (take_event ext extw p e lp le rp wp_ mp re we w Hpe HI Hp He Hwk Hre Hwe)
    as (w1 & w2 & Hrun1 & Hrun2 & HI2 & Hp2 & He2 & Hk2 & Ht2).
  destruct (enqueue_run (e :: ext) (e :: extw) p e d le lp q rp wp_ mp (re + 1) (we + 1) w2 Hpe HI2 Hp2 He2 Hrp
    ltac:(lia) Hd Hq Hne Hlen Hpend) as (w3 & Hrun3 & HI3 & Hp3 & He3 & Hk3 & Ht3).
  destruct (release_event ext extw p e _ _ _ wp_ mp re we w3 Hpe Hfuel HI3 Hp3 He3 ltac:(lia))
    as (w4 & w5 & Hrun4 & Hrun5 & HI5 & Hp5 & He5 & Hk5 & Ht5).
  exists w5. split_and!; [|done|done|done| |congruence].
  - unfold di_promise_start_dispatch. destruct Hp as (ob & Ho & Hm & _).
    rewrite (bind_ret_run _ _ _ _ _ (di_lookup_eq _ _ _ _ Ho)), Hm, Hpend, (bind_ret_run _ _ _ _ _ Hrun1).
    unfold scoped at 1. rewrite (bind_ret_run _ _ _ _ _ Hrun2). unfold scoped. rewrite Hrun3.
    rewrite (bind_ret_run _ _ _ _ _ Hrun4). unfold ret at 1. by rewrite (bind_ret_run _ _ _ _ _ Hrun5).
  - intros x H1 H2. by rewrite Hk5, Hk3, Hk2.
Qed.
End queue.

(** ** The state of a promise and the operations on it *)

Record promise_state := PromiseState {
  ps_settled : option settlement;
  ps_handlers : list oid;
  ps_waits : bool;
  ps_queue : list oid
}.

(** is the promise put on the queue? *)
Definition enqueues (s : promise_state) (op : promise_op) : bool := starts (ps_settled s) op && negb (ps_waits s).

Definition promise_next (p : oid) (s : promise_state) (op : promise_op) : promise_state :=
  PromiseState (settle (ps_settled s) op) (listeners (ps_handlers s) op) (ps_waits s || enqueues s op)
    (if enqueues s op then ps_queue s ++ [p] else ps_queue s).

(** the promise [p] and the event module [e] in the store [w] *)
Record promise_sim (ext extw : list oid) (p e : oid) (s : promise_state) (w : world) : Prop := {
  sim_inv : Inv ext extw [] w;
  sim_promise : exists l rc wc m, obj_at p l rc wc m w /\ (0 < rc)%Z /\
    promise_repr l (ps_settled s) (ps_handlers s) /\ find_member "___weak_event_module" l = Some (VWeak e) /\
    find_member "is_pending" l = (if ps_waits s then Some (VNint 1) else None);
  sim_event : exists l rc wc d, obj_at e l rc wc 0 w /\ (0 < rc)%Z /\
    find_member DEAI_MEMBER_NAME_RAW l = Some (VObject d) /\ queue_repr l (ps_queue s)
}.

(** room in the counters of [o] for the references of an operation and one more *)
Definition room (o : oid) (op : promise_op) (w : world) : Prop := forall ob, heap w !! o = Some ob ->
  (ref_count ob + cnt o (strong_refs (op_value op)) + 1 < 2 ^ 64)%Z /\
  (weak_ref_count ob + cnt o (weak_refs (op_value op)) + 1 < 2 ^ 64)%Z.

Lemma op_refs_le f st op x : (0 <= cnt x (op_refs f st op) <= cnt x (f (op_value op)))%Z.
Proof.
  split; [apply cnt_nonneg|]. pose proof (cnt_nonneg x (f (op_value op))).
  unfold op_refs. destruct st, op; first [done | lia | change (cnt x []) with 0%Z; lia].
Qed.

Lemma queue_same l l' q : queue_repr l q -> (forall n, find_member n l' = find_member n l) -> queue_repr l' q.
Proof. intros [Hc Hi] Hl. split; [by rewrite Hl|]. intros i. by rewrite Hl. Qed.

Lemma kept_but_trans p e w1 w2 w3 : kept_but p e w1 w2 -> kept_but p e w2 w3 -> kept_but p e w1 w3.
Proof. intros H1 H2 q Hp He. by rewrite H2, H1. Qed.

Section refinement.
Context {E : Env} {F : Ffi}.

(** one operation from related states to related states *)
Lemma promise_op_sim ext extw p e s op w : p <> e -> 0 < env_fuel -> promise_sim ext extw p e s w ->
  op_ok op -> takable (strong_refs (op_value op)) (weak_refs (op_value op)) (heap w) -> room p op w -> room e op w ->
  (enqueues s op = true -> ps_queue s <> [] /\ Z.of_nat (length (ps_queue s)) < 2 ^ 31 - 1)%Z ->
  exists w', promise_run p op w = Ret tt w' /\ promise_sim ext extw p e (promise_next p s op) w' /\
    kept_but p e w w' /\
    trace w' = (if enqueues s op then [ExtCall "ev_idle_start" [VObject e]] else []) ++ trace w.
Proof.
  intros Hpe Hfuel [HI (lp & rp & wp_ & mp & Hp & Hrp & Hr & Hwk & Hpend) (le & re & we & d & He & Hre & Hd & Hq)]
    Hok Ht Hroomp Hroome Hqueue.
  destruct (promise_run_split ext extw p lp rp wp_ mp _ _ op w HI Hp Hrp Hr Hok Ht)
    as (w1 & Hrun & HI1 & Htk & l1 & Hp1 & Hr1 & Hkeep).
  destruct Htk as (Hoth & Honly & Htr1).
  pose proof (Hoth e _ _ _ _ (not_eq_sym Hpe) He) as He1.
  pose proof (op_refs_le strong_refs (ps_settled s) op) as Hs. pose proof (op_refs_le weak_refs (ps_settled s) op) as Hw.
  set (s1 := op_refs strong_refs _ _) in *. set (s2 := op_refs weak_refs _ _) in *.
  destruct Hp as (pob & Hpo & _ & Hrcp & _). destruct He as (eob & Heo & _ & Hrce & Hwce & _).
  pose proof (Hroomp _ Hpo) as [Hb1 _]. pose proof (Hroome _ Heo) as [Hb2 Hb3].
  pose proof (Hs p). pose proof (Hs e). pose proof (Hw e).
  assert (Hwk1 : find_member "___weak_event_module" l1 = Some (VWeak e))
    by (rewrite Hkeep; [done|by apply (bool_decide_unpack _)]).
  assert (Hpend1 : find_member "is_pending" l1 = if ps_waits s then Some (VNint 1) else None)
    by (rewrite Hkeep; [done|by apply (bool_decide_unpack _)]).
  assert (Hk1 : kept_but p e w w1) by (intros q Hq1 Hq2; by apply Honly).
  unfold promise_next. destruct (enqueues s op) eqn:Henq.
  - unfold enqueues in Henq. apply andb_prop in Henq as [Hst Hnw%negb_true_iff]. rewrite Hnw in *.
    destruct (Hqueue eq_refl) as [Hne Hlen]. rewrite Hst in Hrun.
    destruct (start_dispatch_run ext extw p e d le l1 (ps_queue s) _ _ mp _ _ w1 Hpe Hfuel HI1 Hp1 He1
      ltac:(lia) ltac:(lia) ltac:(lia) Hd Hwk1 Hq Hne Hlen Hpend1) as (w2 & Hrun2 & HI2 & Hp2 & He2 & Hk2 & Ht2).
    pose proof (obj_at_names _ _ _ _ _ _ _ _ HI1 He1) as Hnd.
    exists w2. split_and!; [by rewrite Hrun| |by eapply kept_but_trans|by rewrite Ht2, Htr1].
    constructor; [done| |].
    + eexists _, _, _, _. split_and!; [exact Hp2|lia| | |by apply find_snoc].
      * destruct Hr1 as [A1 A2 A3]. split; by rewrite find_snoc_other.
      * by rewrite find_snoc_other.
    + eexists _, _, _, d. split_and!; [exact He2|lia| |by apply queue_push].
      by rewrite pushed_other.
  - exists w1. split_and!; [|constructor; [done| |]|done|done].
    + rewrite Hrun. unfold enqueues in Henq. destruct (starts (ps_settled s) op); [|done].
      apply negb_false_iff in Henq. rewrite Henq in Hpend1. by eapply start_dispatch_waiting.
    + eexists _, _, _, _. rewrite orb_false_r. split_and!; [exact Hp1|lia|done|done|done].
    + eexists _, _, _, d. split_and!; [exact He1|lia|done|done].
Qed.

End refinement.

(** ** One dispatch *)

(** the arguments of the handlers *)
Definition settled_type (s : settlement) : Z := match s with Resolved _ => 0 | Rejected _ => 1 end.
Definition settled_value (s : settlement) : val := match s with Resolved v => v | Rejected e => VObject e end.

(** [di_promise_dispatch] reads the settlement with [di_get], which asks getters for what
    is not there *)
Definition no_getters (l : list member) : Prop :=
  find_member "__get" l = None /\ find_member "__get____resolved" l = None /\
  Forall (fun m => type_of (snd m) <> DI_TYPE_NIL) l.

Section dispatch.
Context {E : Env} {F : Ffi}.

(** the handlers are taken off the promise *)
Definition without_handlers (p : oid) (w : world) : world :=
  match heap w !! p with
  | Some ob => set_heap (<[p := set_members (del_member "___handlers" (members ob)) ob]> (heap w)) w
  | None => w
  end.
(** and references are taken to what the settlement holds *)
Definition dispatch_start (p : oid) (s : settlement) (w : world) : world :=
  let w := without_handlers p w in
  set_heap (add_refs (strong_refs (settled_value s)) (weak_refs (settled_value s)) (heap w)) w.

Lemma without_handlers_other p q w : q <> p -> heap (without_handlers p w) !! q = heap w !! q.
Proof. intros Hq. unfold without_handlers. case_match; [|done]. cbn [heap set_heap]. by rewrite lookup_insert_ne. Qed.
Lemma without_handlers_trace p w : trace (without_handlers p w) = trace w.
Proof. unfold without_handlers. by case_match. Qed.

Lemma remove_handlers ext extw p l rc wc m st hs w :
  Inv ext extw [] w -> obj_at p l rc wc m w -> (0 < rc)%Z -> promise_repr l st hs ->
  exists r w1 l1, di_remove_member_raw p (Some "___handlers") w = Ret r w1 /\
    match r with
    | inl _ => hs = []
    | inr v => exists nn, v = VArray DI_TYPE_OBJECT nn (map VObject hs)
    end /\
    Inv (hs ++ ext) extw [] w1 /\ obj_at p l1 rc wc m w1 /\ promise_repr l1 st [] /\
    (forall n, n <> "___handlers" -> find_member n l1 = find_member n l) /\ incl l1 l /\
    w1 = without_handlers p w.
Proof.
  intros HI (ob & Ho & <- & <- & <- & <-) Hp Hr.
  assert (Hwithout : forall l1, find_member "___handlers" l1 = None ->
    (forall n, n <> "___handlers" -> find_member n l1 = find_member n (members ob)) -> promise_repr l1 st []).
  { intros l1 Hn Hk. split; [by right|rewrite Hk by done; apply Hr|rewrite Hk by done; apply Hr]. }
  unfold di_remove_member_raw. rewrite (bind_ret_run _ _ _ _ _ (di_lookup_eq _ _ _ _ Ho)).
  destruct (pr_handlers _ _ _ Hr) as [Hf|[Hf ->]]; rewrite Hf.
  - destruct (wp_run _ _ _ (remove_member_spec _ _ _ _ _ _ _ _ HI Ho Hf)) as (v & w1 & Hrun & -> & Hok & Hw1 & HI1).
    change (strong_refs (VArray DI_TYPE_OBJECT (negb (length hs =? 0)%nat) (map VObject hs)))
      with (strong_refs (VArray DI_TYPE_OBJECT true (map VObject hs))) in HI1.
    change (weak_refs (VArray DI_TYPE_OBJECT (negb (length hs =? 0)%nat) (map VObject hs)))
      with (weak_refs (VArray DI_TYPE_OBJECT true (map VObject hs))) in HI1.
    rewrite strong_refs_objects, weak_refs_objects in HI1.
    pose proof (inv_obj _ _ _ _ HI _ _ Ho) as [_ _ _ _ _ _ _ _ Hna _ _].
    eexists _, w1, (del_member "___handlers" (members ob)).
    split_and!; [by rewrite (bind_ret_run _ _ _ _ _ Hrun)|by eexists|done| | | | |].
    + rewrite Hw1. eexists. split; [apply lookup_insert_eq|]. by split_and!.
    + apply Hwithout; [by apply find_del_member|]. intros n Hn. by apply find_del_member_ne.
    + intros n Hn. by apply find_del_member_ne.
    + intros x Hx. apply list_elem_of_In, (del_member_incl "___handlers"). by apply list_elem_of_In.
    + rewrite Hw1. unfold without_handlers. by rewrite Ho.
  - eexists _, w, (members ob). split_and!; [reflexivity|done|done|by exists ob|by apply Hwithout|done|by intros ?|].
    unfold without_handlers. rewrite Ho, del_member_none by done.
    rewrite insert_id by (by destruct ob). by rewrite set_heap_same.
Qed.

(** what [di_promise_dispatch] makes of its handlers *)
Lemma di_handlers_dispatch_eq et hs t v w : hs = [] \/ et = DI_TYPE_OBJECT ->
  di_handlers_dispatch et (map VObject hs) t v w = mapM_ (dispatch_one t v) hs w.
Proof.
  intros Het. unfold di_handlers_dispatch.
  assert (Hc : bool_decide (map VObject hs = []) || bool_decide (et = DI_TYPE_OBJECT) = true).
  { apply orb_true_iff. destruct Het as [->| ->]; [by left|right; by apply bool_decide_eq_true_2]. }
  rewrite Hc, (bind_ret_run _ _ _ tt w) by done. clear Hc Het. revert w.
  induction hs as [|h hs IH]; intros w; [done|]. cbn [map mapM_]. unfold bind.
  destruct (dispatch_one t v h w); [apply IH|done|done].
Qed.

Lemma scoped_run {A} (body : M A) cleanup a w w1 w2 : body w = Ret a w1 -> cleanup w1 = Ret tt w2 ->
  scoped body cleanup w = Ret a w2.
Proof. intros Hb Hc. unfold scoped. rewrite Hb. by rewrite (bind_ret_run _ _ _ _ _ Hc). Qed.

(** the settlement is read, with a reference to what it holds *)
Lemma read_settlement ext extw p l rc wc m s w :
  Inv ext extw [] w -> obj_at p l rc wc m w -> promise_repr l (Some s) [] -> no_getters l ->
  copyable (settled_value s) = true -> takable (strong_refs (settled_value s)) (weak_refs (settled_value s)) (heap w) ->
  let w1 := set_heap (add_refs (strong_refs (settled_value s)) (weak_refs (settled_value s)) (heap w)) w in
  match s with
  | Resolved v => di_getxt p (Some "___resolved") DI_TYPE_VARIANT false w = Ret (inr (VVariant (clone_val v)), None) w1
  | Rejected e => di_getxt p (Some "___resolved") DI_TYPE_VARIANT false w = Ret (inl (- ENOENT)%Z, None) w /\
      di_getxt p (Some "___rejected") DI_TYPE_OBJECT false w = Ret (inr (VObject e), None) w1
  end.
Proof.
  intros HI (ob & Ho & <- & _) Hr (Hg1 & Hg2 & Hnil) Hcp Ht. pose proof (takable_refs_ok _ _ _ _ _ _ HI Ht) as Hrefs.
  assert (Hok : members_ok ob).
  { intros n v Hf. apply find_member_In in Hf. pose proof (inv_obj _ _ _ _ HI _ _ Ho) as [_ _ _ _ _ _ _ Hva _ _ _].
    rewrite Forall_forall in Hva, Hnil. apply list_elem_of_In in Hf. split; [exact (Hva (n, v) Hf)|exact (Hnil (n, v) Hf)]. }
  pose proof (pr_resolved _ _ _ Hr) as Hres. pose proof (pr_rejected _ _ _ Hr) as Hrej. destruct s as [v|e]; cbv zeta.
  - apply (di_getxt_eq p "___resolved" DI_TYPE_VARIANT ob (VVariant v)); try done. by apply (Hok "___resolved").
  - split.
    + apply (di_getxt_none p "___resolved" DI_TYPE_VARIANT ob); try done; unfold handler_of.
      * change (handler_name "__get" (Some "___resolved")) with "__get____resolved". by rewrite Hg2.
      * by rewrite Hg1.
    + by apply (di_getxt_eq p "___rejected" DI_TYPE_OBJECT ob (VObject e)).
Qed.

Lemma no_getters_incl l l1 : (forall n, n <> "___handlers" -> find_member n l1 = find_member n l) -> incl l1 l ->
  no_getters l -> no_getters l1.
Proof.
  intros Hk Hin (H1 & H2 & H3). split_and!; [by rewrite Hk|by rewrite Hk|].
  rewrite Forall_forall in H3 |- *. intros x Hx. apply H3, list_elem_of_In, Hin. by apply list_elem_of_In.
Qed.

(** [di_promise_dispatch] around the calls of the handlers *)
Lemma dispatch_split ext extw p l rc wc m s hs w :
  Inv ext extw [] w -> obj_at p l rc wc m w -> (0 < rc)%Z -> promise_repr l (Some s) hs -> no_getters l ->
  copyable (settled_value s) = true -> takable (strong_refs (settled_value s)) (weak_refs (settled_value s)) (heap w) ->
  hs <> [] \/ settled_type s = 0%Z ->
  let w1 := dispatch_start p s w in
  exists l1,
    Inv (hs ++ strong_refs (settled_value s) ++ ext) (weak_refs (settled_value s) ++ extw) [] w1 /\
    obj_at p l1 (rc + cnt p (strong_refs (settled_value s))) (wc + cnt p (weak_refs (settled_value s))) m w1 /\
    promise_repr l1 (Some s) [] /\ (forall n, n <> "___handlers" -> find_member n l1 = find_member n l) /\
    taken_for p (strong_refs (settled_value s)) (weak_refs (settled_value s)) w w1 /\
    forall w2 w3, mapM_ (dispatch_one (settled_type s) (clone_val (settled_value s))) hs w1 = Ret tt w2 ->
      di_free_value (clone_val (settled_value s)) w2 = Ret tt w3 ->
      di_promise_dispatch p w = (_ <- di_delete_member_raw p (Some "is_pending") ;; ret tt) w3.
Proof.
  intros HI Ho Hp Hr Hng Hcp Ht Hcase w1.
  destruct (remove_handlers ext extw p l rc wc m _ hs w HI Ho Hp Hr)
    as (r & w0 & l1 & Hrun & Hres & HI0 & Ho0 & Hr0 & Hk0 & Hincl & Hw0).
  assert (Hoth : forall q, q <> p -> heap w0 !! q = heap w !! q)
    by (intros q Hq; rewrite Hw0; by apply without_handlers_other).
  assert (Htr : trace w0 = trace w) by (rewrite Hw0; apply without_handlers_trace).
  pose proof (taken_for_nothing p w w0 Hoth Htr) as Htk.
  assert (Ht0 : takable (strong_refs (settled_value s)) (weak_refs (settled_value s)) (heap w0)).
  { eapply takable_same_counts; [exact Ht|]. intros x ob Hx. destruct (decide (x = p)) as [->|Hne].
    - destruct Ho as (ob' & ? & _ & ? & ? & _), Ho0 as (ob1 & ? & _ & ? & ? & _). exists ob1. simplify_eq. split_and!; congruence.
    - exists ob. by rewrite Hoth. }
  pose proof (Inv_add_refs _ _ _ _ _ _ HI0 Ht0) as HI1.
  pose proof (read_settlement _ _ p l1 rc wc m s w0 HI0 Ho0 Hr0 (no_getters_incl _ _ Hk0 Hincl Hng) Hcp Ht0) as Hread.
  pose proof (obj_at_add_refs (strong_refs (settled_value s)) (weak_refs (settled_value s)) _ _ _ _ _ _ Ho0) as Ho1.
  cbv zeta in Hread.
  assert (Hw1 : set_heap (add_refs (strong_refs (settled_value s)) (weak_refs (settled_value s)) (heap w0)) w0 = w1)
    by (unfold w1, dispatch_start; by rewrite <- Hw0).
  rewrite Hw1 in *.
  exists l1. split_and!; [|done|done|done| |].
  - eapply Inv_perm; [|done|exact HI1]. rewrite !app_assoc. apply Permutation_app_tail, Permutation_app_comm.
  - assert (Htk1 : taken_for p (strong_refs (settled_value s)) (weak_refs (settled_value s)) w0 w1).
    { rewrite <- Hw1. split_and!; [|apply only_members_add_refs|done]. intros q lq rq wq mq _ Hq. by apply obj_at_add_refs. }
    exact (taken_for_trans _ _ _ _ _ _ _ _ Htk Htk1).
  - intros w2 w3 Hcalls Hfree. unfold di_promise_dispatch. rewrite (bind_ret_run _ _ _ _ _ Hrun).
    assert (Hhs : exists et, (hs = [] \/ et = DI_TYPE_OBJECT) /\
      (match r with inl _ => ret (DI_TYPE_ANY, []) | inr (VArray et _ l) => ret (et, l) | inr _ => stuck WildPointer end) w0 =
      Ret (et, map VObject hs) w0).
    { destruct r as [z|v]; [subst hs; exists DI_TYPE_ANY; auto|]. destruct Hres as [nn ->]. exists DI_TYPE_OBJECT. auto. }
    destruct Hhs as (et & Het & Hhs). rewrite (bind_ret_run _ _ _ _ _ Hhs). destruct s as [v|e].
    + rewrite (bind_ret_run _ _ _ _ _ Hread). cbn [variant_value settled_type settled_value] in *.
      rewrite (bind_ret_run _ _ _ None w3); [done|]. apply (scoped_run _ _ _ _ w2); [|exact Hfree].
      rewrite (bind_ret_run _ _ _ tt w2); [done|]. by rewrite di_handlers_dispatch_eq.
    + destruct Hread as [Hread1 Hread2]. destruct Hcase as [Hne|Hz]; [|done]. destruct hs as [|h hs]; [done|].
      rewrite (bind_ret_run _ _ _ _ _ Hread1). cbn [settled_type settled_value] in *. rewrite (bind_ret_run _ _ _ None w3); [done|].
      rewrite (bind_ret_run _ _ _ _ _ Hread2). cbn [map].
      rewrite (bind_ret_run _ _ _ tt w2); [|by rewrite (di_handlers_dispatch_eq et (h :: hs))].
      by rewrite (bind_ret_run _ _ _ _ _ Hfree).
Qed.
End dispatch.

(** freeing a value leaves a promise and an event module alone that are held *)
Lemma sim_frame X Y ext extw p e s w w' : promise_sim X Y p e s w -> Inv ext extw [] w' -> frame True None w w' ->
  p ∈ ext -> e ∈ ext -> promise_sim ext extw p e s w'.
Proof.
  intros [HI (l & rc & wc & m & Hp & _ & Hr & Hwk & Hpend) (le & re & we & d & He & _ & Hd & Hq)] HI' HF Hinp Hine.
  pose proof (fr_quiet _ _ _ _ HF I) as HQ.
  assert (Hobj : forall o lo ro wo mo, o ∈ ext -> obj_at o lo ro wo mo w ->
    exists ro' wo', obj_at o lo ro' wo' mo w' /\ (0 < ro')%Z).
  { intros o lo ro wo mo Hin (ob & Ho & <- & _ & _ & <-).
    destruct (Inv_held _ _ _ _ _ HI' Hin) as (ob' & Ho' & Hpos & _).
    destruct (qf_obj _ _ _ HQ _ _ Ho') as (ob0 & Ho0 & Hmk & _ & _ & Hk). simplify_eq.
    destruct Hk as [Hm _]; [lia|done|]. exists (ref_count ob'), (weak_ref_count ob'). split; [|done]. by exists ob'. }
  destruct (Hobj _ _ _ _ _ Hinp Hp) as (rc' & wc' & Hp' & Hrc'). destruct (Hobj _ _ _ _ _ Hine He) as (re' & we' & He' & Hre').
  constructor; [done|by exists l, rc', wc', m|by exists le, re', we', d].
Qed.

(** a promise that waited has been dispatched *)
Lemma stop_waiting `{E : Env} ext extw p e st hs q w : p <> e ->
  promise_sim ext extw p e (PromiseState st hs true q) w ->
  exists w', di_delete_member_raw p (Some "is_pending") w = Ret 0%Z w' /\
    promise_sim ext extw p e (PromiseState st hs false q) w' /\ trace w' = trace w.
Proof.
  intros Hpe [HI (l & rc & wc & m & Hp & Hrc & Hr & Hwk & Hpend) (le & re & we & d & He & Hre & Hd & Hq)].
  destruct (delete_plain_at ext extw p "is_pending" (VNint 1) l rc wc m w HI Hp Hrc Hpend eq_refl eq_refl)
    as (w' & Hrun & HI' & Hp' & Hoth & Ht).
  pose proof (obj_at_names _ _ _ _ _ _ _ _ HI Hp) as Hnd.
  exists w'. split_and!; [done| |done]. constructor; [done| |].
  - eexists _, _, _, _. split_and!; [exact Hp'|done| | |by apply find_del_member].
    + destruct Hr as [A1 A2 A3]. split; by rewrite find_del_member_ne.
    + by rewrite find_del_member_ne.
  - destruct He as (eob & Heo & Hrest). exists le, re, we, d. split_and!; [|done|done|done].
    exists eob. rewrite Hoth; done.
Qed.

Section handlers.
Context {E : Env} {F : Ffi} (N : Z).
Context (ext extw : list oid) (p e : oid) (s : settlement).
Notation refs := (strong_refs (settled_value s)).
Notation wrefs := (weak_refs (settled_value s)).

(** what the handlers do: [held hs hs' w] describes the worlds in which the handlers [hs]
    are still to be called and [hs'] were attached meanwhile; a call may do anything, as
    long as it ends there again *)
Context (held : list oid -> list oid -> world -> Prop) (attached : oid -> list oid) (emits : oid -> list extcall).
Hypothesis Hheld : forall hs hs' w, held hs hs' w -> (alive w < N)%Z /\
  exists q, p ∉ q /\ promise_sim (hs ++ refs ++ ext) (wrefs ++ extw) p e (PromiseState (Some s) hs' true q) w.
Hypothesis Hcall : forall h hs hs' w, held (h :: hs) hs' w ->
  exists w', dispatch_one (settled_type s) (clone_val (settled_value s)) h w = Ret tt w' /\
    held hs (hs' ++ attached h) w' /\ trace w' = emits h ++ trace w.

Lemma handler_calls hs : forall hs' w, held hs hs' w ->
  exists w', mapM_ (dispatch_one (settled_type s) (clone_val (settled_value s))) hs w = Ret tt w' /\
    held [] (hs' ++ concat (map attached hs)) w' /\ trace w' = concat (map emits (rev hs)) ++ trace w.
Proof using Hcall.
  induction hs as [|h hs IH]; intros hs' w Hw; [exists w; by rewrite app_nil_r|].
  destruct (Hcall h hs hs' w Hw) as (w1 & Hrun1 & Hw1 & Ht1).
  destruct (IH _ _ Hw1) as (w2 & Hrun2 & Hw2 & Ht2). exists w2. cbn [mapM_ map concat rev].
  rewrite (bind_ret_run _ _ _ _ _ Hrun1), app_assoc. split_and!; [done|done|].
  rewrite Ht2, Ht1, map_app, concat_app. simpl. by rewrite app_nil_r, app_assoc.
Qed.

End handlers.

(** ** The idle callback *)

Section idle.
Context {E : Env} {F : Ffi}.

(** a member that is one of several references to an object is deleted *)
Lemma delete_shared_at ext extw o n x l lx rc wc m rx wx mx w : 0 < env_fuel -> x <> o -> Inv ext extw [] w ->
  obj_at o l rc wc m w -> (0 < rc)%Z -> obj_at x lx rx wx mx w -> (1 < rx)%Z -> find_member n l = Some (VObject x) ->
  exists w', di_delete_member_raw o (Some n) w = Ret 0%Z w' /\ Inv ext extw [] w' /\
    obj_at o (del_member n l) rc wc m w' /\ obj_at x lx (rx - 1) wx mx w' /\ trace w' = trace w.
Proof.
  intros Hfuel Hne HI (ob & Ho & <- & <- & <- & <-) Hp (obx & Hx & <- & <- & <- & <-) Hrx Hf.
  destruct (delete_shared_run ext extw o n x ob obx w Hfuel Hne HI Ho Hx Hrx Hf) as (w' & Hrun & HI' & Hh & Ht).
  exists w'. split_and!; [done|done| | |done].
  - eexists. rewrite Hh, lookup_insert_ne by done. split; [apply lookup_insert_eq|]. by split_and!.
  - eexists. rewrite Hh, lookup_insert_eq. split; [done|]. by split_and!.
Qed.

(** The idle callback takes the promise that was put on the queue last, holds it, takes it
    off the queue and dispatches it, and goes on with the promises before it (and with what
    the handlers put on the queue): the promises that wait are dispatched in the reverse of
    the order in which they were settled. *)
Theorem idle_loop_takes_last ext extw p e st hs waits q w fuel : p <> e -> 0 < env_fuel ->
  promise_sim ext extw p e (PromiseState st hs waits (q ++ [p])) w -> (Z.of_nat (length q) < 2 ^ 31 - 1)%Z ->
  (forall ob, heap w !! p = Some ob -> ref_count ob < 2 ^ 64 - 1)%Z ->
  exists w1, promise_sim (p :: ext) extw p e (PromiseState st hs waits q) w1 /\ trace w1 = trace w /\
    idle_loop (S fuel) e w = (scoped (di_promise_dispatch p) (di_unref_object p) ;; idle_loop fuel e) w1.
Proof.
  intros Hpe Hfuel [HI (l & rc & wc & m & Hp & Hrc & Hr & Hwk & Hpend) (le & re & we & d & He & Hre & Hd & Hq)] Hlen Hroom.
  cbn [ps_queue ps_settled ps_handlers ps_waits] in *.
  assert (Hrcb : (rc < 2 ^ 64 - 1)%Z) by (destruct Hp as (ob & Ho & _ & <- & _); by apply Hroom).
  assert (Hitem : find_member (pending_key (Z.of_nat (length q))) le = Some (VObject p)).
  { rewrite (qr_items _ _ Hq). by rewrite lookup_app_r, Nat.sub_diag. }
  pose proof (takable_strong _ _ _ _ _ _ Hp (conj Hrc Hrcb)) as Ht.
  pose proof (Inv_add_refs _ _ _ _ _ _ HI Ht) as HI1.
  pose proof (obj_at_add_refs [p] [] _ _ _ _ _ _ Hp) as Hp1. pose proof (obj_at_add_refs [p] [] _ _ _ _ _ _ He) as He1.
  rewrite cnt_cons_eq in Hp1. rewrite cnt_cons_ne in He1 by congruence. simpl cnt in Hp1, He1. rewrite !Z.add_0_r in Hp1, He1.
  destruct (delete_shared_at (p :: ext) extw e (pending_key (Z.of_nat (length q))) p _ _ _ _ _ _ _ _ _ Hfuel Hpe HI1 He1 Hre
    Hp1 ltac:(lia) Hitem) as (w2 & Hrun2 & HI2 & He2 & Hp2 & Ht2).
  assert (Hcount : find_member "pending_count" (del_member (pending_key (Z.of_nat (length q))) le) =
    Some (VNint (Z.of_nat (length (q ++ [p]))))) by (rewrite find_del_member_ne by done; apply (qr_count _ _ Hq)).
  destruct (rawset_plain_at (p :: ext) extw e "pending_count" _ (VNint (Z.of_nat (length q))) _ _ _ _ w2 HI2 He2 Hre Hcount)
    as (w3 & Hrun3 & HI3 & He3 & Hoth3 & _ & Ht3); try done.
  pose proof (obj_at_names _ _ _ _ _ _ _ _ HI He) as Hnd.
  exists w3. split_and!; [constructor; [done| |]|by rewrite Ht3, Ht2|].
  - exists l, (rc + 1 - 1)%Z, wc, m. split_and!; [by apply Hoth3|lia|done|done|done].
  - eexists _, re, we, d. split_and!; [exact He3|done| |exact (queue_pop _ _ _ Hnd Hq)].
    by rewrite find_snoc_other, !find_del_member_ne.
  - cbn [idle_loop]. rewrite (bind_ret_run _ _ _ _ _ (get_nint_at _ _ _ _ _ _ _ _ He (qr_count _ _ Hq))).
    rewrite length_app, Nat2Z.inj_add. change (Z.of_nat (length [p])) with 1%Z.
    rewrite (proj2 (Z.eqb_neq _ _)) by lia. rewrite Z.add_simpl_r, s32_small by lia.
    assert (Hget : get_checked e (pending_key (Z.of_nat (length q))) DI_TYPE_OBJECT w =
      Ret (VObject p) (set_heap (add_refs [p] [] (heap w)) w)).
    { destruct He as (eob & Heo & <- & _). unfold get_checked, bind.
      by rewrite (di_getxt_eq e _ DI_TYPE_OBJECT eob (VObject p) w false Heo Hitem) by (done || by eapply takable_refs_ok). }
    rewrite (bind_ret_run _ _ _ _ _ Hget). unfold bind at 1. unfold scoped at 1.
    rewrite (bind_ret_run _ _ _ _ _ Hrun2), (bind_ret_run (DI_CHECK_OK 0) _ w2 tt w2 eq_refl), (bind_ret_run _ _ _ _ _ Hrun3).
    unfold bind at 2. unfold scoped. done.
Qed.
End idle.

(** ** Examples: the event module 2 and the promise 3 *)

(** the queue of concrete members *)
Definition queueb (l : list member) (q : list oid) : bool :=
  match find_member "pending_count" l with Some (VNint n) => (n =? Z.of_nat (length q))%Z | _ => false end &&
  forallb (fun i => match find_member (pending_key (Z.of_nat i)) l, q !! i with
    | Some (VObject o), Some o' => Pos.eqb o o'
    | _, _ => false
    end) (seq 0 (length q)) &&
  forallb (fun m => negb (String.prefix "pending_promise_" (fst m)) ||
    existsb (fun i => String.eqb (fst m) (pending_key (Z.of_nat i))) (seq 0 (length q))) l.

Lemma queueb_sound l q : queueb l q = true -> queue_repr l q.
Proof.
  unfold queueb. rewrite !andb_true_iff, !forallb_forall. intros [[Hc Hi] Hn]. split.
  { repeat case_match; try done. apply Z.eqb_eq in Hc. by subst. }
  intros i. destruct (decide (i < length q)) as [Hlt|Hge].
  { specialize (Hi i ltac:(apply in_seq; lia)).
    destruct (find_member (pending_key (Z.of_nat i)) l) as [v|]; [|done]. destruct v as [| | | | | | | |o| | | | | | | |]; try done.
    destruct (q !! i) as [o'|]; [|done]. apply Pos.eqb_eq in Hi. by subst. }
  rewrite lookup_ge_None_2 by lia. destruct (find_member (pending_key (Z.of_nat i)) l) as [v|] eqn:Hf; [|done].
  apply find_member_In in Hf. specialize (Hn _ Hf). apply orb_prop in Hn as [Hn|Hn].
  { cbn [fst] in Hn. unfold pending_key in Hn. simpl in Hn. by destruct (fmt_d _) in Hn. }
  apply existsb_exists in Hn as (j & Hj%in_seq & Heq%String.eqb_eq). apply pending_key_inj in Heq. lia.
Qed.

Definition event_module (n : Z) (q : list member) (weak : Z) : object :=
  plain ([("__deai", VObject 7); ("pending_count", VNint n)] ++ q) 1 weak.
Definition promise_members (l : list member) : list member := ("___weak_event_module", VWeak 2) :: l.

(** [promise_sim] of a concrete store *)
Ltac concrete_sim :=
  constructor;
  [ apply Invb_sound; vm_compute; reflexivity
  | eexists _, _, _, _; split; [eexists; split_and!; [vm_compute; reflexivity|reflexivity..]|];
    split_and!; [done|split; [first [by left|by right]|done..]|done|done]
  | eexists _, _, _, 7%positive; split; [eexists; split_and!; [vm_compute; reflexivity|reflexivity..]|];
    split_and!; [done|done|by apply queueb_sound] ].

(** the promise 3 has the handler 5, the promise 4 waits *)
Definition waiting_store : world :=
  store [(2%positive, event_module 1 [("pending_promise_0", VObject 4)] 2);
         (3%positive, plain (promise_members [("___handlers", VArray DI_TYPE_OBJECT true [VObject 5])]) 1 1);
         (4%positive, plain [] 1 1); (5%positive, handler_object); (7%positive, plain [] 1 1)].

Lemma waiting_store_sim :
  promise_sim [2; 3; 5]%positive [dead_weak_ref] 3 2 (PromiseState None [5%positive] false [4%positive]) waiting_store.
Proof. concrete_sim. Qed.


(** the promise 3 is settled and has the handler 5, which attaches the handler 6 to it *)
Definition settled_members : list member :=
  promise_members [("___handlers", VArray DI_TYPE_OBJECT true [VObject 5]);
                   ("___resolved", VVariant (VInt 7)); ("is_pending", VNint 1)].
Definition settled_store (queue : list member) (rc : Z) : world :=
  store [(2%positive, event_module (Z.of_nat (length queue)) queue 2);
         (3%positive, plain settled_members rc 1); (4%positive, plain [] 1 1);
         (5%positive, set_call (Some "attach") (plain [] 1 1)); (6%positive, handler_object); (7%positive, plain [] 1 1)].

Definition settled_sim (ext : list oid) (hs q : list oid) (waits : bool) (w : world) : Prop :=
  promise_sim ext [dead_weak_ref] 3 2 (PromiseState (Some (Resolved (VInt 7))) hs waits q) w.

Definition queued_store : world :=
  settled_store [("pending_promise_0", VObject 4); ("pending_promise_1", VObject 3)] 2.

Lemma idle_loop_takes_last_witness :
  exists w1, settled_sim [3; 2; 3; 6; 6]%positive [5%positive] [4%positive] true w1 /\ trace w1 = [] /\
    @idle_loop quiet_env null_ffi 1 2 queued_store =
      (scoped (@di_promise_dispatch quiet_env null_ffi 3) (@di_unref_object quiet_env 3) ;;
       @idle_loop quiet_env null_ffi 0 2) w1.
Proof.
  apply (@idle_loop_takes_last quiet_env null_ffi [2; 3; 6; 6]%positive [dead_weak_ref] 3 2
    (Some (Resolved (VInt 7))) [5%positive] true [4%positive] queued_store 0).
  - done.
  - simpl. lia.
  - concrete_sim.
  - by vm_compute.
  - intros ob Ho. vm_compute in Ho. injection Ho as <-. by vm_compute.
Defined.

(** an environment in which the handler 5 attaches the handler 6 *)
Definition attach_env : Env := {|
  env_fuel := 40;
  env_call := fun fn _ _ =>
    call_ext fn [] ;;
    if String.eqb fn "attach" then @di_promise_add_handler quiet_env null_ffi 3 6 ;; ret (inr VNil) else ret (inr VNil);
  env_dtor := fun _ _ => ret tt;
  env_log := fun _ _ => ret tt
|}.

Lemma attach_env_ok : @env_ok attach_env True 20.
Proof. intros d o ext extw pin w HI _ _. split; [done|apply frame_refl]. Qed.

Definition dispatched_store : world := settled_store [("pending_promise_0", VObject 4)] 1.
Definition before_call : world := dispatch_start 3 (Resolved (VInt 7)) dispatched_store.
Definition after_call : world :=
  match @dispatch_one attach_env null_ffi 0 (VInt 7) 5 before_call with Ret _ w => w | _ => before_call end.

Definition held_example (hs hs' : list oid) (w : world) : Prop :=
  (hs = [5%positive] /\ hs' = [] /\ w = before_call) \/ (hs = [] /\ hs' = [6%positive] /\ w = after_call).

