(* ===== verification/DBusFacts.v ===== *)
(** * D-Bus connections: replies find their promises

    A request leaves a promise on the connection under the serial of its message. The reply
    with that serial settles this promise and no other, and takes it off the connection. *)

From S2P Require Export PromiseFacts DBusConn.
From S2P Require Import GCTrace.

(** ** Serials *)

Lemma promise_key_inj m n : promise_key m = promise_key n -> m = n.
Proof. unfold promise_key. intros H%append_inj_l. by apply (pretty.pretty_Z_inj _ _ H). Qed.

(** ** References *)

Lemma find_member_strong n l x : find_member n l = Some (VObject x) -> x ∈ concat (map (fun m => strong_refs (snd m)) l).
Proof.
  induction l as [|[k v] l IH]; simpl; [done|]. destruct (String.eqb k n).
  - intros [= ->]. apply elem_of_app. left. by left.
  - intros H. apply elem_of_app. right. by apply IH.
Qed.

(** two holders are two references *)
Lemma two_holders h a b oa ob x : a <> b -> h !! a = Some oa -> h !! b = Some ob ->
  x ∈ obj_strong oa -> x ∈ obj_strong ob -> (2 <= refs_to h x)%Z.
Proof.
  intros Hab Ha Hb Hxa Hxb. rewrite (refs_to_delete h a oa x Ha).
  assert (Hpos : (0 < cnt x (obj_strong oa))%Z) by by apply cnt_pos.
  assert (Hb' : delete a h !! b = Some ob) by by rewrite lookup_delete_ne.
  pose proof (refs_to_pos _ _ _ _ Hb' Hxb). lia.
Qed.

(** an object with members is alive *)
Lemma members_alive ext extw w o ob n v : Inv ext extw [] w -> heap w !! o = Some ob ->
  find_member n (members ob) = Some v -> (0 < ref_count ob)%Z.
Proof.
  intros HI Ho Hf. destruct (inv_obj _ _ _ _ HI _ _ Ho) as [Hrc _ _ _ Hzo _ _ _ _ _ _].
  pose proof (cnt_nonneg o ext). pose proof (refs_to_nonneg (heap w) o).
  destruct (decide (ref_count ob = 0%Z)) as [Hz|]; [|lia]. destruct (Hzo Hz) as [Hm|Hin%not_elem_of_nil]; [|done].
  by rewrite Hm in Hf.
Qed.

(** ** A connection *)

Definition connection_at (c : oid) (l : list member) (conn : option Z) (n : Z) (w : world) : Prop :=
  exists ob, heap w !! c = Some ob /\ content ob = (l, PDBusConnection conn n).

(** the value a reply stands for *)
Definition reply_value (t : list val) : val := match t with [x] => x | _ => VTuple t end.

Section replies.
Context {E : Env} {F : Ffi} {Y : System} {L : Libdbus} {LC : LibdbusConn}.

Lemma sim_queue_member ext extw p e s w q : promise_sim ext extw p e s w -> q ∈ ps_queue s ->
  exists ob, heap w !! e = Some ob /\ q ∈ obj_strong ob.
Proof.
  intros [_ _ (l & rc & wc & d & (ob & Ho & Hm & _) & _ & _ & Hq)] Hin. exists ob. split; [done|].
  apply list_elem_of_lookup in Hin as [i Hi]. pose proof (qr_items _ _ Hq i) as Hf. rewrite Hi in Hf.
  unfold obj_strong. rewrite Hm. by apply find_member_strong in Hf.
Qed.

(** one listener less, with others left *)
Lemma nsignal_dec_run ext extw c l conn n w : Inv ext extw [] w -> connection_at c l conn n w -> (1 < n < 2 ^ 31)%Z ->
  exists ob w', heap w !! c = Some ob /\ di_dbus_nsignal_dec c w = Ret tt w' /\ Inv ext extw [] w' /\
    w' = set_heap (<[c := set_extra (PDBusConnection conn (n - 1)) ob]> (heap w)) w.
Proof.
  intros HI (ob & Ho & Hc) Hn. injection Hc as Hm Hx. exists ob. eexists. split_and!; [done| | |reflexivity].
  - unfold di_dbus_nsignal_dec, get_connection. unfold bind at 1. rewrite (bind_get_obj _ ob) by done. rewrite Hx.
    unfold ret at 1. cbn [fst snd]. rewrite s32_small by lia.
    unfold put_connection, upd_obj. unfold bind at 1. rewrite (bind_get_obj _ ob) by done.
    unfold put_obj, modify. by rewrite (proj2 (Z.eqb_neq _ _)) by lia.
  - eapply Inv_same_counts; [done|done|]. by split_and!.
Qed.

(** the promise of a request is taken off the connection; it waits on the queue *)
Lemma take_promise_off ext extw c p e s l conn n key w : 0 < env_fuel -> c <> p -> c <> e -> p <> e ->
  promise_sim ext extw p e s w -> connection_at c l conn n w -> find_member key l = Some (VObject p) ->
  p ∈ ps_queue s -> (1 < n < 2 ^ 31)%Z ->
  exists w', (_ <- di_delete_member_raw c (Some key) ;; di_dbus_nsignal_dec c) w = Ret tt w' /\
    promise_sim ext extw p e s w' /\ connection_at c (del_member key l) conn (n - 1) w' /\
    (forall q, q <> p -> q <> c -> heap w' !! q = heap w !! q) /\ trace w' = trace w.
Proof.
  intros Hfuel Hcp Hce Hpe Hsim (cob & Hc & [= Hm Hx]) Hf Hin Hn. pose proof Hsim as [HI Hp He].
  destruct (sim_queue_member _ _ _ _ _ _ _ Hsim Hin) as (eob & Heo & Hst).
  destruct Hp as (lp & rp & wp_ & mp & (pob & Hpo & Hmp & Hrp & Hwp & Hmk) & _ & Hrest).
  assert (Hrc : (1 < ref_count pob)%Z).
  { rewrite (oi_rc _ _ _ _ _ _ (inv_obj _ _ _ _ HI _ _ Hpo)). pose proof (cnt_nonneg p ext).
    assert (Hst2 : p ∈ obj_strong cob) by (unfold obj_strong; rewrite Hm; by eapply find_member_strong).
    pose proof (two_holders (heap w) c e cob eob p Hce Hc Heo Hst2 Hst). lia. }
  subst l. destruct (delete_shared_run ext extw c key p cob pob w Hfuel (not_eq_sym Hcp) HI Hc Hpo Hrc Hf)
    as (w1 & Hrun1 & HI1 & Hh1 & Ht1).
  assert (Hc1 : connection_at c (del_member key (members cob)) conn n w1).
  { eexists. rewrite Hh1, lookup_insert_ne by done. split; [apply lookup_insert_eq|]. unfold content. simpl. by rewrite Hx. }
  destruct (nsignal_dec_run ext extw c _ conn n w1 HI1 Hc1 Hn) as (ob & w2 & Ho & Hrun2 & HI2 & Hw2).
  rewrite Hh1, lookup_insert_ne, lookup_insert_eq in Ho by done. injection Ho as <-.
  assert (Hother : forall q, q <> p -> q <> c -> heap w2 !! q = heap w !! q).
  { intros q Hqp Hqc. rewrite Hw2. cbn [heap set_heap]. rewrite lookup_insert_ne, Hh1, !lookup_insert_ne by done. done. }
  exists w2. split_and!; [by rewrite (bind_ret_run _ _ _ _ _ Hrun1)| | |done|by rewrite Hw2].
  - constructor; [done| |].
    + eexists lp, (rp - 1)%Z, wp_, mp. split_and!; [|lia|apply Hrest..].
      eexists. rewrite Hw2. cbn [heap set_heap]. rewrite lookup_insert_ne, Hh1, lookup_insert_eq by done.
      split; [done|]. simpl. by rewrite Hrp.
    + destruct He as (le & re & we & d & (eob' & Heo' & Hrest') & He). exists le, re, we, d. split; [|done].
      exists eob'. by rewrite Hother.
  - eexists. rewrite Hw2. cbn [heap set_heap]. split; [apply lookup_insert_eq|]. done.
Qed.

(** a message without a promise changes nothing *)
Lemma reply_without_promise c l conn n msg is_error t w : connection_at c l conn n w ->
  find_member (promise_key (m_reply_serial msg)) l = None -> filter_reply c msg is_error t w = Ret tt w.
Proof.
  intros (ob & Ho & [= <- _]) Hf. unfold filter_reply.
  by rewrite (bind_ret_run _ _ _ _ _ (rawget_object_none _ _ _ _ Ho Hf)).
Qed.

End replies.

(** a bus that answers nothing *)
Definition quiet_bus : LibdbusConn := {|
  dbus_bus_get_private := fun _ => inl "no bus"; dbus_connection_open_private := fun _ _ => inl "no bus";
  dbus_message_new := fun _ => true; dbus_connection_send := fun _ _ => None; dbus_connection_watches := fun _ _ => [];
  dbus_dispatch_all := fun _ => ret tt; stack_garbage := 0
|}.

(** the connection 8 waits for the replies 11 and 12 and a signal; the promise of 12 is 3 *)
Definition waiting_connection : object :=
  set_extra (PDBusConnection (Some 9%Z) 3)
    (plain [("promise_for_request_11", VObject 4); ("promise_for_request_12", VObject 3)] 1 1).
Definition connected_store : world :=
  store [(2%positive, event_module 1 [("pending_promise_0", VObject 4)] 2);
         (3%positive, plain (promise_members [("___handlers", VArray DI_TYPE_OBJECT true [VObject 5])]) 2 1);
         (4%positive, plain [] 2 1); (5%positive, handler_object); (7%positive, plain [] 1 1);
         (8%positive, waiting_connection)].
Definition reply_12 : message := Message MsgMethodReturn (Some ":1.5") "/" "" "" 12 [].

Lemma connected_store_sim :
  promise_sim [2; 3; 5; 8]%positive [dead_weak_ref] 3 2 (PromiseState None [5%positive] false [4%positive]) connected_store.
Proof. concrete_sim. Qed.

