(* ===== verification/Lines.v ===== *)
(** * The output of a child, line by line

    The abstract view of what a child has written is one string; [split_lines] cuts it into
    the lines that are complete and the rest. [output_handler] sees it in chunks of
    whatever size [read] returns and keeps the rest in a [string_buf]: the lines it emits
    are those of the whole string. *)

From S2P Require Export Demo Lookup.

(** ** Strings *)

Lemma string_app_cons c (s t : string) : String c s +:+ t = String c (s +:+ t).
Proof. reflexivity. Qed.
Lemma string_app_nil_l (t : string) : "" +:+ t = t.
Proof. reflexivity. Qed.
Lemma string_app_nil_r (s : string) : s +:+ "" = s.
Proof. induction s as [|a s IH]; [done|]. by rewrite string_app_cons, IH. Qed.
Lemma string_app_assoc (a b c : string) : (a +:+ b) +:+ c = a +:+ (b +:+ c).
Proof. induction a as [|x a IH]; [done|]. by rewrite !string_app_cons, IH. Qed.
Lemma string_length_app (a b : string) : String.length (a +:+ b) = (String.length a + String.length b)%nat.
Proof. induction a as [|x a IH]; [done|]. rewrite string_app_cons. simpl. by rewrite IH. Qed.
Lemma string_concat_cons s l : String.concat "" (s :: l) = s +:+ String.concat "" l.
Proof. destruct l; simpl; [by rewrite string_app_nil_r|done]. Qed.
Lemma string_concat_app l1 l2 : String.concat "" (l1 ++ l2) = String.concat "" l1 +:+ String.concat "" l2.
Proof.
  induction l1 as [|s l1 IH]; [done|]. simpl app.
  by rewrite !string_concat_cons, IH, string_app_assoc.
Qed.

(** strings without a NUL *)
Definition NUL : Ascii.ascii := Ascii.zero.
Fixpoint no_nul (s : string) : bool :=
  match s with EmptyString => true | String c s => negb (Ascii.eqb c NUL) && no_nul s end.

Lemma no_nul_app a b : no_nul (a +:+ b) = no_nul a && no_nul b.
Proof. induction a as [|x a IH]; [done|]. rewrite string_app_cons. simpl. by rewrite IH, andb_assoc. Qed.

Lemma c_str_no_nul s : no_nul s = true -> c_str s = s.
Proof.
  induction s as [|c s IH]; [done|]. simpl. rewrite andb_true_iff, negb_true_iff. intros [Hc Hs].
  unfold NUL in Hc. rewrite Hc. by rewrite IH.
Qed.

Lemma substring_all s : String.substring 0 (String.length s) s = s.
Proof. induction s as [|c s IH]; [done|]. simpl. by rewrite IH. Qed.

Lemma split_once_app sep s line rest : split_once sep s = Some (line, rest) ->
  s = line +:+ String sep rest.
Proof.
  revert line. induction s as [|c s IH]; intros line; simpl; [done|].
  destruct (Ascii.eqb_spec c sep) as [->|]; [by intros [= <- <-]|].
  destruct (split_once sep s) as [[h r]|]; [|done]. intros [= <- <-]. by rewrite string_app_cons, (IH h).
Qed.

(** ** Lines *)

(** [cur] is the beginning of the line that [s] continues *)
Fixpoint lines_of (cur s : string) : list string * string :=
  match s with
  | EmptyString => ([], cur)
  | String c s =>
      if Ascii.eqb c newline then let '(ls, r) := lines_of "" s in (cur :: ls, r)
      else lines_of (cur +:+ String c "") s
  end.
Definition split_lines (s : string) : list string * string := lines_of "" s.

Lemma lines_of_split cur s : lines_of cur s =
  match split_once newline s with
  | None => ([], cur +:+ s)
  | Some (line, rest) => let '(ls, r) := split_lines rest in ((cur +:+ line) :: ls, r)
  end.
Proof.
  unfold split_lines. revert cur. induction s as [|c s IH]; intros cur; simpl.
  { by rewrite string_app_nil_r. }
  destruct (Ascii.eqb_spec c newline); [by rewrite string_app_nil_r|].
  rewrite IH. destruct (split_once newline s) as [[h r]|]; by rewrite string_app_assoc.
Qed.

Lemma lines_of_app cur a b : lines_of cur (a +:+ b) =
  let '(l1, r1) := lines_of cur a in let '(l2, r2) := lines_of r1 b in (l1 ++ l2, r2).
Proof.
  revert cur. induction a as [|c a IH]; intros cur.
  { rewrite string_app_nil_l. simpl. by destruct (lines_of cur b). }
  rewrite string_app_cons. simpl.
  destruct (Ascii.eqb c newline); [|apply IH]. rewrite IH.
  destruct (lines_of "" a) as [l1 r1]. by destruct (lines_of r1 b).
Qed.

(** every line and the rest, joined again: nothing is lost and nothing invented *)
Lemma lines_of_join cur s : let '(ls, r) := lines_of cur s in
  cur +:+ s = String.concat "" (map (fun l => l +:+ String newline "") ls) +:+ r.
Proof.
  revert cur. induction s as [|c s IH]; intros cur; simpl; [apply string_app_nil_r|].
  destruct (Ascii.eqb_spec c newline) as [->|].
  - specialize (IH ""). destruct (lines_of "" s) as [ls r]. cbn [map].
    rewrite string_concat_cons, !string_app_assoc, <- IH. done.
  - specialize (IH (cur +:+ String c "")). destruct (lines_of _ s) as [ls r].
    by rewrite <- IH, string_app_assoc.
Qed.

(** ** String buffers *)

(** the buffer holds the bytes [s] *)
Definition buf_repr (b : string_buf) (s : string) : Prop :=
  s = String.concat "" (map fst b) /\ Forall (fun n => snd n = Z.of_nat (String.length (fst n))) b.

Lemma string_buf_push_repr b s str : no_nul str = true -> buf_repr b s ->
  buf_repr (string_buf_push b str) (s +:+ str).
Proof.
  intros Hn [-> Hb]. unfold string_buf_push. split.
  - by rewrite map_app, string_concat_app, c_str_no_nul.
  - apply Forall_app. split; [done|]. by apply Forall_singleton.
Qed.

Lemma string_buf_lpush_push b str : no_nul str = true -> string_buf_lpush b str = string_buf_push b str.
Proof. intros Hn. unfold string_buf_lpush, string_buf_push. by rewrite c_str_no_nul. Qed.

Lemma string_buf_dump_repr b s : buf_repr b s -> string_buf_dump b = Some s.
Proof.
  intros [-> Hb]. unfold string_buf_dump. rewrite (proj2 (forallb_forall _ _)).
  - f_equal. f_equal. induction Hb as [|[t len] b Hn Hb IH]; [done|]. simpl in *. subst len.
    by rewrite IH, Nat2Z.id, substring_all.
  - intros [t len] Hin. rewrite Forall_forall in Hb.
    specialize (Hb (t, len) ltac:(by apply list_elem_of_In)). simpl in Hb. apply Z.leb_le. lia.
Qed.

(** ** The handlers of the output

    [log] is what the listeners have been told so far. They may do what they like, but for
    the child object itself: they neither stop listening nor destroy it. *)
Record recorder (emit : oid -> bool -> string -> M unit) (log : world -> list (bool * string)) (c : oid) : Prop := {
  rec_emit : forall id line w, exists w', emit c id line w = Ret tt w' /\
    log w' = log w ++ [(id, line)] /\ heap w' !! c = heap w !! c;
  rec_put : forall ob w, log (set_heap (<[c := ob]> (heap w)) w) = log w
}.

Section output.
Variables (emit : oid -> bool -> string -> M unit) (log : world -> list (bool * string)) (c : oid).
Hypothesis Hrec : recorder emit log c.
(** the rest of the child: its object and fields, and the buffer of the other stream *)
Variables (ob0 : object) (pid fd0 fd1 : Z) (id : bool) (other : option string_buf).

Definition child_with (b : option string_buf) : object :=
  set_extra (if id then PChild pid fd0 fd1 other b else PChild pid fd0 fd1 b other) ob0.
Definition child_at (b : string_buf) (w : world) : Prop := heap w !! c = Some (child_with (Some b)).

Lemma get_buf_eq b w : child_at b w -> get_buf c id w = Ret (Some b) w.
Proof.
  intros Hc. unfold get_buf, get_child, bind, get_obj. rewrite Hc. unfold child_with. simpl. by destruct id.
Qed.

Lemma put_buf_eq b b' w : child_at b w ->
  put_buf c id (Some b') w = Ret tt (set_heap (<[c := child_with (Some b')]> (heap w)) w).
Proof.
  intros Hc. unfold put_buf, get_child, upd_obj, bind, get_obj. rewrite Hc. unfold child_with. simpl.
  destruct id; simpl; by rewrite Hc.
Qed.

Lemma put_then_emit b b' line w : child_at b w -> exists w',
  (put_buf c id (Some b') ;; emit c id line) w = Ret tt w' /\ child_at b' w' /\
  log w' = log w ++ [(id, line)].
Proof using Hrec.
  intros Hc. rewrite (bind_ret_run _ _ _ _ _ (put_buf_eq b b' w Hc)).
  destruct (rec_emit _ _ _ Hrec id line (set_heap (<[c := child_with (Some b')]> (heap w)) w))
    as (w' & Hrun & Hlog & Hob).
  exists w'. rewrite (rec_put _ _ _ Hrec) in Hlog. split_and!; [done| |done].
  unfold child_at. rewrite Hob. apply lookup_insert_eq.
Qed.

(** the lines that become complete are emitted, the rest is in the buffer, which has a node *)
Definition line_effect (s new : string) (w w' : world) : Prop :=
  log w' = log w ++ map (pair id) (fst (lines_of s new)) /\
  exists b', child_at b' w' /\ buf_repr b' (snd (lines_of s new)) /\ b' <> [].

Lemma scan_chunk_spec fuel : forall pos b s w,
  no_nul pos = true -> child_at b w -> buf_repr b s -> (2 * String.length pos < fuel)%nat ->
  exists w', scan_chunk emit fuel c id pos w = Ret false w' /\ line_effect s pos w w'.
Proof using Hrec.
  induction fuel as [fuel IH] using (well_founded_induction Wf_nat.lt_wf).
  intros pos b s w Hn Hc Hb Hf. destruct fuel as [|fuel]; [lia|].
  cbn [scan_chunk]. rewrite (bind_ret_run _ _ _ _ _ (get_buf_eq b w Hc)). cbv beta iota.
  unfold line_effect. rewrite lines_of_split.
  destruct (split_once newline pos) as [[line rest]|] eqn:Hs.
  2:{ rewrite (bind_ret_run _ _ _ _ _ (put_buf_eq b _ w Hc)). eexists. split; [done|].
      rewrite (rec_put _ _ _ Hrec), app_nil_r. split; [done|]. eexists. split_and!.
      - apply lookup_insert_eq.
      - rewrite string_buf_lpush_push by done. by apply string_buf_push_repr.
      - by destruct b. }
  pose proof (split_once_app _ _ _ _ Hs) as ->. rewrite no_nul_app in Hn.
  apply andb_true_iff in Hn as [Hl Hn]. change (no_nul rest = true) in Hn.
  rewrite string_length_app in Hf. cbn [String.length] in Hf.
  (* the line is emitted and the buffer is empty *)
  set (say := if negb (string_buf_is_empty b) then _ else _).
  assert (Hsay : exists w1, say w = after_emit emit fuel c id rest w1 /\ child_at [] w1 /\
    log w1 = log w ++ [(id, s +:+ line)]).
  { unfold say. destruct b as [|n b]; cbn [string_buf_is_empty negb].
    - destruct Hb as [-> _]. cbn [map]. rewrite c_str_no_nul by done.
      destruct (rec_emit _ _ _ Hrec id line w) as (w1 & Hrun & Hlog & Hob). exists w1.
      rewrite (bind_ret_run _ _ _ _ _ Hrun). split_and!; [done| |done].
      unfold child_at. by rewrite Hob.
    - rewrite (string_buf_dump_repr _ (s +:+ line)) by (by apply string_buf_push_repr).
      destruct (put_then_emit (n :: b) [] (s +:+ line) w Hc) as (w1 & Hrun & Hc1 & Hlog).
      exists w1. by rewrite (bind_ret_run _ _ _ _ _ Hrun). }
  destruct Hsay as (w1 & -> & Hc1 & Hlog1). destruct fuel as [|fuel]; [lia|].
  cbn [after_emit]. rewrite (bind_ret_run _ _ _ _ _ (get_buf_eq [] w1 Hc1)). cbv beta iota.
  destruct (IH fuel ltac:(lia) rest [] "" w1 Hn Hc1 ltac:(by split; [|constructor]) ltac:(lia))
    as (w2 & Hrun & Hlog2 & b2 & Hc2 & Hb2 & Hne).
  exists w2. split; [exact Hrun|]. unfold split_lines in *.
  destruct (lines_of "" rest) as [ls r]. cbn [fst snd map] in *. split; [|eauto].
  rewrite Hlog2, Hlog1, <- app_assoc. done.
Qed.

Lemma read_loop_spec l : forall b s w,
  forallb no_nul l = true -> child_at b w -> buf_repr b s ->
  exists w' b', read_loop emit c id l w = Ret false w' /\
    log w' = log w ++ map (pair id) (fst (lines_of s (String.concat "" l))) /\
    child_at b' w' /\ buf_repr b' (snd (lines_of s (String.concat "" l))) /\
    (b' = [] <-> b = [] /\ l = []).
Proof using Hrec.
  induction l as [|pos l IH]; intros b s w Hn Hc Hb.
  { exists w, b. cbn. rewrite app_nil_r. naive_solver. }
  cbn [forallb] in Hn. apply andb_true_iff in Hn as [Hn Hl]. cbn [read_loop].
  destruct (scan_chunk_spec (S (2 * String.length pos)) pos b s w Hn Hc Hb ltac:(lia))
    as (w1 & Hrun & Hlog1 & b1 & Hc1 & Hb1 & Hne).
  rewrite (bind_ret_run _ _ _ _ _ Hrun). cbv beta iota.
  destruct (IH b1 _ w1 Hl Hc1 Hb1) as (w2 & b2 & Hrun2 & Hlog2 & Hc2 & Hb2 & Hne2).
  exists w2, b2. split; [exact Hrun2|]. rewrite string_concat_cons, lines_of_app.
  destruct (lines_of s pos) as [l1 r1]. cbn [fst snd] in *. destruct (lines_of r1 _) as [l2 r2].
  cbn [fst snd] in *. split_and!; [by rewrite Hlog2, Hlog1, map_app, app_assoc|done|done|].
  naive_solver.
Qed.
End output.

Section statements.
Context {E : Env}.
Variables (emit : oid -> bool -> string -> M unit) (log : world -> list (bool * string)) (c : oid).
Variables (ob0 : object) (pid fd0 fd1 : Z) (id : bool) (other : option string_buf).

(** a buffer that is left over holds no complete line *)
Lemma lines_of_rest s new : split_lines s = ([], s) -> split_lines (s +:+ new) = lines_of s new.
Proof.
  unfold split_lines. intros Hs. rewrite lines_of_app, Hs. by destruct (lines_of s new).
Qed.


(** When the child has exited and there is no more to read, what is left over is emitted as
    one more line and the buffer is empty. As soon as anything was read or left over this
    last line is emitted, also when it is empty: an output that ends in a newline is
    followed by an empty line that the child did not write. *)
Theorem drain_output_rest b s l w :
  recorder emit log c -> child_at c ob0 pid fd0 fd1 id other b w ->
  buf_repr b s -> split_lines s = ([], s) -> forallb no_nul l = true -> (b <> [] \/ l <> []) ->
  exists w', drain_output emit c id (Reads l false) w = Ret tt w' /\
    log w' = log w ++ map (pair id) (fst (split_lines (s +:+ String.concat "" l)) ++
                                     [snd (split_lines (s +:+ String.concat "" l))]) /\
    child_at c ob0 pid fd0 fd1 id other [] w'.
Proof.
  intros Hrec Hc Hb Hs Hn Hne. rewrite lines_of_rest by done.
  destruct (read_loop_spec emit log c Hrec ob0 pid fd0 fd1 id other l b s w Hn Hc Hb)
    as (w1 & b1 & Hrun & Hlog & Hc1 & Hb1 & Hnil).
  unfold drain_output. rewrite (bind_ret_run _ _ _ _ _ (get_buf_eq c ob0 pid fd0 fd1 id other b w Hc)).
  cbv beta iota. unfold output_handler. cbn [chunks at_eof when].
  rewrite (bind_ret_run _ _ _ tt w1) by (by rewrite (bind_ret_run _ _ _ _ _ Hrun)).
  rewrite (bind_ret_run _ _ _ _ _ (get_buf_eq c ob0 pid fd0 fd1 id other b1 w1 Hc1)).
  destruct b1 as [|n b1]; [naive_solver|]. cbv beta iota.
  rewrite (string_buf_dump_repr _ _ Hb1).
  destruct (put_then_emit emit log c Hrec ob0 pid fd0 fd1 id other (n :: b1) [] (snd (lines_of s (String.concat "" l))) w1 Hc1)
    as (w2 & Hrun2 & Hc2 & Hlog2).
  exists w2. split_and!; [exact Hrun2| |done]. by rewrite Hlog2, Hlog, map_app, app_assoc.
Qed.
End statements.

(** ** Examples: lines recorded in the trace *)

Definition record_line (_ : oid) (id : bool) (line : string) : M unit :=
  call_ext (SIGNAL_NAME id) [VString (Some line)].
Definition recorded (w : world) : list (bool * string) :=
  rev (map (fun e => (String.eqb (ext_fn e) (SIGNAL_NAME true),
                      match ext_args e with [VString (Some s)] => s | _ => "" end)) (trace w)).

Lemma record_line_recorder c : recorder record_line recorded c.
Proof.
  split; [|done]. intros id line w. eexists. split_and!; [reflexivity| |reflexivity].
  unfold recorded. simpl. by destruct id.
Qed.

Definition child_store : world :=
  store [(2%positive, set_extra (PChild 77 5 6 (Some [("ab", 2%Z)]) (Some [])) (plain [] 1 1))].
Definition nl : string := String newline "".


Lemma drain_output_rest_witness :
  exists w', @drain_output quiet_env record_line 2 false (Reads ["c" +:+ nl] false) child_store = Ret tt w' /\
    recorded w' = [(false, "abc"); (false, "")] /\
    child_at 2 (plain [] 1 1) 77 5 6 false (Some []) [] w'.
Proof.
  apply (drain_output_rest (E := quiet_env) record_line recorded 2 (plain [] 1 1) 77 5 6 false (Some [])
    [("ab", 2%Z)] "ab").
  - apply record_line_recorder.
  - vm_compute. reflexivity.
  - split; [reflexivity|]. apply Forall_singleton. reflexivity.
  - reflexivity.
  - reflexivity.
  - left. discriminate.
Defined.
