(* ===== verification/Logging.v ===== *)
(** * Log levels, the filter, and environment variables

    What the names of levels mean, that the threshold is always one of the four levels, that
    the filter is the comparison of the two, and that the environment object is a map. *)

From S2P Require Export Lines.

(** ** Names of levels *)

Definition level_names : list (Z * string) :=
  [(DI_LOG_ERROR, "error"); (DI_LOG_WARN, "warn"); (DI_LOG_INFO, "info"); (DI_LOG_DEBUG, "debug")].

Lemma c_tolower_nul c : Ascii.eqb (c_tolower c) NUL = Ascii.eqb c NUL.
Proof. destruct c as [[] [] [] [] [] [] [] []]; reflexivity. Qed.

Lemma strncasecmp_prefix s : forall name, no_nul s = true ->
  string_map c_tolower name = name -> no_nul name = true ->
  strncasecmp_eq (String.length s) s name = String.prefix (string_map c_tolower s) name.
Proof.
  induction s as [|c s IH]; intros name Hs Hlow Hn; [by destruct name|].
  cbn [no_nul String.length strncasecmp_eq string_map String.prefix] in *.
  apply andb_true_iff in Hs as [Hc%negb_true_iff Hs].
  change Ascii.zero with NUL. destruct name as [|d name].
  - by rewrite c_tolower_nul, Hc.
  - cbn [string_map no_nul] in *. injection Hlow as Hd Hlow.
    apply andb_true_iff in Hn as [_ Hn]. rewrite Hd, c_tolower_nul, Hc. cbn [String.prefix].
    destruct (Ascii.eqb_spec (c_tolower c) d) as [->|Hne]; cbn [negb].
    + destruct (Ascii.ascii_dec d d); [|done]. by apply IH.
    + by destruct (Ascii.ascii_dec (c_tolower c) d).
Qed.

(** the first name that starts with the string, in lower case *)
Definition first_level (l : string) : option Z :=
  fst <$> List.find (fun nl => String.prefix (string_map c_tolower l) (snd nl)) level_names.

Lemma level_lookup_eq s : no_nul s = true ->
  level_lookup (Some s) = default (DI_LOG_DEBUG + 1)%Z (first_level s).
Proof.
  intros Hs. unfold level_lookup, first_level, di_string_length, di_string_bytes. cbn [default].
  rewrite !strncasecmp_prefix by done. cbn [level_names List.find snd].
  do 4 (destruct (String.prefix _ _); [done|]). done.
Qed.

Lemma level_lookup_bounds l : (DI_LOG_ERROR <= level_lookup l <= DI_LOG_DEBUG + 1)%Z.
Proof. unfold level_lookup, DI_LOG_ERROR, DI_LOG_WARN, DI_LOG_INFO, DI_LOG_DEBUG. repeat case_match; lia. Qed.

(** Printing a level and looking the name up gives the level back; a string is taken for the
    first of error, warn, info and debug that starts with it, whatever its case, so that
    every prefix of a name is accepted, the empty string included (as error), and what is
    the prefix of none gives the invalid level 4. *)
Theorem level_lookup_correct :
  (forall n s, level_tostring n = Some s -> level_lookup (Some s) = n) /\
  (forall s, no_nul s = true -> level_lookup (Some s) = default (DI_LOG_DEBUG + 1)%Z (first_level s)) /\
  level_lookup None = DI_LOG_ERROR.
Proof.
  split_and!; [|by apply level_lookup_eq|done]. intros n s. unfold level_tostring.
  do 4 (lazymatch goal with |- (if (n =? ?k)%Z then _ else _) = _ -> _ =>
          destruct (Z.eqb_spec n k) as [->|]; [by intros [= <-]|] end).
  done.
Qed.

(** ** The threshold *)

Section logging.
Context {E : Env} {F : Ffi}.

Definition log_at (l : oid) (n : Z) (w : world) : Prop :=
  (exists ob, heap w !! l = Some ob /\ extra ob = PLog n) /\
  (DI_LOG_ERROR <= n <= DI_LOG_DEBUG)%Z.

Lemma get_level_eq l ob n w : heap w !! l = Some ob -> extra ob = PLog n -> get_level l w = Ret n w.
Proof. intros Ho He. unfold get_level. by rewrite (bind_get_obj _ ob), He. Qed.

(** Setting the level by name: a name that is known becomes the threshold of the module and
    the one that is used when the module is gone, and [get_log_level] then prints it; an
    unknown name is refused with -1 and changes nothing. The threshold stays one of the
    four levels, so that it can always be printed. *)
Theorem set_log_level_correct l n ll w :
  log_at l n w ->
  let n' := level_lookup ll in
  if (DI_LOG_DEBUG <? n')%Z then set_log_level l ll w = Ret (-1)%Z w
  else exists w', set_log_level l ll w = Ret 0%Z w' /\ log_at l n' w' /\ saved_log_level w' = n' /\
    (forall p, p <> l -> heap w' !! p = heap w !! p) /\
    exists s, level_tostring n' = Some s /\ get_log_level l w' = Ret s w'.
Proof.
  intros [(ob & Ho & He) Hn] n'. pose proof (level_lookup_bounds ll) as Hb. fold n' in Hb.
  unfold set_log_level, di_set_log_level. fold n'. destruct (Z.ltb_spec DI_LOG_DEBUG n') as [|Hle]; [done|].
  rewrite (bind_ret_run _ _ _ _ _ (get_level_eq l ob n w Ho He)).
  eexists. split; [unfold upd_obj, bind, get_obj; rewrite Ho; reflexivity|].
  set (w' := set_saved_log_level _ _).
  assert (Ho' : heap w' !! l = Some (set_extra (PLog n') ob)) by apply lookup_insert_eq.
  split_and!; [|done| |].
  - split; [|lia]. eexists. by split.
  - intros p Hp. unfold w'. simpl. by rewrite lookup_insert_ne.
  - assert (Hs : exists s, level_tostring n' = Some s).
    { unfold level_tostring, DI_LOG_ERROR, DI_LOG_WARN, DI_LOG_INFO, DI_LOG_DEBUG in *.
      destruct (Z.eqb_spec n' 3); [eauto|]. destruct (Z.eqb_spec n' 2); [eauto|].
      destruct (Z.eqb_spec n' 1); [eauto|]. destruct (Z.eqb_spec n' 0); [eauto|]. lia. }
    destruct Hs as [s Hs]. exists s. split; [done|]. unfold get_log_level.
    by rewrite (bind_ret_run _ _ _ _ _ (get_level_eq l _ n' w' Ho' eq_refl)), Hs.
Qed.

(** The filter: a message of a level above the threshold is dropped before anything is
    looked up or called, and reports success; any other message goes to the [write] method
    of the target once, whose result, or error code, is the result; with no target there is
    nothing to do. *)
Theorem di_log_filters l n self lvl msg nint_left ob w :
  heap w !! l = Some ob -> extra ob = PLog n -> members_ok ob ->
  let run := di_log nint_left l [self; VString lvl; VString msg] w in
  if (n <? level_lookup lvl)%Z then run = Ret (inr (VNint nint_left)) w
  else match handler_of ob "log_target" with
       | None => run = Ret (inr (VNint 0)) w
       | Some target => forall r w', di_callr target "write" DI_TYPE_NINT [VString msg] w = Ret r w' ->
           match r with
           | inl rc => run = Ret (inr (VNint rc)) w'
           | inr (VNint k) => run = Ret (inr (VNint k)) w'
           | inr _ => True
           end
       end.
Proof.
  intros Ho He Hok run. unfold run, di_log. cbn [string_arg].
  rewrite (bind_ret_run _ _ _ _ _ (get_level_eq l ob n w Ho He)).
  destruct (n <? level_lookup lvl)%Z; [done|].
  rewrite (bind_ret_run _ _ _ _ _ (rawget_object_eq l "log_target" ob w Ho ltac:(apply Hok))).
  destruct (handler_of ob "log_target") as [target|]; [|done].
  intros r w' Hr. rewrite (bind_ret_run _ _ _ _ _ Hr). by destruct r as [|[]].
Qed.
End logging.

Definition log_store : world :=
  store [(2%positive, set_extra (PLog DI_LOG_WARN) (plain [("log_target", VObject 3)] 1 1));
         (3%positive, plain [("write", VObject 4)] 1 1);
         (4%positive, set_call (Some "write") (plain [] 1 1))].

Lemma set_log_level_correct_witness :
  set_log_level 2 (Some "loud") log_store = Ret (-1)%Z log_store /\
  exists w', set_log_level 2 (Some "Debug") log_store = Ret 0%Z w' /\ log_at 2 DI_LOG_DEBUG w' /\
    saved_log_level w' = DI_LOG_DEBUG /\
    (forall p, p <> 2%positive -> heap w' !! p = heap log_store !! p) /\
    exists s, level_tostring DI_LOG_DEBUG = Some s /\ get_log_level 2 w' = Ret s w'.
Proof.
  assert (Hat : log_at 2 DI_LOG_WARN log_store).
  { split; [|vm_compute; split; discriminate]. eexists. split; [vm_compute; reflexivity|reflexivity]. }
  split; [exact (set_log_level_correct 2 DI_LOG_WARN (Some "loud") log_store Hat)|
          exact (set_log_level_correct 2 DI_LOG_WARN (Some "Debug") log_store Hat)].
Defined.

Definition answer_env : Env := {|
  env_fuel := 40;
  env_call := fun _ _ _ => ret (inr (VNint 7));
  env_dtor := fun _ _ => ret tt;
  env_log := fun _ _ => ret tt
|}.

Definition log_object : object := default (plain [] 0 0) (heap log_store !! 2%positive).

Lemma di_log_filters_witness :
  @di_log answer_env null_ffi 9 2 [VObject 2; VString (Some "info"); VString (Some "m")] log_store =
    Ret (inr (VNint 9)) log_store /\
  exists w', @di_log answer_env null_ffi 9 2 [VObject 2; VString (Some "e"); VString (Some "m")] log_store =
    Ret (inr (VNint 7)) w'.
Proof.
  assert (Hok : members_ok log_object).
  { intros n v. change (members log_object) with [("log_target", VObject 3)]. cbn [find_member].
    destruct (String.eqb _ n); [by intros [= <-]|done]. }
  assert (Ho : heap log_store !! 2%positive = Some log_object) by (vm_compute; reflexivity).
  split.
  - exact (di_log_filters (E := answer_env) (F := null_ffi) 2 DI_LOG_WARN (VObject 2) (Some "info") (Some "m") 9
      log_object log_store Ho eq_refl Hok).
  - eexists. refine (di_log_filters (E := answer_env) (F := null_ffi) 2 DI_LOG_WARN (VObject 2) (Some "e") (Some "m") 9
      log_object log_store Ho eq_refl Hok (inr (VNint 7)) _ _).
    vm_compute. reflexivity.
Defined.

(** ** The environment *)

Lemma getenv_cons kv e k : Os.getenv (kv :: e) k =
  if String.eqb (fst kv) k then Some (snd kv) else Os.getenv e k.
Proof. unfold Os.getenv. cbn [find]. by destruct (String.eqb (fst kv) k). Qed.

Lemma getenv_app e1 e2 k : Os.getenv (e1 ++ e2) k =
  match Os.getenv e1 k with Some v => Some v | None => Os.getenv e2 k end.
Proof.
  induction e1 as [|kv e1 IH]; [done|]. cbn [app]. rewrite !getenv_cons, IH.
  by destruct (String.eqb (fst kv) k).
Qed.

Lemma unsetenv_cons kv e key : Os.unsetenv (kv :: e) key =
  if decide (fst kv <> key) then kv :: Os.unsetenv e key else Os.unsetenv e key.
Proof. exact (filter_cons (fun kv => fst kv <> key) kv e). Qed.

Lemma getenv_unsetenv e key k :
  Os.getenv (Os.unsetenv e key) k = if String.eqb k key then None else Os.getenv e k.
Proof.
  induction e as [|kv e IH]; [by destruct (String.eqb k key)|].
  rewrite unsetenv_cons, getenv_cons. destruct (decide (fst kv <> key)) as [Hne|Heq].
  - rewrite getenv_cons, IH. destruct (String.eqb_spec (fst kv) k), (String.eqb_spec k key); congruence.
  - rewrite IH. destruct (String.eqb_spec k key), (String.eqb_spec (fst kv) k); try done.
    exfalso. apply Heq. congruence.
Qed.

Lemma getenv_setenv e key v k :
  Os.getenv (Os.setenv e key v) k = if String.eqb k key then Some v else Os.getenv e k.
Proof.
  unfold Os.setenv. rewrite getenv_app, getenv_unsetenv.
  rewrite getenv_cons. cbn [fst snd]. rewrite (String.eqb_sym key k).
  destruct (String.eqb k key); [done|]. by destruct (Os.getenv e k).
Qed.

Lemma chars_alloc_nonempty s : s <> "" -> di_string_to_chars_alloc (Some s) = Some s.
Proof.
  intros Hs. unfold di_string_to_chars_alloc, di_string_to_chars, di_string_length. simpl.
  destruct s; [done|]. simpl. by rewrite (proj2 (Nat.ltb_ge _ _) (le_n _)).
Qed.

(** A variable that was set is read back and is absent once it is unset; no other variable
    changes. This is for names and values without a NUL that are not empty: setting a
    variable to the empty string is a NULL pointer for [setenv]. *)
Theorem di_env_set_get e key v : key <> "" -> v <> "" -> no_nul key = true -> no_nul v = true ->
  (exists e' e'', Os.di_env_set e (Some key) (Some v) = Some e' /\
    Os.di_env_get e' (Some key) = Some (VVariant (VStringLiteral v)) /\
    Os.di_env_unset e' (Some key) = Some e'' /\ Os.di_env_get e'' (Some key) = Some VLast /\
    (forall k, k <> key -> Os.getenv e' k = Os.getenv e k /\ Os.getenv e'' k = Os.getenv e k)) /\
  Os.di_env_set e (Some key) (Some "") = None.
Proof.
  intros Hk Hv Hnk Hnv. unfold Os.di_env_set, Os.di_env_get, Os.di_env_unset.
  rewrite !chars_alloc_nonempty by done. rewrite !c_str_no_nul by done. split; [|done].
  exists (Os.setenv e key v), (Os.unsetenv (Os.setenv e key v) key).
  rewrite getenv_unsetenv, getenv_setenv, String.eqb_refl. cbn [fmap option_fmap option_map].
  rewrite c_str_no_nul by done. split_and!; try done.
  intros k Hne. rewrite getenv_unsetenv, !getenv_setenv, (proj2 (String.eqb_neq k key) Hne). done.
Qed.

Lemma di_env_set_get_witness :
  (exists e' e'', Os.di_env_set [("HOME", "/root")] (Some "LANG") (Some "C") = Some e' /\
    Os.di_env_get e' (Some "LANG") = Some (VVariant (VStringLiteral "C")) /\
    Os.di_env_unset e' (Some "LANG") = Some e'' /\ Os.di_env_get e'' (Some "LANG") = Some VLast /\
    (forall k, k <> "LANG" -> Os.getenv e' k = Os.getenv [("HOME", "/root")] k /\
                              Os.getenv e'' k = Os.getenv [("HOME", "/root")] k)) /\
  Os.di_env_set [("HOME", "/root")] (Some "LANG") (Some "") = None.
Proof. apply (di_env_set_get [("HOME", "/root")] "LANG" "C"); [discriminate|discriminate|reflexivity|reflexivity]. Defined.
