(* ===== verification/Signature.v ===== *)
(** * D-Bus signatures: the parser against a grammar

    [sty] is the abstract syntax of single complete types, [print] their text. The parser of
    [signature.c] accepts exactly the texts of sequences of types and builds their tree; the
    signature that is computed from a value is the text of a type and parses back to the
    same tree. *)

From S2P Require Export Lines.
From Stdlib Require Import Ascii.

Inductive sty :=
  | SBasic (c : Ascii.ascii)
  | SVariant
  | SArray (t : sty)
  | SStruct (l : list sty).

Section sty_induction.
Variable P : sty -> Prop.
Hypothesis Hbasic : forall c, P (SBasic c).
Hypothesis Hvariant : P SVariant.
Hypothesis Harray : forall t, P t -> P (SArray t).
Hypothesis Hstruct : forall l, Forall P l -> P (SStruct l).

Fixpoint sty_ind' (t : sty) : P t :=
  match t with
  | SBasic c => Hbasic c
  | SVariant => Hvariant
  | SArray t => Harray t (sty_ind' t)
  | SStruct l => Hstruct l ((fix go (l : list sty) : Forall P l :=
      match l with
      | [] => @List.Forall_nil _ P
      | x :: l => @List.Forall_cons _ P x l (sty_ind' x) (go l)
      end) l)
  end.
End sty_induction.

Fixpoint print (t : sty) : string :=
  match t with
  | SBasic c => String c ""
  | SVariant => "v"
  | SArray t => String "a"%char (print t)
  | SStruct l => String "("%char (String.concat "" (map print l) +:+ ")")
  end.
Definition print_all (l : list sty) : string := String.concat "" (map print l).

(** the tree the parser builds *)
Fixpoint to_sig (t : sty) : dbus_signature :=
  match t with
  | SBasic c => Sig (Some (String c "")) 0 []
  | SVariant => Sig (Some "v") 0 []
  | SArray u => Sig (Some (print t)) 1 [to_sig u]
  | SStruct l => Sig (Some (print t)) (Z.of_nat (length l)) (map to_sig l)
  end.

Section grammar.
Context {E : Env} {L : Libdbus} {LL : LibdbusLaws L}.

(** a struct may be empty: the parser takes the text of one *)
Fixpoint sty_ok (t : sty) : bool :=
  match t with
  | SBasic c => dbus_type_is_basic c
  | SVariant => true
  | SArray t => sty_ok t
  | SStruct l => forallb sty_ok l
  end.

(** the strings the parser passes around: no data when nothing is left *)
Definition rest_of (s : string) : di_string := match s with EmptyString => None | _ => Some s end.

Lemma rest_of_cons c s : rest_of (String c s) = Some (String c s).
Proof. done. Qed.
Lemma rest_of_bytes s : di_string_bytes (rest_of s) = s.
Proof. by destruct s. Qed.
Lemma rest_of_length s : di_string_length (rest_of s) = String.length s.
Proof. unfold di_string_length. by rewrite rest_of_bytes. Qed.

Lemma di_suffix_one c s : di_suffix (Some (String c s)) 1 = rest_of s.
Proof.
  destruct s as [|d s]; [done|]. unfold di_suffix, di_string_length.
  change (di_string_bytes (Some (String c (String d s)))) with (String c (String d s)).
  change (String.length (String c (String d s))) with (S (String.length (String d s))).
  rewrite (proj2 (Nat.leb_gt _ _)) by (simpl; lia). rewrite Nat.sub_1_r. cbn [Nat.pred].
  change (String.substring 1 ?n (String c ?t)) with (String.substring 0 n t).
  by rewrite substring_all.
Qed.

Lemma substring_prefix s r : String.substring 0 (String.length s) (s +:+ r) = s.
Proof.
  induction s as [|c s IH]; [by destruct r|]. rewrite string_app_cons. simpl. by rewrite IH.
Qed.

Lemma di_substring_prefix s r n : String.length s = n -> (0 < n)%nat ->
  di_substring (rest_of (s +:+ r)) 0 n = Some s.
Proof.
  intros <- Hn. unfold di_substring. rewrite rest_of_length, rest_of_bytes, string_length_app.
  rewrite (proj2 (Nat.leb_gt _ _)) by lia. rewrite (proj2 (Nat.eqb_neq _ _)) by lia. cbn [orb].
  rewrite (proj2 (Nat.ltb_ge _ _)) by lia. by rewrite substring_prefix.
Qed.

Lemma print_cons t : exists c s, print t = String c s.
Proof. destruct t; cbn [print]; eauto. Qed.

Lemma nchild_to_sig t : (0 <= nchild (to_sig t))%Z.
Proof. destruct t; cbn [to_sig nchild]; lia. Qed.

Lemma current_to_sig t : current (to_sig t) = Some (print t).
Proof. by destruct t. Qed.

Lemma first_char_ok t c s : sty_ok t = true -> print t = String c s -> c <> DBUS_STRUCT_END_CHAR /\ c <> NUL.
Proof using LL.
  intros Ht Hp. destruct t; cbn [print sty_ok] in *; injection Hp as <- _; try (split; discriminate).
  split; intros ->; revert Ht.
  - by rewrite end_not_basic.
  - unfold NUL. by rewrite invalid_not_basic.
Qed.

Lemma print_all_cons t l : print_all (t :: l) = print t +:+ print_all l.
Proof. apply string_concat_cons. Qed.

Lemma print_all_length l : (length l <= String.length (print_all l))%nat.
Proof.
  induction l as [|t l IH]; [done|]. rewrite print_all_cons, string_length_app. cbn [length].
  destruct (print_cons t) as (c & s & ->). simpl. lia.
Qed.

Lemma deref_rest c s w : deref (rest_of (String c s)) w = Ret c w.
Proof. done. Qed.

(** ** Everything that is a type is parsed *)

(** what parsing one type from a string that starts with its text gives *)
Definition one_complete (fuel : nat) (t : sty) : Prop := forall r w,
  parse_dbus_signature_one fuel (rest_of (print t +:+ r)) w = Ret (to_sig t, rest_of r) w.

Lemma sequence_complete fuel e l : forall fuel2 r len acc w,
  (forall t, t ∈ l -> one_complete fuel t) -> forallb sty_ok l = true ->
  (e = DBUS_STRUCT_END_CHAR \/ e = NUL) -> r = "" \/ (exists s, r = String e s) ->
  (length l <= fuel2)%nat ->
  sequence_loop (parse_dbus_signature_one fuel) fuel2 (rest_of (print_all l +:+ r)) e len acc w =
  Ret (inr ((len + String.length (print_all l))%nat, acc ++ map to_sig l, rest_of r)) w.
Proof using LL.
  induction l as [|t l IH]; intros fuel2 r len acc w Hone Hok He Hr Hf.
  { change (print_all [] +:+ r) with r. rewrite Nat.add_0_r, app_nil_r.
    destruct Hr as [->|[s ->]]; destruct fuel2; cbn [sequence_loop]; try done;
      rewrite rest_of_length; cbn [String.length Nat.eqb];
      rewrite (bind_ret_run _ _ _ _ _ (deref_rest e s w)); unfold chr_eqb;
      by rewrite Ascii.eqb_refl. }
  cbn [forallb] in Hok. apply andb_true_iff in Hok as [Hok1 Hok].
  destruct fuel2 as [|fuel2]; [simpl in Hf; lia|]. rewrite print_all_cons, string_app_assoc.
  cbn [sequence_loop].
  pose proof (Hone t ltac:(left) (print_all l +:+ r) w) as Ht.
  destruct (print_cons t) as (c & s & Hp). destruct (first_char_ok t c s Hok1 Hp) as [Hc1 Hc2].
  assert (Hrest : exists s', rest_of (print t +:+ (print_all l +:+ r)) = Some (String c s')).
  { rewrite Hp, string_app_cons. by eexists. }
  destruct Hrest as [s' Hrest]. rewrite Hrest in *.
  change (di_string_length (Some (String c s')) =? 0)%nat with false. cbv iota.
  rewrite (bind_ret_run _ _ _ c w) by done.
  replace (chr_eqb c e) with false
    by (symmetry; apply Ascii.eqb_neq; destruct He as [->| ->]; done).
  rewrite (bind_ret_run _ _ _ _ _ Ht). pose proof (nchild_to_sig t).
  rewrite (proj2 (Z.ltb_ge _ _)) by lia.
  rewrite (IH fuel2 r); try done; [|intros t' ?; apply Hone; by right|simpl in Hf; lia].
  rewrite current_to_sig, <- app_assoc. change (di_string_length (Some (print t))) with (String.length (print t)).
  rewrite string_length_app. cbn [map app]. by rewrite Nat.add_assoc.
Qed.

Lemma parse_one_complete t : forall fuel, sty_ok t = true -> (String.length (print t) <= fuel)%nat ->
  one_complete fuel t.
Proof using LL.
  induction t as [c| |t IH|l IH] using sty_ind'; intros fuel Hok Hf r w;
    (destruct fuel as [|fuel]; [simpl in Hf; lia|]); cbn [print sty_ok] in *.
  - rewrite string_app_cons, string_app_nil_l. cbn [parse_dbus_signature_one].
    rewrite (bind_ret_run _ _ _ _ _ (deref_rest c r w)).
    rewrite (basic_valid c Hok), Hok. cbn [andb orb rest_of].
    rewrite di_suffix_one. f_equal. f_equal. cbn [to_sig]. f_equal.
    change (Some (String c r)) with (rest_of (String c "" +:+ r)). apply di_substring_prefix; [done|lia].
  - change ("v" +:+ r) with (String "v"%char r). cbn [parse_dbus_signature_one].
    rewrite (bind_ret_run _ _ _ _ _ (deref_rest _ r w)). rewrite orb_true_r.
    cbn [rest_of]. rewrite di_suffix_one. f_equal. f_equal. cbn [to_sig]. f_equal.
    change (Some (String "v"%char r)) with (rest_of ("v" +:+ r)). apply di_substring_prefix; [done|lia].
  - rewrite string_app_cons. cbn [parse_dbus_signature_one].
    rewrite (bind_ret_run _ _ _ _ _ (deref_rest _ _ w)).
    rewrite (array_not_basic : dbus_type_is_basic "a"%char = false), andb_false_r.
    cbn [orb]. change (chr_eqb "a"%char "v"%char) with false.
    change (chr_eqb "a"%char DBUS_TYPE_ARRAY) with true. cbv iota.
    cbn [rest_of]. rewrite di_suffix_one.
    rewrite (bind_ret_run _ _ _ _ _ (IH fuel Hok ltac:(simpl in Hf; lia) r w)).
    cbv beta iota. pose proof (nchild_to_sig t). rewrite (proj2 (Z.ltb_ge _ _)) by lia.
    rewrite current_to_sig. change (di_string_length (Some (print t))) with (String.length (print t)).
    unfold ret. f_equal. f_equal. cbn [to_sig]. f_equal. cbn [print].
    change (Some (String "a"%char (print t +:+ r))) with (rest_of (String "a"%char (print t) +:+ r)).
    apply di_substring_prefix; simpl; lia.
  - rewrite string_app_cons, string_app_assoc. change (")" +:+ r) with (String DBUS_STRUCT_END_CHAR r).
    cbn [parse_dbus_signature_one]. rewrite (bind_ret_run _ _ _ _ _ (deref_rest _ _ w)).
    rewrite (begin_not_basic : dbus_type_is_basic "("%char = false), andb_false_r.
    cbn [orb]. change (chr_eqb "("%char "v"%char) with false.
    change (chr_eqb "("%char DBUS_TYPE_ARRAY) with false.
    change (chr_eqb "("%char DBUS_STRUCT_BEGIN_CHAR) with true. cbv iota.
    change (String.concat "" (map print l)) with (print_all l) in *.
    set (body := print_all l +:+ String DBUS_STRUCT_END_CHAR r). cbn [rest_of]. rewrite di_suffix_one.
    assert (Hseq : sequence_with (parse_dbus_signature_one fuel)
        (di_string_length (Some (String "("%char body))) (rest_of body) DBUS_STRUCT_END_CHAR w =
      Ret (Sig (di_substring (rest_of body) 0 (String.length (print_all l))) (Z.of_nat (length l)) (map to_sig l),
           rest_of (String DBUS_STRUCT_END_CHAR r)) w).
    { unfold sequence_with. erewrite bind_ret_run; [|unfold body; apply sequence_complete].
      - cbn [app Nat.add]. by rewrite length_map.
      - intros t Ht. rewrite Forall_forall in IH. apply IH; [done| |].
        + rewrite forallb_forall in Hok. apply Hok. by apply list_elem_of_In.
        + cbn [String.length] in Hf. rewrite string_length_app in Hf.
          assert (String.length (print t) <= String.length (print_all l))%nat; [|lia].
          clear -Ht. induction l as [|u l IHl]; [by apply not_elem_of_nil in Ht|].
          rewrite print_all_cons, string_length_app. apply elem_of_cons in Ht as [->|Ht]; [lia|].
          specialize (IHl Ht). lia.
      - done.
      - by left.
      - right. by eexists.
      - change (di_string_length (Some (String "("%char ?x))) with (S (String.length x)).
        rewrite string_length_app. pose proof (print_all_length l). lia. }
    rewrite (bind_ret_run _ _ _ _ _ Hseq). cbv beta iota. cbn [nchild].
    rewrite (proj2 (Z.ltb_ge _ _)) by lia. cbn [rest_of].
    change (negb (di_string_length (Some (String DBUS_STRUCT_END_CHAR r)) =? 0)%nat) with true.
    rewrite bind_assert_true. rewrite (bind_ret_run _ _ _ DBUS_STRUCT_END_CHAR w) by done.
    change (chr_eqb DBUS_STRUCT_END_CHAR DBUS_STRUCT_END_CHAR) with true. rewrite bind_assert_true.
    rewrite di_suffix_one. unfold ret. f_equal. f_equal. cbn [to_sig current child]. f_equal.
    assert (Hlen : di_string_length (di_substring (rest_of body) 0 (String.length (print_all l))) = String.length (print_all l)).
    { destruct (Nat.eq_dec (String.length (print_all l)) 0) as [H0|H0].
      - rewrite H0. unfold di_substring. by rewrite orb_true_r.
      - unfold body. rewrite di_substring_prefix by (done || lia). done. }
    rewrite Hlen. cbn [print]. change (String.concat "" (map print l)) with (print_all l).
    replace (Some (String "("%char body)) with (rest_of (String "("%char (print_all l +:+ ")") +:+ r)).
    + apply di_substring_prefix; cbn [String.length]; rewrite ?string_length_app; simpl; lia.
    + unfold body. rewrite string_app_cons, string_app_assoc. done.
Qed.

(** ** Nothing else is parsed *)

(** the assertions of the parser, and the dereference of a string without data *)
Definition parse_fault (f : fault) : Prop := f = AssertFailed \/ f = NullDereference.

Definition one_result (s : string) (p : dbus_signature * di_string) : Prop :=
  (nchild (fst p) < 0)%Z \/
  exists t r, sty_ok t = true /\ s = print t +:+ r /\ p = (to_sig t, rest_of r).
Definition one_sound (fuel : nat) : Prop := forall s w, (String.length s < fuel)%nat ->
  looks parse_fault (one_result s) (parse_dbus_signature_one fuel (rest_of s)) w.

Definition sequence_result (e : Ascii.ascii) (s : string) (len : nat) (acc : list dbus_signature)
    (x : dbus_signature + (nat * list dbus_signature * di_string)) : Prop :=
  match x with
  | inl ch => (nchild ch < 0)%Z
  | inr (n, children, rest) => exists l r, forallb sty_ok l = true /\ s = print_all l +:+ r /\
      n = (len + String.length (print_all l))%nat /\ children = acc ++ map to_sig l /\
      rest = rest_of r /\ (r = "" \/ exists s', r = String e s')
  end.

Lemma sequence_sound fuel e : one_sound fuel -> forall fuel2 s len acc w,
  (String.length s < fuel)%nat -> (String.length s <= fuel2)%nat ->
  looks parse_fault (sequence_result e s len acc)
    (sequence_loop (parse_dbus_signature_one fuel) fuel2 (rest_of s) e len acc) w.
Proof.
  intros Hone. induction fuel2 as [|fuel2 IH]; intros s len acc w Hf Hf2.
  { destruct s; [|simpl in Hf2; lia]. apply looks_ret. exists [], "".
    rewrite Nat.add_0_r, app_nil_r. split_and!; try done. by left. }
  destruct s as [|c s].
  { apply looks_ret. exists [], "". rewrite Nat.add_0_r, app_nil_r. split_and!; try done. by left. }
  cbn [sequence_loop]. rewrite rest_of_length. cbn [String.length Nat.eqb].
  eapply (looks_bind _ (fun c' => c' = c)); [done|]. intros c' ->.
  unfold chr_eqb. destruct (Ascii.eqb_spec c e) as [->|Hne].
  { apply looks_ret. exists [], (String e s). rewrite Nat.add_0_r, app_nil_r.
    split_and!; try done. right. by eexists. }
  eapply looks_bind; [by apply Hone|]. intros [ch next] Hr. cbv beta iota.
  destruct (Z.ltb_spec (nchild ch) 0) as [Hneg|Hpos]; [by apply looks_ret|].
  destruct Hr as [?|(t & r & Ht & Hs & [= -> ->])]; [simpl in *; lia|].
  rewrite Hs, string_length_app in Hf, Hf2. destruct (print_cons t) as (d & u & Hd).
  rewrite Hd in Hf, Hf2. cbn [String.length] in Hf, Hf2.
  eapply looks_mono; [apply IH; lia|]. intros [ch'|[[n children] rest]]; [done|].
  intros (l & r' & Hl & -> & -> & -> & -> & Hend). exists (t :: l), r'.
  rewrite print_all_cons, string_app_assoc, string_length_app, current_to_sig, <- app_assoc.
  change (di_string_length (Some (print t))) with (String.length (print t)).
  cbn [forallb map app]. rewrite Ht, Nat.add_assoc. by split_and!.
Qed.

Lemma parse_one_sound fuel : one_sound fuel.
Proof using LL.
  induction fuel as [|fuel IH]; intros s w Hf; [lia|]. cbn [parse_dbus_signature_one].
  destruct s as [|c s]; [by right|]. cbn [String.length] in Hf.
  eapply (looks_bind _ (fun c' => c' = c)); [done|]. intros c' ->.
  destruct ((dbus_type_is_valid c && dbus_type_is_basic c) || chr_eqb c "v"%char) eqn:Hb.
  { apply looks_ret. right. exists (if dbus_type_is_basic c then SBasic c else SVariant), s.
    assert (Ht : print (if dbus_type_is_basic c then SBasic c else SVariant) = String c "" /\
      sty_ok (if dbus_type_is_basic c then SBasic c else SVariant) = true).
    { destruct (dbus_type_is_basic c) eqn:Hc; [done|]. rewrite andb_false_r in Hb.
      apply Ascii.eqb_eq in Hb. by subst c. }
    destruct Ht as [Hp Hok]. split_and!; [done|by rewrite Hp|].
    cbn [rest_of]. rewrite di_suffix_one. f_equal.
    change (Some (String c s)) with (rest_of (String c "" +:+ s)).
    rewrite di_substring_prefix by (done || lia). rewrite <- Hp.
    by destruct (dbus_type_is_basic c). }
  unfold chr_eqb. destruct (Ascii.eqb_spec c DBUS_TYPE_ARRAY) as [->|Hna].
  { cbn [rest_of]. rewrite di_suffix_one. eapply looks_bind; [apply IH; lia|].
    intros [ch rest] Hr. cbv beta iota.
    destruct (Z.ltb_spec (nchild ch) 0) as [Hneg|Hpos]; [apply looks_ret; by left|].
    destruct Hr as [?|(t & r & Ht & -> & [= -> ->])]; [simpl in *; lia|].
    apply looks_ret. right. exists (SArray t), r. split_and!; [done|done|].
    rewrite current_to_sig. change (di_string_length (Some (print t))) with (String.length (print t)).
    f_equal. cbn [to_sig]. f_equal.
    change (Some (String DBUS_TYPE_ARRAY (print t +:+ r))) with (rest_of (print (SArray t) +:+ r)).
    apply di_substring_prefix; simpl; lia. }
  destruct (Ascii.eqb_spec c DBUS_STRUCT_BEGIN_CHAR) as [->|Hns]; [|by apply looks_ret; left].
  cbn [rest_of]. rewrite di_suffix_one. eapply looks_bind.
  { unfold sequence_with. eapply looks_bind; [apply (sequence_sound fuel); [done|lia|]|].
    - change (di_string_length (Some (String DBUS_STRUCT_BEGIN_CHAR s))) with (S (String.length s)). lia.
    - intros x Hx. instantiate (1 := fun p => (nchild (fst p) < 0)%Z \/ exists l r, forallb sty_ok l = true /\
        s = print_all l +:+ r /\ (r = "" \/ exists s', r = String DBUS_STRUCT_END_CHAR s') /\
        nchild (fst p) = Z.of_nat (length l) /\ child (fst p) = map to_sig l /\ snd p = rest_of r /\
        di_string_length (current (fst p)) = String.length (print_all l)).
      destruct x as [ch|[[n children] rest]]; [by apply looks_ret; left|].
      destruct Hx as (l & r & Hl & -> & -> & -> & -> & Hend). apply looks_ret. right. exists l, r.
      cbn [fst snd nchild child current app]. rewrite length_map. split_and!; try done.
      cbn [Nat.add]. destruct (Nat.eq_dec (String.length (print_all l)) 0) as [H0|H0].
      + rewrite H0. unfold di_substring. by rewrite orb_true_r.
      + rewrite di_substring_prefix by (done || lia). done. }
  intros [res next] Hr. cbn [fst snd] in Hr. cbv beta iota.
  destruct (Z.ltb_spec (nchild res) 0) as [Hneg|Hpos]; [apply looks_ret; by left|].
  destruct Hr as [?|(l & r & Hl & -> & Hend & -> & -> & -> & ->)]; [lia|].
  destruct Hend as [->|[s' ->]]; [by left|].
  eapply (looks_bind _ (fun _ => True)); [done|]. intros _ _.
  eapply (looks_bind _ (fun c' => c' = DBUS_STRUCT_END_CHAR)); [done|]. intros c' ->.
  eapply (looks_bind _ (fun _ => True)); [done|]. intros _ _.
  apply looks_ret. right. exists (SStruct l), s'. cbn [sty_ok]. split_and!; [done| |].
  - cbn [print]. by rewrite string_app_cons, string_app_assoc.
  - cbn [rest_of]. rewrite di_suffix_one. f_equal. cbn [to_sig]. f_equal.
    replace (Some (String DBUS_STRUCT_BEGIN_CHAR (print_all l +:+ String DBUS_STRUCT_END_CHAR s')))
      with (rest_of (print (SStruct l) +:+ s')).
    + cbn [print]. apply di_substring_prefix; cbn [String.length]; rewrite ?string_length_app;
        cbn [String.length]; unfold print_all; lia.
    + cbn [print]. by rewrite string_app_cons, string_app_assoc.
Qed.

Lemma parse_print_run l w : l <> [] -> forallb sty_ok l = true ->
  parse_dbus_signature (Some (print_all l)) w =
    Ret (Sig (Some (print_all l)) (Z.of_nat (length l)) (map to_sig l)) w.
Proof using LL.
  intros Hne Hok. unfold parse_dbus_signature, parse_dbus_signaure_sequence, sequence_with.
  destruct l as [|t l]; [done|]. set (l' := t :: l) in *.
  assert (Hs : Some (print_all l') = rest_of (print_all l' +:+ "")).
  { rewrite string_app_nil_r. unfold l'. rewrite print_all_cons. by destruct (print_cons t) as (c & s & ->). }
  rewrite Hs. erewrite bind_ret_run.
  2:{ erewrite bind_ret_run; [|apply sequence_complete]; [reflexivity| |done|by right|by left|].
      - intros u Hu. apply parse_one_complete.
        + rewrite forallb_forall in Hok. apply Hok. by apply list_elem_of_In.
        + rewrite rest_of_length, string_app_nil_r.
          assert (String.length (print u) <= String.length (print_all l'))%nat; [|lia].
          clear -Hu. clearbody l'. induction l' as [|x l' IH]; [by apply not_elem_of_nil in Hu|].
          rewrite print_all_cons, string_length_app. apply elem_of_cons in Hu as [->|Hu]; [lia|].
          specialize (IH Hu). lia.
      - rewrite rest_of_length, string_app_nil_r. apply print_all_length. }
  cbn [app Nat.add nchild]. rewrite length_map.
  rewrite (proj2 (Z.eqb_neq _ _)) by (unfold l'; simpl; lia). unfold ret. f_equal. f_equal.
  rewrite di_substring_prefix; [by rewrite <- Hs|done|].
  pose proof (print_all_length l'). unfold l' in *. simpl in *. lia.
Qed.

(** Printing a sequence of types and parsing the text gives their trees back, whatever the
    nesting; the parser neither fails an assertion nor runs out of steps. In particular the
    grammar is unambiguous: only one sequence of trees has a given text. C32. *)
Theorem parse_dbus_signature_print l w : l <> [] -> forallb sty_ok l = true ->
  parse_dbus_signature (Some (print_all l)) w =
    Ret (Sig (Some (print_all l)) (Z.of_nat (length l)) (map to_sig l)) w /\
  (forall l', l' <> [] -> forallb sty_ok l' = true -> print_all l' = print_all l -> map to_sig l' = map to_sig l).
Proof using LL.
  intros Hne Hok. pose proof (parse_print_run l w Hne Hok) as Hrun. split; [done|].
  intros l' Hne' Hok' Heq. pose proof (parse_print_run l' w Hne' Hok') as Hrun'.
  rewrite Heq, Hrun in Hrun'. by injection Hrun'.
Qed.


(** the two ways in which a malformed signature ends the program *)
Example parse_crashes w :
  parse_dbus_signature (Some "a") w = Stuck NullDereference /\
  parse_dbus_signature (Some "(") w = Stuck AssertFailed.
Proof using LL.
  split.
  - cbv -[dbus_type_is_basic dbus_type_is_valid]. rewrite (array_not_basic : dbus_type_is_basic "a"%char = false).
    by destruct (dbus_type_is_valid _).
  - cbv -[dbus_type_is_basic dbus_type_is_valid]. rewrite (begin_not_basic : dbus_type_is_basic "("%char = false).
    by destruct (dbus_type_is_valid _).
Qed.

(** ** Signatures of values *)

(** every way of getting stuck but running out of steps *)
Definition ends (f : fault) : Prop := f <> OutOfFuel.

(** the type of a value, where it has one *)
Fixpoint sty_of (v : val) : option sty :=
  match v with
  | VBool _ => Some (SBasic DBUS_TYPE_BOOLEAN)
  | VInt _ => Some (SBasic DBUS_TYPE_INT64) | VUint _ => Some (SBasic DBUS_TYPE_UINT64)
  | VNint _ => Some (SBasic DBUS_TYPE_INT32) | VNuint _ => Some (SBasic DBUS_TYPE_UINT32)
  | VFloat _ => Some (SBasic DBUS_TYPE_DOUBLE)
  | VString _ | VStringLiteral _ => Some (SBasic DBUS_TYPE_STRING)
  | VArray _ _ (x :: _) => SArray <$> sty_of x
  | VTuple l =>
      SStruct <$> (fix go (l : list val) : option (list sty) :=
        match l with
        | [] => Some []
        | x :: l => match sty_of x, go l with Some t, Some ts => Some (t :: ts) | _, _ => None end
        end) l
  | VVariant _ => Some SVariant
  | _ => None
  end.
Definition stys_of (l : list val) : option (list sty) :=
  (fix go (l : list val) : option (list sty) :=
     match l with
     | [] => Some []
     | x :: l => match sty_of x, go l with Some t, Some ts => Some (t :: ts) | _, _ => None end
     end) l.

Lemma dbus_basic_looks t w : looks ends (fun _ => True) (di_type_to_dbus_basic t) w.
Proof. by destruct t. Qed.
Lemma basic_compatible_looks t c w : looks ends (fun _ => True) (is_basic_type_compatible t c) w.
Proof. unfold is_basic_type_compatible. by repeat case_match. Qed.

(** the elements of a struct, one after the other *)
Definition verify_each : list val -> string -> M (option string) :=
  fix go (l : list val) (curr : string) : M (option string) :=
    match l with
    | [] => ret (if chr_eqb (first_char curr) ")"%char then Some (DBus.tail curr) else None)
    | x :: l =>
        next <- verify_type_signature x curr ;;
        match next with None => ret None | Some next => go l next end
    end.

Lemma verify_each_looks l : Forall (fun v => forall s w, looks ends (fun _ => True) (verify_type_signature v s) w) l ->
  forall curr w, looks ends (fun _ => True) (verify_each l curr) w.
Proof.
  induction 1 as [|x l Hx _ IH]; intros curr w; [by apply looks_ret|].
  eapply looks_bind; [apply Hx|]. intros [next|] _; [apply IH|by apply looks_ret].
Qed.

(** the comparison of the elements of an array that follow the first *)
Definition verify_rest (r : option string) (s : string) : list val -> M (option string) :=
  fix go (l : list val) : M (option string) :=
    match l with
    | [] => ret r
    | y :: l =>
        r2 <- verify_type_signature y s ;;
        match r, r2 with
        | Some a, Some b => if same_suffix a b then go l else ret None
        | _, _ => ret None
        end
    end.

Lemma verify_rest_looks r s l :
  Forall (fun v => forall s w, looks ends (fun _ => True) (verify_type_signature v s) w) l ->
  forall w, looks ends (fun r' => r' = None \/ r' = r) (verify_rest r s l) w.
Proof.
  induction 1 as [|y l Hy _ IH]; intros w; [apply looks_ret; by right|].
  eapply looks_bind; [apply Hy|]. intros r2 _.
  destruct r as [a|], r2 as [b|]; try (apply looks_ret; by left).
  destruct (same_suffix a b); [apply IH|apply looks_ret; by left].
Qed.

Lemma verify_looks v : forall s w, looks ends (fun _ => True) (verify_type_signature v s) w.
Proof.
  induction v as [v Hl|et nn l IH|l IH|v IH] using val_ind'; intros s w.
  - destruct v; try done; cbn [verify_type_signature];
      (eapply looks_bind; [apply dbus_basic_looks|]; intros d _);
      repeat case_match; try (by apply looks_ret);
      (eapply looks_bind; [apply basic_compatible_looks|]; intros ok _; by apply looks_ret).
  - cbn [verify_type_signature]. fold verify_each. eapply looks_bind; [apply dbus_basic_looks|]. intros d _.
    case_match; [eapply looks_bind; [apply basic_compatible_looks|]; intros ok _; by apply looks_ret|].
    case_match; [by apply looks_ret|]. case_match.
    + destruct l as [|x l]; [done|]. apply Forall_cons in IH as [Hx IH].
      eapply looks_bind; [apply Hx|]. intros r _. fold (verify_rest r (DBus.tail s)).
      destruct et; try (by apply looks_ret);
        (eapply looks_mono; [by apply verify_rest_looks|done]).
    + case_match; [by apply verify_each_looks|by apply looks_ret].
  - cbn [verify_type_signature]. fold verify_each. eapply looks_bind; [apply dbus_basic_looks|]. intros d _.
    case_match; [eapply looks_bind; [apply basic_compatible_looks|]; intros ok _; by apply looks_ret|].
    case_match; [by apply looks_ret|]. case_match; [by apply looks_ret|].
    case_match; [by apply verify_each_looks|by apply looks_ret].
  - cbn [verify_type_signature]. eapply looks_bind; [apply dbus_basic_looks|]. intros d _.
    case_match; [eapply looks_bind; [apply basic_compatible_looks|]; intros ok _; by apply looks_ret|].
    case_match; [by apply looks_ret|]. apply IH.
Qed.

(** what follows the text of the type of a value is what verification leaves, if it does
    not reject the value *)
Definition verify_leaves (v : val) : Prop := forall t rest w, sty_of v = Some t -> sty_ok t = true ->
  looks ends (fun r => r = None \/ r = Some rest) (verify_type_signature v (print t +:+ rest)) w.

Lemma verify_each_leaves l : Forall verify_leaves l -> forall ts rest w,
  stys_of l = Some ts -> forallb sty_ok ts = true ->
  looks ends (fun r => r = None \/ r = Some rest)
    (verify_each l (print_all ts +:+ String ")"%char rest)) w.
Proof.
  induction 1 as [|x l Hx _ IH]; intros ts rest w Hts Hok.
  { injection Hts as <-. apply looks_ret. by right. }
  cbn [stys_of] in Hts. change (_ l) with (stys_of l) in Hts at 1.
  destruct (sty_of x) as [t|] eqn:Ht; [|done]. fold (stys_of l) in Hts.
  destruct (stys_of l) as [ts'|] eqn:Hts'; [|done]. injection Hts as <-.
  cbn [forallb] in Hok. apply andb_true_iff in Hok as [Hok1 Hok].
  rewrite print_all_cons, string_app_assoc. cbn [verify_each].
  eapply looks_bind; [by apply Hx|]. intros r [->| ->]; [apply looks_ret; by left|].
  by apply IH.
Qed.

Lemma sty_of_tuple l : sty_of (VTuple l) = SStruct <$> stys_of l.
Proof. done. Qed.

Lemma verify_leaves_all v : verify_leaves v.
Proof using LL.
  induction v as [v Hl|et nn l IH|l IH|v IH] using val_ind'; intros t rest w Ht Hok.
  - destruct v; try done; injection Ht as <-; cbn [verify_type_signature type_of di_type_to_dbus_basic];
      unfold bind at 1; cbn [ret]; unfold ret at 1; cbv beta iota; cbn [sty_ok] in Hok; rewrite Hok;
      (eapply looks_bind; [apply basic_compatible_looks|]); intros ok _; apply looks_ret;
      (destruct ok; [by right|by left]).
  - destruct l as [|x l]; [done|]. cbn [sty_of] in Ht.
    destruct (sty_of x) as [u|] eqn:Hu; [|done]. injection Ht as <-. cbn [sty_ok] in Hok.
    apply Forall_cons in IH as [Hx _]. cbn [print]. rewrite string_app_cons.
    cbn [verify_type_signature type_of di_type_to_dbus_basic]. unfold bind at 1, ret at 1. cbv beta iota.
    rewrite array_not_basic. cbn [first_char DBus.tail].
    change (chr_eqb "a"%char DBUS_TYPE_VARIANT) with false. change (chr_eqb "a"%char DBUS_TYPE_ARRAY) with true.
    cbv iota. eapply looks_bind; [by apply Hx|]. intros r Hr. fold (verify_rest r (print u +:+ rest)).
    destruct et; try (by apply looks_ret);
      (eapply looks_mono; [apply verify_rest_looks, Forall_true; intros; apply verify_looks|naive_solver]).
  - rewrite sty_of_tuple in Ht. destruct (stys_of l) as [ts|] eqn:Hts; [|done]. injection Ht as <-.
    cbn [print]. rewrite string_app_cons, string_app_assoc.
    cbn [verify_type_signature type_of di_type_to_dbus_basic]. unfold bind at 1, ret at 1. cbv beta iota.
    rewrite struct_not_basic. cbn [first_char DBus.tail].
    change (chr_eqb "("%char DBUS_TYPE_VARIANT) with false. change (chr_eqb "("%char DBUS_TYPE_ARRAY) with false.
    change (chr_eqb "("%char DBUS_STRUCT_BEGIN_CHAR) with true. cbv iota. fold verify_each.
    by apply verify_each_leaves.
  - injection Ht as <-. cbn [verify_type_signature type_of di_type_to_dbus_basic].
    unfold bind at 1, ret at 1. cbv beta iota. rewrite invalid_not_basic.
    apply looks_ret. by right.
Qed.

Definition rejects (m : M (option string)) (w : world) : Prop := looks ends (fun r => r = None) m w.

(** an error leaves a text that verification rejects; otherwise it is the type of the value *)
Definition buffer_result (v : val) (w : world) (p : dbus_signature * string) : Prop :=
  ((nchild (fst p) < 0)%Z /\ rejects (verify_type_signature v (snd p)) w) \/
  exists t, sty_of v = Some t /\ sty_ok t = true /\ p = (to_sig t, print t).

Lemma rejects_array et nn x l text w : rejects (verify_type_signature x text) w ->
  rejects (verify_type_signature (VArray et nn (x :: l)) (String "a"%char text)) w.
Proof using LL.
  intros Hx. unfold rejects. cbn [verify_type_signature type_of di_type_to_dbus_basic].
  unfold bind at 1, ret at 1. cbv beta iota. rewrite array_not_basic. cbn [first_char DBus.tail].
  change (chr_eqb "a"%char DBUS_TYPE_VARIANT) with false. change (chr_eqb "a"%char DBUS_TYPE_ARRAY) with true.
  cbv iota. eapply looks_bind; [exact Hx|]. intros r ->. fold (verify_rest None text).
  destruct et; try (by apply looks_ret);
    (eapply looks_mono; [apply verify_rest_looks, Forall_true; intros; apply verify_looks|naive_solver]).
Qed.

Lemma rejects_tuple l text w : rejects (verify_each l text) w ->
  rejects (verify_type_signature (VTuple l) (String "("%char text)) w.
Proof using LL.
  intros Hx. unfold rejects. cbn [verify_type_signature type_of di_type_to_dbus_basic].
  unfold bind at 1, ret at 1. cbv beta iota. rewrite struct_not_basic. cbn [first_char DBus.tail].
  change (chr_eqb "("%char DBUS_TYPE_VARIANT) with false. change (chr_eqb "("%char DBUS_TYPE_ARRAY) with false.
  change (chr_eqb "("%char DBUS_STRUCT_BEGIN_CHAR) with true. cbv iota. exact Hx.
Qed.

Definition tuple_result (l : list val) (acc : list dbus_signature) (text : string) (w : world)
    (r : dbus_signature * string + (list dbus_signature * string)) : Prop :=
  match r with
  | inl (ch, out) => (nchild ch < 0)%Z /\ exists more, out = text +:+ more /\ rejects (verify_each l more) w
  | inr (ch, out) => exists ts, stys_of l = Some ts /\ forallb sty_ok ts = true /\
      ch = acc ++ map to_sig ts /\ out = text +:+ print_all ts
  end.

Lemma tuple_signatures_typed l w :
  Forall (fun v => looks ends (buffer_result v w) (type_signature_of_di_value_to_buffer v) w) l ->
  forall acc text, looks ends (tuple_result l acc text w)
    (tuple_signatures type_signature_of_di_value_to_buffer l acc text) w.
Proof using LL.
  induction 1 as [|x l Hx _ IH]; intros acc text.
  { apply looks_ret. exists []. by rewrite app_nil_r, string_app_nil_r. }
  cbn [tuple_signatures]. eapply looks_bind; [exact Hx|]. intros [ch t] Hr. cbv beta iota.
  destruct Hr as [[Hneg Hrej]|(u & Hu & Hok & [= -> ->])]; cbn [fst snd] in *.
  - rewrite (proj2 (Z.ltb_lt _ _)) by done. destruct (bool_decide (l = [])); [|done].
    eapply looks_bind; [by apply (looks_ret ends (fun _ => True) tt)|]. intros _ _.
    apply looks_ret. split; [done|]. exists t. split; [done|]. unfold rejects. cbn [verify_each].
    eapply looks_bind; [exact Hrej|]. intros r ->. by apply looks_ret.
  - pose proof (nchild_to_sig u). rewrite (proj2 (Z.ltb_ge _ _)) by lia.
    eapply looks_mono; [apply IH|]. intros [[ch' out]|[ch' out]]; cbn [tuple_result].
    + intros [Hneg (more & -> & Hrej)]. split; [done|]. exists (print u +:+ more).
      split; [by rewrite string_app_assoc|]. unfold rejects. cbn [verify_each].
      eapply looks_bind; [by apply verify_leaves_all|]. intros r [->| ->]; [by apply looks_ret|done].
    + intros (ts & Hts & Hoks & -> & ->). exists (u :: ts).
      cbn [stys_of]. rewrite Hu. fold (stys_of l). rewrite Hts. split_and!; [done| | |].
      * cbn [forallb]. by rewrite Hok.
      * by rewrite <- app_assoc.
      * by rewrite print_all_cons, string_app_assoc.
Qed.

Lemma to_buffer_typed v : forall w, looks ends (buffer_result v w) (type_signature_of_di_value_to_buffer v) w.
Proof using LL.
  induction v as [v Hl|et nn l IH|l IH|v IH] using val_ind'; intros w.
  - destruct v; try done;
      cbn [type_signature_of_di_value_to_buffer type_of di_type_to_dbus_basic];
      unfold bind at 1, ret at 1; cbv beta iota; rewrite ?invalid_not_basic;
      repeat case_match; apply looks_ret;
      first [right; eexists; split_and!; [reflexivity|cbn [sty_ok]; eassumption|reflexivity]
            |left; split; [done|]; unfold rejects; cbn [verify_type_signature type_of di_type_to_dbus_basic];
             unfold bind at 1, ret at 1; cbv beta iota; rewrite ?invalid_not_basic;
             try match goal with H : dbus_type_is_basic _ = false |- _ => rewrite H end; by apply looks_ret].
  - cbn [type_signature_of_di_value_to_buffer type_of di_type_to_dbus_basic].
    unfold bind at 1, ret at 1. cbv beta iota. rewrite array_not_basic.
    destruct l as [|x l]; [done|]. apply Forall_cons in IH as [Hx _].
    eapply looks_bind; [apply Hx|]. intros [res text] Hr. cbv beta iota.
    pose proof (verify_looks (VArray et nn (x :: l)) (String "a"%char text) w) as Hv. unfold looks in Hv |- *.
    destruct (verify_type_signature _ _ w) as [ok w'| |f] eqn:Hrun; [|done|by unfold bind; rewrite Hrun].
    destruct Hv as [-> _]. rewrite (bind_ret_run _ _ _ _ _ Hrun).
    destruct ok as [ok|]; split; try done.
    + destruct Hr as [[_ Hrej]|(t & Ht & Hok & [= -> ->])].
      * cbn [snd] in Hrej. apply (rejects_array et nn x l) in Hrej. unfold rejects, looks in Hrej.
        rewrite Hrun in Hrej. by destruct Hrej as [_ ?].
      * right. exists (SArray t). cbn [sty_of]. rewrite Ht. split_and!; [done|done|].
        cbn [to_sig print]. rewrite current_to_sig.
        change (di_string_length (Some (print t))) with (String.length (print t)).
        rewrite Nat.add_1_r. change (S (String.length (print t))) with (String.length (String "a"%char (print t))).
        by rewrite substring_all.
    + left. split; [done|]. unfold rejects, looks. cbn [snd]. by rewrite Hrun.
  - cbn [type_signature_of_di_value_to_buffer type_of di_type_to_dbus_basic].
    unfold bind at 1, ret at 1. cbv beta iota. rewrite struct_not_basic.
    eapply looks_bind; [apply tuple_signatures_typed; eapply Forall_impl; [exact IH|]; auto|].
    intros [[ch out]|[ch out]] Hr; apply looks_ret.
    + destruct Hr as [Hneg (more & -> & Hrej)]. left. split; [done|]. by apply rejects_tuple.
    + destruct Hr as (ts & Hts & Hok & -> & ->). right. exists (SStruct ts).
      rewrite sty_of_tuple, Hts. split_and!; [done|done|]. cbn [app to_sig print].
      assert (Hlen : length l = length ts).
      { revert ts Hts Hok. clear. induction l as [|x l IH]; intros ts Hts Hok; [by injection Hts as <-|].
        cbn [stys_of] in Hts. destruct (sty_of x); [|done]. fold (stys_of l) in Hts.
        destruct (stys_of l) as [ts'|]; [|done]. injection Hts as <-. cbn [forallb] in Hok.
        apply andb_true_iff in Hok as [_ Hok]. simpl. f_equal. by apply IH. }
      rewrite Hlen, string_app_assoc. done.
  - cbn [type_signature_of_di_value_to_buffer type_of di_type_to_dbus_basic].
    unfold bind at 1, ret at 1. cbv beta iota. rewrite invalid_not_basic. apply looks_ret. right. by exists SVariant.
Qed.

(** the length that is computed for the buffer is that of the text, where there are no
    variants: the text of a variant is shorter than the one of the value in it *)
Fixpoint no_variants (v : val) : bool :=
  match v with
  | VArray _ _ l | VTuple l => forallb no_variants l
  | VVariant _ => false
  | _ => true
  end.

Definition length_each : list val -> Z -> M Z :=
  fix go (l : list val) (acc : Z) : M Z :=
    match l with
    | [] => ret (acc + 2)%Z
    | x :: l =>
        tmp <- type_signature_length_of_di_value x ;;
        if (tmp <? 0)%Z then ret tmp else go l (acc + tmp)%Z
    end.
Definition length_ok (v : val) : Prop := no_variants v = true -> forall t w,
  sty_of v = Some t -> sty_ok t = true ->
  type_signature_length_of_di_value v w = Ret (Z.of_nat (String.length (print t))) w.

Lemma length_each_ok l : Forall length_ok l -> forallb no_variants l = true -> forall ts acc w,
  stys_of l = Some ts -> forallb sty_ok ts = true ->
  length_each l acc w = Ret (acc + Z.of_nat (String.length (print_all ts)) + 2)%Z w.
Proof.
  induction 1 as [|x l Hx _ IH]; intros Hnv ts acc w Hts Hok.
  { injection Hts as <-. cbn [length_each]. unfold ret. f_equal. simpl. lia. }
  cbn [forallb] in Hnv. apply andb_true_iff in Hnv as [Hnv1 Hnv].
  cbn [stys_of] in Hts. destruct (sty_of x) as [t|] eqn:Ht; [|done]. fold (stys_of l) in Hts.
  destruct (stys_of l) as [ts'|]; [|done]. injection Hts as <-. cbn [forallb] in Hok.
  apply andb_true_iff in Hok as [Hok1 Hok]. cbn [length_each].
  rewrite (bind_ret_run _ _ _ _ _ (Hx Hnv1 t w Ht Hok1)). rewrite (proj2 (Z.ltb_ge _ _)) by lia.
  fold length_each. rewrite (IH Hnv ts') by done. f_equal.
  rewrite print_all_cons, string_length_app. lia.
Qed.

Lemma length_all_ok v : length_ok v.
Proof using LL.
  induction v as [v Hl|et nn l IH|l IH|v IH] using val_ind'; intros Hnv t w Ht Hok.
  - destruct v; try done; injection Ht as <-;
      cbn [type_signature_length_of_di_value type_of di_type_to_dbus_basic];
      unfold bind at 1, ret at 1; cbv beta iota; cbn [sty_ok] in Hok; by rewrite Hok.
  - destruct l as [|x l]; [done|]. cbn [sty_of] in Ht. destruct (sty_of x) as [u|] eqn:Hu; [|done].
    injection Ht as <-. apply Forall_cons in IH as [Hx _]. cbn [no_variants forallb] in Hnv.
    apply andb_true_iff in Hnv as [Hnv _].
    cbn [type_signature_length_of_di_value type_of di_type_to_dbus_basic].
    unfold bind at 1, ret at 1. cbv beta iota. rewrite array_not_basic.
    rewrite (bind_ret_run _ _ _ _ _ (Hx Hnv u w Hu Hok)). unfold ret. f_equal. cbn [print String.length]. lia.
  - rewrite sty_of_tuple in Ht. destruct (stys_of l) as [ts|] eqn:Hts; [|done]. injection Ht as <-.
    cbn [type_signature_length_of_di_value type_of di_type_to_dbus_basic].
    unfold bind at 1, ret at 1. cbv beta iota. rewrite struct_not_basic. fold length_each.
    rewrite (length_each_ok l IH Hnv ts) by done. f_equal. cbn [print String.length].
    rewrite string_length_app. unfold print_all. simpl. lia.
  - done.
Qed.

Lemma length_looks v w : looks ends (fun _ => True) (type_signature_length_of_di_value v) w.
Proof.
  revert w. induction v as [v Hl|et nn l IH|l IH|v IH] using val_ind'; intros w.
  - destruct v; try done; cbn [type_signature_length_of_di_value type_of di_type_to_dbus_basic];
      unfold bind at 1, ret at 1; cbv beta iota; repeat case_match; by apply looks_ret.
  - cbn [type_signature_length_of_di_value]. eapply looks_bind; [apply dbus_basic_looks|]. intros d _.
    case_match; [by apply looks_ret|]. destruct l as [|x l]; [done|].
    apply Forall_cons in IH as [Hx _]. eapply looks_bind; [apply Hx|]. intros ? _. by apply looks_ret.
  - cbn [type_signature_length_of_di_value]. eapply looks_bind; [apply dbus_basic_looks|]. intros d _.
    case_match; [by apply looks_ret|]. fold length_each. generalize 0%Z as acc.
    induction IH as [|x l Hx _ IHl]; intros acc; [by apply looks_ret|].
    cbn [length_each]. eapply looks_bind; [apply Hx|]. intros tmp _.
    case_match; [by apply looks_ret|apply IHl].
  - cbn [type_signature_length_of_di_value]. eapply looks_bind; [apply dbus_basic_looks|]. intros d _.
    case_match; [by apply looks_ret|apply IH].
Qed.

End grammar.

Lemma parse_dbus_signature_print_witness :
  @parse_dbus_signature spec_libdbus (Some "a(sv)i") (store []) =
    Ret (Sig (Some "a(sv)i") 2 (map to_sig [SArray (SStruct [SBasic "s"%char; SVariant]); SBasic "i"%char])) (store []) /\
  (forall l', l' <> [] -> forallb (@sty_ok spec_libdbus) l' = true -> print_all l' = "a(sv)i" ->
     map to_sig l' = map to_sig [SArray (SStruct [SBasic "s"%char; SVariant]); SBasic "i"%char]).
Proof.
  apply (parse_dbus_signature_print (L := spec_libdbus)
    [SArray (SStruct [SBasic "s"%char; SVariant]); SBasic "i"%char]); [discriminate|reflexivity].
Defined.



(** a value whose signature is not found makes the program write to the buffer it freed: an
    array of string literals is not recognised as an array of strings *)
Example string_literals_crash :
  @type_signature_of_di_value spec_libdbus (VArray DI_TYPE_STRING_LITERAL true [VStringLiteral "x"]) (store []) =
    Stuck UseAfterFree.
Proof. vm_compute. reflexivity. Qed.
