(* ===== verification/RootSet.v ===== *)
(** * Anonymous roots are a set

    The table [anonymous_roots] of the roots object against an abstract set of objects: the
    answers of [add_anonymous] and [remove_anonymous] are those of the set, each object in
    it is referenced once, and destroying the roots object gives every reference back. *)

From S2P Require Export Demo.

Inductive root_op := AddRoot (x : oid) | RemoveRoot (x : oid).
Definition op_object (op : root_op) : oid := match op with AddRoot x | RemoveRoot x => x end.

(** the abstract set *)
Definition spec_op (S : gset oid) (op : root_op) : bool * gset oid :=
  match op with
  | AddRoot x => if decide (x ∈ S) then (false, S) else (true, S ∪ {[x]})
  | RemoveRoot x => if decide (x ∈ S) then (true, S ∖ {[x]}) else (false, S)
  end.
Fixpoint spec_ops (S : gset oid) (ops : list root_op) : list bool * gset oid :=
  match ops with
  | [] => ([], S)
  | op :: ops => let '(b, S1) := spec_op S op in let '(bs, S2) := spec_ops S1 ops in (b :: bs, S2)
  end.

Section root_set.
Context {E : Env} (strict : Prop) (N : Z).
Hypothesis Henv : env_ok strict N.
Hypothesis HN : (N <= Z.of_nat env_fuel)%Z.
(** the roots object, and what the callers hold *)
Variables (r : oid) (ext extw : list oid).

Definition run_op (op : root_op) : M bool :=
  match op with
  | AddRoot x => di_add_anonymous_root r x
  | RemoveRoot x => di_remove_anonymous_root r x
  end.

(** [l] is the table; there is room for [n] more references to the objects of the callers *)
Definition roots_at (n : Z) (l : list oid) (w : world) : Prop :=
  (exists ob, heap w !! r = Some ob /\ extra ob = PRoots l) /\ NoDup l /\
  Inv (l ++ ext) extw [] w /\ (alive w < N)%Z /\
  Forall (fun x => exists ob, heap w !! x = Some ob /\ (ref_count ob + n < 2 ^ 64)%Z) ext.

Lemma get_anonymous_eq ob l w : heap w !! r = Some ob -> extra ob = PRoots l ->
  get_anonymous r w = Ret l w.
Proof. intros Ho He. unfold get_anonymous. by rewrite (bind_get_obj _ ob), He. Qed.

Lemma put_anonymous_eq ob l w : heap w !! r = Some ob ->
  put_anonymous r l w = Ret tt (set_heap (<[r := set_extra (PRoots l) ob]> (heap w)) w).
Proof. intros Ho. unfold put_anonymous, upd_obj. by rewrite (bind_get_obj _ ob). Qed.

Lemma Inv_put_anonymous e ob l w : Inv e extw [] w -> heap w !! r = Some ob ->
  Inv e extw [] (set_heap (<[r := set_extra (PRoots l) ob]> (heap w)) w).
Proof. intros HI Ho. eapply Inv_same_counts; [done|done|]. by split_and!. Qed.

(** counts are not changed by a new table *)
Lemma room_put (P : Z -> Prop) ob l (h : gmap oid object) x : h !! r = Some ob ->
  (exists obx, h !! x = Some obx /\ P (ref_count obx)) ->
  exists obx, <[r := set_extra (PRoots l) ob]> h !! x = Some obx /\ P (ref_count obx).
Proof.
  intros Ho (obx & Hx & Hp). destruct (decide (x = r)) as [->|].
  - rewrite lookup_insert_eq. eexists. split; [done|]. by simplify_eq.
  - rewrite lookup_insert_ne by done. eauto.
Qed.

Lemma add_root_step n l x w : (0 <= n)%Z -> roots_at (n + 1) l w -> x ∈ ext ->
  exists w', di_add_anonymous_root r x w = Ret (negb (bool_decide (x ∈ l))) w' /\
    roots_at n (if decide (x ∈ l) then l else l ++ [x]) w'.
Proof using strict E.
  intros Hn ((ob & Ho & He) & Hnd & HI & Hal & Hroom) Hx. unfold di_add_anonymous_root.
  rewrite (bind_ret_run _ _ _ _ _ (get_anonymous_eq ob l w Ho He)).
  destruct (decide (x ∈ l)) as [Hin|Hin].
  { rewrite bool_decide_eq_true_2 by done. exists w. split; [done|].
    split_and!; [eauto|done|done|done|]. eapply Forall_impl; [exact Hroom|].
    intros y (oby & ? & ?). exists oby. split; [done|lia]. }
  rewrite bool_decide_eq_false_2 by done.
  assert (Ht : takable [x] [] (heap w)).
  { split; [|constructor]. apply Forall_singleton. rewrite Forall_forall in Hroom.
    destruct (Hroom x Hx) as (obx & Hox & Hb).
    destruct (Inv_held _ _ _ _ x HI) as (? & ? & Hp & _); [apply elem_of_app; by right|]. simplify_eq.
    eexists. split_and!; [done|done|]. rewrite cnt_cons_eq, cnt_nil. lia. }
  rewrite (bind_ret_run _ _ _ _ _ (di_ref_object_eq x w (takable_refs_ok _ _ _ _ _ _ HI Ht))).
  pose proof (Inv_add_refs _ _ _ _ [x] [] HI Ht) as HI1.
  pose proof (frame_bound _ _ _ _ N (frame_add_refs strict None w [x] [] Ht) Hal) as Hal1.
  set (w1 := set_heap _ w) in *.
  set (ob1 := set_weak_ref_count (weak_ref_count ob + cnt r []) (set_ref_count (ref_count ob + cnt r [x]) ob)).
  assert (Ho1 : heap w1 !! r = Some ob1) by (unfold w1; cbn [heap set_heap]; by rewrite lookup_add_refs, Ho).
  rewrite (bind_ret_run _ _ _ _ _ (get_anonymous_eq ob1 l w1 Ho1 He)).
  rewrite (bind_ret_run _ _ _ _ _ (put_anonymous_eq ob1 _ w1 Ho1)).
  eexists. split; [done|]. split_and!.
  - eexists. split; [apply lookup_insert_eq|done].
  - apply NoDup_app. split_and!; [done|by intros y Hy ->%list_elem_of_singleton|apply NoDup_singleton].
  - apply Inv_put_anonymous; [|done]. eapply Inv_perm; [|done|exact HI1].
    change ([] ++ extw) with extw. rewrite <- (app_assoc l [x] ext). exact (Permutation_middle l ext x).
  - rewrite (alive_upd _ _ ob1) by done. unfold implicit_weak. cbn [ref_count set_extra]. lia.
  - apply Forall_forall. intros y Hy. cbn [heap set_heap].
    apply (room_put (fun c => (c + n < 2 ^ 64)%Z)); [done|]. unfold w1. cbn [heap set_heap].
    rewrite Forall_forall in Hroom. destruct (Hroom y Hy) as (oby & Hoy & Hb).
    rewrite lookup_add_refs, Hoy. eexists. split; [done|]. cbn [ref_count set_weak_ref_count set_ref_count].
    destruct (decide (y = x)) as [->|]; [rewrite cnt_cons_eq|rewrite cnt_cons_ne by done]; rewrite cnt_nil; lia.
Qed.

Lemma remove_root_step n l x w : (0 <= n)%Z -> roots_at (n + 1) l w -> x ∈ ext ->
  exists w', di_remove_anonymous_root r x w = Ret (bool_decide (x ∈ l)) w' /\
    roots_at n (if decide (x ∈ l) then list_remove_oid x l else l) w'.
Proof using Henv HN.
  intros Hn ((ob & Ho & He) & Hnd & HI & Hal & Hroom) Hx. unfold di_remove_anonymous_root.
  rewrite (bind_ret_run _ _ _ _ _ (get_anonymous_eq ob l w Ho He)).
  destruct (decide (x ∈ l)) as [Hin|Hin].
  2:{ rewrite bool_decide_eq_false_2 by done. exists w. split; [done|].
      split_and!; [eauto|done|done|done|]. eapply Forall_impl; [exact Hroom|].
      intros y (oby & ? & ?). exists oby. split; [done|lia]. }
  rewrite bool_decide_eq_true_2 by done.
  rewrite (bind_ret_run _ _ _ _ _ (put_anonymous_eq ob (list_remove_oid x l) w Ho)).
  pose proof (Inv_put_anonymous _ ob (list_remove_oid x l) w HI Ho) as HI1.
  set (ob1 := set_extra (PRoots (list_remove_oid x l)) ob) in *. set (w1 := set_heap _ w) in *.
  assert (Ho1 : heap w1 !! r = Some ob1) by apply lookup_insert_eq.
  assert (Hperm : l ≡ₚ x :: list_remove_oid x l).
  { clear -Hnd Hin. unfold list_remove_oid. induction Hnd as [|y l Hy Hnd IH]; [by apply not_elem_of_nil in Hin|].
    rewrite filter_cons. destruct (decide (y <> x)) as [Hne|Heq].
    - apply elem_of_cons in Hin as [->|Hin]; [done|]. rewrite Permutation_swap. by constructor; apply IH.
    - assert (y = x) by (destruct (decide (y = x)); [done|tauto]). subst y. constructor.
      clear -Hy. induction l as [|z l IH]; [done|]. rewrite filter_cons.
      rewrite decide_True by (intros ->; apply Hy; left). constructor. apply IH. intros ?. apply Hy. by right. }
  assert (HI1' : Inv (x :: (list_remove_oid x l ++ ext)) extw [] w1).
  { eapply Inv_perm; [|done|exact HI1]. by rewrite Hperm at 1. }
  assert (Hal1 : (alive w1 < N)%Z).
  { unfold w1. rewrite (alive_upd _ _ ob) by done. unfold implicit_weak. cbn [ref_count ob1 set_extra]. lia. }
  destruct (wp_run _ _ _ (di_unref_object_spec strict N Henv HN x _ _ _ _ HI1' Hal1))
    as ([] & w2 & Hrun & [HI2 HF2] & Heff).
  rewrite (bind_ret_run _ _ _ _ _ Hrun). exists w2. split; [done|].
  (* the callers still hold [x]: it is not destroyed *)
  destruct (Inv_held _ _ _ _ x HI1') as (obx & Hox & Hp & _); [by left|].
  destruct (Inv_held _ _ _ _ x HI2) as (obx2 & Hox2 & Hp2 & _); [apply elem_of_app; by right|].
  specialize (Heff obx Hox). destruct (Z.eqb_spec (ref_count obx) 1) as [H1|H1].
  { specialize (Heff _ Hox2). lia. }
  split_and!.
  - rewrite Heff. destruct (decide (x = r)) as [->|].
    + rewrite lookup_insert_eq. simplify_eq. by eexists.
    + rewrite lookup_insert_ne by done. eauto.
  - by apply list.NoDup_filter.
  - done.
  - eapply frame_bound; [exact HF2|done].
  - apply Forall_forall. intros y Hy. rewrite Heff.
    rewrite Forall_forall in Hroom. destruct (room_put (fun c => (c + (n + 1) < 2 ^ 64)%Z) ob (list_remove_oid x l) (heap w) y Ho (Hroom y Hy))
      as (oby & Hoy & Hb).
    change (heap w1 !! y = Some oby) in Hoy. destruct (decide (y = x)) as [->|].
    + rewrite lookup_insert_eq. eexists. split; [done|]. simplify_eq. cbn [ref_count set_ref_count]. lia.
    + rewrite lookup_insert_ne by done. exists oby. split; [done|lia].
Qed.

(** one operation against one of the abstract set *)
Lemma root_op_simulates n l op w S : (0 <= n)%Z -> roots_at (n + 1) l w -> op_object op ∈ ext ->
  list_to_set l = S ->
  exists w' l', run_op op w = Ret (fst (spec_op S op)) w' /\ roots_at n l' w' /\
    list_to_set l' = snd (spec_op S op).
Proof using Henv HN.
  intros Hn Hat Hx <-. destruct op as [x|x]; cbn [op_object run_op spec_op] in *.
  - destruct (add_root_step n l x w Hn Hat Hx) as (w' & Hrun & Hat'). exists w'. eexists.
    split_and!; [|exact Hat'|].
    + rewrite Hrun. f_equal. repeat case_decide; set_solver.
    + repeat case_decide; set_solver.
  - destruct (remove_root_step n l x w Hn Hat Hx) as (w' & Hrun & Hat'). exists w'. eexists.
    split_and!; [|exact Hat'|].
    + rewrite Hrun. f_equal. repeat case_decide; set_solver.
    + unfold list_remove_oid. repeat case_decide; try set_solver.
      apply set_eq. intros y. rewrite elem_of_list_to_set, list_elem_of_filter. set_solver.
Qed.

Lemma root_ops_simulate ops : forall l w S, roots_at (Z.of_nat (length ops)) l w ->
  Forall (fun op => op_object op ∈ ext) ops -> list_to_set l = S ->
  exists w' l', mapM run_op ops w = Ret (fst (spec_ops S ops)) w' /\ roots_at 0 l' w' /\
    list_to_set l' = snd (spec_ops S ops).
Proof using Henv HN.
  induction ops as [|op ops IH]; intros l w S Hat Hops HS; [by exists w, l|].
  apply Forall_cons in Hops as [Hop Hops]. cbn [length] in Hat. rewrite Nat2Z.inj_succ, <- Z.add_1_r in Hat.
  destruct (root_op_simulates (Z.of_nat (length ops)) l op w S ltac:(lia) Hat Hop HS) as (w1 & l1 & Hrun & Hat1 & HS1).
  destruct (IH l1 w1 _ Hat1 Hops HS1) as (w2 & l2 & Hrun2 & Hat2 & HS2).
  exists w2, l2. cbn [mapM spec_ops].
  rewrite (bind_ret_run _ _ _ _ _ Hrun), (bind_ret_run _ _ _ _ _ Hrun2).
  destruct (spec_op S op) as [b S1]. cbn [fst snd] in *. by destruct (spec_ops S1 ops).
Qed.

(** the destructor gives the references back *)
Lemma unref_all_spec l : forall w, Inv (l ++ ext) extw [] w -> (alive w < N)%Z ->
  wp (mapM_ di_unref_object l) (fun _ w' => Inv ext extw [] w') w.
Proof using Henv HN.
  induction l as [|x l IH]; intros w HI Hal; [done|]. cbn [mapM_]. wp_step.
  eapply wp_mono; [by apply (di_unref_object_ok strict N Henv HN x (l ++ ext) extw [] w)|].
  intros _ w1 [HI1 HF1]. apply IH; [done|by eapply frame_bound].
Qed.

(** Any sequence of additions and removals of anonymous roots answers what a set of objects
    answers, starting from no roots; the table never holds an object twice and holds one
    reference to each, so that destroying the roots object afterwards gives back every
    reference it took and no other. C37. *)
Theorem anonymous_roots_refine_set ops ob w :
  heap w !! r = Some ob -> extra ob = PRoots [] -> Inv ext extw [] w -> (alive w < N)%Z ->
  Forall (fun op => op_object op ∈ ext) ops ->
  Forall (fun x => exists ob, heap w !! x = Some ob /\ (ref_count ob + Z.of_nat (length ops) < 2 ^ 64)%Z) ext ->
  exists w' l', mapM run_op ops w = Ret (fst (spec_ops ∅ ops)) w' /\
    NoDup l' /\ list_to_set l' = snd (spec_ops ∅ ops) /\
    get_anonymous r w' = Ret l' w' /\ Inv (l' ++ ext) extw [] w' /\
    exists w'', di_roots_dtor r w' = Ret tt w'' /\ Inv ext extw [] w''.
Proof using Henv HN.
  intros Ho He HI Hal Hops Hroom.
  destruct (root_ops_simulate ops [] w ∅) as (w' & l' & Hrun & Hat & HS); [|done|done|].
  { split_and!; [eauto|apply NoDup_nil_2|done|done|done]. }
  destruct Hat as ((ob' & Ho' & He') & Hnd & HI' & Hal' & _).
  exists w', l'. split_and!; [done|done|done|by eapply get_anonymous_eq|done|].
  unfold di_roots_dtor. rewrite (bind_ret_run _ _ _ _ _ (get_anonymous_eq ob' l' w' Ho' He')).
  rewrite (bind_ret_run _ _ _ _ _ (put_anonymous_eq ob' [] w' Ho')).
  destruct (wp_run _ _ _ (unref_all_spec l' (set_heap (<[r := set_extra (PRoots []) ob']> (heap w')) w')
    ltac:(by apply Inv_put_anonymous)
    ltac:(rewrite (alive_upd _ _ ob') by done; unfold implicit_weak in *; cbn [ref_count set_extra]; lia)))
    as ([] & w'' & Hrun' & HI''). eauto.
Qed.
End root_set.

Definition roots_store : world :=
  store [(2%positive, set_extra (PRoots []) (plain [] 1 1)); (3%positive, plain [] 1 1); (4%positive, plain [] 1 1)].

Lemma anonymous_roots_refine_set_witness :
  exists w' l', mapM (@run_op quiet_env 2) [AddRoot 3; AddRoot 4; AddRoot 3; RemoveRoot 3; RemoveRoot 3] roots_store
      = Ret [true; true; false; true; false] w' /\
    NoDup l' /\ list_to_set l' = ((∅ ∪ {[3%positive]} ∪ {[4%positive]}) ∖ {[3%positive]} : gset oid) /\
    get_anonymous 2 w' = Ret l' w' /\ Inv (l' ++ [2; 3; 4]%positive) [dead_weak_ref] [] w' /\
    exists w'', @di_roots_dtor quiet_env 2 w' = Ret tt w'' /\ Inv [2; 3; 4]%positive [dead_weak_ref] [] w''.
Proof.
  apply (anonymous_roots_refine_set (E := quiet_env) True 20 (quiet_env_ok True 20) ltac:(simpl; lia)
    2 [2; 3; 4]%positive [dead_weak_ref] [AddRoot 3; AddRoot 4; AddRoot 3; RemoveRoot 3; RemoveRoot 3]
    (set_extra (PRoots []) (plain [] 1 1))).
  - vm_compute. reflexivity.
  - reflexivity.
  - apply Invb_sound. vm_compute. reflexivity.
  - vm_compute. reflexivity.
  - apply (bool_decide_unpack _). vm_compute. exact I.
  - repeat constructor; (eexists; split; [vm_compute; reflexivity|vm_compute; reflexivity]).
Defined.
