(* ===== verification/Reading.v ===== *)
(** * Properties of the reader of D-Bus messages: [Deserial] *)

From S2P Require Export Deserial Demo.
From Stdlib Require Import SpecFloat Ascii.

Section dvalue_induction.
Variable P : dvalue -> Prop.
Hypothesis Hbool : forall b, P (DBoolean b).
Hypothesis Hint : forall t z, P (DInteger t z).
Hypothesis Hdouble : forall f, P (DDouble f).
Hypothesis Htext : forall t s, P (DText t s).
Hypothesis Harray : forall l, Forall P l -> P (DArray l).
Hypothesis Hentry : forall k v, P k -> P v -> P (DDictEntry k v).
Hypothesis Hstruct : forall l, Forall P l -> P (DStruct l).
Hypothesis Hvariant : forall d, P d -> P (DVariant d).

Fixpoint dvalue_ind' (d : dvalue) : P d :=
  let fix go (l : list dvalue) : Forall P l :=
    match l with
    | [] => @List.Forall_nil _ P
    | x :: l' => @List.Forall_cons _ P x l' (dvalue_ind' x) (go l')
    end in
  match d with
  | DBoolean b => Hbool b
  | DInteger t z => Hint t z
  | DDouble f => Hdouble f
  | DText t s => Htext t s
  | DArray l => Harray l (go l)
  | DDictEntry k v => Hentry k v (dvalue_ind' k) (dvalue_ind' v)
  | DStruct l => Hstruct l (go l)
  | DVariant d => Hvariant d (dvalue_ind' d)
  end.
End dvalue_induction.

(** ** The values the messages stand for *)

Fixpoint value_of (d : dvalue) : val :=
  match d with
  | DBoolean b => VBool b
  | DInteger t z =>
      if existsb (chr_eqb t) [DBUS_TYPE_UINT16; DBUS_TYPE_UINT32; DBUS_TYPE_UINT64] then VUint z else VInt z
  | DDouble f => VFloat f
  | DText _ s => VString (Some (c_str s))
  | DArray [] => VArray DI_TYPE_ANY false []
  | DArray ((d0 :: _) as l) => VArray (dbus_type_to_di (arg_type d0)) true (map value_of l)
  | DDictEntry k v => VTuple [value_of k; value_of v]
  | DStruct l => VTuple (map value_of l)
  | DVariant d => VVariant (value_of d)
  end.

(** integers are no bytes, texts no signatures, the elements of an array have one type, which
    is not of a fixed size, and there are no dictionaries *)
Definition integer_code (t : Ascii.ascii) : bool := existsb (chr_eqb t) (String.list_ascii_of_string "nqiuxth").
Definition text_code (t : Ascii.ascii) : bool := existsb (chr_eqb t) (String.list_ascii_of_string "so").
Definition array_element (t : Ascii.ascii) : bool := existsb (chr_eqb t) (String.list_ascii_of_string "soarv").
Fixpoint supported (d : dvalue) : bool :=
  match d with
  | DBoolean _ | DDouble _ => true
  | DInteger t _ => integer_code t
  | DText t _ => text_code t
  | DArray l => forallb supported l &&
      match l with
      | [] => true
      | d0 :: _ => array_element (arg_type d0) && forallb (fun d => chr_eqb (arg_type d) (arg_type d0)) l
      end
  | DDictEntry _ _ => false
  | DStruct l => forallb supported l
  | DVariant d => supported d
  end.

(** which types libdbus says are basic, and of a fixed size *)
Class LibdbusCodes (L : Libdbus) := {
  basic_codes c : dbus_type_is_basic c = existsb (chr_eqb c) (String.list_ascii_of_string "ybnqiuxtdsogh");
  fixed_codes c : dbus_type_is_fixed c = existsb (chr_eqb c) (String.list_ascii_of_string "ybnqiuxtdh")
}.
#[export] Instance spec_libdbus_codes : LibdbusCodes spec_libdbus.
Proof. by constructor. Qed.

(** a code of a list is one of its elements *)
Lemma code_in t l : existsb (chr_eqb t) l = true -> t ∈ l.
Proof.
  intros H. apply existsb_exists in H as (c & Hc & ->%Ascii.eqb_eq). by apply list_elem_of_In.
Qed.

Lemma supported_type d : supported d = true -> type_of (value_of d) = dbus_type_to_di (arg_type d).
Proof.
  destruct d as [b|t z|f|t s|[|d0 l]|k v|l|d]; simpl; try done.
  - intros H%code_in. simpl in H. rewrite !elem_of_cons in H.
    repeat destruct H as [->|H]; try reflexivity. by apply not_elem_of_nil in H.
  - intros H%code_in. simpl in H. rewrite !elem_of_cons in H.
    repeat destruct H as [->|H]; try reflexivity. by apply not_elem_of_nil in H.
Qed.
Lemma supported_sizeof d : supported d = true -> exists n, di_sizeof_type (dbus_type_to_di (arg_type d)) = Some n.
Proof.
  intros H. rewrite <- supported_type by done. destruct d as [b|t z|f|t s|[|d0 l]|k v|l|d]; simpl in *; try by eexists.
  case_match; by eexists.
Qed.

Section Reading.
Context {E : Env} {L : Libdbus} {LC : LibdbusCodes L}.

Lemma struct_element_run d w : supported d = true -> dbus_deserialize_one d w = Ret (value_of d) w ->
  struct_element dbus_deserialize_one d w = Ret (value_of d) w.
Proof.
  intros Hs Hd. destruct (supported_sizeof d Hs) as [n Hn]. unfold struct_element, bind, sizeof_. rewrite Hn. simpl.
  rewrite Hd, supported_type by done. by rewrite bool_decide_true.
Qed.

Lemma struct_elements_run l w :
  Forall (fun d => supported d = true -> forall w, dbus_deserialize_one d w = Ret (value_of d) w) l ->
  forallb supported l = true -> struct_elements dbus_deserialize_one l w = Ret (map value_of l) w.
Proof.
  induction 1 as [|d l Hd HF IH]; [done|]. intros [Hsd Hsl]%andb_true_iff.
  simpl. unfold bind at 1. rewrite (struct_element_run _ _ Hsd (Hd Hsd w)). unfold bind. by rewrite (IH Hsl).
Qed.
Lemma array_elements_run t l w :
  Forall (fun d => supported d = true -> forall w, dbus_deserialize_one d w = Ret (value_of d) w) l ->
  forallb supported l = true -> forallb (fun d => chr_eqb (arg_type d) t) l = true ->
  array_elements dbus_deserialize_one (dbus_type_to_di t) l w = Ret (map value_of l) w.
Proof.
  induction 1 as [|d l Hd HF IH]; [done|]. intros [Hsd Hsl]%andb_true_iff [Hty Hall]%andb_true_iff.
  simpl. unfold bind at 1. rewrite (Hd Hsd). rewrite (supported_type d Hsd). apply Ascii.eqb_eq in Hty. rewrite Hty.
  rewrite bool_decide_true by done. unfold bind. simpl. by rewrite (IH Hsl Hall).
Qed.

Lemma element_not_fixed t : array_element t = true -> dbus_type_is_fixed t = false.
Proof using LC.
  rewrite fixed_codes. intros H%code_in. simpl in H. rewrite !elem_of_cons in H.
  repeat destruct H as [->|H]; try reflexivity. by apply not_elem_of_nil in H.
Qed.
Lemma integer_run t z w : integer_code t = true ->
  dbus_deserialize_one (DInteger t z) w = Ret (value_of (DInteger t z)) w.
Proof using LC.
  intros Hs%code_in. unfold dbus_deserialize_one. rewrite basic_codes. simpl in Hs. rewrite !elem_of_cons in Hs.
  repeat destruct Hs as [->|Hs]; try reflexivity. by apply not_elem_of_nil in Hs.
Qed.
Lemma text_run t s w : text_code t = true -> dbus_deserialize_one (DText t s) w = Ret (value_of (DText t s)) w.
Proof using LC.
  intros Hs%code_in. unfold dbus_deserialize_one. rewrite basic_codes. simpl in Hs. rewrite !elem_of_cons in Hs.
  repeat destruct Hs as [->|Hs]; try reflexivity. by apply not_elem_of_nil in Hs.
Qed.

Lemma variant_run d n w x w' : di_sizeof_type (dbus_type_to_di (arg_type d)) = Some n ->
  dbus_deserialize_one d w = Ret x w' ->
  dbus_deserialize_one (DVariant d) w =
    if bool_decide (type_of x = dbus_type_to_di (arg_type d)) then Ret (VVariant x) w' else Stuck AssertFailed.
Proof using LC.
  intros Hn Hx. cbn [dbus_deserialize_one]. rewrite basic_codes. replace (existsb _ _) with false by reflexivity.
  unfold bind, sizeof_. rewrite Hn. simpl. rewrite Hx. by case_bool_decide.
Qed.

Lemma deserialize_one_run d : supported d = true -> forall w, dbus_deserialize_one d w = Ret (value_of d) w.
Proof using LC.
  induction d as [b|t z|f|t s|l IH|k v IHk IHv|l IH|d IH] using dvalue_ind'; intros Hs w;
    [..|by apply integer_run| |by apply text_run| | | |]; try done.
  - unfold dbus_deserialize_one. by rewrite basic_codes.
  - unfold dbus_deserialize_one. by rewrite basic_codes.
  - destruct l as [|d0 l]; cbn [dbus_deserialize_one]; rewrite basic_codes; [reflexivity|].
    cbn [supported] in Hs. apply andb_true_iff in Hs as [Hs [Hel Hall]%andb_true_iff].
    replace (existsb _ _) with false by reflexivity.
    replace (match d0 with DDictEntry k _ => _ | _ => false end) with false by (by destruct d0).
    rewrite (element_not_fixed _ Hel).
    assert (Hs0 : supported d0 = true) by (by apply andb_true_iff in Hs as [? _]).
    destruct (supported_sizeof d0 Hs0) as [n Hn]. unfold bind at 1, sizeof_. rewrite Hn. unfold ret at 1.
    unfold bind. by rewrite (array_elements_run _ _ _ IH Hs Hall).
  - cbn [dbus_deserialize_one]. rewrite basic_codes. replace (existsb _ _) with false by reflexivity.
    unfold bind. by rewrite (struct_elements_run _ _ IH Hs).
  - destruct (supported_sizeof d Hs) as [n Hn].
    rewrite (variant_run d n w _ _ Hn (IH Hs w)), (supported_type d Hs). by rewrite bool_decide_true.
Qed.

(** The arguments of a message are read as the values they stand for, each with its type and
    without an effect on the store, as long as there are no bytes, signatures, dictionaries
    or arrays of numbers among them. C34. *)
Theorem dbus_deserialize_struct_supported l w : forallb supported l = true ->
  dbus_deserialize_struct l w = Ret (VTuple (map value_of l)) w /\
  map type_of (map value_of l) = map (fun d => dbus_type_to_di (arg_type d)) l.
Proof using LC.
  intros Hs. split.
  - unfold dbus_deserialize_struct, bind. rewrite struct_elements_run; [done| |done].
    apply Forall_forall. intros d _. apply deserialize_one_run.
  - induction l as [|d l IH]; [done|]. simpl in Hs. apply andb_true_iff in Hs as [Hsd Hsl]. simpl.
    by rewrite (supported_type d Hsd), (IH Hsl).
Qed.

End Reading.

Definition hello_message : list dvalue :=
  [DText "s" "name"; DStruct [DInteger "u" 7; DArray [DText "o" "/a"; DText "o" "/b"]]; DVariant (DBoolean true)].
Lemma dbus_deserialize_struct_supported_witness :
  @dbus_deserialize_struct quiet_env spec_libdbus hello_message (store []) =
    Ret (VTuple [VString (Some "name"); VTuple [VUint 7; VArray DI_TYPE_STRING true [VString (Some "/a"); VString (Some "/b")]];
                 VVariant (VBool true)]) (store []) /\
  map type_of (map value_of hello_message) = [DI_TYPE_STRING; DI_TYPE_TUPLE; DI_TYPE_VARIANT].
Proof.
  apply (@dbus_deserialize_struct_supported quiet_env spec_libdbus _ hello_message (store [])). vm_compute. reflexivity.
Defined.

(** the reader on a dictionary of properties, with a variant as the value, as a signal
    PropertiesChanged carries it *)
Example properties_read :
  match @dbus_deserialize_struct quiet_env spec_libdbus
          [DArray [DDictEntry (DText "s" "Volume") (DVariant (DDouble (S754_zero false)))]] (store [])
  with Ret v _ => v = VTuple [VObject 2] | _ => False end.
Proof. vm_compute. reflexivity. Qed.

