(* ===== verification/Collector.v ===== *)
(** * The cycle collector as a whole

    One round of [di_collect_garbage] and the loop around it: what it may rely on, what it
    frees and what it leaves alone. *)

From S2P Require Export GCCollect Demo.

(** what holds between two collections *)
Record collectable (ext extw : list oid) (w : world) : Prop := {
  co_inv : Inv ext extw [] w;
  co_calm : calm w;
  co_init : is_Some (unreferred w);
  co_room : forall o ob, heap w !! o = Some ob -> (ref_count ob < 2 ^ 64 - 1)%Z
}.

(** everything alive can be reached from outside or is on the list of suspects, or can be
    reached from one *)
Definition covered (ext : list oid) (w : world) : Prop :=
  forall x ob, alive_obj w x ob -> reachable (heap w) (ext ++ default [] (unreferred w)) x.

Lemma reachable_app h s1 s2 x : reachable h (s1 ++ s2) x <-> reachable h s1 x \/ reachable h s2 x.
Proof.
  split.
  - intros (e & [He|He]%elem_of_app & Hp); [left|right]; by exists e.
  - intros [(e & He & Hp)|(e & He & Hp)]; exists e; (split; [apply elem_of_app; auto|done]).
Qed.

Lemma reachable_step h s x y : reachable h s x -> rtc (refers h) x y -> reachable h s y.
Proof. intros (e & He & Hp) Hxy. exists e. split; [done|]. by etransitivity. Qed.

Lemma rtc_scans_refers h x y : rtc (scans h) x y -> rtc (refers h) x y.
Proof. induction 1; [done|]. eapply rtc_l; [by apply scans_refers|done]. Qed.

Lemma all_scanned_rtc h x y : all_scanned h -> rtc (refers h) x y -> rtc (scans h) x y.
Proof.
  intros Hall. induction 1 as [|x y z (ob & Hx & Hy) _ IH]; [done|]. eapply rtc_l; [|done].
  exists ob. split; [done|]. by rewrite (Hall _ _ Hx).
Qed.

Lemma over_reachable h w s x : over h w -> reachable (heap w) s x <-> reachable h s x.
Proof.
  intros Ho. split; intros (e & He & Hp); exists e; (split; [done|]); revert x Hp; apply rtc_ind_r; try done;
    intros y z _ Hyz IH; (eapply rtc_r; [done|]); by apply (over_refers h w _ _ Ho).
Qed.

Section round.
Variables (ext extw : list oid).

(** what a collection does, from [w] to [w'] *)
Record collected (w w' : world) : Prop := {
  cd_ok : collectable ext extw w';
  cd_alive : (alive w' <= alive w)%Z;
  cd_kept : keeps (reachable (heap w) ext) w w';
  cd_members : forall p ob', heap w' !! p = Some ob' -> exists ob, heap w !! p = Some ob /\
    (members ob' = members ob \/ members ob' = []) /\ (ref_count ob = 0%Z -> ref_count ob' = 0%Z);
  cd_complete : all_scanned (heap w) -> covered ext w ->
    forall x ob, alive_obj w' x ob -> reachable (heap w) ext x
}.

Lemma collected_all_scanned w w' : collected w w' -> all_scanned (heap w) -> all_scanned (heap w').
Proof using.
  intros HC Hall p ob' Hp. destruct (cd_members _ _ HC _ _ Hp) as (ob & Hob & [Hm|Hm] & _).
  - unfold obj_scan, obj_strong. rewrite Hm. by apply (Hall p).
  - unfold obj_scan, obj_strong. by rewrite Hm.
Qed.

Lemma collected_refl w : collectable ext extw w -> unreferred w = Some [] -> collected w w.
Proof using.
  intros HC Hu. constructor; [done|lia| | |].
  - intros x Hx. destruct (reachable_alive (co_inv _ _ _ HC) ext x) as (ob & Ho); [|done|by exists ob, ob].
    apply Forall_forall. intros e. apply (held_alive (co_inv _ _ _ HC)).
  - intros p ob Hp. exists ob. auto.
  - intros _ Hcov x ob Hx. specialize (Hcov x ob Hx). rewrite Hu in Hcov. simpl in Hcov. by rewrite app_nil_r in Hcov.
Qed.

Lemma collected_trans w1 w2 w3 : collected w1 w2 -> collected w2 w3 -> collected w1 w3.
Proof using.
  intros H1 H2.
  assert (Hr : forall x, reachable (heap w1) ext x -> reachable (heap w2) ext x).
  { intros x. apply keeps_reachable, H1. }
  assert (Hm : forall p ob', heap w3 !! p = Some ob' -> exists ob, heap w1 !! p = Some ob /\
    (members ob' = members ob \/ members ob' = []) /\ (ref_count ob = 0%Z -> ref_count ob' = 0%Z)).
  { intros p ob3 H3. destruct (cd_members _ _ H2 _ _ H3) as (ob2 & Hp2 & Hm2 & Hz2).
    destruct (cd_members _ _ H1 _ _ Hp2) as (ob1 & Hp1 & Hm1 & Hz1). exists ob1. split_and!; [done| |auto].
    destruct Hm2 as [Hm2|]; [|by right]. destruct Hm1 as [Hm1|Hm1]; [left|right]; congruence. }
  constructor; [apply H2|pose proof (cd_alive _ _ H1); pose proof (cd_alive _ _ H2); lia| |done|].
  - eapply keeps_trans; [apply H1|]. eapply keeps_impl; [|apply H2]. done.
  - intros Hall Hcov x ob3 [Hx3 Hne3].
    destruct (cd_members _ _ H2 _ _ Hx3) as (ob2 & Hx2 & _ & Hz2).
    apply (cd_complete _ _ H1 Hall Hcov x ob2). split; [done|]. auto.
Qed.

Section one_round.
Variables (w wb w' : world) (un0 D : list oid).
Hypothesis HC : collectable ext extw w.
Hypothesis Hun0 : unreferred w = Some un0.
Hypothesis HT : traced ext un0 w wb.
Hypothesis HP : collecting ext extw wb [] D w'.
Hypothesis Hempty : isolated w' = [].

Local Lemma HIb : Inv ext extw [] wb.
Proof using HC HT. eapply traced_Inv; [apply HC|done]. Qed.

Lemma condemned_done g : condemned wb g -> g ∈ D.
Proof using HC HT HP Hempty.
  intros Hg. destruct (tr_reach _ _ _ _ HT _ Hg) as (r & Hr & Hp).
  assert (HrD : r ∈ D).
  { destruct (decide (r ∈ D)) as [|Hn]; [done|]. pose proof (cl_iso _ _ _ _ _ _ HP r Hr Hn) as Hin.
    rewrite Hempty in Hin. by apply not_elem_of_nil in Hin. }
  eapply (collecting_closed_path ext extw un0 w wb); [done|done|exact HrD| |done].
  clear -Hp HT. induction Hp as [|a b c Hab _ IH]; [done|]. eapply rtc_l; [|done].
  by rewrite (over_scans _ _ _ _ (tr_over _ _ _ _ HT)).
Qed.

(** nothing condemned is alive any more *)
Lemma condemned_gone g ob : alive_obj w' g ob -> ~ condemned wb g.
Proof using HC HT HP Hempty.
  intros Hg HGg. pose proof (cl_inv _ _ _ _ _ _ HP) as HIw. simpl in HIw.
  destruct (alive_reason HIw g ob Hg) as [He|(p & Hp)].
  - by apply (tr_held _ _ _ _ HT _ HGg).
  - destruct (collecting_refers ext extw wb _ _ _ _ _ HP Hp) as [Hb HpD].
    destruct (back ext un0 w wb HT _ _ HGg Hb) as [HGp _]. by apply HpD, condemned_done.
Qed.

Lemma round_calm : calm w'.
Proof using HC HT HP Hempty.
  intros x ob' [Hx Hne]. pose proof (condemned_gone x ob' (conj Hx Hne)) as HnG.
  destruct (cl_obj _ _ _ _ _ _ HP _ _ Hx) as (ob & Hob & Hs & Hz & _ & Hk).
  destruct (Hk HnG) as [Hmk _].
  assert (Hne0 : ref_count ob <> 0%Z) by (intros ?; by apply Hne, Hz).
  destruct (tr_marks _ _ _ _ HT _ _ (conj Hob Hne0)) as [[Hm0 Hs0]|Hm2]; [split; congruence|].
  destruct HnG. by exists ob.
Qed.

Lemma round_count x ob' : heap w' !! x = Some ob' ->
  exists ob, heap w !! x = Some ob /\ (ref_count ob' <= ref_count ob)%Z /\
    (members ob' = members ob \/ members ob' = []) /\ (ref_count ob = 0%Z -> ref_count ob' = 0%Z).
Proof using HC HT HP.
  intros Hx. destruct (cl_obj _ _ _ _ _ _ HP _ _ Hx) as (obb & Hob & _ & Hz & Hm & _).
  destruct (over_lookup_inv _ _ _ _ (tr_over _ _ _ _ HT) Hob) as (ob & Ho & Hs).
  destruct (same_paint_fields _ _ Hs) as ((Hme & _) & Hr & _).
  exists ob. split_and!; [done| |by rewrite <- Hme|by rewrite <- Hr].
  rewrite <- Hr. pose proof (cl_inv _ _ _ _ _ _ HP) as HIw. simpl in HIw.
  rewrite (oi_rc _ _ _ _ _ _ (inv_obj _ _ _ _ HIw _ _ Hx)), (oi_rc _ _ _ _ _ _ (inv_obj _ _ _ _ HIb _ _ Hob)).
  pose proof (collecting_refs_le ext extw wb _ _ _ x HP). lia.
Qed.

Lemma round_kept : keeps (reachable (heap w) ext) w w'.
Proof using HC HT HP.
  eapply keeps_trans.
  2: { eapply keeps_impl; [|apply (cl_kept _ _ _ _ _ _ HP)]. intros x Hx.
       by apply (over_reachable _ _ _ _ (tr_over _ _ _ _ HT)). }
  intros x Hx. pose proof (co_inv _ _ _ HC) as HIw.
  destruct (reachable_alive HIw ext x) as (ob & [Ho Hne]); [|done|].
  { apply Forall_forall. intros e. apply (held_alive HIw). }
  destruct (over_lookup _ _ _ _ (tr_over _ _ _ _ HT) Ho) as (ob' & Ho' & Hs).
  destruct (same_paint_fields _ _ Hs) as (Hsc & Hr & _).
  assert (Hal' : alive_obj wb x ob') by (split; [done|congruence]).
  exists ob, ob'. split_and!; [done|done|done| |].
  all: destruct (co_calm _ _ _ HC x ob (conj Ho Hne)) as [Hm0 Hs0];
    destruct (tr_marks _ _ _ _ HT _ _ Hal') as [[Hm1 Hs1]|Hm2]; try congruence.
  all: exfalso; eapply (condemned_unreachable ext un0 w wb HT x); [by exists ob'|];
    by apply (over_reachable _ _ _ _ (tr_over _ _ _ _ HT)).
Qed.

Lemma round_collected : collected w w'.
Proof using HC Hun0 HT HP Hempty.
  pose proof (co_inv _ _ _ HC) as HIw. constructor.
  - constructor; [apply (cl_inv _ _ _ _ _ _ HP)|apply round_calm|apply (cl_init _ _ _ _ _ _ HP)|].
    intros o ob' Ho. destruct (round_count o ob' Ho) as (ob & Hob & Hle & _).
    pose proof (co_room _ _ _ HC _ _ Hob). lia.
  - rewrite <- (over_alive _ _ (tr_over _ _ _ _ HT)). apply (cl_alive _ _ _ _ _ _ HP).
  - apply round_kept.
  - intros p ob' Hp. destruct (round_count p ob' Hp) as (ob & ? & _ & ? & ?). eauto.
  - intros Hall Hcov x ob' [Hx Hne].
    destruct (round_count x ob' Hx) as (ob & Hob & _ & _ & Hz).
    assert (Hxw : alive_obj w x ob) by (split; [done|auto]).
    assert (Hin : forall y oby, alive_obj w y oby -> ~ from_roots (heap w) un0 y -> reachable (heap w) ext y).
    { intros y oby Hy Hn. specialize (Hcov y oby Hy). rewrite Hun0 in Hcov. simpl in Hcov.
      apply reachable_app in Hcov as [|(u & Hu & Hp)]; [done|]. destruct Hn. exists u. split; [done|].
      by apply all_scanned_rtc. }
    specialize (Hcov x ob Hxw) as Hcx. rewrite Hun0 in Hcx. simpl in Hcx.
    apply reachable_app in Hcx as [|(u & Hu & Hp)]; [done|].
    destruct (tr_left _ _ _ _ HT Hall x) as (y & Hyx & [He|(p & Hp' & Hn)]).
    + exists u. split; [done|]. by apply all_scanned_rtc.
    + by eapply condemned_gone.
    + exists y. split; [done|]. by apply rtc_scans_refers.
    + destruct Hp' as (obp & Hop & Hyp). assert (Hpal : alive_obj w p obp).
      { split; [done|]. intros H0. destruct (oi_zombie _ _ _ _ _ _ (inv_obj _ _ _ _ HIw _ _ Hop) H0) as [Hm|Hin'].
        - unfold obj_strong in Hyp. rewrite Hm in Hyp. by apply not_elem_of_nil in Hyp.
        - by apply not_elem_of_nil in Hin'. }
      eapply reachable_step; [by eapply Hin|]. eapply rtc_l; [by exists obp|]. by apply rtc_scans_refers.
Qed.

(** a round that had something to collect leaves fewer objects alive *)
Lemma round_shrinks r : r ∈ isolated wb -> (alive w' < alive w)%Z.
Proof using HC HT HP Hempty.
  intros Hr. pose proof (tr_roots _ _ _ _ HT _ Hr) as HGr. pose proof HGr as (obr & [Hor Hne] & _).
  rewrite <- (over_alive _ _ (tr_over _ _ _ _ HT)). unfold alive.
  rewrite (msum_delete _ _ _ _ Hor). unfold implicit_weak at 2.
  pose proof (Inv_rc_nonneg _ _ _ _ _ _ HIb Hor). destruct (Z.ltb_spec 0 (ref_count obr)); [|lia].
  assert (Hle : (msum implicit_weak (delete r (heap w')) <= msum implicit_weak (delete r (heap wb)))%Z).
  { apply msum_le; [intros x ob _; unfold implicit_weak; case_match; lia|].
    intros x ob' [Hxr Hx]%lookup_delete_Some. destruct (cl_obj _ _ _ _ _ _ HP _ _ Hx) as (ob & Hob & _ & Hz & _).
    exists ob. split; [by rewrite lookup_delete_ne|]. pose proof (Inv_rc_nonneg _ _ _ _ _ _ HIb Hob).
    unfold implicit_weak. destruct (Z.ltb_spec 0 (ref_count ob')), (Z.ltb_spec 0 (ref_count ob)); lia. }
  destruct (heap w' !! r) as [ob'|] eqn:Hr'.
  - rewrite (msum_delete _ _ _ _ Hr'). assert (ref_count ob' = 0%Z) as Hz.
    { destruct (decide (ref_count ob' = 0%Z)); [done|]. by destruct (condemned_gone r ob' (conj Hr' ltac:(done))). }
    unfold implicit_weak at 1. rewrite Hz. simpl. lia.
  - rewrite delete_id in Hle by done. lia.
Qed.
End one_round.
End round.

Section loop.
Context {E : Env}.
Variables (N : Z) (ext extw : list oid).
Hypothesis Henv : env_ok True N.
Hypothesis HN : (N <= Z.of_nat env_fuel)%Z.

Lemma collect_round_spec w un0 : collectable ext extw w -> unreferred w = Some un0 ->
  (alive w < N)%Z -> (2 * alive w < Z.of_nat env_fuel)%Z ->
  wp collect_round (fun _ w' => collected ext extw w w' /\
    ((alive w' < alive w)%Z \/ unreferred w' = Some [])) w.
Proof using Henv HN.
  intros HC Hun Hal Hfuel. unfold collect_round. wp_step. wp_step.
  pose proof (trace_spec ext extw un0 w (co_inv _ _ _ HC) (co_calm _ _ _ HC) Hun Hfuel) as Htr.
  apply wp_bind_inv in Htr. wp_step. eapply wp_mono; [exact Htr|]. cbv beta. intros [] w1 Htr1.
  apply wp_bind_inv in Htr1. wp_step. eapply wp_mono; [exact Htr1|]. cbv beta. intros [] w2 Htr2.
  wp_step. eapply wp_mono; [exact Htr2|]. cbv beta. intros [] wb HT.
  pose proof (traced_Inv _ _ _ _ _ (co_inv _ _ _ HC) HT) as HIb.
  assert (Hab : (alive wb = alive w)%Z) by (apply over_alive, HT).
  assert (Hroom : forall x ob, heap wb !! x = Some ob -> (ref_count ob < 2 ^ 64 - 1)%Z).
  { intros x ob Hx. destruct (over_lookup_inv _ _ _ _ (tr_over _ _ _ _ HT) Hx) as (ob0 & Hx0 & Hs).
    destruct (same_paint_fields _ _ Hs) as (_ & -> & _). by apply (co_room _ _ _ HC x). }
  pose proof (collecting_start ext extw un0 w wb HIb HT) as Hstart.
  assert (Hlen : (Z.of_nat (length (isolated wb)) <= alive wb)%Z).
  { apply length_alive; [apply HT|]. intros x Hx. destruct (tr_roots _ _ _ _ HT _ Hx) as (ob & [Ho Hne] & _).
    exists ob. split; [done|]. pose proof (Inv_rc_nonneg _ _ _ _ _ _ HIb Ho). lia. }
  destruct (isolated wb) as [|r rs] eqn:Hiso.
  - assert (Hrun : collect_roots env_fuel wb = Ret tt wb).
    { assert (Hgen : forall n, collect_roots n wb = Ret tt wb); [|by apply Hgen].
      intros [|n]; simpl; unfold bind, gets; by rewrite Hiso. }
    unfold wp. rewrite Hrun. split; [|right; apply HT].
    by eapply round_collected.
  - eapply wp_mono; [eapply (collect_roots_spec N ext extw un0 w wb); try done; [lia|rewrite Hiso; lia]|].
    cbv beta. intros [] w' (D & HP & Hempty). split; [by eapply round_collected|left].
    eapply (round_shrinks ext extw w wb w' un0 D HC HT HP Hempty r). rewrite Hiso. by left.
Qed.

Lemma collect_garbage_loop_spec fuel : forall w, collectable ext extw w ->
  (alive w < N)%Z -> (2 * alive w < Z.of_nat env_fuel)%Z ->
  (alive w <= Z.of_nat fuel)%Z \/ unreferred w = Some [] ->
  wp (collect_garbage_loop fuel) (fun _ w' => collected ext extw w w' /\ unreferred w' = Some []) w.
Proof using Henv HN.
  induction fuel as [|fuel IH]; intros w HC Hal Hfuel Hle.
  - assert (Hu : unreferred w = Some []).
    { destruct Hle as [Hle|]; [|done]. destruct (co_init _ _ _ HC) as [[|i un] Hu]; [done|].
      pose proof (roots_length ext extw (i :: un) w (co_inv _ _ _ HC) Hu) as Hl. simpl in Hl. lia. }
    simpl. wp_step. wp_step. rewrite Hu. wp_step. split; [by apply collected_refl|done].
  - cbn [collect_garbage_loop]. wp_step. wp_step. destruct (co_init _ _ _ HC) as [un Hu]. rewrite Hu.
    destruct un as [|i un]; [wp_step; split; [by apply collected_refl|done]|].
    wp_step. eapply wp_mono; [by eapply collect_round_spec|]. cbv beta. intros [] w1 [Hc Hpr].
    pose proof (cd_alive _ _ _ _ Hc) as Ha1.
    eapply wp_mono; [eapply (IH w1); [apply Hc|lia|lia|]|].
    + destruct Hpr as [Hlt|]; [left|by right]. destruct Hle as [|Hu']; [lia|]. congruence.
    + cbv beta. intros [] w2 [Hc2 Hu2]. split; [by eapply collected_trans|done].
Qed.

(** A collection terminates, whatever cycles and chains of destruction it meets, without a
    failed assertion or an access to freed memory. It leaves the store ready for the next one:
    counts equal to references, no suspects, no marks. And it is safe: everything that
    can be reached from a reference held outside keeps its members, its destructor, its
    callee and its data. C1. *)
Theorem di_collect_garbage_safe w :
  collectable ext extw w -> (alive w < N)%Z -> (2 * alive w < Z.of_nat env_fuel)%Z ->
  exists w', di_collect_garbage w = Ret tt w' /\ collectable ext extw w' /\
    unreferred w' = Some [] /\ keeps (reachable (heap w) ext) w w'.
Proof using Henv HN.
  intros HC Hal Hfuel.
  assert (Hle : (alive w <= Z.of_nat env_fuel)%Z) by (pose proof (alive_nonneg w); lia).
  destruct (wp_run _ _ _ (collect_garbage_loop_spec env_fuel w HC Hal Hfuel (or_introl Hle))) as ([] & w' & Hrun & Hc & Hu).
  exists w'. split_and!; [done|apply Hc|done|apply Hc].
Qed.

End loop.

(** ** A concrete store: a cycle that nobody holds, and an object it shares with one that is
    held *)

Definition collectableb (ext extw : list oid) (w : world) : bool :=
  Invb ext extw [] w && bool_decide (is_Some (unreferred w)) &&
  bool_decide (map_Forall (fun _ ob => (ref_count ob <> 0 -> mark ob = 0 /\ ref_count_scan ob = 0) /\
                 ref_count ob < 2 ^ 64 - 1)%Z (heap w)).

Lemma collectableb_sound ext extw w : collectableb ext extw w = true -> collectable ext extw w.
Proof.
  unfold collectableb. rewrite !andb_true_iff, !bool_decide_eq_true. intros [[HI Hs] HF].
  constructor; [by apply Invb_sound| |done|].
  - intros o ob [Ho Hne]. by apply (HF _ _ Ho).
  - intros o ob Ho. apply (HF _ _ Ho).
Qed.

Definition cyclic_store : world :=
  set_unreferred (Some [2; 5])%positive
    (store [(2%positive, plain [("next", VObject 3)] 1 1);
            (3%positive, plain [("next", VObject 2); ("shared", VTuple [VInt 7; VVariant (VObject 5)])] 1 1);
            (4%positive, plain [("x", VObject 5)] 1 1);
            (5%positive, plain [("n", VInt 1)] 2 1)]).

Lemma di_collect_garbage_safe_witness :
  exists w', @di_collect_garbage quiet_env cyclic_store = Ret tt w' /\
    collectable [4%positive] [dead_weak_ref] w' /\ unreferred w' = Some [] /\
    keeps (reachable (heap cyclic_store) [4%positive]) cyclic_store w'.
Proof.
  apply (@di_collect_garbage_safe quiet_env 10 [4%positive] [dead_weak_ref]).
  - apply quiet_env_ok.
  - simpl. lia.
  - apply collectableb_sound. vm_compute. reflexivity.
  - vm_compute. reflexivity.
  - vm_compute. reflexivity.
Defined.


(** Isolated roots can reach each other: the traversal from the later root 4 stops at 3,
    which the earlier root 2 has marked, before it meets 2. The order in which the roots are
    finalized does not matter all the same. *)
Definition joined_store : world :=
  set_unreferred (Some [2; 4])%positive
    (store [(2%positive, plain [("next", VObject 3)] 1 1); (3%positive, plain [("next", VObject 2)] 2 1);
            (4%positive, plain [("next", VObject 3); ("self", VObject 4)] 1 1)]).

Example joined_roots :
  match @mark_roots quiet_env 10 (set_isolated [] joined_store) with
  | Ret _ w => isolated w = [4; 2]%positive
  | _ => False
  end.
Proof. vm_compute. reflexivity. Qed.
