(* ===== verification/Startup.v ===== *)
(** * Properties of the program's start: [Main] *)

From S2P Require Export Main Demo.
From S2P Require Import Descendants.
From Stdlib Require Import SpecFloat Ascii.

(** ** Numbers on the command line *)

Lemma pretty_char_digit d : (d < 10)%N ->
  isdigit (pretty_N_char d) = true /\ isspace (pretty_N_char d) = false /\
  Ascii.N_of_ascii (pretty_N_char d) = (48 + d)%N.
Proof.
  intros Hd. assert (d ∈ [0; 1; 2; 3; 4; 5; 6; 7; 8; 9])%N as H.
  { rewrite !elem_of_cons. lia. }
  clear Hd. revert d H. apply Forall_forall. repeat constructor.
Qed.

Lemma digits_pretty x : forall s, (0 < x)%N -> digits 0 (pretty_N_go x s) = digits (Z.of_N x) s.
Proof.
  induction x as [x IH] using (well_founded_induction N.lt_wf_0). intros s Hx.
  rewrite pretty_N_go_step by done.
  assert (Hm : (x mod 10 < 10)%N) by (by apply N.mod_lt).
  destruct (pretty_char_digit _ Hm) as (Hd & _ & Hn).
  assert (Hstep : forall acc, digits acc (String (pretty_N_char (x mod 10)) s)
    = digits (acc * 10 + Z.of_N (x mod 10)) s).
  { intros acc. cbn [digits]. rewrite Hd, Hn. clear. do 2 f_equal. generalize (x mod 10)%N. lia. }
  assert (Hdm : (Z.of_N x = Z.of_N (x / 10) * 10 + Z.of_N (x mod 10))%Z).
  { rewrite (N.div_mod x 10) at 1 by done. lia. }
  destruct (decide (x / 10 = 0)%N) as [H0|H0].
  - rewrite H0 in *. rewrite pretty_N_go_0, Hstep. f_equal. lia.
  - rewrite IH, Hstep by (try apply N.div_lt; lia). f_equal. lia.
Qed.

Lemma pretty_starts x : forall s, (0 < x)%N -> exists c t, pretty_N_go x s = String c t /\ isdigit c = true /\ isspace c = false.
Proof.
  induction x as [x IH] using (well_founded_induction N.lt_wf_0). intros s Hx.
  rewrite pretty_N_go_step by done.
  destruct (pretty_char_digit (x mod 10)) as (Hd & Hs & _); [by apply N.mod_lt|].
  destruct (decide (x / 10 = 0)%N) as [H0|H0].
  - rewrite H0, pretty_N_go_0. by eexists _, _.
  - apply IH; [by apply N.div_lt|by apply N.neq_0_lt_0].
Qed.

Lemma not_sign c : isdigit c = true -> c <> "-"%char /\ c <> "+"%char.
Proof. intros H. split; intros ->; discriminate H. Qed.

(** [strtoll] reads back what is printed *)
Lemma strtoll_pretty z : (- 2 ^ 63 <= z < 2 ^ 63)%Z -> strtoll (pretty z) = (z, EmptyString).
Proof.
  intros Hz. destruct z as [|p|p]; [done| |].
  - change (pretty (Zpos p)) with (pretty_N_go (Npos p) "").
    destruct (pretty_starts (Npos p) "") as (c & t & Ht & Hd & Hs); [lia|].
    unfold strtoll. pose proof (digits_pretty (Npos p) "") as Hdig. rewrite Ht in *. simpl skip_space. rewrite Hs.
    destruct (not_sign _ Hd) as [Hn1 Hn2].
    replace (match c with "-"%char => _ | _ => _ end) with (false, String c t).
    2: { destruct c as [[] [] [] [] [] [] [] []]; done. }
    simpl starts_with_digit. rewrite Hd. rewrite Hdig by lia. simpl. f_equal. lia.
  - change (pretty (Zneg p)) with (String "-"%char (pretty_N_go (Npos p) "")).
    destruct (pretty_starts (Npos p) "") as (c & t & Ht & Hd & Hs); [lia|].
    unfold strtoll. simpl skip_space. pose proof (digits_pretty (Npos p) "") as Hdig. rewrite Ht in *.
    simpl starts_with_digit. rewrite Hd. rewrite Hdig by lia. simpl. f_equal. lia.
Qed.

(** ** The arguments *)

(** an argument as it is written on the command line, and those that can be written: a
    string without a NUL, an integer in the range of the type *)
Definition show_arg (v : val) : string :=
  match v with
  | VInt z => "i:" +:+ pretty z
  | VString s => "s:" +:+ di_string_bytes s
  | _ => ""
  end.
Definition writable (v : val) : Prop :=
  match v with
  | VInt z => (- 2 ^ 63 <= z < 2 ^ 63)%Z
  | VString (Some _) => True
  | _ => False
  end.

Section Args.
Context {Y : System}.

Lemma parse_args_app l rest : Forall writable l ->
  parse_args (map show_arg l ++ rest) = match parse_args rest with Args xs => Args (l ++ xs) | r => r end.
Proof.
  induction 1 as [|v l Hv Hl IH]; [simpl; by destruct (parse_args rest)|]. cbn [map app].
  destruct v as [| | | |z| | | | | | |[s|]| | | | |]; try done.
  - change (show_arg (VInt z)) with (String "i"%char (String ":"%char (pretty z))). cbn [parse_args].
    rewrite (strtoll_pretty _ Hv). simpl. rewrite IH. by destruct (parse_args rest).
  - simpl. rewrite IH. by destruct (parse_args rest).
Qed.

End Args.


(** a number that does not fit is clamped without an error, and no digits are a zero *)
Example strtoll_clamps : strtoll "99999999999999999999" = (2 ^ 63 - 1, "")%Z.
Proof. vm_compute. reflexivity. Qed.
Example strtoll_empty : strtoll "" = (0%Z, "").
Proof. vm_compute. reflexivity. Qed.

(** ** Lists of directories *)

(** joined, the pieces are the string again, and no piece holds a separator *)
Lemma split_dirs_cons s : exists d ds, split_dirs s = d :: ds.
Proof.
  destruct s as [|c s]; simpl; [by eexists _, _|]. destruct (Ascii.eqb c ":"); [by eexists _, _|].
  destruct (split_dirs s); by eexists _, _.
Qed.
Lemma split_dirs_join s : join_bytes ":" (split_dirs s) = s.
Proof.
  induction s as [|c s IH]; [done|]. simpl. destruct (split_dirs_cons s) as (d & ds & Hs). rewrite Hs in *.
  destruct (Ascii.eqb_spec c ":") as [->|Hc]; [by rewrite <- IH|]. rewrite <- IH. by destruct ds.
Qed.
Lemma split_dirs_pieces s : Forall (fun d => split_once ":" d = None) (split_dirs s).
Proof.
  induction s as [|c s IH]; [by repeat constructor|]. simpl. destruct (split_dirs_cons s) as (d & ds & Hs).
  rewrite Hs in *. destruct (Ascii.eqb c ":") eqn:Hc; [by constructor|].
  apply Forall_cons in IH as [Hd Hds]. constructor; [|done]. simpl. by rewrite Hc, Hd.
Qed.

(** ** The process title *)

Lemma length_zeros n : String.length (zeros n) = n.
Proof. induction n; simpl; by f_equal. Qed.
Lemma length_append s t : String.length (s +:+ t) = String.length s + String.length t.
Proof. induction s as [|c s IH]; simpl; [done|by rewrite IH]. Qed.
Lemma length_substring0 n s : n <= String.length s -> String.length (String.substring 0 n s) = n.
Proof. revert s. induction n as [|n IH]; intros [|c s] H; simpl in *; [done..|lia|]. rewrite IH; lia. Qed.
Lemma c_str_length s : String.length (c_str s) <= String.length s.
Proof. induction s as [|c s IH]; simpl; [done|]. destruct (Ascii.eqb c Ascii.zero); simpl; lia. Qed.
Lemma c_str_zeros s n : c_str (c_str s +:+ zeros n) = c_str s.
Proof.
  induction s as [|c s IH]; simpl; [by destruct n|]. destruct (Ascii.eqb c Ascii.zero) eqn:Hc; simpl; [by destruct n|].
  by rewrite Hc, IH.
Qed.

(** setting the title keeps the size of the memory, leaves room for the NUL and is read back,
    cut to the memory there is; the arguments do not change *)
Lemma set_title_size mem name : 0 < String.length mem -> String.length (set_title mem name) = String.length mem.
Proof.
  intros Hm. unfold set_title. rewrite length_append, length_zeros.
  match goal with |- String.length ?s + _ = _ => assert (String.length s < String.length mem) end; [|lia].
  eapply Nat.le_lt_trans; [apply c_str_length|].
  destruct (Nat.leb_spec (String.length mem) (String.length name + 1)); rewrite length_substring0; lia.
Qed.
Lemma string_at_0 mem : string_at mem 0 = c_str mem.
Proof.
  unfold string_at, drop_bytes. f_equal. rewrite Nat.sub_0_r. induction mem as [|c mem IH]; simpl; by f_equal.
Qed.
Lemma set_title_read mem name : String.length name + 1 < String.length mem ->
  string_at (set_title mem name) 0 = c_str name.
Proof.
  intros Hl. rewrite string_at_0. unfold set_title.
  destruct (Nat.leb_spec (String.length mem) (String.length name + 1)); [lia|].
  pose proof (string_at_0 name) as Hn. unfold string_at, drop_bytes in Hn. rewrite Nat.sub_0_r in Hn.
  by rewrite c_str_zeros, Hn.
Qed.
Lemma set_pr_name_argv p name w w' ob d : heap w !! p = Some ob -> extra ob = PDeai d ->
  Forall (fun q => forall n, q <> AtTitle n) (deai_argv d) -> di_set_pr_name p name w = Ret tt w' ->
  exists v, di_get_argv p w = Ret v w /\ di_get_argv p w' = Ret v w'.
Proof.
  intros Hp Hx Hd Hw. unfold di_get_argv, get_deai, get_obj, bind, ret. rewrite Hp, Hx. eexists. split; [done|].
  destruct name as [name|]; [|by injection Hw as <-; rewrite Hp, Hx].
  unfold di_set_pr_name, get_deai, put_deai, upd_obj, get_obj, put_obj, modify, bind, ret in Hw.
  rewrite Hp, Hx, Hp in Hw. injection Hw as <-. simpl. rewrite lookup_insert_eq. simpl. do 2 f_equal.
  apply map_ext_in. intros q Hq. rewrite List.Forall_forall in Hd. specialize (Hd q Hq). destruct q as [n|n|s]; [by destruct (Hd n)|done..].
Qed.
