(* ===== verification/XFacts.v ===== *)
(** * What the X11 plugin computes

    Names and masks of modifiers, the masks of input events, rotations, the cache of atoms. *)

From S2P Require Export Xorg Demo Lookup.

(** ** The mask of input events *)

Lemma land_bit x n : (0 <= n)%Z -> (Z.land x (Z.shiftl 1 n) =? 0)%Z = negb (Z.testbit x n).
Proof.
  intros Hn. rewrite Z.shiftl_1_l. destruct (Z.eqb_spec (Z.land x (2 ^ n)) 0) as [H|H].
  - apply (f_equal (fun z => Z.testbit z n)) in H.
    rewrite Z.land_spec, Z.pow2_bits_true, andb_true_r, Z.bits_0 in H by done. by rewrite H.
  - destruct (Z.testbit x n) eqn:Hx; [done|]. destruct H. apply Z.bits_inj'. intros i Hi.
    rewrite Z.land_spec, Z.pow2_bits_eqb, Z.bits_0 by done. destruct (Z.eqb_spec n i) as [->|]; [|by rewrite andb_false_r].
    by rewrite Hx.
Qed.

Lemma bit_index m : (0 <= m)%Z -> (0 <= Z.land m 7 < 8 /\ 0 <= Z.shiftr m 3 /\ m = 8 * Z.shiftr m 3 + Z.land m 7)%Z.
Proof.
  intros Hm. change 7%Z with (Z.ones 3). rewrite Z.land_ones, Z.shiftr_div_pow2 by lia. change (2 ^ 3)%Z with 8%Z.
  pose proof (Z.mod_pos_bound m 8 ltac:(lia)). pose proof (Z.div_mod m 8 ltac:(lia)).
  pose proof (Z.div_pos m 8 Hm ltac:(lia)). lia.
Qed.

Lemma get_mask_bit a m : (0 <= m)%Z -> get_mask a m = Z.testbit (byte_at a m) (Z.land m 7).
Proof. intros Hm. unfold get_mask. rewrite land_bit by (apply bit_index; lia). by rewrite negb_involutive. Qed.

(** an update of the byte of [m]: the bits of the other events stay *)
Lemma byte_update a m m' f : (0 <= m)%Z -> (0 <= m')%Z -> (Z.shiftr m 3 < Z.of_nat (length a))%Z ->
  byte_at (<[Z.to_nat (Z.shiftr m 3) := f (byte_at a m)]> a) m' =
  if (Z.shiftr m 3 =? Z.shiftr m' 3)%Z then f (byte_at a m) else byte_at a m'.
Proof.
  intros Hm Hm' Hl. pose proof (bit_index m Hm). pose proof (bit_index m' Hm'). unfold byte_at at 1.
  destruct (Z.eqb_spec (Z.shiftr m 3) (Z.shiftr m' 3)) as [E|E].
  - rewrite <- E, list_lookup_insert_eq by lia. done.
  - by rewrite list_lookup_insert_ne by lia.
Qed.
Lemma mask_update a m m' g b : (0 <= m)%Z -> (0 <= m')%Z -> (Z.shiftr m 3 < Z.of_nat (length a))%Z ->
  (forall x j, (0 <= j)%Z -> Z.testbit (g x) j = if (j =? Z.land m 7)%Z then b else Z.testbit x j) ->
  get_mask (<[Z.to_nat (Z.shiftr m 3) := g (byte_at a m)]> a) m' = if (m =? m')%Z then b else get_mask a m'.
Proof.
  intros Hm Hm' Hl Hg. rewrite !get_mask_bit by done. rewrite byte_update by done.
  pose proof (bit_index m Hm). pose proof (bit_index m' Hm').
  destruct (Z.eqb_spec (Z.shiftr m 3) (Z.shiftr m' 3)) as [E|E].
  - rewrite Hg by lia. destruct (Z.eqb_spec (Z.land m' 7) (Z.land m 7)); destruct (Z.eqb_spec m m'); try lia; [done|].
    unfold byte_at. by rewrite E.
  - destruct (Z.eqb_spec m m'); [congruence|done].
Qed.

Lemma get_set_mask a m m' : (0 <= m)%Z -> (0 <= m')%Z -> (Z.shiftr m 3 < Z.of_nat (length a))%Z ->
  get_mask (set_mask a m) m' = if (m =? m')%Z then true else get_mask a m'.
Proof.
  intros Hm Hm' Hl. unfold set_mask. apply (mask_update a m m' (fun x => Z.lor x (Z.shiftl 1 (Z.land m 7)))); try done.
  intros x j Hj. pose proof (bit_index m Hm). rewrite Z.shiftl_1_l, Z.lor_spec, Z.pow2_bits_eqb, Z.eqb_sym by lia.
  destruct (j =? Z.land m 7)%Z; [by rewrite orb_true_r|by rewrite orb_false_r].
Qed.
Lemma get_clear_mask a m m' : (0 <= m)%Z -> (0 <= m')%Z -> (Z.shiftr m 3 < Z.of_nat (length a))%Z ->
  get_mask (clear_mask a m) m' = if (m =? m')%Z then false else get_mask a m'.
Proof.
  intros Hm Hm' Hl. unfold clear_mask.
  apply (mask_update a m m' (fun x => Z.land x (Z.lnot (Z.shiftl 1 (Z.land m 7))))); try done.
  intros x j Hj. pose proof (bit_index m Hm). rewrite Z.shiftl_1_l, Z.land_spec, Z.lnot_spec, Z.pow2_bits_eqb, Z.eqb_sym by lia.
  destruct (j =? Z.land m 7)%Z; [by rewrite andb_false_r|by rewrite andb_true_r].
Qed.

(** the events with listeners are those in the mask *)
Record mask_ok (mask counts : list Z) : Prop := {
  mo_mask : length mask = 4;
  mo_counts : length counts = 27;
  mo_range : forall ev, (0 <= ev <= XI_LASTEVENT)%Z -> (0 <= count_at counts ev < 2 ^ 32)%Z;
  mo_bits : forall ev, (0 <= ev <= XI_LASTEVENT)%Z -> get_mask mask ev = (0 <? count_at counts ev)%Z
}.

Lemma count_insert counts ev n ev' : length counts = 27 -> (0 <= ev <= XI_LASTEVENT)%Z -> (0 <= ev')%Z ->
  count_at (<[Z.to_nat ev := n]> counts) ev' = if (ev =? ev')%Z then n else count_at counts ev'.
Proof.
  unfold XI_LASTEVENT, count_at. intros Hl Hev Hev'. destruct (Z.eqb_spec ev ev') as [->|].
  - by rewrite list_lookup_insert_eq by lia.
  - by rewrite list_lookup_insert_ne by lia.
Qed.
Lemma event_byte ev : (0 <= ev <= XI_LASTEVENT)%Z -> (Z.shiftr ev 3 < 4)%Z.
Proof. unfold XI_LASTEVENT. intros H. rewrite Z.shiftr_div_pow2 by lia. apply Z.div_lt_upper_bound; lia. Qed.

Lemma mask_ok_init : mask_ok (replicate 4 0%Z) (replicate 27 0%Z).
Proof.
  constructor; [done|done| |];
    (intros e He; unfold XI_LASTEVENT in He; assert (Hn : (Z.to_nat e < 27)%nat) by lia;
     rewrite <- (Z2Nat.id e) by lia; revert Hn; generalize (Z.to_nat e); clear;
     intros n Hn; do 27 (destruct n as [|n]; [done|]); lia).
Qed.

Lemma mask_ok_update mask mask' counts ev n : mask_ok mask counts -> (0 <= ev <= XI_LASTEVENT)%Z ->
  (0 <= n < 2 ^ 32)%Z -> length mask' = 4 ->
  (forall e, (0 <= e <= XI_LASTEVENT)%Z -> get_mask mask' e = if (ev =? e)%Z then (0 <? n)%Z else get_mask mask e) ->
  let counts' := <[Z.to_nat ev := n]> counts in
  mask_ok mask' counts' /\ count_at counts' ev = n.
Proof.
  intros [Hm Hc Hr Hb] Hev Hn Hl Hg counts'. unfold counts'. split.
  - constructor; [done|by rewrite length_insert| |]; intros e He; rewrite count_insert by (done || lia).
    + destruct (ev =? e)%Z; [done|by apply Hr].
    + rewrite Hg by done. destruct (ev =? e)%Z; [done|by apply Hb].
  - rewrite count_insert by (done || lia). by rewrite Z.eqb_refl.
Qed.

(** The mask that is sent to the server has exactly the events that have listeners: this
    holds of a new extension, and adding or removing a listener keeps it. The server is told
    exactly when the mask changes. C28. *)
Theorem listener_mask_invariant mask counts ev :
  mask_ok mask counts -> (0 <= ev <= XI_LASTEVENT)%Z ->
  mask_ok (replicate 4 0%Z) (replicate 27 0%Z) /\
  ((count_at counts ev < 2 ^ 32 - 1)%Z ->
   let '(mask', counts', changed) := add_listener mask counts ev in
   mask_ok mask' counts' /\ count_at counts' ev = (count_at counts ev + 1)%Z /\
   changed = negb (get_mask mask ev)) /\
  ((0 < count_at counts ev)%Z ->
   let '(mask', counts', changed) := remove_listener mask counts ev in
   mask_ok mask' counts' /\ count_at counts' ev = (count_at counts ev - 1)%Z /\
   changed = negb (get_mask mask' ev)).
Proof.
  intros Hok Hev. pose proof (mo_range _ _ Hok ev Hev) as Hr. pose proof (mo_bits _ _ Hok ev Hev) as Hb.
  pose proof (mo_mask _ _ Hok) as Hm. pose proof (event_byte ev Hev).
  (* the mask stays as it is when there were listeners, and still are *)
  assert (Hkeep : forall n, (0 < n)%Z -> (0 < count_at counts ev)%Z ->
    forall e, (0 <= e <= XI_LASTEVENT)%Z -> get_mask mask e = if (ev =? e)%Z then (0 <? n)%Z else get_mask mask e).
  { intros n Hn Hc e He. destruct (Z.eqb_spec ev e) as [->|]; [|done]. rewrite Hb. by rewrite !(proj2 (Z.ltb_lt _ _)). }
  split; [apply mask_ok_init|]. split; intros Hlt.
  - unfold add_listener. rewrite Z.mod_small by lia.
    destruct (Z.ltb_spec 1 (count_at counts ev + 1)) as [H1|H1].
    + destruct (mask_ok_update mask mask counts ev (count_at counts ev + 1)) as [? ?]; try (done || lia).
      { apply Hkeep; lia. }
      split_and!; [done|done|]. rewrite Hb. by rewrite (proj2 (Z.ltb_lt _ _)) by lia.
    + destruct (mask_ok_update mask (set_mask mask ev) counts ev (count_at counts ev + 1)) as [? ?]; try (done || lia).
      { unfold set_mask. by rewrite length_insert. }
      { intros e He. rewrite get_set_mask by lia. by rewrite (proj2 (Z.ltb_lt _ _)) by lia. }
      split_and!; [done|done|]. rewrite Hb. by rewrite (proj2 (Z.ltb_ge _ _)) by lia.
  - unfold remove_listener. rewrite Z.mod_small by lia.
    destruct (Z.ltb_spec 0 (count_at counts ev - 1)) as [H1|H1].
    + destruct (mask_ok_update mask mask counts ev (count_at counts ev - 1)) as [? ?]; try (done || lia).
      { apply Hkeep; lia. }
      split_and!; [done|done|]. rewrite Hb. by rewrite (proj2 (Z.ltb_lt _ _)) by lia.
    + destruct (mask_ok_update mask (clear_mask mask ev) counts ev (count_at counts ev - 1)) as [? ?]; try (done || lia).
      { unfold clear_mask. by rewrite length_insert. }
      { intros e He. rewrite get_clear_mask by lia. by rewrite (proj2 (Z.ltb_ge _ _)) by lia. }
      split_and!; [done|done|]. rewrite get_clear_mask by lia. by rewrite Z.eqb_refl.
Qed.

Lemma listener_mask_invariant_witness :
  let '(mask, counts, changed) := add_listener (replicate 4 0%Z) (replicate 27 0%Z) XCB_INPUT_HIERARCHY in
  mask_ok mask counts /\ mask = [0; 8; 0; 0]%Z /\ changed = true /\
  let '(mask, counts, changed) := remove_listener mask counts XCB_INPUT_HIERARCHY in
  mask_ok mask counts /\ mask = [0; 0; 0; 0]%Z /\ changed = true.
Proof.
  destruct (listener_mask_invariant (replicate 4 0%Z) (replicate 27 0%Z) XCB_INPUT_HIERARCHY mask_ok_init ltac:(done)) as (_ & Ha & _).
  destruct (Ha ltac:(reflexivity)) as (H1 & _ & _). split; [exact H1|]. split; [reflexivity|]. split; [reflexivity|].
  destruct (listener_mask_invariant _ _ XCB_INPUT_HIERARCHY H1 ltac:(done)) as (_ & _ & Hr).
  destruct (Hr ltac:(reflexivity)) as (H2 & _ & _). split; [exact H2|]. split; reflexivity.
Defined.

(** ** The modifiers of a key *)

Lemma mod_bits_spec kc kpm l : forall i j, (0 < kpm)%Z -> (0 <= i)%Z -> (0 <= j < 16)%Z ->
  Z.testbit (mod_bits kc kpm i l) j = true <->
  kc <> 0%Z /\ exists n, l !! n = Some kc /\ ((i + Z.of_nat n) / kpm = j)%Z.
Proof.
  induction l as [|k l IH]; intros i j Hp Hi Hj; cbn [mod_bits].
  - rewrite Z.bits_0. split; [done|]. by intros (_ & n & Hn & _).
  - rewrite Z.lor_spec, orb_true_iff, IH by lia. unfold XCB_NO_SYMBOL.
    assert (Hh : Z.testbit (if negb (k =? 0)%Z && (k =? kc)%Z then Z.shiftl 1 (i / kpm) mod 2 ^ 16 else 0)%Z j = true <->
      kc <> 0%Z /\ k = kc /\ (i / kpm = j)%Z).
    { pose proof (Z.div_pos i kpm Hi Hp). destruct (Z.eqb_spec k 0); destruct (Z.eqb_spec k kc); simpl;
        rewrite ?Z.bits_0; try (split; [done|intros (? & ? & ?); congruence]).
      rewrite Z.mod_pow2_bits_low, Z.shiftl_1_l, Z.pow2_bits_eqb, Z.eqb_eq by lia. intuition congruence. }
    rewrite Hh. split.
    + intros [(H0 & -> & Hq)|(H0 & n & Hn & Hq)]; (split; [done|]).
      * exists 0. by rewrite Z.add_0_r.
      * exists (S n). split; [done|]. rewrite <- Hq. f_equal. lia.
    + intros (H0 & [|n] & Hn & Hq).
      * left. simpl in Hn. rewrite Z.add_0_r in Hq. by simplify_eq.
      * right. split; [done|]. exists n. split; [done|]. rewrite <- Hq. f_equal. lia.
Qed.

(** the keys of modifier [j] in a mapping with [kpm] keys per modifier *)
Definition mapping_row (kpm : nat) (kcs : list Z) (j : nat) : list Z := take kpm (drop (j * kpm) kcs).

(** [mod_from_keycode] of a reply as the protocol describes it: eight rows of [kpm] keycodes,
    so that the length of the reply is [2 * kpm] units of four bytes. The loop takes that
    length for the number of keycodes: of the modifiers of a key only shift and lock are
    found. *)
Theorem mod_from_keycode_two_rows kpm kcs kc j : 0 < kpm -> length kcs = 8 * kpm -> (kc <> 0)%Z -> j < 8 ->
  Z.testbit (mod_from_mapping kc (Some (Z.of_nat kpm, Z.of_nat (2 * kpm), Some kcs))) (Z.of_nat j) = true <->
  kc ∈ mapping_row kpm kcs j /\ j < 2.
Proof.
  intros Hp Hl Hk Hj. unfold mod_from_mapping. destruct (Z.eqb_spec (Z.of_nat kpm) 0) as [Hz|_]; [lia|].
  rewrite mod_bits_spec, Nat2Z.id by lia. unfold mapping_row. split.
  - intros (_ & n & Hn & Hq). apply lookup_take_Some in Hn as [Hn Hlt]. rewrite Z.add_0_l in Hq.
    assert (Hq' : n / kpm = j) by (apply Nat2Z.inj; rewrite Nat2Z.inj_div; exact Hq).
    pose proof (Nat.div_mod n kpm ltac:(lia)) as Hdm. pose proof (Nat.mod_upper_bound n kpm ltac:(lia)). rewrite Hq' in Hdm.
    split; [|nia]. apply list_elem_of_lookup. exists (n mod kpm). apply lookup_take_Some. split; [|done].
    rewrite lookup_drop, <- Hn. f_equal. lia.
  - intros [Hin Hj2]. split; [done|]. apply list_elem_of_lookup in Hin as [m Hm].
    apply lookup_take_Some in Hm as [Hm Hlt]. rewrite lookup_drop in Hm. exists (j * kpm + m).
    split; [apply lookup_take_Some; split; [done|nia]|].
    rewrite Z.add_0_l, <- Nat2Z.inj_div. f_equal. rewrite Nat.div_add_l by lia. rewrite Nat.div_small by done. lia.
Qed.

(** keycode 37 is the control key: a release of it is reported with the control bit *)
Lemma mod_from_keycode_two_rows_witness :
  let kcs := [50; 62; 66; 0; 37; 105; 64; 0; 77; 0; 0; 0; 133; 0; 0; 0]%Z in
  37%Z ∈ mapping_row 2 kcs 2 /\ Z.testbit (mod_from_mapping 37 (Some (2, 4, Some kcs))%Z) 2 = false /\
  Z.testbit (mod_from_mapping 62 (Some (2, 4, Some kcs))%Z) 0 = true.
Proof.
  split; [by vm_compute; repeat constructor|]. split.
  - reflexivity.
  - apply (mod_from_keycode_two_rows 2 [50; 62; 66; 0; 37; 105; 64; 0; 77; 0; 0; 0; 133; 0; 0; 0]%Z 62 0); try lia; [done|].
    split; [by vm_compute; repeat constructor|lia].
Defined.

(** names of modifiers: an empty name is shift, a prefix is the first name it begins; alt is
    not known *)
Example name_to_mod_examples :
  map (fun s => name_to_mod (Some s)) ["shift"; "Lock"; "CONTROL"; "ctrl"; "mod4"; "any"; ""; "c"; "m"; "alt"] =
  [1; 2; 4; 4; 64; 32768; 1; 4; 8; 0]%Z.
Proof. reflexivity. Qed.

(** ** Rotation *)

Definition rotations : list Z := [0; 1; 2; 3]%Z.
(** The rotation and the reflection that are read from the server, when they are written
    back, are what the server had; what is written is read back. Other rotations are
    refused, and of a reflection only the two low bits count. *)
Theorem rotation_roundtrip :
  (forall base refl, base ∈ [1; 2; 4; 8]%Z -> refl ∈ [0; 16; 32; 48]%Z ->
     rr_rot (rotation_of (base + refl)) (reflection_of (base + refl)) = Some (base + refl)%Z) /\
  (forall rotation reflection, rotation ∈ rotations ->
     exists rot, rr_rot rotation reflection = Some rot /\ rotation_of rot = rotation /\
       reflection_of rot = Z.land reflection 3) /\
  (forall rotation reflection, rotation ∉ rotations -> rr_rot rotation reflection = None).
Proof.
  split_and!.
  - intros base refl Hb Hr. repeat (apply elem_of_cons in Hb as [->|Hb]; [|]); [..|by apply not_elem_of_nil in Hb];
      (repeat (apply elem_of_cons in Hr as [->|Hr]; [reflexivity|]); by apply not_elem_of_nil in Hr).
  - intros rotation reflection Hr.
    assert (H3 : Z.land reflection 3 = ((if Z.testbit reflection 0 then 1 else 0) + (if Z.testbit reflection 1 then 2 else 0))%Z).
    { apply Z.bits_inj'. intros i Hi. rewrite Z.land_spec.
      destruct (decide (i = 0)%Z) as [->|]; [by destruct (Z.testbit reflection 0), (Z.testbit reflection 1)|].
      destruct (decide (i = 1)%Z) as [->|]; [by destruct (Z.testbit reflection 0), (Z.testbit reflection 1)|].
      change 3%Z with (Z.ones 2). rewrite Z.ones_spec_high, andb_false_r by lia. symmetry.
      apply Z.bits_above_log2; [by destruct (Z.testbit reflection 0), (Z.testbit reflection 1)|].
      destruct (Z.testbit reflection 0), (Z.testbit reflection 1); simpl; lia. }
    rewrite H3. unfold rr_rot.
    repeat (apply elem_of_cons in Hr as [->|Hr]; [by destruct (Z.testbit reflection 0), (Z.testbit reflection 1); eexists; split_and!|]).
    by apply not_elem_of_nil in Hr.
  - intros rotation reflection Hr. unfold rotations in Hr. rewrite !not_elem_of_cons in Hr. destruct Hr as (H0 & H1 & H2 & H3 & _).
    unfold rr_rot. rewrite !(proj2 (Z.eqb_neq _ _)) by done. done.
Qed.

(** the other orientation, reflected along the X axis *)
Lemma rotation_roundtrip_witness :
  rr_rot (rotation_of 18) (reflection_of 18) = Some 18%Z /\ exists rot, rr_rot 3 6 = Some rot /\ rotation_of rot = 3%Z.
Proof.
  destruct rotation_roundtrip as (H1 & H2 & _). split.
  - apply (H1 2 16)%Z; set_solver.
  - destruct (H2 3 6)%Z as (rot & Hr & Ho & _); [set_solver|]. by exists rot.
Defined.

(** ** The cache of atoms *)

(** [name_of]: what the server calls an atom *)
Definition cache_ok (name_of : Z -> string) (l : list atom_entry) : Prop :=
  Forall (fun e => name_of (fst e) = snd e) l /\ NoDup (map fst l) /\ NoDup (map snd l).

Lemma find_atom_front atom name l : find_atom atom ((atom, name) :: l) = Some (atom, name).
Proof. unfold find_atom. simpl. by rewrite Z.eqb_refl. Qed.
Lemma find_name_front atom name l : find_atom_name name ((atom, name) :: l) = Some (atom, name).
Proof. unfold find_atom_name. simpl. by rewrite String.eqb_refl. Qed.

Lemma find_atom_in name_of l atom name : cache_ok name_of l -> (atom, name) ∈ l ->
  find_atom atom l = Some (atom, name) /\ find_atom_name name l = Some (atom, name).
Proof.
  intros (Hn & H1 & H2) Hin. induction l as [|[a n] l IH]; [by apply not_elem_of_nil in Hin|].
  apply Forall_cons in Hn as [Ha Hn]. simpl in H1, H2, Ha. apply NoDup_cons in H1 as [Ha1 H1].
  apply NoDup_cons in H2 as [Ha2 H2]. apply elem_of_cons in Hin as [[= -> ->]|Hin].
  - split; [apply find_atom_front|apply find_name_front].
  - destruct (IH Hn H1 H2 Hin) as [E1 E2]. unfold find_atom, find_atom_name in *. simpl.
    change (map fst l) with (fst <$> l) in Ha1. change (map snd l) with (snd <$> l) in Ha2.
    destruct (Z.eqb_spec a atom) as [->|].
    { destruct Ha1. apply list_elem_of_fmap. by exists (atom, name). }
    destruct (String.eqb_spec n name) as [->|].
    { destruct Ha2. apply list_elem_of_fmap. by exists (atom, name). }
    done.
Qed.

Lemma find_atom_name_in name l e : find_atom_name name l = Some e -> e ∈ l /\ snd e = name.
Proof. intros [Hin Heq]%List.find_some. split; [by apply list_elem_of_In|by apply String.eqb_eq]. Qed.
Lemma find_atom_name_none name l : find_atom_name name l = None -> name ∉ map snd l.
Proof.
  change (map snd l) with (snd <$> l). intros Hf [e [-> He]]%list_elem_of_fmap.
  pose proof (List.find_none _ _ Hf e (proj1 (list_elem_of_In _ _) He)) as He'. simpl in He'.
  by rewrite String.eqb_refl in He'.
Qed.

Section atoms.
Context {E : Env} {X : Xcb} (name_of : Z -> string).
Hypothesis Hintern : forall c name w atom, xcb_intern_atom c name w = inr atom -> name_of atom = name.

Lemma get_xc_run xc ob x w : heap w !! xc = Some ob ->
  extra ob = PXorgConnection (x_c x) (x_dflt_scrn x) (x_nsignals x) (x_xkb_ctx x) (x_atoms x) -> get_xc xc w = Ret x w.
Proof. intros Ho He. unfold get_xc. rewrite (bind_get_obj _ ob) by done. rewrite He. by destruct x. Qed.

(** what both functions answer from the table *)
Lemma cached_atom xc ob x w atom name : heap w !! xc = Some ob ->
  extra ob = PXorgConnection (x_c x) (x_dflt_scrn x) (x_nsignals x) (x_xkb_ctx x) (x_atoms x) ->
  find_atom atom (x_atoms x) = Some (atom, name) -> find_atom_name name (x_atoms x) = Some (atom, name) ->
  di_xorg_get_atom_name xc atom w = Ret (Some name) w /\
  di_xorg_intern_atom xc (Some name) w = Ret (atom, false) w.
Proof.
  intros Ho He H1 H2. unfold di_xorg_get_atom_name, di_xorg_intern_atom.
  rewrite !(bind_ret_run _ _ _ _ _ (get_xc_run xc ob x w Ho He)). cbn [di_string_bytes default from_option id]. by rewrite H1, H2.
Qed.

End atoms.

(** the server's names of the atoms of [small_xcb] *)
Definition small_name (a : Z) : string := if (a =? 200)%Z then "FLOAT" else if (a =? 201)%Z then "Backlight" else "".
Definition atom_store (l : list atom_entry) : world :=
  store [(2%positive, with_extra (PXorgConnection (Some 7%Z) 0 0 None l) (plain [] 1 1))].

