(* ===== verification/LuaFacts.v ===== *)
(** * Values cross to Lua and back

    What the manual of Lua says of the functions that are used, over a view of a state: its
    stack and its tables. With it, plain values that are pushed are read back as what they
    are in deai. *)

From S2P Require Export LuaModule Demo.
From Stdlib Require Import SpecFloat.

(** ** The view of a state *)

Inductive lval :=
  | LNil | LBool (b : bool) | LInt (z : Z) | LNum (f : spec_float) | LStr (s : string) | LLight (p : Z)
  | LTable (t : positive) | LFunction (f : positive) | LUserdata (u : Z) | LThread.
#[global] Instance lval_eq_dec : EqDecision lval.
Proof.
  assert (EqDecision spec_float) by (intros x y; unfold Decision; decide equality; solve_decision).
  solve_decision.
Defined.

(** the entries of a table are in the order of [lua_next] *)
Record ltable := LTab { has_metatable : bool; entries : list (lval * lval) }.
Record lstate := LState { stack : list lval; tables : gmap positive ltable }.

Definition tag_of (v : lval) : lua_type_tag :=
  match v with
  | LNil => LUA_TNIL | LBool _ => LUA_TBOOLEAN | LInt _ | LNum _ => LUA_TNUMBER | LStr _ => LUA_TSTRING
  | LLight _ => LUA_TLIGHTUSERDATA | LTable _ => LUA_TTABLE | LFunction _ => LUA_TFUNCTION
  | LUserdata _ => LUA_TUSERDATA | LThread => LUA_TTHREAD
  end.

(** the value at an index: from the bottom, or from the top *)
Definition at_index (st : lstate) (i : Z) : option lval :=
  if (0 <? i)%Z then
    if (i <=? Z.of_nat (length (stack st)))%Z then stack st !! (length (stack st) - Z.to_nat i) else None
  else if (i <? 0)%Z then stack st !! (Z.to_nat (- i) - 1) else None.
Definition push (v : lval) (st : lstate) : lstate := LState (v :: stack st) (tables st).
Definition drop_top (n : nat) (st : lstate) : lstate := LState (drop n (stack st)) (tables st).

Definition remove_key (k : lval) (es : list (lval * lval)) : list (lval * lval) := filter (fun e => e.1 <> k) es.
Definition get_entry (k : lval) (es : list (lval * lval)) : lval :=
  from_option snd LNil (find (fun e => bool_decide (e.1 = k)) es).
Definition set_entry (k v : lval) (es : list (lval * lval)) : list (lval * lval) :=
  if decide (v = LNil) then remove_key k es else (k, v) :: remove_key k es.
(** the entry after a key *)
Fixpoint entry_after (k : lval) (es : list (lval * lval)) : option (lval * lval) :=
  match es with
  | [] => None
  | e :: es => if decide (e.1 = k) then head es else entry_after k es
  end.
Definition next_entry (k : lval) (es : list (lval * lval)) : option (lval * lval) :=
  if decide (k = LNil) then head es else entry_after k es.

(** what the manual says *)
Class LuaLaws {L0 : Lua} (L : Z) (view : world -> lstate) : Prop := {
  law_gettop w : lua_gettop L w = Z.of_nat (length (stack (view w)));
  law_type w i v : at_index (view w) i = Some v -> lua_type L i w = tag_of v;
  law_toboolean w i b : at_index (view w) i = Some (LBool b) -> lua_toboolean L i w = b;
  law_isinteger w i z : at_index (view w) i = Some (LInt z) -> lua_isinteger L i w = true;
  law_isnumber w i f : at_index (view w) i = Some (LNum f) -> lua_isinteger L i w = false;
  law_tointeger w i z : at_index (view w) i = Some (LInt z) -> lua_tointeger L i w = z;
  law_tonumber w i f : at_index (view w) i = Some (LNum f) -> lua_tonumber L i w = f;
  law_tolstring w i s : at_index (view w) i = Some (LStr s) ->
    exists w', lua_tolstring L i w = Ret (Some s) w' /\ view w' = view w;
  law_settop w n : n <= length (stack (view w)) ->
    exists w', lua_settop L (- Z.of_nat n - 1) w = Ret tt w' /\ view w' = drop_top n (view w);
  law_pushnil w : exists w', lua_pushnil L w = Ret tt w' /\ view w' = push LNil (view w);
  law_pushboolean w b : exists w', lua_pushboolean L b w = Ret tt w' /\ view w' = push (LBool b) (view w);
  law_pushinteger w z : exists w', lua_pushinteger L z w = Ret tt w' /\ view w' = push (LInt z) (view w);
  law_pushnumber w f : exists w', lua_pushnumber L f w = Ret tt w' /\ view w' = push (LNum f) (view w);
  law_pushlstring w s : exists w', lua_pushlstring L s w = Ret tt w' /\ view w' = push (LStr s) (view w);
  law_createtable w : exists w' t, lua_createtable L w = Ret tt w' /\ tables (view w) !! t = None /\
    view w' = LState (LTable t :: stack (view w)) (<[t := LTab false []]> (tables (view w)));
  law_getmetatable w i t es : at_index (view w) i = Some (LTable t) -> tables (view w) !! t = Some (LTab false es) ->
    exists w', lua_getmetatable L i w = Ret false w' /\ view w' = view w;
  law_rawgeti w i n t tb : at_index (view w) i = Some (LTable t) -> tables (view w) !! t = Some tb ->
    exists w', lua_rawgeti L i n w = Ret tt w' /\ view w' = push (get_entry (LInt n) (entries tb)) (view w);
  law_rawseti w i n t tb v st : view w = push v st -> at_index (view w) i = Some (LTable t) -> tables st !! t = Some tb ->
    exists w' es, lua_rawseti L i n w = Ret tt w' /\ es ≡ₚ set_entry (LInt n) v (entries tb) /\
      view w' = LState (stack st) (<[t := LTab (has_metatable tb) es]> (tables st));
  (** the key is nil or a key of the table *)
  law_next w i t tb k st : view w = push k st -> at_index (view w) i = Some (LTable t) -> tables st !! t = Some tb ->
    k = LNil \/ k ∈ (entries tb).*1 ->
    exists w', lua_next L i w = Ret (Some (bool_decide (is_Some (next_entry k (entries tb))))) w' /\
      view w' = match next_entry k (entries tb) with
                | Some e => push e.2 (push e.1 st)
                | None => st
                end
}.

(** ** Plain values *)

(** the type of the elements of an array of values with these types *)
Definition unify_all (ts : list di_type) : option di_type :=
  match ts with
  | [] => None
  | t :: ts => foldl (fun acc t => e ← acc; unify e t) (Some t) ts
  end.
Definition coerce (elemt : di_type) (v : val) : val :=
  match v with
  | VInt z => if decide (elemt = DI_TYPE_FLOAT) then VFloat (CheckedInt.to_double z) else v
  | _ => v
  end.
Definition array_entries (lvs : list lval) : list (lval * lval) := imap (fun i v => (LInt (Z.of_nat (S i)), v)) lvs.

Section reads.
Context (bound : nat).
(** [v] is what the Lua value [lv] is in deai, where tables are nested at most [n] deep *)
Inductive reads (T : gmap positive ltable) : nat -> lval -> val -> Prop :=
  | reads_bool n b : reads T n (LBool b) (VBool b)
  | reads_int n z : reads T n (LInt z) (VInt z)
  | reads_num n f : reads T n (LNum f) (VFloat f)
  | reads_str n s : reads T n (LStr s) (VString (Some s))
  | reads_array n t es lvs vs elemt :
      T !! t = Some (LTab false es) -> es ≡ₚ array_entries lvs -> length lvs <= bound -> (Z.of_nat (length lvs) < INT_MAX - 1)%Z ->
      Forall2 (reads T n) lvs vs -> unify_all (type_of <$> vs) = Some elemt ->
      reads T (S n) (LTable t) (VArray elemt true (coerce elemt <$> vs)).
End reads.

(** what a value becomes on the way through Lua; [None]: it does not go through as plain
    data *)
Section map_option.
Context {A B : Type} (f : A -> option B).
Fixpoint map_option (l : list A) : option (list B) :=
  match l with
  | [] => Some []
  | x :: l => y ← f x; ys ← map_option l; Some (y :: ys)
  end.
Lemma map_option_Forall2 l : forall ys, map_option l = Some ys -> Forall2 (fun x y => f x = Some y) l ys.
Proof.
  induction l as [|x l IH]; intros ys; simpl; [by intros [= <-]|].
  destruct (f x) as [y|] eqn:Hx; [|done]. simpl. destruct (map_option l) as [zs|]; [|done]. intros [= <-]. constructor; auto.
Qed.
End map_option.
Definition as_array (vs : list val) : option val := e ← unify_all (type_of <$> vs); Some (VArray e true (coerce e <$> vs)).
Fixpoint through_lua (v : val) : option val :=
  match v with
  | VBool _ | VFloat _ | VString (Some _) => Some v
  | VNint z | VNuint z | VInt z => Some (VInt z)
  | VUint z => if (z <? PTRDIFF_MAX)%Z then Some (VInt z) else None
  | VStringLiteral s => Some (VString (Some (c_str s)))
  | VVariant v => through_lua v
  | VArray DI_TYPE_ANY _ _ | VArray DI_LAST_TYPE _ _ => None
  | VArray _ _ l | VTuple l => vs ← map_option through_lua l; as_array vs
  | _ => None
  end.
(** nested at most [n] deep, with at most [bound] elements each *)
Fixpoint within (bound n : nat) (v : val) : bool :=
  match v with
  | VArray _ _ l | VTuple l =>
      match n with
      | O => false
      | S n => (length l <=? bound)%nat && (Z.of_nat (length l) <? INT_MAX - 1)%Z && forallb (within bound n) l
      end
  | VVariant v => within bound n v
  | _ => true
  end.

(** ** Lists of entries *)

Lemma elem_of_array_entries lvs e : e ∈ array_entries lvs <-> exists i v, e = (LInt (Z.of_nat (S i)), v) /\ lvs !! i = Some v.
Proof.
  unfold array_entries. rewrite list_elem_of_lookup. setoid_rewrite list_lookup_imap_Some.
  split; [intros (i & v & Hv & ->)|intros (i & v & -> & Hv)]; eauto.
Qed.
Lemma NoDup_array_keys lvs : NoDup (array_entries lvs).*1.
Proof.
  apply NoDup_alt. intros i j k. unfold array_entries. rewrite !list_lookup_fmap, !list_lookup_imap.
  destruct (lvs !! i), (lvs !! j); simpl; try done. intros [= <-] [= H]. lia.
Qed.

Lemma get_entry_in k v es : NoDup es.*1 -> (k, v) ∈ es -> get_entry k es = v.
Proof.
  unfold get_entry. induction es as [|[k' v'] es IH]; intros Hnd Hin; [by apply not_elem_of_nil in Hin|].
  rewrite fmap_cons in Hnd. apply NoDup_cons in Hnd as [Hk Hnd]. simpl. case_bool_decide as Hkk; simpl in Hkk.
  - subst k'. apply elem_of_cons in Hin as [[= ->]|Hin]; [done|]. destruct Hk. apply list_elem_of_fmap. by exists (k, v).
  - apply elem_of_cons in Hin as [[= ? ?]|Hin]; [congruence|]. by apply IH.
Qed.
Lemma get_array_entry es lvs i v : es ≡ₚ array_entries lvs -> lvs !! i = Some v -> get_entry (LInt (Z.of_nat (S i))) es = v.
Proof.
  intros Hp Hi. apply get_entry_in; [rewrite Hp; apply NoDup_array_keys|]. rewrite Hp. apply elem_of_array_entries. by exists i, v.
Qed.

Lemma entry_after_app pre e post : NoDup (pre ++ e :: post).*1 -> entry_after e.1 (pre ++ e :: post) = head post.
Proof.
  induction pre as [|e' pre IH]; intros Hnd; simpl; [by rewrite decide_True|].
  simpl in Hnd. apply NoDup_cons in Hnd as [Hn Hnd]. rewrite decide_False; [by apply IH|].
  intros Heq. apply Hn. rewrite fmap_app, elem_of_app. right. rewrite Heq. left.
Qed.

Lemma array_entries_snoc lvs v : array_entries (lvs ++ [v]) = array_entries lvs ++ [(LInt (Z.of_nat (S (length lvs))), v)].
Proof. unfold array_entries. rewrite imap_app. simpl. by rewrite Nat.add_0_r. Qed.
Lemma remove_other_key k es : Forall (fun e => e.1 <> k) es -> remove_key k es = es.
Proof.
  unfold remove_key. induction 1 as [|e es He _ IH]; [done|]. rewrite filter_cons, decide_True by done. by rewrite IH.
Qed.
(** the next element of an array *)
Lemma set_array_entry es lvs v : v <> LNil -> es ≡ₚ array_entries lvs ->
  set_entry (LInt (Z.of_nat (S (length lvs)))) v es ≡ₚ array_entries (lvs ++ [v]).
Proof.
  intros Hv Hes. unfold set_entry. rewrite decide_False by done. rewrite array_entries_snoc.
  rewrite (Permutation_app_comm (array_entries lvs)). cbn [app]. apply Permutation_cons; [done|].
  assert (remove_key (LInt (Z.of_nat (S (length lvs)))) es ≡ₚ remove_key (LInt (Z.of_nat (S (length lvs)))) (array_entries lvs)) as ->
    by (unfold remove_key; by rewrite Hes).
  rewrite remove_other_key; [done|]. apply Forall_forall.
  intros e (i & x & -> & Hi)%elem_of_array_entries. cbn [fst]. apply lookup_lt_Some in Hi. intros [=]. lia.
Qed.

Lemma unify_fold_None ts : foldl (fun acc t => e ← acc; unify e t) None ts = None.
Proof. by induction ts. Qed.

(** the types a plain value can have *)
Definition plain_type (t : di_type) : Prop := t ∈ [DI_TYPE_BOOL; DI_TYPE_INT; DI_TYPE_FLOAT; DI_TYPE_STRING; DI_TYPE_ARRAY].
Lemma reads_type bound T n lv v : reads bound T n lv v -> plain_type (type_of v).
Proof. unfold plain_type. destruct 1; simpl; set_solver. Qed.
Lemma reads_not_nil bound T n lv v : reads bound T n lv v -> lv <> LNil.
Proof. by destruct 1. Qed.

Lemma unify_plain e t e' : plain_type e -> plain_type t -> unify e t = Some e' ->
  plain_type e' /\ (e = e' \/ e = DI_TYPE_INT /\ e' = DI_TYPE_FLOAT) /\ (t = e' \/ t = DI_TYPE_INT /\ e' = DI_TYPE_FLOAT).
Proof.
  unfold plain_type. intros He Ht. repeat (apply elem_of_cons in He as [->|He]); try by apply not_elem_of_nil in He.
  all: repeat (apply elem_of_cons in Ht as [->|Ht]); try by apply not_elem_of_nil in Ht.
  all: vm_compute; intros [= <-]; split_and!; try tauto; set_solver.
Qed.
Lemma unify_fold_plain ts : forall e e', plain_type e -> Forall plain_type ts ->
  foldl (fun acc t => e ← acc; unify e t) (Some e) ts = Some e' ->
  plain_type e' /\ (e = e' \/ e = DI_TYPE_INT /\ e' = DI_TYPE_FLOAT) /\
  Forall (fun t => t = e' \/ t = DI_TYPE_INT /\ e' = DI_TYPE_FLOAT) ts.
Proof.
  induction ts as [|t ts IH]; intros e e' He Hts Hf.
  - simpl in Hf. simplify_eq. split_and!; auto.
  - apply Forall_cons in Hts as [Ht Hts]. simpl in Hf. destruct (unify e t) as [e1|] eqn:Hu.
    + destruct (unify_plain _ _ _ He Ht Hu) as (He1 & H1 & H2).
      destruct (IH _ _ He1 Hts Hf) as (H3 & H4 & H5). split; [done|].
      assert (Htrans : forall x, x = e1 \/ x = DI_TYPE_INT /\ e1 = DI_TYPE_FLOAT -> x = e' \/ x = DI_TYPE_INT /\ e' = DI_TYPE_FLOAT).
      { intros x [->|[-> ->]]; [tauto|]. destruct H4 as [<-|[? ?]]; [tauto|done]. }
      split; [by apply Htrans|]. constructor; [by apply Htrans|done].
    + by rewrite unify_fold_None in Hf.
Qed.
Lemma unify_all_plain ts e : Forall plain_type ts -> unify_all ts = Some e ->
  plain_type e /\ Forall (fun t => t = e \/ t = DI_TYPE_INT /\ e = DI_TYPE_FLOAT) ts.
Proof.
  destruct ts as [|t ts]; [done|]. intros [Ht Hts]%Forall_cons Hu.
  destruct (unify_fold_plain ts t e Ht Hts Hu) as (H1 & H2 & H3). by split; [|constructor].
Qed.

Lemma next_entry_at pre e post : e.1 <> LNil -> NoDup (pre ++ e :: post).*1 -> next_entry e.1 (pre ++ e :: post) = head post.
Proof. intros Hn Hnd. unfold next_entry. rewrite decide_False by done. by apply entry_after_app. Qed.

Lemma reads_mono bound T T' n : T ⊆ T' -> forall lv v, reads bound T n lv v -> reads bound T' n lv v.
Proof.
  intros HT. induction n as [|n IH]; intros lv v Hr; inversion Hr; subst; try constructor.
  econstructor; try done; [by eapply lookup_weaken|]. by eapply Forall2_impl.
Qed.

(** the type of the elements, if the first one is there *)
Definition elements_type (ts : list di_type) : option di_type :=
  match ts with DI_TYPE_NIL :: _ => None | _ => unify_all ts end.

Lemma elements_type_plain ts : Forall plain_type ts -> elements_type ts = unify_all ts.
Proof. destruct 1 as [|t ts Ht _]; [done|]. destruct t; try done. unfold plain_type in Ht. set_solver. Qed.

Lemma unify_fold_no_nil ts : forall e e', plain_type e -> Forall (fun t => t = DI_TYPE_NIL \/ plain_type t) ts ->
  foldl (fun acc t => e ← acc; unify e t) (Some e) ts = Some e' -> Forall plain_type ts.
Proof.
  induction ts as [|t ts IH]; intros e e' He Hts Hf; [constructor|]. apply Forall_cons in Hts as [Ht Hts]. simpl in Hf.
  destruct (unify e t) as [e1|] eqn:Hu; [|by rewrite unify_fold_None in Hf].
  assert (Hpt : plain_type t).
  { destruct Ht as [->|Ht]; [|done]. exfalso. unfold plain_type in He.
    repeat (apply elem_of_cons in He as [->|He]; [done|]). by apply not_elem_of_nil in He. }
  constructor; [done|]. apply (IH e1 e'); try done. by destruct (unify_plain _ _ _ He Hpt Hu).
Qed.
Lemma elements_type_no_nil ts e : Forall (fun t => t = DI_TYPE_NIL \/ plain_type t) ts -> elements_type ts = Some e -> Forall plain_type ts.
Proof.
  destruct 1 as [|t ts Ht Hts]; [constructor|]. intros He.
  assert (Hpt : plain_type t) by (destruct Ht as [->|]; done).
  constructor; [done|]. apply (unify_fold_no_nil ts t e); try done. clear -He Hpt. unfold plain_type in Hpt.
  repeat (apply elem_of_cons in Hpt as [->|Hpt]; [done|]). by apply not_elem_of_nil in Hpt.
Qed.

Lemma get_entry_found k es : get_entry k es <> LNil -> (k, get_entry k es) ∈ es.
Proof.
  unfold get_entry. destruct (find _ es) as [[k' v]|] eqn:Hf; [|done]. intros _. apply List.find_some in Hf as [Hin Hk].
  apply bool_decide_eq_true in Hk. simpl in *. subst k'. by apply list_elem_of_In.
Qed.
Lemma array_entries_inj lvs lvs' : array_entries lvs ≡ₚ array_entries lvs' -> lvs = lvs'.
Proof.
  intros Hp. apply list_eq. intros i. apply option_eq. intros v.
  assert (Hin : forall l, (LInt (Z.of_nat (S i)), v) ∈ array_entries l <-> l !! i = Some v).
  { intros l. rewrite elem_of_array_entries. split; [|by exists i, v]. intros (j & x & [= Hj ->] & Hl). by replace i with j by lia. }
  by rewrite <- !Hin, Hp.
Qed.
Lemma reads_inj bound T n : forall lv v v', reads bound T n lv v -> reads bound T n lv v' -> v = v'.
Proof.
  induction n as [|n IH]; intros lv v v' H1 H2; inversion H1; subst; inversion H2; subst; try done.
  match goal with Ha : T !! _ = Some _, Hb : T !! _ = Some _ |- _ => rewrite Ha in Hb; injection Hb as Hb; subst end.
  match goal with Ha : ?es ≡ₚ array_entries ?l, Hb : ?es ≡ₚ array_entries ?l' |- _ =>
    assert (l = l') by (apply array_entries_inj; by rewrite <- Ha, Hb); subst l' end.
  match goal with Ha : Forall2 _ ?l ?vs, Hb : Forall2 _ ?l ?vs' |- _ =>
    assert (vs = vs') as <- by (clear -IH Ha Hb; revert vs' Hb; induction Ha; intros vs' Hb; inversion Hb; subst; [done|]; f_equal; eauto) end.
  by simplify_eq.
Qed.
(** a table whose numbers from 1 to the number of its entries all have a value has no other
    keys *)
Lemma array_entries_of es : (forall i, i < length es -> get_entry (LInt (Z.of_nat (S i))) es <> LNil) ->
  es ≡ₚ array_entries ((fun i => get_entry (LInt (Z.of_nat (S i))) es) <$> seq 0 (length es)).
Proof.
  intros Hall. symmetry. apply submseteq_length_Permutation.
  - apply NoDup_submseteq; [eapply NoDup_fmap_1, NoDup_array_keys|]. intros e (i & v & -> & Hi)%elem_of_array_entries.
    rewrite list_lookup_fmap in Hi. destruct (seq 0 (length es) !! i) as [j|] eqn:Hj; [|done].
    apply lookup_seq in Hj as [-> Hlt]. simpl in Hi. simplify_eq. apply get_entry_found, Hall. lia.
  - unfold array_entries. rewrite length_imap, length_fmap, length_seq. lia.
Qed.

(** ** Runs over the view *)

Section runs.
Context {E : Env} {F : Ffi} {L0 : Lua} (L : Z) (view : world -> lstate) {HL : LuaLaws L view}.

(** from every world with the view [st], [m] returns and ends as [Q] says *)
Definition runs {A} (m : M A) (st : lstate) (Q : A -> lstate -> Prop) : Prop :=
  forall w, view w = st -> exists a w', m w = Ret a w' /\ Q a (view w').
Definition ends {A} (a : A) (st : lstate) (a' : A) (st' : lstate) : Prop := a' = a /\ st' = st.

Lemma runs_bind {A B} (m : M A) (k : A -> M B) st Q :
  runs m st (fun a st' => runs (k a) st' Q) -> runs (bind m k) st Q.
Proof.
  intros Hm w Hw. destruct (Hm w Hw) as (a & w1 & Hr & Hk). destruct (Hk w1 eq_refl) as (b & w2 & Hr2 & HQ).
  exists b, w2. split; [|done]. unfold bind. by rewrite Hr.
Qed.
Lemma runs_ret {A} (a : A) st (Q : A -> lstate -> Prop) : Q a st -> runs (ret a) st Q.
Proof. intros HQ w <-. by exists a, w. Qed.
Lemma runs_then {A} (m : M A) a st st' (Q : A -> lstate -> Prop) : runs m st (ends a st') -> Q a st' -> runs m st Q.
Proof. intros Hm HQ w Hw. destruct (Hm w Hw) as (? & w' & Hr & -> & Hv). exists a, w'. by rewrite Hv. Qed.
Lemma runs_step {A B} (m : M A) (k : A -> M B) a st st' Q : runs m st (ends a st') -> runs (k a) st' Q -> runs (bind m k) st Q.
Proof. intros Hm Hk. apply runs_bind. by eapply runs_then. Qed.
Lemma runs_gets {A} (f : world -> A) a st : (forall w, view w = st -> f w = a) -> runs (gets f) st (ends a st).
Proof. intros Hf w Hw. exists a, w. unfold gets. by rewrite (Hf w Hw). Qed.
Lemma runs_assert b st : b = true -> runs (assert b) st (ends tt st).
Proof. intros -> w <-. by exists tt, w. Qed.
Lemma runs_op {A} (m : M A) a st st' : (forall w, view w = st -> exists w', m w = Ret a w' /\ view w' = st') -> runs m st (ends a st').
Proof. intros Hm w Hw. destruct (Hm w Hw) as (w' & ? & ?). by exists a, w'. Qed.
Lemma runs_same {A} (m : M A) a st : (forall w, view w = st -> exists w', m w = Ret a w' /\ view w' = view w) -> runs m st (ends a st).
Proof. intros Hm. apply runs_op. intros w Hw. destruct (Hm w Hw) as (w' & ? & ?). exists w'. by rewrite <- Hw. Qed.
Lemma runs_push (m : M unit) v st : (forall w, exists w', m w = Ret tt w' /\ view w' = push v (view w)) -> runs m st (ends tt (push v st)).
Proof. intros Hm. apply runs_op. intros w <-. apply Hm. Qed.
Lemma runs_pure {A} (m : M A) a st : (forall w, m w = Ret a w) -> runs m st (ends a st).
Proof. intros Hm w <-. by exists a, w. Qed.

Lemma runs_pop n st : n <= length (stack st) -> runs (lua_pop L (Z.of_nat n)) st (ends tt (drop_top n st)).
Proof using HL. intros Hn. apply runs_op. intros w <-. by apply law_settop. Qed.
Lemma runs_rawgeti i n st t tb : at_index st i = Some (LTable t) -> tables st !! t = Some tb ->
  runs (lua_rawgeti L i n) st (ends tt (push (get_entry (LInt n) (entries tb)) st)).
Proof using HL. intros Hi Ht. apply runs_op. intros w <-. by apply (law_rawgeti w i n t). Qed.
Lemma runs_next i t tb k st : at_index (push k st) i = Some (LTable t) -> tables st !! t = Some tb ->
  k = LNil \/ k ∈ (entries tb).*1 ->
  runs (unprotected (lua_next L i)) (push k st)
    (ends (bool_decide (is_Some (next_entry k (entries tb))))
       (match next_entry k (entries tb) with Some e => push e.2 (push e.1 st) | None => st end)).
Proof using HL.
  intros Hi Ht Hk. apply runs_op. intros w Hw. rewrite <- Hw in Hi.
  destruct (law_next w i t tb k st Hw Hi Ht Hk) as (w' & Hr & Hv). exists w'. unfold unprotected, bind. by rewrite Hr.
Qed.
Lemma runs_type i v st : at_index st i = Some v -> runs (gets (lua_type L i)) st (ends (tag_of v) st).
Proof using HL. intros Hi. apply runs_gets. intros w <-. by apply law_type. Qed.

(** ** Reading *)

Lemma at_table xs t rest T : at_index (LState (xs ++ LTable t :: rest) T) (Z.of_nat (S (length rest))) = Some (LTable t).
Proof.
  unfold at_index. rewrite (proj2 (Z.ltb_lt _ _)) by lia. cbn [stack]. rewrite length_app. simpl length.
  rewrite (proj2 (Z.leb_le _ _)) by lia. rewrite Nat2Z.id.
  replace (length xs + S (length rest) - S (length rest)) with (length xs) by lia. by rewrite list_lookup_middle.
Qed.

Lemma coerce_free e v w : di_free_value v w = Ret tt w -> di_free_value (coerce e v) w = Ret tt w.
Proof. destruct v; try done. unfold coerce. by destruct (decide _). Qed.
Lemma mapM_free l w : Forall (fun v => forall w, di_free_value v w = Ret tt w) l -> mapM_ (free_value_with di_unref_object) l w = Ret tt w.
Proof. induction 1 as [|v l Hv _ IH]; [done|]. cbn [mapM_]. unfold bind at 1. unfold di_free_value in Hv. by rewrite Hv. Qed.
Lemma free_plain bound T n : forall lv v, reads bound T n lv v -> forall w, di_free_value v w = Ret tt w.
Proof.
  induction n as [|n IH]; intros lv v Hr w; inversion Hr; subst; try done.
  assert (Hl : Forall (fun v => forall w, di_free_value v w = Ret tt w) (coerce elemt <$> vs)).
  { apply Forall_fmap, Forall_lookup. intros i v Hv w'. apply coerce_free.
    match goal with H : Forall2 _ _ vs |- _ => destruct (Forall2_lookup_r _ _ _ _ _ H Hv) as (lv & _ & Hlv) end. by eapply IH. }
  unfold di_free_value. destruct vs as [|v1 vs]; [done|]. by apply (mapM_free (coerce elemt <$> v1 :: vs)).
Qed.

Section arrays.
Context (T : gmap positive ltable) (bound n : nat) (conv : Z -> di_type -> bool -> M converted).
(** what there is at a number of a table: an element, or nothing *)
Definition reads_or_nil (lv : lval) (v : val) : Prop := lv = LNil /\ v = VNil \/ reads bound T n lv v.
Hypothesis Hconv : forall lv v hint rest, reads_or_nil lv v ->
  runs (conv (-1)%Z hint true) (LState (lv :: rest) T) (ends (0%Z, type_of v, v) (LState (lv :: rest) T)).
Context (t : positive) (es : list (lval * lval)) (vs : list val) (rest : list lval).
Definition element (i : nat) : lval := get_entry (LInt (Z.of_nat (S i))) es.
Hypothesis (Ht : T !! t = Some (LTab false es)) (Hnd : NoDup es.*1) (Hkeys : forall e, e ∈ es -> e.1 <> LNil).
(** [vs]: what is at the numbers from 1 to the number of entries *)
Hypothesis (Hlen : length vs = length es) (Hvs : forall i v, vs !! i = Some v -> reads_or_nil (element i) v).

(** the element number [i + 1] is put on the stack, converted, and taken off with what was
    there *)
Lemma runs_element {A} i v xs hint (k : di_type * val -> M A) Q idx : vs !! i = Some v ->
  at_index (LState xs T) idx = Some (LTable t) ->
  runs (k (type_of v, v)) (LState (element i :: xs) T) Q ->
  runs (lua_rawgeti L idx (Z.of_nat (S i)) ;; let* (_, t, v) := conv (-1)%Z hint true in k (t, v)) (LState xs T) Q.
Proof using HL Hconv Ht Hvs.
  intros Hv Hidx Hk. eapply runs_step; [by apply (runs_rawgeti _ _ _ t _ Hidx Ht)|].
  cbn [entries]. eapply runs_step; [by apply Hconv, Hvs|exact Hk].
Qed.
Lemma free_element i v w : vs !! i = Some v -> di_free_value v w = Ret tt w.
Proof using Hvs. intros Hv. destruct (Hvs i v Hv) as [[_ ->]|Hr]; [done|by eapply free_plain]. Qed.

(** the answer: the number of entries and their type *)
Definition counted (e : option di_type) : option (Z * di_type) := (fun e => (Z.of_nat (length es), e)) <$> e.

Lemma checkarray_rest_ok : (Z.of_nat (length es) < INT_MAX - 1)%Z ->
  forall post pre k fuel e, es = pre ++ k :: post -> length post < fuel ->
  runs (checkarray_rest conv fuel L (Z.of_nat (S (length rest))) (Z.of_nat (S (S (length pre)))) e)
    (LState (k.1 :: LTable t :: rest) T)
    (ends (counted (foldl (fun acc t => e ← acc; unify e t) (Some e) (drop (S (length pre)) (type_of <$> vs))))
       (LState (LTable t :: rest) T)).
Proof using HL Hconv Ht Hnd Hkeys Hlen Hvs.
  intros Hmax. induction post as [|p post IH]; intros pre k fuel e Heq Hfuel; (destruct fuel as [|fuel]; [simpl in Hfuel; lia|]);
    cbn [checkarray_rest];
    assert (Hlp : length es = length pre + S (length (A := lval * lval) ltac:(first [exact (p :: post)|exact []])))
      by (rewrite Heq, length_app; done);
    assert (Hk : k.1 <> LNil) by (apply Hkeys; rewrite Heq, elem_of_app; right; left);
    (eapply runs_step;
      [apply (runs_next _ t (LTab false es) k.1 (LState (LTable t :: rest) T)); [apply (at_table [k.1])|exact Ht|right; simpl; rewrite Heq, fmap_app; set_solver]|]);
    cbn [entries]; rewrite Heq, next_entry_at by (try done; by rewrite <- Heq); cbn [head].
  - rewrite bool_decide_false by (by intros [? ?]). cbn [negb]. apply runs_ret. simpl in Hlp.
    rewrite drop_ge by (rewrite length_fmap; lia). split; [|done]. simpl. do 2 f_equal. lia.
  - rewrite bool_decide_true by (by eexists). cbn [negb]. simpl in Hlp, Hfuel.
    destruct (lookup_lt_is_Some_2 vs (S (length pre)) ltac:(lia)) as [v Hv].
    eapply (runs_element (S (length pre)) v (p.2 :: p.1 :: LTable t :: rest) e
      (fun tv => di_free_value tv.2 ;; lua_pop L 2 ;;
         match unify e tv.1 with
         | None => lua_pop L 1 ;; ret None
         | Some e1 => if (Z.of_nat (S (S (length pre))) + 1 =? INT_MAX)%Z then lua_pop L 1 ;; ret (Some (Z.of_nat (S (S (length pre))), e1))
                      else checkarray_rest conv fuel L (Z.of_nat (S (length rest))) (Z.of_nat (S (S (length pre))) + 1) e1
         end)); [done|apply (at_table [p.2; p.1])|].
    eapply runs_step; [apply runs_pure; intros w; by eapply free_element|].
    eapply runs_step; [apply (runs_pop 2); simpl; lia|]. cbn [drop_top drop stack tables fst snd].
    rewrite (drop_S _ (type_of v)) by (by rewrite list_lookup_fmap, Hv). cbn [foldl].
    change (e0 ← Some e; unify e0 (type_of v)) with (unify e (type_of v)).
    destruct (unify e (type_of v)) as [e1|].
    + rewrite (proj2 (Z.eqb_neq _ _)) by lia.
      replace (Z.of_nat (S (S (length pre))) + 1)%Z with (Z.of_nat (S (S (length (pre ++ [k]))))) by (rewrite length_app; simpl; lia).
      replace (S (S (length pre))) with (S (length (pre ++ [k]))) by (rewrite length_app; simpl; lia).
      apply IH; [by rewrite <- app_assoc|lia].
    + rewrite unify_fold_None. eapply runs_step; [apply (runs_pop 1); simpl; lia|]. by apply runs_ret.
Qed.

Lemma checkarray_ok : es <> [] -> length es <= env_fuel -> (Z.of_nat (length es) < INT_MAX - 1)%Z ->
  runs (di_lua_checkarray conv L (-1)) (LState (LTable t :: rest) T)
    (ends (counted (elements_type (type_of <$> vs))) (LState (LTable t :: rest) T)).
Proof using HL Hconv Ht Hnd Hkeys Hlen Hvs.
  intros Hne Hfuel Hmax.
  assert (exists k es', es = k :: es') as (k & es' & Ees) by (clear -Hne; destruct es; [done|by eauto]).
  assert (exists v vs', vs = v :: vs') as (v & vs' & Evs) by (rewrite Ees in Hlen; clear -Hlen; destruct vs; [done|by eauto]).
  unfold di_lua_checkarray. eapply runs_step.
  { apply runs_gets. intros w Hw. by rewrite (law_gettop (view := view)), Hw. }
  cbn [stack length]. change (-1 <? 0)%Z with true. cbn [Z.ltb].
  replace (Z.of_nat (S (length rest)) + -1 + 1)%Z with (Z.of_nat (S (length rest))) by lia.
  eapply runs_step; [apply runs_push; intros w; apply law_pushnil|].
  change (push LNil (LState (LTable t :: rest) T)) with (LState (LNil :: LTable t :: rest) T).
  eapply runs_step; [apply (runs_next _ t (LTab false es) LNil (LState (LTable t :: rest) T)); [apply (at_table [LNil])|exact Ht|by left]|].
  cbn [entries]. unfold next_entry. rewrite decide_True by done.
  assert (Hh : head es = Some k) by (by rewrite Ees). rewrite Hh.
  rewrite bool_decide_true by (by eexists). cbn [negb]. assert (Hv : vs !! 0 = Some v) by (by rewrite Evs).
  pose (rest_of := fun tv : di_type * val => di_free_value tv.2 ;; lua_pop L 2 ;; assert (negb (bool_decide (tv.1 = DI_TYPE_UINT))) ;;
       if (di_type_to_Z tv.1 <? 0)%Z || bool_decide (tv.1 = DI_TYPE_NIL) then lua_pop L 1 ;; ret None
       else checkarray_rest conv env_fuel L (Z.of_nat (S (length rest))) 2 tv.1).
  eapply (runs_element 0 v (k.2 :: k.1 :: LTable t :: rest) DI_TYPE_ANY rest_of); [done|apply (at_table [k.2; k.1])|].
  unfold rest_of.
  eapply runs_step; [apply runs_pure; intros w; by eapply free_element|].
  eapply runs_step; [apply (runs_pop 2); simpl; lia|]. cbn [drop_top drop stack tables fst snd].
  assert (Hp : type_of v = DI_TYPE_NIL \/ plain_type (type_of v)).
  { destruct (Hvs 0 v Hv) as [[_ ->]|Hr]; [by left|right; by eapply reads_type]. }
  eapply runs_step.
  { apply runs_assert, negb_true_iff, bool_decide_false. intros Hx. rewrite Hx in Hp. unfold plain_type in Hp. set_solver. }
  destruct Hp as [Hn|Hp].
  - rewrite Hn. eapply runs_step; [apply (runs_pop 1); simpl; lia|]. apply runs_ret. rewrite Evs, fmap_cons, Hn. done.
  - assert (Hz : (di_type_to_Z (type_of v) <? 0)%Z || bool_decide (type_of v = DI_TYPE_NIL) = false).
    { unfold plain_type in Hp. repeat (apply elem_of_cons in Hp as [->|Hp]; [done|]). by apply not_elem_of_nil in Hp. }
    assert (He : elements_type (type_of <$> vs) =
      foldl (fun acc t => e ← acc; unify e t) (Some (type_of v)) (drop 1 (type_of <$> vs))).
    { rewrite Evs, fmap_cons. clear -Hp. unfold plain_type in Hp. repeat (apply elem_of_cons in Hp as [->|Hp]; [done|]). by apply not_elem_of_nil in Hp. }
    rewrite Hz, He. apply (checkarray_rest_ok Hmax es' [] k); [done|]. rewrite Ees in Hfuel. simpl in Hfuel. lia.
Qed.

Lemma array_elements_ok e' : (forall i v, vs !! i = Some v -> v <> VNil) -> Forall (fun t => t = e' \/ t = DI_TYPE_INT /\ e' = DI_TYPE_FLOAT) (type_of <$> vs) ->
  forall m i, i + m = length vs ->
  runs (array_elements conv L (-1) e' (seq (S i) m)) (LState (LTable t :: rest) T)
    (ends (coerce e' <$> drop i vs) (LState (LTable t :: rest) T)).
Proof using HL Hconv Ht Hlen Hvs.
  intros Hnil Hall. induction m as [|m IH]; intros i Hi; cbn [seq array_elements].
  - apply runs_ret. rewrite drop_ge by lia. done.
  - destruct (lookup_lt_is_Some_2 vs i ltac:(lia)) as [v Hv].
    pose (rest_of := fun tv : di_type * val => lua_pop L 1 ;;
        x <- (if negb (bool_decide (tv.1 = e')) then
                assert (bool_decide (tv.1 = DI_TYPE_INT /\ e' = DI_TYPE_FLOAT)) ;;
                match tv.2 with VInt z => ret (VFloat (CheckedInt.to_double z)) | _ => stuck UndefinedBehaviour end
              else ret tv.2) ;;
        xs <- array_elements conv L (-1) e' (seq (S (S i)) m) ;; ret (x :: xs)).
    eapply (runs_element i v (LTable t :: rest) e' rest_of); [done|done|]. unfold rest_of.
    eapply runs_step; [apply (runs_pop 1); simpl; lia|]. cbn [drop_top drop stack tables fst snd].
    eapply (runs_step _ _ (coerce e' v)).
    + rewrite Forall_fmap, Forall_lookup in Hall. specialize (Hall i v Hv). simpl in Hall.
      case_bool_decide as Hte; cbn [negb].
      * apply runs_ret. split; [|done]. destruct v; try done. simpl in Hte. unfold coerce. rewrite decide_False by congruence. done.
      * destruct Hall as [?|[Hti ->]]; [done|]. eapply runs_step; [apply runs_assert; by apply bool_decide_true|].
        destruct v; try done. apply runs_ret. by split.
    + eapply runs_step; [apply IH; lia|]. apply runs_ret. by rewrite (drop_S _ _ _ Hv).
Qed.

Lemma element_plain i v : vs !! i = Some v -> v <> VNil -> reads bound T n (element i) v.
Proof using Hvs. intros Hv Hn. by destruct (Hvs i v Hv) as [[_ ?]|?]. Qed.

Lemma table_to_array_ok e' : (forall i v, vs !! i = Some v -> v <> VNil) -> unify_all (type_of <$> vs) = Some e' ->
  runs (di_lua_table_to_array conv L (-1) (Z.of_nat (length es)) e') (LState (LTable t :: rest) T)
    (ends (VArray e' true (coerce e' <$> vs)) (LState (LTable t :: rest) T)).
Proof using HL Hconv Ht Hnd Hkeys Hlen Hvs.
  intros Hnil Hu.
  assert (Hp : Forall plain_type (type_of <$> vs)).
  { apply Forall_fmap, Forall_lookup. intros i v Hv. eapply reads_type, (element_plain i); [done|by eapply Hnil]. }
  destruct (unify_all_plain _ _ Hp Hu) as [He Hall]. unfold di_lua_table_to_array. rewrite <- Hlen.
  destruct (Z.eqb_spec (Z.of_nat (length vs)) 0) as [Hz|_]; [destruct vs; done|].
  unfold plain_type in He. eapply runs_step; [apply runs_pure; apply sizeof_is_zero_spec; intros ->; set_solver|].
  eapply runs_step; [apply runs_assert; rewrite bool_decide_false; [done|intros ->; set_solver]|].
  rewrite Nat2Z.id. eapply runs_step; [apply (array_elements_ok e' Hnil Hall _ 0); lia|]. by apply runs_ret.
Qed.
End arrays.

(** the elements of an array *)
Lemma array_facts T bound n es lvs vs : es ≡ₚ array_entries lvs -> Forall2 (reads bound T n) lvs vs ->
  NoDup es.*1 /\ (forall e, e ∈ es -> e.1 <> LNil) /\ length es = length lvs /\ length vs = length es /\
  (forall i v, vs !! i = Some v -> reads bound T n (element es i) v).
Proof.
  intros Hes Hvs. pose proof (Forall2_length _ _ _ Hvs) as Hl.
  assert (Hle : length es = length lvs) by (rewrite Hes; apply length_imap). split_and!.
  - rewrite Hes. apply NoDup_array_keys.
  - intros e. rewrite Hes, elem_of_array_entries. by intros (i & v & -> & _).
  - done.
  - lia.
  - intros i v Hv. destruct (Forall2_lookup_r _ _ _ _ _ Hvs Hv) as (lv & Hlv & Hr). unfold element.
    by rewrite (get_array_entry es lvs i lv Hes Hlv).
Qed.

(** a plain value on the top of the stack is converted to what it is in deai, and stays
    where it is *)
Lemma type_to_di_nil fuel T hint rest : 0 < fuel ->
  runs (type_to_di fuel L (-1) hint true) (LState (LNil :: rest) T) (ends (0%Z, DI_TYPE_NIL, VNil) (LState (LNil :: rest) T)).
Proof using HL. intros Hf. destruct fuel; [lia|]. cbn [type_to_di]. eapply runs_step; [by apply runs_type|]. by apply runs_ret. Qed.

Lemma type_to_di_reads T : forall fuel n lv v hint rest (want : bool), n < fuel -> reads env_fuel T n lv v ->
  runs (type_to_di fuel L (-1) hint want) (LState (lv :: rest) T)
    (ends (0%Z, type_of v, if want then v else VNil) (LState (lv :: rest) T)).
Proof using HL.
  induction fuel as [|fuel IH]; intros n lv v hint rest want Hn Hr; [lia|]. cbn [type_to_di].
  eapply runs_step; [by apply runs_type|]. destruct Hr as [n b|n z|n f|n s|n t es lvs vs e Ht Hes Hfuel Hmax Hvs Hu]; cbn [tag_of].
  - eapply runs_step; [apply runs_gets; intros w Hw; apply law_toboolean; by rewrite Hw|]. by apply runs_ret.
  - eapply runs_step; [apply runs_gets; intros w Hw; eapply law_isinteger; by rewrite Hw|]. cbv iota.
    eapply runs_step; [apply runs_gets; intros w Hw; apply law_tointeger; by rewrite Hw|]. by apply runs_ret.
  - eapply runs_step; [apply runs_gets; intros w Hw; eapply law_isnumber; by rewrite Hw|]. cbv iota.
    eapply runs_step; [apply runs_gets; intros w Hw; apply law_tonumber; by rewrite Hw|]. by apply runs_ret.
  - destruct want; [|by apply runs_ret].
    eapply runs_step; [apply runs_same; intros w Hw; apply law_tolstring; by rewrite Hw|]. by apply runs_ret.
  - assert (Hconv : forall lv v hint rest, reads_or_nil T env_fuel n lv v ->
      runs (type_to_di fuel L (-1) hint true) (LState (lv :: rest) T) (ends (0%Z, type_of v, v) (LState (lv :: rest) T))).
    { intros lv v h r [[-> ->]|Hr]; [apply type_to_di_nil; lia|]. apply (IH n lv v h r true); [lia|done]. }
    destruct (array_facts _ _ _ _ _ _ Hes Hvs) as (Hnd & Hkeys & Hle & Hlen & Hel).
    assert (Hplain : Forall plain_type (type_of <$> vs)) by (apply Forall_fmap, Forall_lookup; intros i v Hv; by eapply reads_type, Hel).
    assert (Hnil : forall i v, vs !! i = Some v -> v <> VNil) by (intros i v Hv ->; apply Hel in Hv; inversion Hv).
    assert (Hne : es <> []) by (intros ->; destruct vs; [done|simpl in Hlen; lia]).
    eapply runs_step; [apply runs_same; intros w Hw; eapply law_getmetatable; rewrite Hw; done|].
    cbn [when]. eapply runs_step; [by apply runs_pure|].
    eapply runs_step; [apply (checkarray_ok T env_fuel n _ Hconv t es vs rest Ht Hnd Hkeys Hlen); try done; [by right; apply Hel|lia|lia]|].
    rewrite elements_type_plain, Hu by done. cbn [counted fmap option_fmap option_map]. cbv iota.
    rewrite (proj2 (Z.eqb_neq _ _)) by (destruct es; [done|simpl; lia]). cbn [andb]. destruct want; [|by apply runs_ret].
    eapply runs_step; [apply (table_to_array_ok T env_fuel n _ Hconv t es vs rest Ht Hnd Hkeys Hlen); try done; by right; apply Hel|]. by apply runs_ret.
Qed.

(** what is at the numbers from 1 to the number of entries *)
Lemma numbered_values T n es : Forall (fun e => exists v, reads env_fuel T n e.2 v) es ->
  exists vs, length vs = length es /\ forall i v, vs !! i = Some v -> reads_or_nil T env_fuel n (element es i) v.
Proof.
  intros Hall.
  assert (Hel : forall i, exists v, reads_or_nil T env_fuel n (element es i) v).
  { intros i. destruct (decide (element es i = LNil)) as [->|He]; [exists VNil; by left|].
    rewrite Forall_forall in Hall. destruct (Hall _ (get_entry_found _ _ He)) as [v Hv]. exists v. by right. }
  clear Hall. generalize (length es). intros m. induction m as [|m (vs & Hm & Hvs)]; [by exists []|].
  destruct (Hel m) as [v Hv]. exists (vs ++ [v]). rewrite length_app, Hm. split; [simpl; lia|].
  intros i x [Hx|[Hi Hx]]%lookup_app_Some; [by apply Hvs|].
  apply list_lookup_singleton_Some in Hx as [Hi0 <-]. by replace i with m by lia.
Qed.


(** ** Pushing *)

Lemma runs_lbind {A B} (m : LM A) (k : A -> LM B) st a st' Q : runs m st (ends (Some a) st') -> runs (k a) st' Q -> runs (lbind m k) st Q.
Proof. intros Hm Hk. unfold lbind. eapply runs_step; [exact Hm|exact Hk]. Qed.
Lemma runs_mono {A} (m : M A) st (Q Q' : A -> lstate -> Prop) : (forall a st', Q a st' -> Q' a st') -> runs m st Q -> runs m st Q'.
Proof. intros HQ Hm w Hw. destruct (Hm w Hw) as (a & w' & ? & ?). exists a, w'. auto. Qed.

(** one value more on the stack, which stands for [u] with the tables that are new *)
Definition pushed (n : nat) (u : val) (st : lstate) (r : option Z) (st' : lstate) : Prop :=
  r = Some 1%Z /\ exists lv N, st' = LState (lv :: stack st) (tables st ∪ N) /\ N ##ₘ tables st /\ reads env_fuel N n lv u.

Lemma runs_pushed (m : M unit) n u lv st : (forall w, exists w', m w = Ret tt w' /\ view w' = push lv (view w)) ->
  reads env_fuel ∅ n lv u -> runs (m ;; lret 1%Z) st (pushed n u st).
Proof.
  intros Hm Hr. eapply runs_step; [by apply runs_push|]. apply runs_ret. split; [done|]. exists lv, ∅.
  rewrite map_union_empty. split_and!; [done|apply map_disjoint_empty_l|done].
Qed.

Section elements.
Context (n : nat) (push_one : val -> LM Z) (t : positive) (rest : list lval).

Lemma push_elements_ok l us :
  Forall2 (fun v u => forall st, runs (push_one v) st (pushed n u st)) l us ->
  forall lvs es B, B !! t = None -> es ≡ₚ array_entries lvs ->
  runs (push_elements push_one L (Z.of_nat (S (length lvs))) l) (LState (LTable t :: rest) (<[t := LTab false es]> B))
    (fun r st' => r = Some tt /\ exists lvs' N es', st' = LState (LTable t :: rest) (<[t := LTab false es']> (B ∪ N)) /\
      N ##ₘ B /\ N !! t = None /\ es' ≡ₚ array_entries (lvs ++ lvs') /\ Forall2 (reads env_fuel N n) lvs' us).
Proof using HL.
  induction 1 as [|v u l us Hv _ IH]; intros lvs es B Ht Hes; cbn [push_elements].
  { apply runs_ret. split; [done|]. exists [], ∅, es. rewrite map_union_empty, app_nil_r.
    split_and!; [done|apply map_disjoint_empty_l|apply lookup_empty|done|constructor]. }
  unfold lbind at 1. apply runs_bind. eapply runs_mono; [|apply Hv]. intros r st' (-> & lv & N1 & -> & Hd1 & Hr1). cbn [stack tables] in *.
  apply map_disjoint_insert_r in Hd1 as [Ht1 Hd1].
  apply runs_bind. intros w Hw. destruct (law_rawseti w (-2) (Z.of_nat (S (length lvs))) t (LTab false es) lv
    (LState (LTable t :: rest) (<[t:=LTab false es]> B ∪ N1)) Hw) as (w' & es1 & Hrun & Hp1 & Hv');
    [by rewrite Hw|apply lookup_union_Some_l, lookup_insert_eq|].
  exists tt, w'. split; [done|]. rewrite Hv'. cbn [stack tables has_metatable entries] in *.
  rewrite set_array_entry in Hp1 by (try done; by eapply reads_not_nil). rewrite <- insert_union_l, insert_insert_eq.
  assert (Htb : (B ∪ N1) !! t = None) by (by apply lookup_union_None).
  specialize (IH (lvs ++ [lv]) es1 (B ∪ N1) Htb Hp1). rewrite length_app in IH. cbn [length] in IH.
  replace (Z.of_nat (S (length lvs)) + 1)%Z with (Z.of_nat (S (length lvs + 1))) by lia.
  eapply runs_mono; [|exact IH]. intros r st' (-> & lvs' & N & es' & -> & Hd & HtN & Hp & Hall). split; [done|].
  apply map_disjoint_union_r in Hd as [HdB HdN]. exists (lv :: lvs'), (N1 ∪ N), es'. split_and!.
  - by rewrite map_union_assoc.
  - by apply map_disjoint_union_l.
  - by apply lookup_union_None.
  - by rewrite <- app_assoc in Hp.
  - constructor; [eapply reads_mono; [|exact Hr1]; apply map_union_subseteq_l|].
    eapply Forall2_impl; [exact Hall|]. intros x y. apply reads_mono. by apply map_union_subseteq_r.
Qed.

End elements.

(** a table with these elements *)
Lemma push_table_ok n (push_one : val -> LM Z) l us e st :
  Forall2 (fun v u => forall st, runs (push_one v) st (pushed n u st)) l us ->
  unify_all (type_of <$> us) = Some e -> length l <= env_fuel -> (Z.of_nat (length l) < INT_MAX - 1)%Z ->
  runs (lua_createtable L ;; _ <-? push_elements push_one L 1 l ;; lret 1%Z) st (pushed (S n) (VArray e true (coerce e <$> us)) st).
Proof using HL.
  intros Hall Hu Hb Hmax. apply runs_bind. intros w Hw. destruct (law_createtable w) as (w' & t & Hrun & Ht & Hv').
  rewrite Hw in Ht, Hv'. exists tt, w'. split; [done|]. rewrite Hv'. clear w w' Hw Hrun Hv'.
  unfold lbind. apply runs_bind. eapply runs_mono; [|by apply (push_elements_ok n push_one t (stack st) l us Hall [] [] (tables st))].
  intros r st' (-> & lvs & N & es & -> & Hd & HtN & Hes & Hreads). apply runs_ret. split; [done|].
  exists (LTable t), (<[t := LTab false es]> N). cbn [app] in Hes. split_and!.
  - by rewrite <- insert_union_r.
  - by apply map_disjoint_insert_l.
  - assert (Hlen : length lvs = length l) by (rewrite (Forall2_length _ _ _ Hreads); symmetry; by eapply Forall2_length).
    eapply reads_array; [apply lookup_insert_eq|exact Hes|lia|lia| |done].
    eapply Forall2_impl; [exact Hreads|]. intros x y. apply reads_mono. by apply insert_subseteq.
Qed.
Lemma push_plain v : forall name n u st, through_lua v = Some u -> within env_fuel n v = true ->
  runs (di_lua_pushvariant L name v) st (pushed n u st).
Proof using HL.
  assert (Hseq : forall l n, Forall (fun v => forall name n u st, through_lua v = Some u -> within env_fuel n v = true ->
      runs (di_lua_pushvariant L name v) st (pushed n u st)) l ->
    forall u st, (vs ← map_option through_lua l; as_array vs) = Some u -> match n with
      | O => false
      | S n => (length l <=? env_fuel)%nat && (Z.of_nat (length l) <? INT_MAX - 1)%Z && forallb (within env_fuel n) l
      end = true ->
    (Z.of_nat (length l) < INT_MAX - 1)%Z /\
    runs (lua_createtable L ;; _ <-? push_elements (di_lua_pushvariant L DI_STRING_INIT) L 1 l ;; lret 1%Z) st (pushed n u st)).
  { intros l n IH u st Hu Hw. destruct n as [|n]; [done|]. apply andb_prop in Hw as [[Hb Hmax]%andb_prop Hw].
    apply Nat.leb_le in Hb. apply Z.ltb_lt in Hmax. split; [done|].
    destruct (map_option through_lua l) as [us|] eqn:Hl; [|done]. simpl in Hu. unfold as_array in Hu.
    destruct (unify_all (type_of <$> us)) as [e|] eqn:He; [|done]. simpl in Hu. injection Hu as <-.
    apply push_table_ok; try done. apply map_option_Forall2 in Hl. apply Forall2_same_length_lookup_2; [by eapply Forall2_length|].
    intros i v1 u1 Hv1 Hu1 st1. rewrite Forall_lookup in IH. apply (IH i v1 Hv1).
    - by eapply (Forall2_lookup_lr _ _ _ _ _ _ Hl).
    - rewrite forallb_forall in Hw. apply Hw, list_elem_of_In, list_elem_of_lookup. by exists i. }
  induction v as [v Hl|et nn l IH|l IH|v IH] using val_ind'; intros name n u st Hu Hw.
  - destruct v; try done; simpl in Hu; simplify_eq; cbn [di_lua_pushvariant].
    + apply (runs_pushed _ _ _ (LBool b)); [intros w; apply law_pushboolean|constructor].
    + apply (runs_pushed _ _ _ (LInt z)); [intros w; apply law_pushinteger|constructor].
    + apply (runs_pushed _ _ _ (LInt z)); [intros w; apply law_pushinteger|constructor].
    + apply (runs_pushed _ _ _ (LInt z)); [intros w; apply law_pushinteger|constructor].
    + destruct (z <? PTRDIFF_MAX)%Z eqn:Hz; [|done]. simplify_eq. unfold LUA_CHECK.
      eapply runs_lbind; [by apply runs_ret|]. apply (runs_pushed _ _ _ (LInt z)); [intros w; apply law_pushinteger|constructor].
    + apply (runs_pushed _ _ _ (LNum f)); [intros w; apply law_pushnumber|constructor].
    + destruct s as [s|]; [|done]. simplify_eq. apply (runs_pushed _ _ _ (LStr s)); [intros w; apply law_pushlstring|constructor].
    + apply (runs_pushed _ _ _ (LStr (c_str s))); [intros w; apply law_pushlstring|constructor].
  - destruct (decide (et = DI_TYPE_ANY)) as [->|Hany]; [done|]. destruct (decide (et = DI_LAST_TYPE)) as [->|Hlast]; [done|].
    assert (Hu' : (vs ← map_option through_lua l; as_array vs) = Some u) by (by destruct et).
    destruct (Hseq l n IH u st Hu' Hw) as [Hmax Hrun].
    assert (Hrun' : runs (_ <-? LUA_CHECK L 1319 (Z.of_nat (length l) <? INT_MAX)%Z
              ("arr->length < INT_MAXfailed: Array length " +:+ fmt_d (Z.of_nat (length l)) +:+ " is too large for lua") ;;
      _ <- sizeof_is_zero et ;; lua_createtable L ;; _ <-? push_elements (di_lua_pushvariant L DI_STRING_INIT) L 1 l ;; lret 1%Z) st (pushed n u st)).
    { unfold LUA_CHECK. rewrite (proj2 (Z.ltb_lt _ _)) by (unfold INT_MAX in *; lia). eapply runs_lbind; [by apply runs_ret|].
      eapply runs_step; [apply runs_pure; by apply sizeof_is_zero_spec|]. exact Hrun. }
    by destruct et.
  - destruct (Hseq l n IH u st Hu Hw) as [Hmax Hrun]. cbn [di_lua_pushvariant]. unfold LUA_CHECK.
    rewrite (proj2 (Z.ltb_lt _ _)) by (unfold INT_MAX in *; lia). eapply runs_lbind; [by apply runs_ret|]. exact Hrun.
  - cbn [di_lua_pushvariant]. by apply IH.
Qed.

End runs.

(** ** A Lua state that is read off the calls that were made *)

Definition raw_geti (st : lstate) (i n : Z) : lval :=
  match at_index st i with
  | Some (LTable t) => from_option (fun tb => get_entry (LInt n) (entries tb)) LNil (tables st !! t)
  | _ => LNil
  end.
Definition raw_seti (st : lstate) (i n : Z) : lstate :=
  match at_index st i, stack st with
  | Some (LTable t), v :: rest =>
      match tables st !! t with
      | Some tb =>
          let es := remove_key (LInt n) (entries tb) ++ (if decide (v = LNil) then [] else [(LInt n, v)]) in
          LState rest (<[t := LTab (has_metatable tb) es]> (tables st))
      | None => st
      end
  | _, _ => st
  end.
(** the entry [lua_next] finds *)
Definition found_entry (st : lstate) (i : Z) : option (lval * lval) :=
  match at_index st i, stack st with
  | Some (LTable t), k :: _ => tb ← tables st !! t; next_entry k (entries tb)
  | _, _ => None
  end.
Definition do_next (st : lstate) (i : Z) : lstate :=
  let st' := drop_top 1 st in
  match found_entry st i with Some e => push e.2 (push e.1 st') | None => st' end.
Definition create_table (st : lstate) : lstate :=
  let t := fresh (dom (tables st)) in
  LState (LTable t :: stack st) (<[t := LTab false []]> (tables st)).

Definition replay_step (c : extcall) (st : lstate) : lstate :=
  match ext_args c with
  | [] => if String.eqb (ext_fn c) "lua_pushnil" then push LNil st
          else if String.eqb (ext_fn c) "lua_createtable" then create_table st else st
  | [VBool b] => push (LBool b) st
  | [VFloat f] => push (LNum f) st
  | [VString (Some s)] => push (LStr s) st
  | [VInt z] => if String.eqb (ext_fn c) "lua_settop" then drop_top (Z.to_nat (- z - 1)) st
                else if String.eqb (ext_fn c) "lua_next" then do_next st z else push (LInt z) st
  | [VInt i; VInt n] => if String.eqb (ext_fn c) "lua_rawgeti" then push (raw_geti st i n) st else raw_seti st i n
  | _ => st
  end.
Definition replay (w : world) : lstate := foldr replay_step (LState [] ∅) (trace w).

Definition type_at (st : lstate) (i : Z) : lua_type_tag := from_option tag_of LUA_TNONE (at_index st i).
(** only what plain data needs *)
Definition replayed_lua : Lua := {|
  lua_gettop := fun _ w => Z.of_nat (length (stack (replay w)));
  lua_type := fun _ i w => type_at (replay w) i;
  lua_isinteger := fun _ i w => match at_index (replay w) i with Some (LInt _) => true | _ => false end;
  lua_toboolean := fun _ i w => match at_index (replay w) i with Some (LBool b) => b | _ => false end;
  lua_tointeger := fun _ i w => match at_index (replay w) i with Some (LInt z) => z | _ => 0%Z end;
  lua_tonumber := fun _ i w => match at_index (replay w) i with Some (LNum f) => f | _ => S754_nan end;
  lua_touserdata := fun _ _ _ => 0%Z;
  userdata_pointer := fun _ _ => 0%Z;
  lua_getframe := fun _ _ _ => None;
  lua_settop := fun _ n => call_ext "lua_settop" [VInt n];
  lua_pushnil := fun _ => call_ext "lua_pushnil" [];
  lua_pushboolean := fun _ b => call_ext "lua_pushboolean" [VBool b];
  lua_pushinteger := fun _ z => call_ext "lua_pushinteger" [VInt z];
  lua_pushnumber := fun _ f => call_ext "lua_pushnumber" [VFloat f];
  lua_pushlstring := fun _ s => call_ext "lua_pushlstring" [VString (Some s)];
  lua_pushlightuserdata := fun _ _ => ret tt;
  lua_pushvalue := fun _ _ => ret tt;
  lua_pushcclosure := fun _ _ _ => ret tt;
  lua_remove := fun _ _ => ret tt;
  lua_insert := fun _ _ => ret tt;
  lua_createtable := fun _ => call_ext "lua_createtable" [];
  lua_newuserdata := fun _ _ => ret 0%Z;
  lua_getmetatable := fun _ _ => ret false;
  lua_setmetatable := fun _ _ => ret tt;
  lua_rawget := fun _ _ => ret tt;
  lua_rawset := fun _ _ => ret tt;
  lua_rawgeti := fun _ i n => call_ext "lua_rawgeti" [VInt i; VInt n];
  lua_rawseti := fun _ i n => call_ext "lua_rawseti" [VInt i; VInt n];
  luaL_ref := fun _ _ => ret 0%Z;
  luaL_unref := fun _ _ _ => ret tt;
  luaL_setfuncs := fun _ _ => ret tt;
  lua_getglobal := fun _ _ => ret tt;
  lua_setglobal := fun _ _ => ret tt;
  lua_tolstring := fun _ i =>
    v <- gets (fun w => at_index (replay w) i) ;; ret (match v with Some (LStr s) => Some s | _ => None end);
  luaL_checklstring := fun _ _ => ret None;
  lua_next := fun _ i =>
    b <- gets (fun w => bool_decide (is_Some (found_entry (replay w) i))) ;; call_ext "lua_next" [VInt i] ;; ret (Some b);
  lua_gettable := fun _ _ => ret None;
  lua_settable := fun _ _ => ret None;
  luaL_tolstring := fun _ _ => ret None;
  lua_pushfstring := fun _ _ _ => ret None;
  luaL_push_error := fun _ _ => ret tt;
  luaL_push_argerror := fun _ _ _ => ret tt;
  lua_pcall := fun _ _ _ _ => ret 0%Z;
  luaL_loadfile := fun _ _ => ret 0%Z;
  luaL_loadstring := fun _ _ => ret 0%Z;
  luaL_newstate := ret 0%Z;
  luaL_openlibs := fun _ => ret tt;
  lua_close := fun _ => ret tt;
  fmt_lf := fun _ => ""
|}.

Lemma replayed_lua_laws L : @LuaLaws replayed_lua L replay.
Proof.
  constructor; cbn [lua_gettop lua_type lua_toboolean lua_isinteger lua_tointeger lua_tonumber replayed_lua]; try done;
    try (intros w i x Hi; unfold type_at; by rewrite Hi); try (intros; eexists; split; reflexivity).
  - intros w i s Hi. exists w. split; [|done]. cbn. unfold bind, gets, ret. by rewrite Hi.
  - intros w n Hn. eexists. split; [reflexivity|]. change (replay (add_trace ?c w)) with (replay_step c (replay w)).
    unfold replay_step. cbn [ext_args ext_fn]. change (String.eqb "lua_settop" "lua_settop") with true. cbv iota. f_equal. lia.
  - intros w. exists (add_trace (ExtCall "lua_createtable" []) w), (fresh (dom (tables (replay w)))).
    split; [reflexivity|]. split; [|reflexivity]. apply not_elem_of_dom, is_fresh.
  - intros w i n t tb Hi Ht. eexists. split; [reflexivity|].
    change (replay (add_trace ?c w)) with (replay_step c (replay w)). unfold replay_step. cbn. unfold raw_geti. by rewrite Hi, Ht.
  - intros w i n t tb v st Hw Hi Ht. eexists _, _. split; [reflexivity|]. split; [|
      change (replay (add_trace ?c w)) with (replay_step c (replay w)); unfold replay_step; cbn; unfold raw_seti; rewrite Hi, Hw; cbn;
      rewrite Ht; reflexivity].
    unfold set_entry. destruct (decide (v = LNil)); [by rewrite app_nil_r|]. by rewrite Permutation_app_comm.
  - intros w i t tb k st Hw Hi Ht _.
    assert (Hfound : found_entry (replay w) i = next_entry k (entries tb)).
    { unfold found_entry. rewrite Hi, Hw. cbn. by rewrite Ht. }
    exists (add_trace (ExtCall "lua_next" [VInt i]) w). split.
    + cbn. unfold bind, gets, ret. by rewrite Hfound.
    + change (replay (add_trace ?c w)) with (replay_step c (replay w)). unfold replay_step. cbn. unfold do_next.
      rewrite Hfound, Hw. destruct st. reflexivity.
Qed.

(** a table with strings at these numbers *)
Definition number_entries (l : list (Z * string)) : list (lval * lval) := (fun p => (LInt p.1, LStr p.2)) <$> l.
Definition number_table (l : list (Z * string)) : gmap positive ltable := {[1%positive := LTab false (number_entries l)]}.
Definition table_world (l : list (Z * string)) : world :=
  foldl (fun w p => add_trace (ExtCall "lua_rawseti" [VInt (-2); VInt p.1]) (add_trace (ExtCall "lua_pushlstring" [VString (Some p.2)]) w))
    (add_trace (ExtCall "lua_createtable" []) (store [])) l.

Lemma number_entries_reads n T l : Forall (fun e => e.1 <> LNil /\ exists v, reads 40 T n e.2 v) (number_entries l).
Proof. apply Forall_fmap, Forall_forall. intros p _. split; [done|]. exists (VString (Some p.2)). constructor. Qed.


(** a tuple of a tuple and an array of strings; numbers of three types *)
Definition sample_value : val :=
  VTuple [VTuple [VStringLiteral "a"; VString (Some "b")]; VArray DI_TYPE_STRING true [VString (Some "c")]].
Definition sample_numbers : val := VTuple [VUint 1; VNint (-2); VVariant (VFloat (S754_finite false 1 (-1)))].

