(* ===== verification/MiscFacts.v ===== *)
(** * Calls of the methods of [misc]

    The two algorithms as they are called: with a value of deai, through the wrapper of a
    method. *)

From S2P Require Export Devices Matching Constraints Demo.

(** the array of arrays of integers that stands for some lists; an empty array has any type *)
Definition stands_for (v : val) (ls : list (list Z)) : Prop :=
  exists nn vs, v = VArray DI_TYPE_ARRAY nn vs /\
    Forall2 (fun x l => exists et nn, x = VArray et nn (VInt <$> l) /\ (l = [] \/ et = DI_TYPE_INT)) vs ls.

Section calls.
Context {E : Env} {F : Ffi}.

Lemma vector_elements_same {A} t name (elem : val -> M A) et l xs w : l = [] \/ et = t ->
  Forall2 (fun x a => elem x w = Ret a w) l xs -> vector_elements t name elem et l w = Ret xs w.
Proof.
  intros Ht Hl. induction Hl as [|x a l xs Hx Hl IH]; [done|]. destruct Ht as [|Ht]; [done|]; subst et. cbn [vector_elements].
  rewrite bool_decide_true by done. unfold bind, ret. rewrite Hx. cbn. unfold bind in IH. by rewrite IH by (right; done).
Qed.
Lemma int64_list_of l et nn w : l = [] \/ et = DI_TYPE_INT -> to_vector DI_TYPE_INT "l" int64_of (VArray et nn (VInt <$> l)) w = Ret l w.
Proof.
  intros Hl. apply vector_elements_same; [destruct Hl as [->|]; auto|]. apply Forall2_fmap_l. clear. induction l; by constructor.
Qed.
Lemma int64_lists_of v ls w : stands_for v ls -> int64_lists v w = Ret ls w.
Proof.
  intros (nn & vs & -> & Hvs). apply vector_elements_same; [by right|].
  eapply Forall2_impl; [exact Hvs|]. intros x l (et & nn' & -> & Hl). by apply int64_list_of.
Qed.
(** the call is the function *)
Lemma lists_method_of f o v ls w : stands_for v ls ->
  lists_method f [VObject o; v] w =
    match f ls with
    | inl flt => Stuck flt
    | inr (inl e) => Ret (inl e) w
    | inr (inr r) => Ret (inr (inr (array_to_owned DI_TYPE_INT (VInt <$> r)))) w
    end.
Proof.
  intros Hv. unfold lists_method, raw_wrapper. cbn [length Nat.eqb negb]. cbn [borrow_args]. unfold borrow_from_variant.
  assert (Ht : type_of v = DI_TYPE_ARRAY) by (by destruct Hv as (? & ? & -> & _)).
  rewrite decide_True by done. rewrite decide_True by done.
  unfold cxbind, bind, ret. rewrite (int64_lists_of v ls w Hv). unfold of_cxx, of_fault.
  destruct (f ls) as [flt|[e|r]]; done.
Qed.

(** Called with lists of edges in which no node on the right has a number that is not one of a
    node on the left, the method [bipartite_match] answers, without changing anything, with a
    matching that no other matching is larger than: one entry for each node on the left,
    either -1 or a node on the right that it has an edge to and no other node is matched
    with. C10. *)
Theorem bipartite_match_maximum o v graph w : stands_for v graph -> edges_in_range graph -> (Z.of_nat (length graph) < 2 ^ 32)%Z ->
  exists r, misc_bipartite_match [VObject o; v] w = Ret (inr (inr (array_to_owned DI_TYPE_INT (VInt <$> r)))) w /\
    length r = length graph /\ matching graph (matched r) /\
    (forall l, matching graph l -> length l <= length (matched r)).
Proof.
  intros Hv Hr Hn. destruct (bipartite_match_spec graph Hr Hn) as (r & Hm & H). exists r. split; [|done].
  unfold misc_bipartite_match. rewrite (lists_method_of _ _ _ graph) by done. by rewrite Hm.
Qed.

(** When the counters have room, the method [difference_constraints] answers every system of
    constraints, without an overflow or an access outside of its vectors: it returns the
    largest of the solutions without positive values, or throws an exception, which for a
    well-formed system it does only when there is no solution at all. C11. *)
Theorem difference_constraints_decides o v cl B w : stands_for v cl -> small B cl ->
  match misc_difference_constraints [VObject o; v] w with
  | Ret (inr (inr x)) w' => w' = w /\ exists r, x = array_to_owned DI_TYPE_INT (VInt <$> r) /\
      well_formed cl /\ length r = length cl /\ solves cl (value r) /\
      forall x, solves cl x -> (forall i, x i <= 0)%Z -> forall i, i < length cl -> (x i <= value r i)%Z
  | Ret (inl _) w' => w' = w /\ (well_formed cl -> forall x, ~ solves cl x)
  | _ => False
  end.
Proof.
  intros Hv Hs. unfold misc_difference_constraints. rewrite (lists_method_of _ _ _ cl) by done.
  pose proof (difference_constraints_spec cl B Hs) as H. destruct (difference_constraints cl) as [f|[e|r]]; [done|done|].
  split; [done|]. by exists r.
Qed.
End calls.

(** lists as a value *)
Definition lists_value (ls : list (list Z)) : val := VArray DI_TYPE_ARRAY true ((fun l => VArray DI_TYPE_INT true (VInt <$> l)) <$> ls).
Lemma lists_value_stands_for ls : stands_for (lists_value ls) ls.
Proof.
  exists true, ((fun l => VArray DI_TYPE_INT true (VInt <$> l)) <$> ls). split; [done|].
  induction ls as [|l ls IH]; constructor; [|done]. exists DI_TYPE_INT, true. auto.
Qed.
Lemma array_to_owned_inj r l : array_to_owned DI_TYPE_INT (VInt <$> r) = VArray DI_TYPE_INT true (VInt <$> l) -> r = l.
Proof.
  intros H. assert (VInt <$> r = VInt <$> l) as Heq by (destruct r; [done|by injection H as H]).
  clear H. revert l Heq. induction r as [|z r IH]; intros [|z' l] Heq; [done|done|done|]. injection Heq as -> Heq. f_equal. by apply IH.
Qed.
(** three nodes that want one, and one that wants none *)
Definition sample_graph : list (list Z) := [[0; 1]; [0]; [0]; []]%Z.
Lemma bipartite_match_maximum_witness :
  exists r, @misc_bipartite_match quiet_env null_ffi [VObject 1; lists_value sample_graph] (store []) =
      Ret (inr (inr (VArray DI_TYPE_INT true [VInt 1; VInt 0; VInt (-1); VInt (-1)]))) (store []) /\
    r = [1; 0; -1; -1]%Z /\ forall l, matching sample_graph l -> length l <= length (matched r).
Proof.
  destruct (@bipartite_match_maximum quiet_env null_ffi 1%positive (lists_value sample_graph) sample_graph (store []))
    as (r & Hm & _ & _ & Hmax); [apply lists_value_stands_for|apply (bool_decide_unpack _); vm_compute; exact I|reflexivity|].
  exists r. assert (Hr : r = [1; 0; -1; -1]%Z).
  { assert (Hc : @misc_bipartite_match quiet_env null_ffi [VObject 1; lists_value sample_graph] (store []) =
      Ret (inr (inr (VArray DI_TYPE_INT true [VInt 1; VInt 0; VInt (-1); VInt (-1)]))) (store [])) by reflexivity.
    rewrite Hm in Hc. apply array_to_owned_inj. by injection Hc as Hc. }
  split_and!; [reflexivity|exact Hr|exact Hmax].
Defined.

Lemma numbers_small cl B : Forall (fun l => Forall (fun p => - B <= p.2 <= B)%Z (constraint_pairs l)) cl ->
  forall i j k, constr cl i j k -> (- B <= k <= B)%Z.
Proof.
  rewrite Forall_lookup. intros Hf i j k (l & Hl & Hp). specialize (Hf i l Hl). rewrite Forall_forall in Hf. by apply (Hf _ Hp).
Qed.
(** the first system has solutions, the second has none *)
Definition sample_system : list (list Z) := [[1; -3]; [2; 1]; [0; 2]]%Z.
Definition sample_cycle : list (list Z) := [[1; -3]; [2; 1]; [0; 1]]%Z.
Lemma sample_small cl : cl = sample_system \/ cl = sample_cycle -> small 3 cl.
Proof.
  intros [->| ->]; (constructor; [reflexivity|apply (bool_decide_unpack _); vm_compute; exact I|reflexivity|reflexivity| |reflexivity]);
    apply numbers_small, (bool_decide_unpack _); vm_compute; exact I.
Qed.
Lemma difference_constraints_decides_witness :
  solves sample_system (value [0; -3; -2]%Z) /\ (forall x, ~ solves sample_cycle x).
Proof.
  split.
  - pose proof (@difference_constraints_decides quiet_env null_ffi 1%positive (lists_value sample_system) sample_system 3 (store [])
      (lists_value_stands_for _) (sample_small _ (or_introl eq_refl))) as H.
    assert (Hr : @misc_difference_constraints quiet_env null_ffi [VObject 1; lists_value sample_system] (store []) =
      Ret (inr (inr (VArray DI_TYPE_INT true [VInt 0; VInt (-3); VInt (-2)]))) (store [])) by (vm_compute; reflexivity).
    rewrite Hr in H. destruct H as (_ & r & Hx & _ & _ & Hs & _).
    rewrite (array_to_owned_inj r [0; -3; -2]%Z (eq_sym Hx)) in Hs. exact Hs.
  - pose proof (@difference_constraints_decides quiet_env null_ffi 1%positive (lists_value sample_cycle) sample_cycle 3 (store [])
      (lists_value_stands_for _) (sample_small _ (or_intror eq_refl))) as H.
    assert (Hr : @misc_difference_constraints quiet_env null_ffi [VObject 1; lists_value sample_cycle] (store []) =
      Ret (inl (invalid_argument "Failed to satisfy all constraints")) (store [])) by (vm_compute; reflexivity).
    rewrite Hr in H. apply (proj2 H), (bool_decide_unpack _). vm_compute. exact I.
Defined.
