(* ===== verification/Chains.v ===== *)
(** * Doubly linked lists

    A list whose elements are linked in both directions, over a map from the elements to
    their two links; what adding and removing an element does to the links. *)

From S2P Require Export Prelude.

Section chains.
Context {A : Type} `{Countable A}.
Implicit Types (l : list A) (p q : A) (a b : option A).

(** the previous and the next element of the allocated elements *)
Local Abbreviation links := (gmap A (option A * option A)).
Implicit Types lk : links.

(** the first element of [l], or [b]; the last one, or [a] *)
Definition first_or l b : option A := match l with [] => b | p :: _ => Some p end.
Fixpoint last_or a l : option A := match l with [] => a | p :: l => last_or (Some p) l end.

Fixpoint dseg lk a l b : Prop :=
  match l with
  | [] => True
  | p :: l => lk !! p = Some (a, first_or l b) /\ dseg lk (Some p) l b
  end.
Definition dll lk l : Prop := NoDup l /\ dseg lk None l None.

(** assignments to links, also through a pointer that may be null *)
Definition upd_prev p a lk : links := alter (fun x => (a, x.2)) p lk.
Definition upd_next p b lk : links := alter (fun x => (x.1, b)) p lk.
Definition upd_opt {V : Type} (f : A -> V -> V) a (x : V) : V :=
  match a with Some p => f p x | None => x end.

Lemma first_or_app l1 l2 b : first_or (l1 ++ l2) b = first_or l1 (first_or l2 b).
Proof. by destruct l1. Qed.
Lemma last_or_app a l1 l2 : last_or a (l1 ++ l2) = last_or (last_or a l1) l2.
Proof. revert a. induction l1 as [|p l1 IH]; intros a; simpl; [done|]. by rewrite IH. Qed.
Lemma last_or_last l : last_or None l = last l.
Proof.
  destruct l as [|p l _] using rev_ind; [done|]. by rewrite last_or_app, last_snoc.
Qed.
Lemma first_or_head l : first_or l None = head l.
Proof. by destruct l. Qed.

Lemma dseg_app lk a l1 l2 b :
  dseg lk a (l1 ++ l2) b <-> dseg lk a l1 (first_or l2 b) /\ dseg lk (last_or a l1) l2 b.
Proof.
  revert a. induction l1 as [|p l1 IH]; intros a; simpl; [tauto|].
  rewrite IH, first_or_app. tauto.
Qed.

(** a list does not see the links of other elements *)
Lemma dseg_frame lk lk' a l b : (forall q, q ∈ l -> lk' !! q = lk !! q) -> dseg lk a l b -> dseg lk' a l b.
Proof.
  revert a. induction l as [|p l IH]; intros a Hf; simpl; [done|]. intros [Hp Hl]. split.
  - rewrite Hf by left. done.
  - apply IH; [|done]. intros q Hq. apply Hf. by right.
Qed.
Lemma dll_frame lk lk' l : (forall q, q ∈ l -> lk' !! q = lk !! q) -> dll lk l -> dll lk' l.
Proof. intros Hf [Hn Hd]. split; [done|]. by eapply dseg_frame. Qed.

Lemma dseg_alloc lk a l b p : dseg lk a l b -> p ∈ l -> is_Some (lk !! p).
Proof.
  revert a. induction l as [|q l IH]; intros a; simpl; [intros _ []%elem_of_nil|].
  intros [Hq Hl] [->|Hp]%elem_of_cons; [by rewrite Hq|]. by eapply IH.
Qed.
Lemma dll_alloc lk l p : dll lk l -> p ∈ l -> is_Some (lk !! p).
Proof. intros [_ Hd]. by eapply dseg_alloc. Qed.
Lemma dll_nil lk : dll lk [].
Proof. split; [apply NoDup_nil_2|done]. Qed.

(** a list is no longer than the map *)
Lemma dseg_size lk a l b : NoDup l -> dseg lk a l b -> length l <= size lk.
Proof.
  intros Hn Hd. rewrite <- (size_list_to_set (C := gset A) l) by done. rewrite <- (size_dom (D := gset A) lk).
  apply subseteq_size. intros p Hp%elem_of_list_to_set. apply elem_of_dom. by eapply dseg_alloc.
Qed.

(** the links in the middle of a list *)
Lemma dll_at lk l1 p l2 : dll lk (l1 ++ p :: l2) -> lk !! p = Some (last l1, head l2).
Proof. intros [_ [_ [Hp _]]%dseg_app]. rewrite last_or_last, first_or_head in Hp. done. Qed.

(** ** Assignments to links *)

Lemma upd_prev_ne p q a lk : q <> p -> upd_prev p a lk !! q = lk !! q.
Proof. intros. by apply lookup_alter_ne. Qed.
Lemma upd_next_ne p q a lk : q <> p -> upd_next p a lk !! q = lk !! q.
Proof. intros. by apply lookup_alter_ne. Qed.
Lemma upd_prev_eq p a lk x y : lk !! p = Some (x, y) -> upd_prev p a lk !! p = Some (a, y).
Proof. intros Hp. unfold upd_prev. by rewrite lookup_alter_eq, Hp. Qed.
Lemma upd_next_eq p b lk x y : lk !! p = Some (x, y) -> upd_next p b lk !! p = Some (x, b).
Proof. intros Hp. unfold upd_next. by rewrite lookup_alter_eq, Hp. Qed.

(** assigning to the two ends of a segment *)
Lemma dseg_upd_next lk a l p b c :
  NoDup (l ++ [p]) -> dseg lk a (l ++ [p]) b -> dseg (upd_next p c lk) a (l ++ [p]) c.
Proof.
  intros Hn. rewrite !dseg_app. simpl. intros (Hl & Hp & _). split_and!; [|by eapply upd_next_eq|done].
  eapply dseg_frame; [|done]. intros q Hq. apply upd_next_ne. intros ->.
  apply NoDup_app in Hn as (_ & Hn & _). apply (Hn p Hq). by left.
Qed.
Lemma dseg_upd_prev lk a l p b c :
  NoDup (p :: l) -> dseg lk a (p :: l) b -> dseg (upd_prev p c lk) c (p :: l) b.
Proof.
  intros [Hp _]%NoDup_cons [H1 H2]. split; [by eapply upd_prev_eq|].
  eapply dseg_frame; [|done]. intros q Hq. apply upd_prev_ne. by intros ->.
Qed.

(** through the pointer to the last, the first element *)
Definition last_next l c lk : links := upd_opt (fun p => upd_next p c) (last l) lk.
Definition first_prev l c lk : links := upd_opt (fun p => upd_prev p c) (head l) lk.

Lemma dseg_last_next lk l b c : NoDup l -> dseg lk None l b -> dseg (last_next l c lk) None l c.
Proof.
  destruct l as [|p l _] using rev_ind; [done|]. unfold last_next. rewrite last_snoc. apply dseg_upd_next.
Qed.
Lemma dseg_first_prev lk a l c : NoDup l -> dseg lk a l None -> dseg (first_prev l c lk) c l None.
Proof. destruct l as [|p l]; [done|]. apply dseg_upd_prev. Qed.

(** such an assignment leaves the elements outside of the list alone *)
Lemma last_next_notin lk l q c : q ∉ l -> last_next l c lk !! q = lk !! q.
Proof.
  intros Hq. unfold last_next. destruct (last l) as [t|] eqn:Ht; [|done]. apply upd_next_ne. intros ->.
  apply Hq. by apply last_Some_elem_of.
Qed.
Lemma first_prev_notin lk l q c : q ∉ l -> first_prev l c lk !! q = lk !! q.
Proof.
  intros Hq. unfold first_prev. destruct (head l) as [t|] eqn:Ht; [|done]. apply upd_prev_ne. intros ->.
  apply Hq. by apply head_Some_elem_of.
Qed.

(** ** The operations on lists *)

Lemma dll_append lk l p :
  dll lk l -> p ∉ l -> is_Some (lk !! p) ->
  dll (last_next l (Some p) (upd_prev p (last l) (upd_next p None lk))) (l ++ [p]).
Proof.
  intros [Hn Hd] Hp [[x y] Hx].
  assert (Hn' : NoDup (l ++ [p])).
  { apply NoDup_app. split_and!; [done| |apply NoDup_singleton]. by intros q Hq ->%list_elem_of_singleton. }
  split; [done|]. apply dseg_app. simpl. split_and!; [| |done].
  - apply (dseg_last_next _ _ None); [done|]. apply (dseg_frame lk); [|done]. intros q Hq.
    rewrite upd_prev_ne, upd_next_ne; [done|by intros ->..].
  - rewrite last_next_notin, last_or_last by done. eapply upd_prev_eq, upd_next_eq, Hx.
Qed.

Lemma dll_prepend lk l p :
  dll lk l -> p ∉ l -> is_Some (lk !! p) ->
  dll (first_prev l (Some p) (upd_prev p None (upd_next p (head l) lk))) (p :: l).
Proof.
  intros [Hn Hd] Hp [[x y] Hx]. split; [by apply NoDup_cons|]. simpl. split.
  - rewrite first_prev_notin, first_or_head by done. eapply upd_prev_eq, upd_next_eq, Hx.
  - apply (dseg_first_prev _ None); [done|]. apply (dseg_frame lk); [|done]. intros q Hq.
    rewrite upd_prev_ne, upd_next_ne; [done|by intros ->..].
Qed.

Lemma NoDup_middle l1 p l2 :
  NoDup (l1 ++ p :: l2) -> NoDup l1 /\ NoDup l2 /\ p ∉ l1 /\ p ∉ l2 /\ (forall q, q ∈ l1 -> q ∉ l2).
Proof.
  intros (? & Hx & [? ?]%NoDup_cons)%NoDup_app. split_and!; [done..| |done|].
  - intros Hp. apply (Hx p Hp). by left.
  - intros q Hq Hq2. apply (Hx q Hq). by right.
Qed.

Lemma dll_remove lk l1 p l2 :
  dll lk (l1 ++ p :: l2) -> dll (first_prev l2 (last l1) (last_next l1 (head l2) lk)) (l1 ++ l2).
Proof.
  intros [Hn Hd]. apply NoDup_middle in Hn as (Hn1 & Hn2 & _ & _ & Hx). split; [by apply NoDup_app|].
  apply dseg_app in Hd as (Hd1 & _ & Hd2). apply dseg_app. split.
  - apply (dseg_frame (last_next l1 (head l2) lk)).
    { intros q Hq. apply first_prev_notin. auto. }
    rewrite first_or_head. by eapply dseg_last_next.
  - rewrite last_or_last. apply (dseg_first_prev _ (Some p)); [done|]. apply (dseg_frame lk); [|done].
    intros q Hq. apply last_next_notin. intros ?. by eapply Hx.
Qed.
End chains.
