(* ===== verification/Rings.v ===== *)
(** * Circular lists: [list.h]

    The inline functions and the loops of [list.h] on a memory of nodes, each with the
    addresses of the next and the previous node. [None] is an access to a node that is not
    allocated. A macro that goes from a node to the structure around it is the identity:
    the address of the structure stands for that of the node. The functions the program and
    the other functions of the header never call ([list_replace], [list_cut_position]) and
    the other directions of the loops are left out. *)

From S2P Require Export Prelude.

Abbreviation loc := positive.

(** [struct list_head] *)
Record list_head := ListHead { ll_next : loc; ll_prev : loc }.
Abbreviation nodes := (gmap loc list_head).
Implicit Types m : nodes.

Definition rd_next (x : loc) m : option loc := ll_next <$> m !! x.
Definition rd_prev (x : loc) m : option loc := ll_prev <$> m !! x.
Definition set_next (x v : loc) m : option nodes := nd ← m !! x; Some (<[x := ListHead v (ll_prev nd)]> m).
Definition set_prev (x v : loc) m : option nodes := nd ← m !! x; Some (<[x := ListHead (ll_next nd) v]> m).

Definition LIST_POISON1 : loc := 1048832.
Definition LIST_POISON2 : loc := 2097664.

Definition INIT_LIST_HEAD (l : loc) m : option nodes := m ← set_next l l m; set_prev l l m.

Definition __list_add (n prev next : loc) m : option nodes :=
  m ← set_prev next n m;
  m ← set_next n next m;
  m ← set_prev n prev m;
  set_next prev n m.
Definition list_add (n head : loc) m : option nodes := x ← rd_next head m; __list_add n head x m.
Definition list_add_tail (n head : loc) m : option nodes := x ← rd_prev head m; __list_add n x head m.

Definition __list_del (prev next : loc) m : option nodes := m ← set_prev next prev m; set_next prev next m.
Definition __list_del_entry (entry : loc) m : option nodes :=
  p ← rd_prev entry m; n ← rd_next entry m; __list_del p n m.
Definition list_del (entry : loc) m : option nodes :=
  p ← rd_prev entry m; n ← rd_next entry m;
  m ← __list_del p n m;
  m ← set_next entry LIST_POISON1 m;
  set_prev entry LIST_POISON2 m.
Definition list_del_init (entry : loc) m : option nodes := m ← __list_del_entry entry m; INIT_LIST_HEAD entry m.
Definition list_move (l head : loc) m : option nodes := m ← __list_del_entry l m; list_add l head m.
Definition list_move_tail (l head : loc) m : option nodes := m ← __list_del_entry l m; list_add_tail l head m.

Definition list_is_last (l head : loc) m : option bool := x ← rd_next l m; Some (bool_decide (x = head)).
Definition list_empty (head : loc) m : option bool := x ← rd_next head m; Some (bool_decide (x = head)).
Definition list_empty_careful (head : loc) m : option bool :=
  next ← rd_next head m; p ← rd_prev head m; Some (bool_decide (next = head) && bool_decide (next = p)).
Definition list_is_singular (head : loc) m : option bool :=
  e ← list_empty head m; n ← rd_next head m; p ← rd_prev head m; Some (negb e && bool_decide (n = p)).
Definition list_rotate_left (head : loc) m : option nodes :=
  e ← list_empty head m;
  if (e : bool) then Some m else first ← rd_next head m; list_move_tail first head m.

Definition __list_splice (l prev next : loc) m : option nodes :=
  first ← rd_next l m; last ← rd_prev l m;
  m ← set_prev first prev m;
  m ← set_next prev first m;
  m ← set_next last next m;
  set_prev next last m.
Definition list_splice (l head : loc) m : option nodes :=
  e ← list_empty l m;
  if (e : bool) then Some m else x ← rd_next head m; __list_splice l head x m.
Definition list_splice_tail (l head : loc) m : option nodes :=
  e ← list_empty l m;
  if (e : bool) then Some m else x ← rd_prev head m; __list_splice l x head m.
Definition list_splice_init (l head : loc) m : option nodes :=
  e ← list_empty l m;
  if (e : bool) then Some m else x ← rd_next head m; m ← __list_splice l head x m; INIT_LIST_HEAD l m.
Definition list_splice_tail_init (l head : loc) m : option nodes :=
  e ← list_empty l m;
  if (e : bool) then Some m else x ← rd_prev head m; m ← __list_splice l x head m; INIT_LIST_HEAD l m.

Definition list_first_entry (head : loc) m : option loc := rd_next head m.

(** the loops: [body] gets the node and the memory; [n] is read before the body *)
Section loops.
Context {S : Type} (body : loc -> S -> nodes -> option (S * nodes)).

Fixpoint for_each_go (fuel : nat) (pos head : loc) (s : S) m : option (S * nodes) :=
  match fuel with
  | O => None
  | Datatypes.S fuel =>
      if decide (pos = head) then Some (s, m)
      else '(s, m) ← body pos s m; pos ← rd_next pos m; for_each_go fuel pos head s m
  end.
Definition list_for_each_entry (fuel : nat) (head : loc) (s : S) m : option (S * nodes) :=
  pos ← rd_next head m; for_each_go fuel pos head s m.

Fixpoint for_each_safe_go (fuel : nat) (pos : loc) (n : option loc) (head : loc) (s : S) m : option (S * nodes) :=
  match fuel with
  | O => None
  | Datatypes.S fuel =>
      if decide (pos = head) then Some (s, m)
      else
        '(s, m) ← body pos s m;
        pos ← n;                                    (* NULL is not followed *)
        n ← (if decide (pos = head) then Some None else Some <$> rd_next pos m);
        for_each_safe_go fuel pos n head s m
  end.
Definition list_for_each_entry_safe (fuel : nat) (head : loc) (s : S) m : option (S * nodes) :=
  pos ← rd_next head m; n ← rd_next pos m; for_each_safe_go fuel pos (Some n) head s m.
End loops.

(** ** What assignments change *)

(** the value of [y] after the assignments [l], the last of which comes first *)
Fixpoint over (l : list (loc * loc)) (y : loc) (d : option loc) : option loc :=
  match l with [] => d | (x, v) :: l => if decide (y = x) then Some v else over l y d end.

Definition changed m m' (nx pv : list (loc * loc)) : Prop :=
  (forall y, rd_next y m' = over nx y (rd_next y m)) /\ (forall y, rd_prev y m' = over pv y (rd_prev y m)).

Lemma over_app l1 l2 y d : over (l1 ++ l2) y d = over l1 y (over l2 y d).
Proof. induction l1 as [|[x v] l1 IH]; simpl; [done|]. by rewrite IH. Qed.

Lemma changed_refl m : changed m m [] [].
Proof. done. Qed.

Lemma changed_trans m1 m2 m3 n1 p1 n2 p2 : changed m1 m2 n1 p1 -> changed m2 m3 n2 p2 ->
  changed m1 m3 (n2 ++ n1) (p2 ++ p1).
Proof.
  intros [Hn1 Hp1] [Hn2 Hp2]. split; intros y; rewrite over_app; [by rewrite Hn2, Hn1|by rewrite Hp2, Hp1].
Qed.

Lemma rd_next_some x m : is_Some (rd_next x m) <-> is_Some (m !! x).
Proof. unfold rd_next. apply fmap_is_Some. Qed.
Lemma rd_prev_some x m : is_Some (rd_prev x m) <-> is_Some (m !! x).
Proof. unfold rd_prev. apply fmap_is_Some. Qed.

(** assignments to allocated nodes succeed *)
Lemma over_some l y d : is_Some d -> is_Some (over l y d).
Proof. intros Hd. induction l as [|[x v] l IH]; simpl; [done|]. case_decide; [by eexists|done]. Qed.
Lemma changed_alloc m m' nx pv x : changed m m' nx pv -> is_Some (m !! x) -> is_Some (m' !! x).
Proof. intros [Hn _] Hx. apply rd_next_some. rewrite Hn. by apply over_some, rd_next_some. Qed.

Lemma set_next_run x v m : is_Some (m !! x) -> exists m', set_next x v m = Some m' /\ changed m m' [(x, v)] [].
Proof.
  intros [nd Hx]. unfold set_next. rewrite Hx. eexists. split; [done|].
  split; intros y; unfold rd_next, rd_prev; simpl; try case_decide; simplify_map_eq; try done.
  destruct (decide (y = x)) as [->|]; by simplify_map_eq.
Qed.
Lemma set_prev_run x v m : is_Some (m !! x) -> exists m', set_prev x v m = Some m' /\ changed m m' [] [(x, v)].
Proof.
  intros [nd Hx]. unfold set_prev. rewrite Hx. eexists. split; [done|].
  split; intros y; unfold rd_next, rd_prev; simpl; try case_decide; simplify_map_eq; try done.
  destruct (decide (y = x)) as [->|]; by simplify_map_eq.
Qed.

(** one assignment and the rest *)
Lemma next_then x v m (k : nodes -> option nodes) nx pv : is_Some (m !! x) ->
  (forall m1, changed m m1 [(x, v)] [] -> exists m', k m1 = Some m' /\ changed m1 m' nx pv) ->
  exists m', (m ← set_next x v m; k m) = Some m' /\ changed m m' (nx ++ [(x, v)]) pv.
Proof.
  intros Hx Hk. destruct (set_next_run x v m Hx) as (m1 & Hr & Hc). destruct (Hk m1 Hc) as (m' & Hr' & Hc').
  exists m'. rewrite Hr. split; [done|]. pose proof (changed_trans _ _ _ _ _ _ _ Hc Hc') as H.
  by rewrite app_nil_r in H.
Qed.
Lemma prev_then x v m (k : nodes -> option nodes) nx pv : is_Some (m !! x) ->
  (forall m1, changed m m1 [] [(x, v)] -> exists m', k m1 = Some m' /\ changed m1 m' nx pv) ->
  exists m', (m ← set_prev x v m; k m) = Some m' /\ changed m m' nx (pv ++ [(x, v)]).
Proof.
  intros Hx Hk. destruct (set_prev_run x v m Hx) as (m1 & Hr & Hc). destruct (Hk m1 Hc) as (m' & Hr' & Hc').
  exists m'. rewrite Hr. split; [done|]. pose proof (changed_trans _ _ _ _ _ _ _ Hc Hc') as H.
  by rewrite app_nil_r in H.
Qed.

Ltac alloc := first [done | eapply changed_alloc; [eassumption|]; alloc].

Lemma __list_add_run n p q m : is_Some (m !! n) -> is_Some (m !! p) -> is_Some (m !! q) ->
  exists m', __list_add n p q m = Some m' /\ changed m m' [(p, n); (n, q)] [(n, p); (q, n)].
Proof.
  intros Hn Hp Hq. apply (prev_then q n m _ [(p, n); (n, q)] [(n, p)]); [done|]. intros m1 H1.
  apply (next_then n q m1 _ [(p, n)] [(n, p)]); [alloc|]. intros m2 H2.
  apply (prev_then n p m2 _ [(p, n)] []); [alloc|]. intros m3 H3. apply set_next_run. alloc.
Qed.

Lemma __list_del_run p q m : is_Some (m !! p) -> is_Some (m !! q) ->
  exists m', __list_del p q m = Some m' /\ changed m m' [(p, q)] [(q, p)].
Proof.
  intros Hp Hq. apply (prev_then q p m _ [(p, q)] []); [done|]. intros m1 H1. apply set_next_run. alloc.
Qed.

Lemma INIT_LIST_HEAD_run x m : is_Some (m !! x) ->
  exists m', INIT_LIST_HEAD x m = Some m' /\ changed m m' [(x, x)] [(x, x)].
Proof.
  intros Hx. apply (next_then x x m _ [] [(x, x)]); [done|]. intros m1 H1. apply set_prev_run. alloc.
Qed.

Lemma splice_run f la p q l m : is_Some (m !! f) -> is_Some (m !! la) -> is_Some (m !! p) -> is_Some (m !! q) ->
  rd_next l m = Some f -> rd_prev l m = Some la ->
  exists m', __list_splice l p q m = Some m' /\ changed m m' [(la, q); (p, f)] [(q, la); (f, p)].
Proof.
  intros Hf Hla Hp Hq Hn Hpv. unfold __list_splice. rewrite Hn, Hpv. cbn [mbind option_bind].
  apply (prev_then f p m _ [(la, q); (p, f)] [(q, la)]); [done|]. intros m1 H1.
  apply (next_then p f m1 _ [(la, q)] [(q, la)]); [alloc|]. intros m2 H2.
  apply (next_then la q m2 _ [] [(q, la)]); [alloc|]. intros m3 H3. apply set_prev_run. alloc.
Qed.

(** ** Rings *)

Definition next_to m (x y : loc) : Prop := rd_next x m = Some y /\ rd_prev y m = Some x.

(** the list [l] with the head [h] *)
Definition ring m (h : loc) (l : list loc) : Prop :=
  NoDup (h :: l) /\ Forall2 (next_to m) (h :: l) (l ++ [h]).

Lemma next_to_changed m m' nx pv x y : changed m m' nx pv -> over nx x (rd_next x m) = Some y ->
  over pv y (rd_prev y m) = Some x -> next_to m' x y.
Proof. intros [Hn Hp] H1 H2. split; [by rewrite Hn|by rewrite Hp]. Qed.

Lemma over_notin l y d : y ∉ l.*1 -> over l y d = d.
Proof.
  induction l as [|[x v] l IH]; simpl; [done|]. intros [Hne Hl]%not_elem_of_cons. rewrite decide_False by done. by apply IH.
Qed.

Lemma Forall2_changed m m' nx pv xs ys : changed m m' nx pv -> (forall x, x ∈ xs -> x ∉ nx.*1) ->
  (forall y, y ∈ ys -> y ∉ pv.*1) -> Forall2 (next_to m) xs ys -> Forall2 (next_to m') xs ys.
Proof.
  intros Hc Hx Hy. induction 1 as [|x y xs ys [Hn Hp] H IH]; constructor.
  - eapply next_to_changed; [done|rewrite over_notin by (apply Hx; left); done|rewrite over_notin by (apply Hy; left); done].
  - apply IH; [intros z Hz; apply Hx; by right|intros z Hz; apply Hy; by right].
Qed.

Lemma ring_alloc m h l x : ring m h l -> x ∈ h :: l -> is_Some (m !! x).
Proof.
  intros [_ HF] Hx. apply list_elem_of_lookup in Hx as [i Hi].
  destruct (Forall2_lookup_l _ _ _ _ _ HF Hi) as (y & _ & [Hn _]). apply rd_next_some. by rewrite Hn.
Qed.

(** a list does not see other nodes *)
Lemma ring_changed m m' nx pv h l : changed m m' nx pv -> ring m h l ->
  (forall x, x ∈ h :: l -> x ∉ nx.*1 /\ x ∉ pv.*1) -> ring m' h l.
Proof.
  intros Hc [Hnd HF] Hx. split; [done|]. eapply Forall2_changed; [done| |intros y Hy|done].
  - intros x Hin. by apply Hx.
  - apply Hx. rewrite elem_of_app, list_elem_of_singleton in Hy. apply elem_of_cons. tauto.
Qed.

Lemma NoDup_snoc_perm (h : loc) l : NoDup (l ++ [h]) <-> NoDup (h :: l).
Proof. by rewrite Permutation_app_comm. Qed.

(** where a list is cut: before are the nodes [s] and [p], after are [q] and [t] *)
Lemma ring_cut m h l1 l2 s p q t : ring m h (l1 ++ l2) -> h :: l1 = s ++ [p] -> l2 ++ [h] = q :: t ->
  Forall2 (next_to m) s l1 /\ next_to m p q /\ Forall2 (next_to m) l2 t /\ NoDup (s ++ p :: l2) /\ NoDup (l1 ++ q :: t).
Proof.
  intros [Hnd HF] Hs Ht. rewrite app_comm_cons, Hs, <- !app_assoc, Ht in HF. cbn [app] in HF.
  assert (Hlen : length s = length l1) by (apply (f_equal length) in Hs; rewrite length_app in Hs; simpl in Hs; lia).
  apply Forall2_app_inv in HF as [H1 H2]; [|done]. apply Forall2_cons_1 in H2 as [H2 H3]. split_and!; [done|done|done| |].
  - rewrite app_comm_cons, Hs, <- app_assoc in Hnd. done.
  - rewrite <- Ht, app_assoc. by apply NoDup_snoc_perm.
Qed.

Ltac ring_hd := match goal with
  | |- next_to _ _ _ => eapply next_to_changed; [eassumption|..]; simpl; repeat (case_decide; simplify_eq); done
  end.

Lemma ring_perm (h : loc) l1 n l2 : h :: l1 ++ n :: l2 ≡ₚ n :: h :: l1 ++ l2.
Proof. rewrite <- Permutation_middle. apply perm_swap. Qed.

(** [n] is linked in between *)
Lemma ring_insert m m' h l1 l2 s p q t n : ring m h (l1 ++ l2) -> h :: l1 = s ++ [p] -> l2 ++ [h] = q :: t ->
  n ∉ h :: l1 ++ l2 -> changed m m' [(p, n); (n, q)] [(n, p); (q, n)] -> ring m' h (l1 ++ n :: l2).
Proof.
  intros Hr Hs Ht Hn Hc. destruct (ring_cut _ _ _ _ _ _ _ _ Hr Hs Ht) as (H1 & H2 & H3 & Hnd1 & Hnd2).
  assert (Hns : n ∉ s ++ p :: l2).
  { intros Hin. apply Hn. rewrite app_comm_cons, Hs, <- app_assoc. exact Hin. }
  assert (Hnt : n ∉ l1 ++ q :: t).
  { rewrite <- Ht, app_assoc. intros Hin. apply Hn. rewrite elem_of_app, list_elem_of_singleton in Hin.
    apply elem_of_cons. tauto. }
  rewrite !elem_of_app, !elem_of_cons in Hns, Hnt.
  apply NoDup_app in Hnd1 as (_ & Hd1 & [Hp _]%NoDup_cons). apply NoDup_app in Hnd2 as (_ & Hd2 & [Hq _]%NoDup_cons).
  assert (Hnp : n <> p) by tauto. assert (Hnq : n <> q) by tauto.
  split.
  - destruct Hr as [Hnd _]. rewrite (ring_perm h l1 n l2). by apply NoDup_cons.
  - rewrite app_comm_cons, Hs, <- !app_assoc. cbn [app]. rewrite Ht.
    apply Forall2_app; [|constructor; [ring_hd|constructor; [ring_hd|]]].
    + eapply Forall2_changed; [done| | |exact H1]; simpl; intros x Hx; rewrite !not_elem_of_cons.
      * split_and!; [intros ->; apply (Hd1 p Hx); left|intros ->; tauto|apply not_elem_of_nil].
      * split_and!; [intros ->; tauto|intros ->; apply (Hd2 q Hx); left|apply not_elem_of_nil].
    + eapply Forall2_changed; [done| | |exact H3]; simpl; intros x Hx; rewrite !not_elem_of_cons.
      * split_and!; [by intros ->|intros ->; tauto|apply not_elem_of_nil].
      * split_and!; [intros ->; tauto|by intros ->|apply not_elem_of_nil].
Qed.

(** the nodes around an element *)
Lemma ring_around m h l1 n l2 s p q t : ring m h (l1 ++ n :: l2) -> h :: l1 = s ++ [p] -> l2 ++ [h] = q :: t ->
  Forall2 (next_to m) s l1 /\ next_to m p n /\ next_to m n q /\ Forall2 (next_to m) l2 t /\
  NoDup (s ++ p :: l2) /\ NoDup (l1 ++ q :: t) /\ n ∉ h :: l1 ++ l2.
Proof.
  intros Hr Hs Ht. destruct (ring_cut m h l1 (n :: l2) s p n (q :: t) Hr Hs ltac:(simpl; by rewrite Ht))
    as (H1 & H2 & H3 & Hnd1 & Hnd2). apply Forall2_cons_1 in H3 as [H3 H4].
  pose proof Hr as [Hnd _]. rewrite ring_perm in Hnd. apply NoDup_cons in Hnd as [Hn _].
  split_and!; [done|done|done|done| | |done].
  - rewrite <- Permutation_middle in Hnd1 |- *.
    rewrite <- Permutation_middle in Hnd1. apply NoDup_cons in Hnd1 as [Hp Hnd1]. apply NoDup_cons in Hnd1 as [_ Hnd1].
    apply NoDup_cons. split; [|done]. intros Hin. apply Hp. by right.
  - rewrite <- Permutation_middle in Hnd2. by apply NoDup_cons in Hnd2 as [_ Hnd2].
Qed.

(** [n] is taken out *)
Lemma ring_delete m m' h l1 n l2 s p q t : ring m h (l1 ++ n :: l2) -> h :: l1 = s ++ [p] -> l2 ++ [h] = q :: t ->
  changed m m' [(p, q)] [(q, p)] -> ring m' h (l1 ++ l2).
Proof.
  intros Hr Hs Ht Hc. destruct (ring_around _ _ _ _ _ _ _ _ _ Hr Hs Ht) as (H1 & _ & _ & H4 & Hnd1 & Hnd2 & _).
  apply NoDup_app in Hnd1 as (_ & Hd1 & [Hp _]%NoDup_cons). apply NoDup_app in Hnd2 as (_ & Hd2 & [Hq _]%NoDup_cons).
  split.
  - destruct Hr as [Hnd _]. rewrite ring_perm in Hnd. by apply NoDup_cons in Hnd as [_ Hnd].
  - rewrite app_comm_cons, Hs, <- !app_assoc. cbn [app]. rewrite Ht.
    apply Forall2_app; [|constructor; [ring_hd|]].
    + eapply Forall2_changed; [done| | |exact H1]; simpl; intros x Hx; rewrite not_elem_of_cons.
      * split; [intros ->; apply (Hd1 p Hx); left|apply not_elem_of_nil].
      * split; [intros ->; apply (Hd2 q Hx); left|apply not_elem_of_nil].
    + eapply Forall2_changed; [done| | |exact H4]; simpl; intros x Hx; rewrite not_elem_of_cons.
      * split; [by intros ->|apply not_elem_of_nil].
      * split; [by intros ->|apply not_elem_of_nil].
Qed.

(** the elements of another list are linked in between *)
Lemma ring_splice m m' h l1 l2 s p q t l f L' L'' la : ring m h (l1 ++ l2) -> h :: l1 = s ++ [p] -> l2 ++ [h] = q :: t ->
  ring m l (f :: L') -> f :: L' = L'' ++ [la] -> (forall x, x ∈ h :: l1 ++ l2 -> x ∉ f :: L') ->
  changed m m' [(la, q); (p, f)] [(q, la); (f, p)] -> ring m' h (l1 ++ (f :: L') ++ l2).
Proof.
  intros Hr Hs Ht [Hndl HFl] Hla Hdis Hc.
  destruct (ring_cut _ _ _ _ _ _ _ _ Hr Hs Ht) as (H1 & H2 & H3 & Hnd1 & Hnd2).
  assert (Hin : Forall2 (next_to m) L'' L').
  { cbn [app] in HFl. apply Forall2_cons_1 in HFl as [_ HFl]. rewrite Hla in HFl.
    apply Forall2_app_inv in HFl as [HFl _]; [done|]. apply (f_equal length) in Hla. rewrite length_app in Hla. simpl in Hla. lia. }
  assert (Hs' : forall x, x ∈ s ++ p :: l2 -> x ∉ f :: L').
  { intros x Hx. apply Hdis. rewrite app_comm_cons, Hs, <- app_assoc. exact Hx. }
  assert (Ht' : forall x, x ∈ l1 ++ q :: t -> x ∉ f :: L').
  { intros x Hx. apply Hdis. rewrite <- Ht, app_assoc, elem_of_app, list_elem_of_singleton in Hx. apply elem_of_cons. tauto. }
  apply NoDup_cons in Hndl as [_ HndL]. pose proof HndL as Hndla. rewrite Hla in Hndla.
  apply NoDup_snoc_perm, NoDup_cons in Hndla as [Hlan _]. pose proof HndL as [Hfn _]%NoDup_cons.
  assert (Hlain : la ∈ f :: L') by (rewrite Hla; apply elem_of_app; right; by left).
  assert (Hfin : f ∈ f :: L') by left.
  assert (Hpn : p ∉ f :: L') by (apply Hs'; apply elem_of_app; right; left).
  assert (Hqn : q ∉ f :: L') by (apply Ht'; apply elem_of_app; right; left).
  apply NoDup_app in Hnd1 as (_ & Hd1 & [Hp _]%NoDup_cons). apply NoDup_app in Hnd2 as (_ & Hd2 & [Hq _]%NoDup_cons).
  assert (Hpla : p <> la) by (by intros ->). assert (Hqf : q <> f) by (by intros ->).
  split.
  - destruct Hr as [Hnd _]. apply NoDup_cons in Hnd as [Hh Hnd]. apply NoDup_app in Hnd as (Hn1 & Hn12 & Hn2).
    apply NoDup_cons. split.
    + rewrite !elem_of_app in *. intros [?|[Hx|?]]; [tauto| |tauto]. apply (Hdis h); [left|done].
    + apply NoDup_app. split_and!; [done| |apply NoDup_app; split_and!].
      * intros x Hx. rewrite elem_of_app. intros [Hx2|Hx2]; [|by apply (Hn12 x)].
        apply (Hdis x); [|done]. right. apply elem_of_app. by left.
      * done.
      * intros x Hx Hx2. apply (Hdis x); [|done]. right. apply elem_of_app. by right.
      * done.
  - rewrite app_comm_cons, Hs, <- !app_assoc. cbn [app]. rewrite Ht.
    assert (Hsplit : forall X : list loc, f :: L' ++ X = (L'' ++ [la]) ++ X) by (intros X; by rewrite <- Hla).
    apply Forall2_app; [|constructor; [ring_hd|rewrite Hsplit, <- app_assoc; apply Forall2_app; [|constructor; [ring_hd|]]]].
    + eapply Forall2_changed; [done| | |exact H1]; simpl; intros x Hx; rewrite !not_elem_of_cons.
      * split_and!; [intros ->; by apply (Hs' la); [apply elem_of_app; left|]|intros ->; apply (Hd1 p Hx); left|apply not_elem_of_nil].
      * split_and!; [intros ->; apply (Hd2 q Hx); left|intros ->; by apply (Ht' f); [apply elem_of_app; left|]|apply not_elem_of_nil].
    + eapply Forall2_changed; [done| | |exact Hin]; simpl; intros x Hx; rewrite !not_elem_of_cons.
      * split_and!; [by intros ->|intros ->; apply Hpn; rewrite Hla; apply elem_of_app; by left|apply not_elem_of_nil].
      * split_and!; [intros ->; apply Hqn; by right|by intros ->|apply not_elem_of_nil].
    + eapply Forall2_changed; [done| | |exact H3]; simpl; intros x Hx; rewrite !not_elem_of_cons.
      * split_and!; [intros ->; by apply (Hs' la); [apply elem_of_app; right; right|]|by intros ->|apply not_elem_of_nil].
      * split_and!; [by intros ->|intros ->; by apply (Ht' f); [apply elem_of_app; right; right|]|apply not_elem_of_nil].
Qed.

(** ** Many lists *)

(** the lists [S], by the addresses of their heads, share no nodes; a node that is in no
    list is the head of an empty one *)
Record rings m (S : gmap loc (list loc)) : Prop := {
  rg_ring : forall h l, S !! h = Some l -> ring m h l;
  rg_disjoint : forall h h' l l' x, S !! h = Some l -> S !! h' = Some l' -> x ∈ h :: l -> x ∈ h' :: l' -> h = h'
}.

Lemma rings_alloc m S h l x : rings m S -> S !! h = Some l -> x ∈ h :: l -> is_Some (m !! x).
Proof. intros HS Hh Hx. eapply ring_alloc; [by eapply rg_ring|done]. Qed.

(** assignments to nodes of some lists, which become other lists with the same nodes *)
Lemma rings_update m m' S S' (touched : list loc) nx pv : rings m S -> changed m m' nx pv ->
  (forall x, x ∈ nx.*1 \/ x ∈ pv.*1 -> x ∈ touched) ->
  (forall h l, S' !! h = Some l ->
     (S !! h = Some l /\ forall x, x ∈ h :: l -> x ∉ touched) \/ (ring m' h l /\ forall x, x ∈ h :: l -> x ∈ touched)) ->
  (forall h h' l l' x, S' !! h = Some l -> S' !! h' = Some l' -> x ∈ touched -> x ∈ h :: l -> x ∈ h' :: l' -> h = h') ->
  rings m' S'.
Proof.
  intros HS Hc Ht HS' Hd. split.
  - intros h l Hh. destruct (HS' h l Hh) as [[Hh0 Hx]|[Hr _]]; [|done].
    eapply ring_changed; [done|by eapply rg_ring|]. intros x Hin.
    split; intros Hn; apply (Hx x Hin), Ht; [by left|by right].
  - intros h h' l l' x Hh Hh' Hx Hx'.
    destruct (HS' h l Hh) as [[Hh0 Hn]|[_ Hn]]; [|by eapply Hd; eauto].
    destruct (HS' h' l' Hh') as [[Hh0' Hn']|[_ Hn']]; [|by destruct (Hn x Hx); apply Hn'].
    by eapply (rg_disjoint _ _ HS).
Qed.

Lemma elem_of_head_nil (x h : loc) : x ∈ [h] <-> x = h.
Proof. apply list_elem_of_singleton. Qed.

(** a node is linked to itself *)
Lemma rings_self m m' S x : rings m S -> changed m m' [(x, x)] [(x, x)] ->
  (forall h l, S !! h = Some l -> h <> x -> x ∉ l) -> rings m' (<[x := []]> S).
Proof.
  intros HS Hc Hun.
  eapply (rings_update m m' S _ [x]); [done|done| | |].
  - simpl. intros y. rewrite list_elem_of_singleton. tauto.
  - intros h l [[<- <-]|[Hne Hh]]%lookup_insert_Some; [right|left].
    + split; [|by intros y]. split; [apply NoDup_singleton|]. simpl. constructor; [|constructor]. ring_hd.
    + split; [done|]. intros y Hy ->%list_elem_of_singleton. apply elem_of_cons in Hy as [->|Hy]; [done|]. by eapply Hun.
  - intros h h' l l' y Hh Hh' ->%list_elem_of_singleton Hy Hy'.
    assert (Hown : forall k lk, <[x := []]> S !! k = Some lk -> x ∈ k :: lk -> k = x).
    { intros k lk [[<- <-]|[Hne Hk]]%lookup_insert_Some; [done|]. intros [->|Hin]%elem_of_cons; [done|].
      by destruct (Hun k lk Hk ltac:(congruence)). }
    by rewrite (Hown _ _ Hh Hy), (Hown _ _ Hh' Hy').
Qed.

(** a node that was just allocated, or is in no list *)
Lemma rings_init m S x : rings m S -> is_Some (m !! x) -> (forall h l, S !! h = Some l -> h <> x -> x ∉ l) ->
  exists m', INIT_LIST_HEAD x m = Some m' /\ rings m' (<[x := []]> S).
Proof.
  intros HS Ha Hun. destruct (INIT_LIST_HEAD_run x m Ha) as (m' & Hrun & Hc). exists m'. split; [done|].
  by eapply rings_self.
Qed.

Lemma cut_before (h : loc) l1 : exists s p, h :: l1 = s ++ [p].
Proof. destruct (exists_last (l := h :: l1)) as (s & p & Hs); [done|]. by exists s, p. Qed.
Lemma cut_after (h : loc) l2 : exists q t, l2 ++ [h] = q :: t.
Proof. destruct l2 as [|q t]; [by exists h, []|by exists q, (t ++ [h])]. Qed.

(** heads and elements of different lists are different *)
Lemma rings_apart m S h k l lk x : rings m S -> S !! h = Some l -> S !! k = Some lk -> h <> k -> x ∈ h :: l -> x ∉ k :: lk.
Proof. intros HS Hh Hk Hne Hx Hx'. apply Hne. by eapply (rg_disjoint _ _ HS h k). Qed.

(** [n] is linked into the list of [h] *)
Lemma rings_insert m S h l1 l2 s p q t n : rings m S -> S !! n = Some [] -> S !! h = Some (l1 ++ l2) -> n <> h ->
  h :: l1 = s ++ [p] -> l2 ++ [h] = q :: t ->
  exists m', __list_add n p q m = Some m' /\ rings m' (<[h := l1 ++ n :: l2]> (delete n S)).
Proof.
  intros HS Hn Hh Hne Hs Ht. pose proof (rg_ring _ _ HS _ _ Hh) as Hr.
  assert (Hp : p ∈ h :: l1 ++ l2).
  { rewrite app_comm_cons, Hs, <- app_assoc. apply elem_of_app. right. left. }
  assert (Hq : q ∈ h :: l1 ++ l2).
  { assert (Hin : q ∈ l2 ++ [h]) by (rewrite Ht; left). rewrite elem_of_app, list_elem_of_singleton in Hin.
    rewrite elem_of_cons, elem_of_app. tauto. }
  assert (Hnin : n ∉ h :: l1 ++ l2).
  { intros Hin. apply Hne. eapply (rg_disjoint _ _ HS n h); [done|done|left|done]. }
  destruct (__list_add_run n p q m) as (m' & Hrun & Hc); [by eapply rings_alloc; [|exact Hn|left]|by eapply rings_alloc..|].
  exists m'. split; [done|]. eapply (rings_update m m' S _ (n :: h :: l1 ++ l2)); [done|done| | |].
  - simpl. intros x Hx. assert (x = p \/ x = n \/ x = q) as [->|[->| ->]].
    { rewrite !elem_of_cons, elem_of_nil in Hx. tauto. }
    + by right.
    + left.
    + by right.
  - intros k lk [[<- <-]|[Hkne [Hkn Hk]%lookup_delete_Some]]%lookup_insert_Some; [right|left].
    + split; [by eapply ring_insert|]. intros x Hx. by rewrite <- ring_perm.
    + split; [done|]. intros x Hx [->|Hx']%elem_of_cons.
      * apply Hkn. by eapply (rg_disjoint _ _ HS n k); [| |left|].
      * apply Hkne. by eapply (rg_disjoint _ _ HS h k).
  - intros k k' lk lk' x Hk Hk' Hx Hxk Hxk'.
    assert (Hown : forall j lj, <[h := l1 ++ n :: l2]> (delete n S) !! j = Some lj -> x ∈ j :: lj -> j = h).
    { intros j lj [[<- _]|[Hjne [Hjn Hj]%lookup_delete_Some]]%lookup_insert_Some Hxj; [done|].
      apply elem_of_cons in Hx as [->|Hx].
      - by destruct Hjn; eapply (rg_disjoint _ _ HS n j); [| |left|].
      - by eapply (rg_disjoint _ _ HS j h). }
    by rewrite (Hown _ _ Hk Hxk), (Hown _ _ Hk' Hxk').
Qed.

(** [n] is unlinked *)
Lemma rings_unlink m m' S h l1 n l2 s p q t : rings m S -> S !! h = Some (l1 ++ n :: l2) ->
  h :: l1 = s ++ [p] -> l2 ++ [h] = q :: t -> changed m m' [(p, q)] [(q, p)] -> rings m' (<[h := l1 ++ l2]> S).
Proof.
  intros HS Hh Hs Ht Hc.
  eapply (rings_update m m' S _ (h :: l1 ++ n :: l2)); [done|done| | |].
  - simpl. intros x Hx. assert (x = p \/ x = q) as [->| ->].
    { rewrite !elem_of_cons, elem_of_nil in Hx. tauto. }
    + rewrite app_comm_cons, Hs, <- app_assoc. apply elem_of_app. right. left.
    + assert (Hin : q ∈ l2 ++ [h]) by (rewrite Ht; left). rewrite elem_of_app, list_elem_of_singleton in Hin.
      rewrite elem_of_cons, elem_of_app, elem_of_cons. tauto.
  - intros k lk [[<- <-]|[Hkne Hk]]%lookup_insert_Some; [right|left].
    + split; [eapply ring_delete; [by eapply rg_ring|done..]|]. intros x Hx. rewrite ring_perm. by right.
    + split; [done|]. intros x Hx. by eapply rings_apart.
  - intros k k' lk lk' x Hk Hk' Hx Hxk Hxk'.
    assert (Hown : forall j lj, <[h := l1 ++ l2]> S !! j = Some lj -> x ∈ j :: lj -> j = h).
    { intros j lj [[<- _]|[Hjne Hj]]%lookup_insert_Some Hxj; [done|]. by eapply (rg_disjoint _ _ HS j h). }
    by rewrite (Hown _ _ Hk Hxk), (Hown _ _ Hk' Hxk').
Qed.

Lemma ring_first m h l : ring m h l -> rd_next h m = Some (default h (head l)).
Proof.
  intros [_ HF]. destruct l as [|x l]; apply Forall2_cons_1 in HF as [[Hn _] _]; exact Hn.
Qed.
Lemma ring_prev m h l : ring m h l -> rd_prev h m = Some (default h (last l)).
Proof.
  intros [_ HF]. destruct l as [|x l _] using rev_ind; [by apply Forall2_cons_1 in HF as [[_ Hp] _]|].
  rewrite last_snoc. rewrite app_comm_cons in HF. apply Forall2_app_inv in HF as [_ HF]; [|by rewrite length_app, Nat.add_comm].
  by apply Forall2_cons_1 in HF as [[_ Hp] _].
Qed.

Lemma rings_del_entry m S h l1 n l2 : rings m S -> S !! h = Some (l1 ++ n :: l2) ->
  exists m', __list_del_entry n m = Some m' /\ rings m' (<[h := l1 ++ l2]> S) /\ is_Some (m' !! n).
Proof.
  intros HS Hh. destruct (cut_before h l1) as (s & p & Hs), (cut_after h l2) as (q & t & Ht).
  pose proof (rg_ring _ _ HS _ _ Hh) as Hr.
  destruct (ring_around _ _ _ _ _ _ _ _ _ Hr Hs Ht) as (_ & [Hp1 Hp2] & [Hq1 Hq2] & _).
  destruct (__list_del_run p q m) as (m' & Hrun & Hc).
  - apply rd_next_some. by rewrite Hp1.
  - apply rd_prev_some. by rewrite Hq2.
  - exists m'. split; [|split; [by eapply rings_unlink|]].
    + unfold __list_del_entry. by rewrite Hp2, Hq1.
    + eapply changed_alloc; [done|]. apply rd_next_some. by rewrite Hq1.
Qed.

(** [list_del_init] of an element, and of a node that is in no list *)
Lemma rings_del_init m S h l1 n l2 : rings m S -> S !! h = Some (l1 ++ n :: l2) ->
  exists m', list_del_init n m = Some m' /\ rings m' (<[n := []]> (<[h := l1 ++ l2]> S)).
Proof.
  intros HS Hh. destruct (rings_del_entry m S h l1 n l2 HS Hh) as (m1 & Hrun & HS1 & Ha).
  destruct (rings_init m1 _ n HS1 Ha) as (m2 & Hrun2 & HS2).
  - intros k lk [[<- <-]|[Hne Hk]]%lookup_insert_Some Hkn.
    + pose proof (rg_ring _ _ HS _ _ Hh) as [Hnd _]. rewrite ring_perm in Hnd. apply NoDup_cons in Hnd as [Hn _].
      intros Hin. apply Hn. by right.
    + intros Hin. apply (rings_apart m S h k _ lk n HS Hh Hk Hne); [|by right]. right. apply elem_of_app. right. left.
  - exists m2. split; [|done]. unfold list_del_init. by rewrite Hrun.
Qed.
Lemma rings_del_init_alone m S n : rings m S -> S !! n = Some [] ->
  exists m', list_del_init n m = Some m' /\ rings m' S.
Proof.
  intros HS Hn. pose proof (rg_ring _ _ HS _ _ Hn) as Hr. assert (Ha : is_Some (m !! n)) by (eapply ring_alloc; [done|left]).
  destruct (__list_del_run n n m Ha Ha) as (m1 & Hrun & Hc).
  assert (Hun : forall h l, S !! h = Some l -> h <> n -> n ∉ l).
  { intros h l Hh Hne Hin. apply (rings_apart m S n h [] l n HS Hn Hh); [congruence|left|by right]. }
  pose proof (rings_self m m1 S n HS Hc Hun) as HS1. rewrite insert_id in HS1 by done.
  destruct (rings_init m1 S n HS1) as (m2 & Hrun2 & HS2); [by eapply changed_alloc|done|].
  rewrite insert_id in HS2 by done. exists m2. split; [|done].
  unfold list_del_init, __list_del_entry. rewrite (ring_first _ _ _ Hr), (ring_prev _ _ _ Hr). cbn [mbind option_bind default head last].
  by rewrite Hrun.
Qed.

Lemma rings_add m S h l n : rings m S -> S !! n = Some [] -> S !! h = Some l -> n <> h ->
  exists m', list_add n h m = Some m' /\ rings m' (<[h := n :: l]> (delete n S)).
Proof.
  intros HS Hn Hh Hne. destruct (cut_after h l) as (q & t & Ht).
  destruct (rings_insert m S h [] l [] h q t n HS Hn Hh Hne eq_refl Ht) as (m' & Hrun & HS').
  exists m'. split; [|done]. unfold list_add. rewrite (ring_first _ _ _ (rg_ring _ _ HS _ _ Hh)).
  destruct l; simpl in Ht |- *; by injection Ht as -> _.
Qed.
Lemma rings_add_tail m S h l n : rings m S -> S !! n = Some [] -> S !! h = Some l -> n <> h ->
  exists m', list_add_tail n h m = Some m' /\ rings m' (<[h := l ++ [n]]> (delete n S)).
Proof.
  intros HS Hn Hh Hne. destruct (cut_before h l) as (s & p & Hs).
  destruct (rings_insert m S h l [] s p h [] n HS Hn ltac:(by rewrite app_nil_r) Hne Hs eq_refl) as (m' & Hrun & HS').
  exists m'. split; [|done]. unfold list_add_tail. rewrite (ring_prev _ _ _ (rg_ring _ _ HS _ _ Hh)).
  assert (Hp : default h (last l) = p).
  { destruct l as [|x l _] using rev_ind.
    - apply (app_inj_tail [] s h p) in Hs as [_ Hs]. done.
    - rewrite last_snoc. rewrite app_comm_cons in Hs. by apply app_inj_tail in Hs as [_ Hs]. }
  cbn [mbind option_bind]. by rewrite Hp.
Qed.

Lemma rings_empty m S h l : rings m S -> S !! h = Some l -> list_empty h m = Some (bool_decide (l = [])).
Proof.
  intros HS Hh. pose proof (rg_ring _ _ HS _ _ Hh) as Hr. unfold list_empty. rewrite (ring_first _ _ _ Hr).
  cbn [mbind option_bind]. f_equal. apply bool_decide_ext. destruct l as [|x l]; [done|].
  split; [|done]. simpl. intros ->. destruct Hr as [[Hn _]%NoDup_cons _]. destruct Hn. left.
Qed.

(** memory outside of the lists *)
Lemma ring_frame m m' h l : (forall y, y ∈ h :: l -> m' !! y = m !! y) -> ring m h l -> ring m' h l.
Proof.
  intros Hf [Hnd HF]. split; [done|].
  assert (Hgo : forall xs ys, (forall x, x ∈ xs -> m' !! x = m !! x) -> (forall y, y ∈ ys -> m' !! y = m !! y) ->
    Forall2 (next_to m) xs ys -> Forall2 (next_to m') xs ys).
  { intros xs ys Hx Hy. induction 1 as [|x y xs ys [H1 H2] H IH]; constructor.
    - unfold next_to, rd_next, rd_prev. rewrite Hx, Hy by left. done.
    - apply IH; [intros z Hz; apply Hx; by right|intros z Hz; apply Hy; by right]. }
  apply Hgo; [done| |done]. intros y Hy. apply Hf. rewrite elem_of_app, list_elem_of_singleton in Hy.
  apply elem_of_cons. tauto.
Qed.

Lemma rings_alloc_node m S x nd : rings m S -> m !! x = None -> rings (<[x := nd]> m) S.
Proof.
  intros HS Hx. split; [|apply HS]. intros h l Hh. eapply ring_frame; [|by eapply rg_ring].
  intros y Hy. apply lookup_insert_ne. intros ->. destruct (rings_alloc _ _ _ _ _ HS Hh Hy). congruence.
Qed.

Lemma rings_free_node m S x : rings m S -> S !! x = Some [] -> rings (delete x m) (delete x S).
Proof.
  intros HS Hx. split.
  - intros h l [Hne Hh]%lookup_delete_Some. eapply ring_frame; [|by eapply rg_ring].
    intros y Hy. apply lookup_delete_ne. intros ->. eapply (rings_apart m S y h [] l y); [done|done|done|done|left|done].
  - intros h h' l l' y [_ Hh]%lookup_delete_Some [_ Hh']%lookup_delete_Some. by eapply (rg_disjoint _ _ HS).
Qed.

(** ** No operation allocates or frees *)

Lemma set_next_dom x v m m' : set_next x v m = Some m' -> dom m' = dom m.
Proof.
  unfold set_next. destruct (m !! x) as [nd|] eqn:Hx; [|done]. intros [= <-]. apply dom_insert_lookup_L. by rewrite Hx.
Qed.
Lemma set_prev_dom x v m m' : set_prev x v m = Some m' -> dom m' = dom m.
Proof.
  unfold set_prev. destruct (m !! x) as [nd|] eqn:Hx; [|done]. intros [= <-]. apply dom_insert_lookup_L. by rewrite Hx.
Qed.

Ltac same_dom := repeat match goal with
  | H : mbind _ _ = Some _ |- _ => apply bind_Some in H as (? & ? & ?)
  | H : set_next _ _ _ = Some _ |- _ => apply set_next_dom in H
  | H : set_prev _ _ _ = Some _ |- _ => apply set_prev_dom in H
  end; congruence.

Lemma INIT_LIST_HEAD_dom x m m' : INIT_LIST_HEAD x m = Some m' -> dom m' = dom m.
Proof. unfold INIT_LIST_HEAD. intros H. same_dom. Qed.
Lemma list_add_dom n h m m' : list_add n h m = Some m' -> dom m' = dom m.
Proof. unfold list_add, __list_add. intros H. same_dom. Qed.
Lemma list_del_init_dom n m m' : list_del_init n m = Some m' -> dom m' = dom m.
Proof.
  unfold list_del_init, __list_del_entry, __list_del. intros (m1 & H & H1%INIT_LIST_HEAD_dom)%bind_Some. same_dom.
Qed.

(** ** The loops go through the elements there are at their start *)

Section visits.
Context {St : Type} (body : loc -> St -> nodes -> option (St * nodes)).

Fixpoint visit_all (l : list loc) (s : St) m : option (St * nodes) :=
  match l with
  | [] => Some (s, m)
  | x :: l => '(s, m) ← body x s m; visit_all l s m
  end.

Lemma ring_next_at m h l1 x l2 : ring m h (l1 ++ x :: l2) -> x <> h /\ rd_next x m = Some (default h (head l2)).
Proof.
  intros Hr. destruct (cut_before h l1) as (s & p & Hs), (cut_after h l2) as (q & t & Ht).
  destruct (ring_around _ _ _ _ _ _ _ _ _ Hr Hs Ht) as (_ & _ & [Hq _] & _ & _ & _ & Hn). split.
  - intros ->. apply Hn. left.
  - rewrite Hq. f_equal. destruct l2; simpl in *; congruence.
Qed.

Lemma for_each_run h l : (forall x s m s1 m1, x ∈ l -> ring m h l -> body x s m = Some (s1, m1) -> ring m1 h l) ->
  forall fuel s m, length l < fuel -> ring m h l -> list_for_each_entry body fuel h s m = visit_all l s m.
Proof.
  intros Hbody fuel s m Hf Hr. unfold list_for_each_entry. rewrite (ring_first _ _ _ Hr). cbn [mbind option_bind].
  assert (Hgo : forall l2 l1 fuel s m, l = l1 ++ l2 -> length l2 < fuel -> ring m h l ->
    for_each_go body fuel (default h (head l2)) h s m = visit_all l2 s m).
  { induction l2 as [|x l2 IH]; intros l1 fuel' s' m' Hl Hf' Hr'; (destruct fuel' as [|fuel']; [simpl in Hf'; lia|]);
      simpl; [by rewrite decide_True|].
    rewrite Hl in Hr'. destruct (ring_next_at _ _ _ _ _ Hr') as [Hne _]. rewrite decide_False by done.
    destruct (body x s' m') as [[s1 m1]|] eqn:Hb; [|done]. simpl. rewrite <- Hl in Hr'.
    assert (Hr1 : ring m1 h l) by (eapply Hbody; [|exact Hr'|done]; rewrite Hl; apply elem_of_app; right; left).
    pose proof Hr1 as Hr2. rewrite Hl in Hr2. destruct (ring_next_at _ _ _ _ _ Hr2) as [_ ->]. simpl.
    apply (IH (l1 ++ [x])); [by rewrite <- app_assoc|simpl in Hf'; lia|done]. }
  by apply (Hgo l []).
Qed.

(** the body may unlink the node it is called with *)
Lemma for_each_safe_run h l : (forall a x b s m s1 m1, x ∈ l -> ring m h (a ++ x :: b) -> body x s m = Some (s1, m1) ->
    ring m1 h (a ++ x :: b) \/ ring m1 h (a ++ b)) ->
  forall fuel s m, length l < fuel -> ring m h l -> list_for_each_entry_safe body fuel h s m = visit_all l s m.
Proof.
  intros Hbody fuel s m Hf Hr. unfold list_for_each_entry_safe. rewrite (ring_first _ _ _ Hr). cbn [mbind option_bind].
  assert (Hgo : forall l2 l1 fuel s m n, (forall x, x ∈ l2 -> x ∈ l) -> length l2 < fuel -> ring m h (l1 ++ l2) ->
    n = Some (default h (head (tail l2))) \/ l2 = [] ->
    for_each_safe_go body fuel (default h (head l2)) n h s m = visit_all l2 s m).
  { induction l2 as [|x l2 IH]; intros l1 fuel' s' m' n Hin Hf' Hr' Hn; (destruct fuel' as [|fuel']; [simpl in Hf'; lia|]);
      simpl; [by rewrite decide_True|].
    destruct (ring_next_at _ _ _ _ _ Hr') as [Hne Hx]. rewrite decide_False by done.
    destruct Hn as [->|?]; [|done]. destruct (body x s' m') as [[s1 m1]|] eqn:Hb; [|done]. simpl.
    assert (Hr1 : exists l1', ring m1 h (l1' ++ l2)).
    { destruct (Hbody l1 x l2 s' m' s1 m1 (Hin x ltac:(left)) Hr' Hb) as [H|H]; [|by exists l1].
      exists (l1 ++ [x]). by rewrite <- app_assoc. }
    destruct Hr1 as [l1' Hr1]. destruct l2 as [|y l2]; simpl.
    - rewrite decide_True by done. simpl. destruct fuel' as [|fuel']; [simpl in Hf'; lia|]. simpl. by rewrite decide_True.
    - destruct (ring_next_at _ _ _ _ _ Hr1) as [Hy Hny]. rewrite decide_False, Hny by done. simpl.
      apply (IH l1' fuel' s1 m1 (Some (default h (head l2)))); [|simpl in *; lia|done|by left].
      intros z Hz. apply Hin. by right. }
  destruct l as [|x l].
  - simpl. pose proof (ring_first _ _ _ Hr) as ->. simpl. destruct fuel as [|fuel]; [simpl in Hf; lia|]. simpl. by rewrite decide_True.
  - destruct (ring_next_at m h [] x l Hr) as [_ Hx]. simpl. rewrite Hx. simpl.
    apply (Hgo (x :: l) [] fuel s m (Some (default h (head l)))); [done|done|done|by left].
Qed.
End visits.
