(* ===== verification/Uthash.v ===== *)
(** * Hash tables: [src/uthash.h]

    The macros the program uses, on a memory of hash handles, tables and bucket arrays: the
    list of the elements in the order of their addition and the chains of the buckets are
    linked through the handles. An access to memory that is not allocated is a fault, and a
    failed allocation ends the program, as [HASH_NONFATAL_OOM] is not set. The address of an
    element stands for the address of its handle, which is at a fixed offset. *)

From S2P Require Export Arrays.

Abbreviation ptr := positive.

(** [UT_hash_bucket], [UT_hash_table], [UT_hash_handle] *)
Record UT_hash_bucket := Bucket { hh_head : option ptr; bcount : Z; expand_mult : Z }.
Record UT_hash_table := HashTable {
  buckets : option ptr;
  num_buckets : Z; log2_num_buckets : Z;
  num_items : Z;
  tbl_tail : option ptr;
  ideal_chain_maxlen : Z;
  nonideal_items : Z;
  ineff_expands : Z; noexpand : Z;
  signature : Z
}.
Record UT_hash_handle := Handle {
  tbl : option ptr;
  prev : option ptr; next : option ptr;
  hh_prev : option ptr; hh_next : option ptr;
  (** the bytes the key points to *)
  key : string; keylen : Z;
  hashv : Z
}.
Definition bucket_zero : UT_hash_bucket := Bucket None 0 0.
Definition table_zero : UT_hash_table := HashTable None 0 0 0 None 0 0 0 0 0.
Definition handle_zero : UT_hash_handle := Handle None None None None None "" 0 0.

Definition set_hh_head p b := Bucket p (bcount b) (expand_mult b).
Definition set_bcount n b := Bucket (hh_head b) n (expand_mult b).
Definition set_expand_mult n b := Bucket (hh_head b) (bcount b) n.

Definition set_buckets a n l t :=
  HashTable a n l (num_items t) (tbl_tail t) (ideal_chain_maxlen t) (nonideal_items t) (ineff_expands t) (noexpand t) (signature t).
Definition set_num_items n t :=
  HashTable (buckets t) (num_buckets t) (log2_num_buckets t) n (tbl_tail t) (ideal_chain_maxlen t) (nonideal_items t) (ineff_expands t) (noexpand t) (signature t).
Definition set_tail p t :=
  HashTable (buckets t) (num_buckets t) (log2_num_buckets t) (num_items t) p (ideal_chain_maxlen t) (nonideal_items t) (ineff_expands t) (noexpand t) (signature t).
Definition set_ideal n t :=
  HashTable (buckets t) (num_buckets t) (log2_num_buckets t) (num_items t) (tbl_tail t) n (nonideal_items t) (ineff_expands t) (noexpand t) (signature t).
Definition set_nonideal n t :=
  HashTable (buckets t) (num_buckets t) (log2_num_buckets t) (num_items t) (tbl_tail t) (ideal_chain_maxlen t) n (ineff_expands t) (noexpand t) (signature t).
Definition set_ineff n t :=
  HashTable (buckets t) (num_buckets t) (log2_num_buckets t) (num_items t) (tbl_tail t) (ideal_chain_maxlen t) (nonideal_items t) n (noexpand t) (signature t).
Definition set_noexpand n t :=
  HashTable (buckets t) (num_buckets t) (log2_num_buckets t) (num_items t) (tbl_tail t) (ideal_chain_maxlen t) (nonideal_items t) (ineff_expands t) n (signature t).
Definition set_signature n t :=
  HashTable (buckets t) (num_buckets t) (log2_num_buckets t) (num_items t) (tbl_tail t) (ideal_chain_maxlen t) (nonideal_items t) (ineff_expands t) (noexpand t) n.

Definition set_tbl p h := Handle p (prev h) (next h) (hh_prev h) (hh_next h) (key h) (keylen h) (hashv h).
Definition set_prev p h := Handle (tbl h) p (next h) (hh_prev h) (hh_next h) (key h) (keylen h) (hashv h).
Definition set_next p h := Handle (tbl h) (prev h) p (hh_prev h) (hh_next h) (key h) (keylen h) (hashv h).
Definition set_hh_prev p h := Handle (tbl h) (prev h) (next h) p (hh_next h) (key h) (keylen h) (hashv h).
Definition set_hh_next p h := Handle (tbl h) (prev h) (next h) (hh_prev h) p (key h) (keylen h) (hashv h).
Definition set_key k n v h := Handle (tbl h) (prev h) (next h) (hh_prev h) (hh_next h) k n v.

(** ** Memory *)

Record ut_mem := UtMem {
  handles : gmap ptr UT_hash_handle;
  tables : gmap ptr UT_hash_table;
  arrays : gmap ptr (list UT_hash_bucket)
}.
Definition set_handles hs m := UtMem hs (tables m) (arrays m).
Definition set_tables ts m := UtMem (handles m) ts (arrays m).
Definition set_arrays bs m := UtMem (handles m) (tables m) bs.

Definition HM (A : Type) : Type := ut_mem -> or_fault (A * ut_mem).
Definition hret {A} (a : A) : HM A := fun m => inr (a, m).
Definition hbind {A B} (c : HM A) (k : A -> HM B) : HM B := fun m =>
  match c m with inl f => inl f | inr (a, m) => k a m end.
Definition hfault {A} (f : fault) : HM A := fun _ => inl f.
Notation "x <-* m1 ;; m2" := (hbind m1 (fun x => m2)) (at level 100, m1 at next level, right associativity).
Definition hwhen (b : bool) (c : HM unit) : HM unit := if b then c else hret tt.

Definition deref (p : option ptr) : HM ptr :=
  match p with Some p => hret p | None => hfault NullDereference end.
Definition hget (p : ptr) : HM UT_hash_handle := fun m =>
  match handles m !! p with Some h => inr (h, m) | None => inl UseAfterFree end.
Definition hmod (p : ptr) (f : UT_hash_handle -> UT_hash_handle) : HM unit :=
  h <-* hget p ;; fun m => inr (tt, set_handles (<[p := f h]> (handles m)) m).
(** [if (p) p->field = v] *)
Definition hmod_opt (o : option ptr) (f : UT_hash_handle -> UT_hash_handle) : HM unit :=
  match o with Some p => hmod p f | None => hret tt end.
Definition tget (t : ptr) : HM UT_hash_table := fun m =>
  match tables m !! t with Some tb => inr (tb, m) | None => inl UseAfterFree end.
Definition tmod (t : ptr) (f : UT_hash_table -> UT_hash_table) : HM unit :=
  tb <-* tget t ;; fun m => inr (tt, set_tables (<[t := f tb]> (tables m)) m).
Definition aget (a : ptr) : HM (list UT_hash_bucket) := fun m =>
  match arrays m !! a with Some l => inr (l, m) | None => inl UseAfterFree end.
Definition hlift {A} (r : or_fault A) : HM A := fun m => fbind r (fun a => inr (a, m)).
(** an element [i] of a bucket array *)
Definition bget (a : ptr) (i : Z) : HM UT_hash_bucket :=
  l <-* aget a ;; hlift (aread l (Z.to_nat i)).
Definition bmod (a : ptr) (i : Z) (f : UT_hash_bucket -> UT_hash_bucket) : HM unit :=
  l <-* aget a ;; b <-* hlift (aread l (Z.to_nat i)) ;; l <-* hlift (awrite l (Z.to_nat i) (f b)) ;;
  fun m => inr (tt, set_arrays (<[a := l]> (arrays m)) m).

(** whether an allocation of this size succeeds *)
Class Malloc := malloc_ok : ut_mem -> Z -> bool.

Definition sizeof_table : Z := 64.
Definition sizeof_bucket : Z := 16.
(** [uthash_fatal] *)
Definition uthash_fatal {A} : HM A := hfault (Exited (-1)).
(** [uthash_malloc] and [uthash_bzero] of a table, of an array of buckets *)
Definition new_table `{Malloc} : HM ptr := fun m =>
  if malloc_ok m sizeof_table then
    let t := fresh (dom (tables m)) in inr (t, set_tables (<[t := table_zero]> (tables m)) m)
  else uthash_fatal m.
Definition new_buckets `{Malloc} (n : Z) : HM ptr := fun m =>
  if malloc_ok m (n * sizeof_bucket)%Z then
    let a := fresh (dom (arrays m)) in inr (a, set_arrays (<[a := replicate (Z.to_nat n) bucket_zero]> (arrays m)) m)
  else uthash_fatal m.
(** [uthash_free] *)
Definition free_table (t : ptr) : HM unit :=
  _ <-* tget t ;; fun m => inr (tt, set_tables (delete t (tables m)) m).
Definition free_buckets (a : ptr) : HM unit :=
  _ <-* aget a ;; fun m => inr (tt, set_arrays (delete a (arrays m)) m).

(** ** The hash function *)

Definition shl32 (a n : Z) : Z := u32 (Z.shiftl a n).
Definition HASH_JEN_MIX (a b c : Z) : Z * Z * Z :=
  let a := u32 (a - b) in let a := u32 (a - c) in let a := Z.lxor a (Z.shiftr c 13) in
  let b := u32 (b - c) in let b := u32 (b - a) in let b := Z.lxor b (shl32 a 8) in
  let c := u32 (c - a) in let c := u32 (c - b) in let c := Z.lxor c (Z.shiftr b 13) in
  let a := u32 (a - b) in let a := u32 (a - c) in let a := Z.lxor a (Z.shiftr c 12) in
  let b := u32 (b - c) in let b := u32 (b - a) in let b := Z.lxor b (shl32 a 16) in
  let c := u32 (c - a) in let c := u32 (c - b) in let c := Z.lxor c (Z.shiftr b 5) in
  let a := u32 (a - b) in let a := u32 (a - c) in let a := Z.lxor a (Z.shiftr c 3) in
  let b := u32 (b - c) in let b := u32 (b - a) in let b := Z.lxor b (shl32 a 10) in
  let c := u32 (c - a) in let c := u32 (c - b) in let c := Z.lxor c (Z.shiftr b 15) in
  (a, b, c).
(** four bytes, little endian *)
Definition word4 (b0 b1 b2 b3 : Z) : Z :=
  (b0 + Z.shiftl b1 8 + Z.shiftl b2 16 + Z.shiftl b3 24)%Z.
(** the [while] loop: the words and the bytes that are left *)
Fixpoint jen_loop (k : list Z) (i j h : Z) : Z * Z * Z * list Z :=
  match k with
  | b0 :: b1 :: b2 :: b3 :: b4 :: b5 :: b6 :: b7 :: b8 :: b9 :: b10 :: b11 :: k' =>
      let '(i, j, h) := HASH_JEN_MIX (u32 (i + word4 b0 b1 b2 b3)) (u32 (j + word4 b4 b5 b6 b7)) (u32 (h + word4 b8 b9 b10 b11)) in
      jen_loop k' i j h
  | _ => (i, j, h, k)
  end.
(** the [switch]: [case n] and those above it fall through to the ones below *)
Definition jen_case (k : list Z) (n : nat) (shift : Z) (acc : Z) : Z :=
  if n <=? length k then u32 (acc + Z.shiftl (nth (n - 1) k 0%Z) shift) else acc.
Definition bytes_of (s : string) : list Z := map (fun a => Z.of_N (Ascii.N_of_ascii a)) (String.list_ascii_of_string s).
Definition HASH_JEN (key : string) (keylen : Z) : Z :=
  let '(i, j, h, k) := jen_loop (firstn (Z.to_nat (u32 keylen)) (bytes_of key)) 0x9e3779b9 0x9e3779b9 0xfeedbeef in
  let h := u32 (h + u32 keylen) in
  let h := jen_case k 9 8 (jen_case k 10 16 (jen_case k 11 24 h)) in
  let j := jen_case k 5 0 (jen_case k 6 8 (jen_case k 7 16 (jen_case k 8 24 j))) in
  let i := jen_case k 1 0 (jen_case k 2 8 (jen_case k 3 16 (jen_case k 4 24 i))) in
  let '(i, j, h) := HASH_JEN_MIX i j h in h.
(** [HASH_VALUE], [HASH_FCN] *)
Definition HASH_VALUE (keyptr : string) (keylen : Z) : Z := HASH_JEN keyptr keylen.
Definition HASH_TO_BKT (hashv num_bkts : Z) : Z := Z.land hashv (u32 (num_bkts - 1)).

(** ** Lookup *)

(** [HASH_KEYCMP(a, b, n) == 0] *)
Definition HASH_KEYCMP_eq (a b : string) (n : Z) : bool :=
  String.eqb (String.substring 0 (Z.to_nat n) a) (String.substring 0 (Z.to_nat n) b).

(** as many steps as there are handles *)
Definition loop_fuel (m : ut_mem) : nat := S (size (handles m)).

Fixpoint find_in_chain (fuel : nat) (out : option ptr) (keyptr : string) (keylen_in hashval : Z) : HM (option ptr) :=
  match fuel, out with
  | O, _ => hfault OutOfFuel
  | _, None => hret None
  | S fuel, Some p =>
      h <-* hget p ;;
      if (hashv h =? hashval)%Z && (keylen h =? keylen_in)%Z && HASH_KEYCMP_eq (key h) keyptr keylen_in
      then hret (Some p)
      else find_in_chain fuel (hh_next h) keyptr keylen_in hashval
  end.
Definition HASH_FIND_IN_BKT (b : UT_hash_bucket) (keyptr : string) (keylen_in hashval : Z) : HM (option ptr) :=
  fun m => find_in_chain (loop_fuel m) (hh_head b) keyptr keylen_in hashval m.

Definition HASH_FIND_BYHASHVALUE (head : option ptr) (keyptr : string) (keylen hashval : Z) : HM (option ptr) :=
  match head with
  | None => hret None
  | Some hd =>
      h <-* hget hd ;; t <-* deref (tbl h) ;; tb <-* tget t ;;
      let bkt := HASH_TO_BKT hashval (num_buckets tb) in
      a <-* deref (buckets tb) ;; b <-* bget a bkt ;;
      HASH_FIND_IN_BKT b keyptr keylen hashval
  end.
Definition HASH_FIND (head : option ptr) (keyptr : string) (keylen : Z) : HM (option ptr) :=
  match head with
  | None => hret None
  | Some hd => HASH_FIND_BYHASHVALUE (Some hd) keyptr keylen (HASH_VALUE keyptr keylen)
  end.

(** ** Addition *)

Definition HASH_SIGNATURE : Z := 0xa0111fe1.
Definition HASH_INITIAL_NUM_BUCKETS : Z := 32.
Definition HASH_INITIAL_NUM_BUCKETS_LOG2 : Z := 5.
Definition HASH_BKT_CAPACITY_THRESH : Z := 10.

Definition HASH_MAKE_TABLE `{Malloc} (head : ptr) : HM unit :=
  t <-* new_table ;;
  _ <-* hmod head (set_tbl (Some t)) ;;
  _ <-* tmod t (set_tail (Some head)) ;;
  _ <-* tmod t (set_buckets None HASH_INITIAL_NUM_BUCKETS HASH_INITIAL_NUM_BUCKETS_LOG2) ;;
  a <-* new_buckets HASH_INITIAL_NUM_BUCKETS ;;
  _ <-* tmod t (set_buckets (Some a) HASH_INITIAL_NUM_BUCKETS HASH_INITIAL_NUM_BUCKETS_LOG2) ;;
  tmod t (set_signature HASH_SIGNATURE).

Definition HASH_APPEND_LIST (head add : ptr) : HM unit :=
  _ <-* hmod add (set_next None) ;;
  h <-* hget head ;; t <-* deref (tbl h) ;; tb <-* tget t ;; tl <-* deref (tbl_tail tb) ;;
  _ <-* hmod add (set_prev (Some tl)) ;;
  _ <-* hmod tl (set_next (Some add)) ;;
  tmod t (set_tail (Some add)).

(** the body of the [while] loop of [HASH_EXPAND_BUCKETS]: a handle goes to the front of its
    new chain *)
Definition move_handle (t new thh : ptr) : HM unit :=
  h <-* hget thh ;; tb <-* tget t ;;
  let bkt := HASH_TO_BKT (hashv h) (u32 (num_buckets tb * 2)) in
  _ <-* bmod new bkt (fun b => set_bcount (u32 (bcount b + 1)) b) ;;
  b <-* bget new bkt ;;
  _ <-* hwhen (ideal_chain_maxlen tb <? bcount b)%Z
          (_ <-* tmod t (fun tb => set_nonideal (u32 (nonideal_items tb + 1)) tb) ;;
           hwhen (u32 (expand_mult b * ideal_chain_maxlen tb) <? bcount b)%Z
             (bmod new bkt (fun b => set_expand_mult (u32 (expand_mult b + 1)) b))) ;;
  _ <-* hmod thh (set_hh_prev None) ;;
  _ <-* hmod thh (set_hh_next (hh_head b)) ;;
  _ <-* hmod_opt (hh_head b) (set_hh_prev (Some thh)) ;;
  bmod new bkt (set_hh_head (Some thh)).
Fixpoint move_chain (fuel : nat) (t new : ptr) (thh : option ptr) : HM unit :=
  match fuel, thh with
  | O, _ => hfault OutOfFuel
  | _, None => hret tt
  | S fuel, Some thh =>
      h <-* hget thh ;;
      let nxt := hh_next h in
      _ <-* move_handle t new thh ;; move_chain fuel t new nxt
  end.
(** the [for] loop over the buckets *)
Fixpoint move_chains (t new : ptr) (ks : list nat) : HM unit :=
  match ks with
  | [] => hret tt
  | i :: ks =>
      tb <-* tget t ;; a <-* deref (buckets tb) ;; b <-* bget a (Z.of_nat i) ;;
      _ <-* (fun m => move_chain (loop_fuel m) t new (hh_head b) m) ;;
      move_chains t new ks
  end.
Definition HASH_EXPAND_BUCKETS `{Malloc} (t : ptr) : HM unit :=
  tb <-* tget t ;;
  new <-* new_buckets (2 * num_buckets tb) ;;
  _ <-* tmod t (fun tb => set_ideal
          (u32 (Z.shiftr (num_items tb) (log2_num_buckets tb + 1) +
                (if (Z.land (num_items tb) (u32 (u32 (num_buckets tb * 2) - 1)) =? 0)%Z then 0 else 1))) tb) ;;
  _ <-* tmod t (set_nonideal 0) ;;
  _ <-* move_chains t new (seq 0 (Z.to_nat (num_buckets tb))) ;;
  old <-* deref (buckets tb) ;;
  _ <-* free_buckets old ;;
  _ <-* tmod t (fun tb => set_buckets (Some new) (u32 (num_buckets tb * 2)) (u32 (log2_num_buckets tb + 1)) tb) ;;
  _ <-* tmod t (fun tb => set_ineff
          (if (Z.shiftr (num_items tb) 1 <? nonideal_items tb)%Z then u32 (ineff_expands tb + 1) else 0%Z) tb) ;;
  tb <-* tget t ;;
  hwhen (1 <? ineff_expands tb)%Z (tmod t (set_noexpand 1)).

Definition HASH_ADD_TO_BKT `{Malloc} (a : ptr) (bkt : Z) (addhh : ptr) : HM unit :=
  _ <-* bmod a bkt (fun b => set_bcount (u32 (bcount b + 1)) b) ;;
  b <-* bget a bkt ;;
  _ <-* hmod addhh (set_hh_next (hh_head b)) ;;
  _ <-* hmod addhh (set_hh_prev None) ;;
  _ <-* hmod_opt (hh_head b) (set_hh_prev (Some addhh)) ;;
  _ <-* bmod a bkt (set_hh_head (Some addhh)) ;;
  hwhen (u32 (u32 (expand_mult b + 1) * HASH_BKT_CAPACITY_THRESH) <=? bcount b)%Z
    (h <-* hget addhh ;; t <-* deref (tbl h) ;; tb <-* tget t ;;
     hwhen (noexpand tb =? 0)%Z (HASH_EXPAND_BUCKETS t)).

Definition HASH_ADD_TO_TABLE `{Malloc} (head : ptr) (hashval : Z) (add : ptr) : HM unit :=
  h <-* hget head ;; t <-* deref (tbl h) ;;
  _ <-* tmod t (fun tb => set_num_items (u32 (num_items tb + 1)) tb) ;;
  tb <-* tget t ;;
  let bkt := HASH_TO_BKT hashval (num_buckets tb) in
  a <-* deref (buckets tb) ;;
  HASH_ADD_TO_BKT a bkt add.

(** the new value of [head] *)
Definition HASH_ADD_KEYPTR_BYHASHVALUE `{Malloc} (head : option ptr) (keyptr : string) (keylen_in hashval : Z) (add : ptr) : HM ptr :=
  _ <-* hmod add (set_key keyptr (u32 keylen_in) hashval) ;;
  hd <-* match head with
         | None =>
             _ <-* hmod add (set_next None) ;;
             _ <-* hmod add (set_prev None) ;;
             _ <-* HASH_MAKE_TABLE add ;; hret add
         | Some hd =>
             h <-* hget hd ;;
             _ <-* hmod add (set_tbl (tbl h)) ;;
             _ <-* HASH_APPEND_LIST hd add ;; hret hd
         end ;;
  _ <-* HASH_ADD_TO_TABLE hd hashval add ;;
  hret hd.
Definition HASH_ADD_KEYPTR `{Malloc} (head : option ptr) (keyptr : string) (keylen_in : Z) (add : ptr) : HM ptr :=
  HASH_ADD_KEYPTR_BYHASHVALUE head keyptr keylen_in (HASH_VALUE keyptr keylen_in) add.

(** ** Deletion *)

Definition HASH_DEL_IN_BKT (a : ptr) (bkt : Z) (delhh : ptr) : HM unit :=
  _ <-* bmod a bkt (fun b => set_bcount (u32 (bcount b - 1)) b) ;;
  b <-* bget a bkt ;; d <-* hget delhh ;;
  _ <-* hwhen (bool_decide (hh_head b = Some delhh)) (bmod a bkt (set_hh_head (hh_next d))) ;;
  _ <-* hmod_opt (hh_prev d) (set_hh_next (hh_next d)) ;;
  d <-* hget delhh ;;
  hmod_opt (hh_next d) (set_hh_prev (hh_prev d)).

(** the list in the order of addition, without [del]; the new value of [head] *)
Definition unlink_elmt (head : option ptr) (t del : ptr) : HM (option ptr) :=
  d <-* hget del ;; tb <-* tget t ;;
  _ <-* hwhen (bool_decide (tbl_tail tb = Some del)) (p <-* deref (prev d) ;; tmod t (set_tail (Some p))) ;;
  head <-* match prev d with
           | Some p => _ <-* hmod p (set_next (next d)) ;; hret head
           | None => hret (next d)
           end ;;
  d <-* hget del ;;
  _ <-* hmod_opt (next d) (set_prev (prev d)) ;;
  hret head.
(** the new value of [head] *)
Definition HASH_DELETE_HH (head : option ptr) (del : ptr) : HM (option ptr) :=
  d <-* hget del ;;
  hd <-* deref head ;; h <-* hget hd ;; t <-* deref (tbl h) ;; tb <-* tget t ;;
  match prev d, next d with
  | None, None =>
      a <-* deref (buckets tb) ;;
      _ <-* free_buckets a ;; _ <-* free_table t ;; hret None
  | _, _ =>
      head <-* unlink_elmt head t del ;;
      hd <-* deref head ;; h <-* hget hd ;; t <-* deref (tbl h) ;; tb <-* tget t ;;
      d <-* hget del ;;
      let bkt := HASH_TO_BKT (hashv d) (num_buckets tb) in
      a <-* deref (buckets tb) ;;
      _ <-* HASH_DEL_IN_BKT a bkt del ;;
      _ <-* tmod t (fun tb => set_num_items (u32 (num_items tb - 1)) tb) ;;
      hret head
  end.
(** [HASH_DEL], [HASH_DELETE] *)
Definition HASH_DEL (head : option ptr) (delptr : ptr) : HM (option ptr) := HASH_DELETE_HH head delptr.

(** ** Iteration and counting *)

Definition next_of (p : option ptr) : HM (option ptr) :=
  match p with Some p => h <-* hget p ;; hret (next h) | None => hret None end.
Fixpoint iter_loop {S} (fuel : nat) (el tmp : option ptr) (body : ptr -> S -> HM S) (s : S) : HM S :=
  match fuel, el with
  | O, _ => hfault OutOfFuel
  | _, None => hret s
  | Datatypes.S fuel, Some p =>
      s <-* body p s ;; tmp' <-* next_of tmp ;; iter_loop fuel tmp tmp' body s
  end.
(** [HASH_ITER(hh, head, el, tmp) body], with the variables the body assigns *)
Definition HASH_ITER {S} (head : option ptr) (body : ptr -> S -> HM S) (s : S) : HM S := fun m =>
  (tmp <-* next_of head ;; iter_loop (loop_fuel m) head tmp body s) m.

Definition HASH_COUNT (head : option ptr) : HM Z :=
  match head with
  | None => hret 0%Z
  | Some hd => h <-* hget hd ;; t <-* deref (tbl h) ;; tb <-* tget t ;; hret (num_items tb)
  end.

(** ** What the program does with a table *)

(** [tmalloc] and [free] of an element *)
Definition new_elem : HM ptr := fun m =>
  let p := fresh (dom (handles m)) in inr (p, set_handles (<[p := handle_zero]> (handles m)) m).
Definition free_elem (p : ptr) : HM unit :=
  _ <-* hget p ;; fun m => inr (tt, set_handles (delete p (handles m)) m).

(** an element is taken out of the table and freed *)
Definition delete_elem (head : option ptr) (el : ptr) : HM (option ptr) :=
  head <-* HASH_DEL head el ;; _ <-* free_elem el ;; hret head.
(** the loop that ends the life of a table, at the end of [kill_all_descendants] *)
Definition clear_table (head : option ptr) : HM (option ptr) :=
  HASH_ITER head (fun el head => delete_elem head el) head.
