(* ===== verification/UthashLogic.v ===== *)
(** * Reasoning about [Uthash]

    Postconditions of code on the memory of hash tables, the links it keeps seen as doubly
    linked lists, and the chains of the buckets. *)

From S2P Require Export Uthash Chains.

(** [E] are the faults the code may end with *)
Definition hwp {A} (E : fault -> Prop) (c : HM A) (m : ut_mem) (Q : A -> ut_mem -> Prop) : Prop :=
  match c m with inl f => E f | inr (a, m) => Q a m end.

Definition nofault (f : fault) : Prop := False.

(** an assignment through a pointer that may be null *)
Abbreviation halter f p hs := (alter f p (hs : gmap ptr UT_hash_handle)).
Definition halter_opt (f : UT_hash_handle -> UT_hash_handle) (p : option ptr) (hs : gmap ptr UT_hash_handle) :=
  upd_opt (fun p => alter f p) p hs.

Section hwp.
Context {A B : Type}.
Implicit Types (E : fault -> Prop) (m : ut_mem).

Lemma hwp_bind E (c : HM A) (k : A -> HM B) m Q :
  hwp E c m (fun a m => hwp E (k a) m Q) -> hwp E (hbind c k) m Q.
Proof. unfold hwp, hbind. by destruct (c m) as [f|[a m']]. Qed.
Lemma hwp_ret E (a : A) m (Q : A -> ut_mem -> Prop) : Q a m -> hwp E (hret a) m Q.
Proof. done. Qed.
Lemma hwp_mono E E' (c : HM A) m (Q Q' : A -> ut_mem -> Prop) :
  hwp E c m Q -> (forall f, E f -> E' f) -> (forall a m', Q a m' -> Q' a m') -> hwp E' c m Q'.
Proof. unfold hwp. destruct (c m) as [f|[a m']]; auto. Qed.
Lemma hwp_conseq E (c : HM A) m (Q Q' : A -> ut_mem -> Prop) :
  hwp E c m Q -> (forall a m', Q a m' -> Q' a m') -> hwp E c m Q'.
Proof. intros Hw HQ. by eapply hwp_mono. Qed.
Lemma hwp_weaken E (c : HM A) m Q : hwp nofault c m Q -> hwp E c m Q.
Proof. intros Hw. eapply hwp_mono; [done|by intros ? []|done]. Qed.
Lemma hwp_total (c : HM A) m Q : hwp nofault c m Q <-> exists a m', c m = inr (a, m') /\ Q a m'.
Proof.
  unfold hwp. destruct (c m) as [f|[a m']]; split; [done|by intros (?&?&[=]&_)| |].
  - by exists a, m'.
  - by intros (? & ? & [= -> ->] & ?).
Qed.
End hwp.

Section steps.
Implicit Types (E : fault -> Prop) (m : ut_mem).

Lemma hwp_deref E o p m (Q : ptr -> ut_mem -> Prop) : o = Some p -> Q p m -> hwp E (deref o) m Q.
Proof. by intros ->. Qed.
Lemma hwp_hget E p m (Q : UT_hash_handle -> ut_mem -> Prop) :
  is_Some (handles m !! p) -> (forall h, handles m !! p = Some h -> Q h m) -> hwp E (hget p) m Q.
Proof. intros [h Hh] HQ. unfold hwp, hget. rewrite Hh. auto. Qed.
Lemma hwp_hmod E p f m (Q : unit -> ut_mem -> Prop) :
  is_Some (handles m !! p) -> Q tt (set_handles (halter f p (handles m)) m) -> hwp E (hmod p f) m Q.
Proof.
  intros [h Hh] HQ. unfold hwp, hmod, hbind, hget. rewrite Hh.
  replace (<[p := f h]> (handles m)) with (halter f p (handles m)); [done|].
  apply map_eq. intros q. destruct (decide (q = p)) as [->|].
  - by rewrite lookup_alter_eq, lookup_insert_eq, Hh.
  - by rewrite lookup_alter_ne, lookup_insert_ne.
Qed.
Lemma hwp_hmod_opt E o f m (Q : unit -> ut_mem -> Prop) :
  (forall p, o = Some p -> is_Some (handles m !! p)) -> Q tt (set_handles (halter_opt f o (handles m)) m) ->
  hwp E (hmod_opt o f) m Q.
Proof.
  intros Ho HQ. destruct o as [p|]; simpl; [by apply hwp_hmod; auto|].
  apply hwp_ret. by destruct m.
Qed.
Lemma hwp_tget E t tb m (Q : UT_hash_table -> ut_mem -> Prop) :
  tables m !! t = Some tb -> Q tb m -> hwp E (tget t) m Q.
Proof. intros Ht HQ. unfold hwp, tget. by rewrite Ht. Qed.
Lemma hwp_tmod E t tb f m (Q : unit -> ut_mem -> Prop) :
  tables m !! t = Some tb -> Q tt (set_tables (<[t := f tb]> (tables m)) m) -> hwp E (tmod t f) m Q.
Proof. intros Ht HQ. unfold hwp, tmod, hbind, tget. by rewrite Ht. Qed.
Lemma hwp_bget E a arr i b m (Q : UT_hash_bucket -> ut_mem -> Prop) :
  arrays m !! a = Some arr -> arr !! Z.to_nat i = Some b -> Q b m -> hwp E (bget a i) m Q.
Proof.
  intros Ha Hb HQ. unfold hwp, bget, hbind, aget. rewrite Ha. unfold hlift. by rewrite (aread_eq _ _ _ Hb).
Qed.
Lemma hwp_bmod E a arr i b f m (Q : unit -> ut_mem -> Prop) :
  arrays m !! a = Some arr -> arr !! Z.to_nat i = Some b ->
  Q tt (set_arrays (<[a := <[Z.to_nat i := f b]> arr]> (arrays m)) m) -> hwp E (bmod a i f) m Q.
Proof.
  intros Ha Hb HQ. unfold hwp, bmod, hbind, aget. rewrite Ha. unfold hlift. rewrite (aread_eq _ _ _ Hb). simpl.
  rewrite awrite_eq by (by eapply lookup_lt_Some). done.
Qed.
Lemma hwp_hwhen E (b : bool) c m (Q : unit -> ut_mem -> Prop) :
  (b = true -> hwp E c m Q) -> (b = false -> Q tt m) -> hwp E (hwhen b c) m Q.
Proof. destruct b; intros H1 H2; [by apply H1|by apply H2]. Qed.
End steps.

(** ** Views of the handles *)

Definition app_links (hs : gmap ptr UT_hash_handle) := (fun h => (prev h, next h)) <$> hs.
Definition bkt_links (hs : gmap ptr UT_hash_handle) := (fun h => (hh_prev h, hh_next h)) <$> hs.
(** what links two handles does not change *)
Definition ident (h : UT_hash_handle) := (tbl h, key h, keylen h, hashv h).
Definition idents (hs : gmap ptr UT_hash_handle) := ident <$> hs.

Section views.
Implicit Types (hs : gmap ptr UT_hash_handle) (p q : ptr).

Lemma fmap_alter_view {V} (g : UT_hash_handle -> V) f f' p hs :
  (forall h, g (f h) = f' (g h)) -> g <$> halter f p hs = alter f' p (g <$> hs).
Proof.
  intros Hg. apply map_eq. intros q. destruct (decide (q = p)) as [->|].
  - rewrite lookup_fmap, !lookup_alter_eq, lookup_fmap. destruct (hs !! p); simpl; [by rewrite Hg|done].
  - by rewrite lookup_fmap, !lookup_alter_ne, lookup_fmap by done.
Qed.
Lemma fmap_alter_same {V} (g : UT_hash_handle -> V) f p hs :
  (forall h, g (f h) = g h) -> g <$> halter f p hs = g <$> hs.
Proof.
  intros Hg. rewrite (fmap_alter_view g f id) by done.
  apply map_eq. intros q. destruct (decide (q = p)) as [->|].
  - rewrite lookup_alter_eq. by destruct ((g <$> hs) !! p).
  - by rewrite lookup_alter_ne.
Qed.

Lemma app_set_prev v p hs : app_links (halter (set_prev v) p hs) = upd_prev p v (app_links hs).
Proof. by apply fmap_alter_view. Qed.
Lemma app_set_next v p hs : app_links (halter (set_next v) p hs) = upd_next p v (app_links hs).
Proof. by apply fmap_alter_view. Qed.
Lemma bkt_set_prev v p hs : bkt_links (halter (set_hh_prev v) p hs) = upd_prev p v (bkt_links hs).
Proof. by apply fmap_alter_view. Qed.
Lemma bkt_set_next v p hs : bkt_links (halter (set_hh_next v) p hs) = upd_next p v (bkt_links hs).
Proof. by apply fmap_alter_view. Qed.
Lemma app_set_other f p hs : (forall h, (prev (f h), next (f h)) = (prev h, next h)) ->
  app_links (halter f p hs) = app_links hs.
Proof. apply (fmap_alter_same (fun h => (prev h, next h))). Qed.
Lemma bkt_set_other f p hs : (forall h, (hh_prev (f h), hh_next (f h)) = (hh_prev h, hh_next h)) ->
  bkt_links (halter f p hs) = bkt_links hs.
Proof. apply (fmap_alter_same (fun h => (hh_prev h, hh_next h))). Qed.
Lemma ident_set_other f p hs : (forall h, ident (f h) = ident h) -> idents (halter f p hs) = idents hs.
Proof. apply (fmap_alter_same ident). Qed.
Lemma ident_set_key k n v p hs :
  idents (halter (set_key k n v) p hs) = alter (fun i => (i.1.1.1, k, n, v)) p (idents hs).
Proof. by apply fmap_alter_view. Qed.
Lemma ident_set_tbl t p hs :
  idents (halter (set_tbl t) p hs) = alter (fun i => (t, i.1.1.2, i.1.2, i.2)) p (idents hs).
Proof. by apply fmap_alter_view. Qed.

Lemma app_opt_prev v l hs : app_links (halter_opt (set_prev v) (head l) hs) = first_prev l v (app_links hs).
Proof. unfold halter_opt, first_prev. destruct (head l); [|done]. apply app_set_prev. Qed.
Lemma app_opt_next v l hs : app_links (halter_opt (set_next v) (last l) hs) = last_next l v (app_links hs).
Proof. unfold halter_opt, last_next. destruct (last l); [|done]. apply app_set_next. Qed.
Lemma bkt_opt_prev v l hs : bkt_links (halter_opt (set_hh_prev v) (head l) hs) = first_prev l v (bkt_links hs).
Proof. unfold halter_opt, first_prev. destruct (head l); [|done]. apply bkt_set_prev. Qed.
Lemma bkt_opt_next v l hs : bkt_links (halter_opt (set_hh_next v) (last l) hs) = last_next l v (bkt_links hs).
Proof. unfold halter_opt, last_next. destruct (last l); [|done]. apply bkt_set_next. Qed.
Lemma app_opt_other f o hs : (forall h, (prev (f h), next (f h)) = (prev h, next h)) ->
  app_links (halter_opt f o hs) = app_links hs.
Proof. destruct o; [apply app_set_other|done]. Qed.
Lemma bkt_opt_other f o hs : (forall h, (hh_prev (f h), hh_next (f h)) = (hh_prev h, hh_next h)) ->
  bkt_links (halter_opt f o hs) = bkt_links hs.
Proof. destruct o; [apply bkt_set_other|done]. Qed.
Lemma ident_opt_other f o hs : (forall h, ident (f h) = ident h) -> idents (halter_opt f o hs) = idents hs.
Proof. destruct o; [apply ident_set_other|done]. Qed.

Lemma halter_alloc f p q hs : is_Some (hs !! q) -> is_Some (halter f p hs !! q).
Proof. intros [h Hh]. rewrite lookup_alter_is_Some. by exists h. Qed.
Lemma halter_opt_alloc f o q hs : is_Some (hs !! q) -> is_Some (halter_opt f o hs !! q).
Proof. destruct o; [apply halter_alloc|done]. Qed.
Lemma halter_dom f p hs : dom (halter f p hs) = dom hs.
Proof. apply dom_alter_L. Qed.
Lemma halter_opt_dom f o hs : dom (halter_opt f o hs) = dom hs.
Proof. destruct o; [apply halter_dom|done]. Qed.

Lemma app_at hs p h : hs !! p = Some h -> app_links hs !! p = Some (prev h, next h).
Proof. intros Hh. unfold app_links. by rewrite lookup_fmap, Hh. Qed.
Lemma bkt_at hs p h : hs !! p = Some h -> bkt_links hs !! p = Some (hh_prev h, hh_next h).
Proof. intros Hh. unfold bkt_links. by rewrite lookup_fmap, Hh. Qed.
Lemma ident_at hs p h : hs !! p = Some h -> idents hs !! p = Some (ident h).
Proof. intros Hh. unfold idents. by rewrite lookup_fmap, Hh. Qed.
Lemma view_alloc {V} (g : UT_hash_handle -> V) hs p : is_Some ((g <$> hs) !! p) <-> is_Some (hs !! p).
Proof. rewrite lookup_fmap. apply fmap_is_Some. Qed.
Lemma dll_app_alloc hs l p : dll (app_links hs) l -> p ∈ l -> is_Some (hs !! p).
Proof. intros Hd Hp. eapply view_alloc, dll_alloc; done. Qed.
Lemma dll_bkt_alloc hs l p : dll (bkt_links hs) l -> p ∈ l -> is_Some (hs !! p).
Proof. intros Hd Hp. eapply view_alloc, dll_alloc; done. Qed.
End views.

Create HintDb alloc.
#[export] Hint Resolve halter_alloc halter_opt_alloc : alloc.
#[export] Hint Resolve dll_app_alloc dll_bkt_alloc : alloc.

(** the effect of writing links on the three views *)
Ltac views :=
  repeat first
    [ rewrite app_opt_prev | rewrite app_opt_next | rewrite bkt_opt_prev | rewrite bkt_opt_next
    | rewrite app_set_prev | rewrite app_set_next | rewrite bkt_set_prev | rewrite bkt_set_next
    | rewrite app_set_other by done | rewrite bkt_set_other by done | rewrite ident_set_other by done
    | rewrite app_opt_other by done | rewrite bkt_opt_other by done | rewrite ident_opt_other by done ].

(** one step of the code *)
Ltac hstep :=
  lazymatch goal with
  | |- hwp _ (hbind _ _) _ _ => apply hwp_bind
  | |- hwp _ (hret _) _ _ => apply hwp_ret
  | |- hwp _ (hget _) _ _ => apply hwp_hget; [eauto 12 with alloc|intros ? ?]
  | |- hwp _ (hmod _ _) _ _ => apply hwp_hmod; [eauto 12 with alloc|]
  | |- hwp _ (deref _) _ _ => eapply hwp_deref; [eassumption|]
  | |- hwp _ (tget _) _ _ => eapply hwp_tget; [eassumption|]
  | |- hwp _ (tmod _ _) _ _ => eapply hwp_tmod; [eassumption|]
  | |- hwp _ (hmod_opt _ _) _ _ => apply hwp_hmod_opt
  end; unfold set_handles, set_tables, set_arrays; cbn [handles tables arrays].

(** no array of 2^32 buckets can be allocated *)
Class MallocLaws `{Malloc} : Prop :=
  malloc_bound : forall m sz, malloc_ok m sz = true -> (sz < 2 ^ 36)%Z.

(** the program ends for want of memory: a request of less than 64 GiB was refused, or there
    were enough additions, [c], for a larger one *)
Definition oom `{Malloc} (c : nat) (f : fault) : Prop :=
  f = Exited (-1) /\ ((exists m sz, (sz < 2 ^ 36)%Z /\ malloc_ok m sz = false) \/ 26 <= c).

Section malloc.
Context `{Malloc}.

Lemma oom_mono c c' f : c <= c' -> oom c f -> oom c' f.
Proof. intros Hc [-> [Hr|Hl]]; (split; [done|]); [by left|right; lia]. Qed.

Lemma hwp_new_table c m (Q : ptr -> ut_mem -> Prop) :
  (forall t, tables m !! t = None -> Q t (set_tables (<[t := table_zero]> (tables m)) m)) -> hwp (oom c) new_table m Q.
Proof.
  intros HQ. unfold hwp, new_table. destruct (malloc_ok m sizeof_table) eqn:Hm.
  2:{ split; [done|]. left. by exists m, sizeof_table. }
  apply HQ. apply not_elem_of_dom. apply is_fresh.
Qed.
Lemma hwp_new_buckets c n m (Q : ptr -> ut_mem -> Prop) :
  ((2 ^ 36 <= n * sizeof_bucket)%Z -> 26 <= c) ->
  (forall a, malloc_ok m (n * sizeof_bucket)%Z = true -> arrays m !! a = None ->
    Q a (set_arrays (<[a := replicate (Z.to_nat n) bucket_zero]> (arrays m)) m)) -> hwp (oom c) (new_buckets n) m Q.
Proof.
  intros Hc HQ. unfold hwp, new_buckets. destruct (malloc_ok m (n * sizeof_bucket)) eqn:Hm.
  2:{ split; [done|]. destruct (decide (n * sizeof_bucket < 2 ^ 36)%Z); [left; eauto|right; apply Hc; lia]. }
  apply HQ; [done|]. apply not_elem_of_dom. apply is_fresh.
Qed.
Lemma hwp_free_table E t m (Q : unit -> ut_mem -> Prop) :
  is_Some (tables m !! t) -> Q tt (set_tables (delete t (tables m)) m) -> hwp E (free_table t) m Q.
Proof. intros [tb Ht] HQ. unfold hwp, free_table, hbind, tget. by rewrite Ht. Qed.
Lemma hwp_free_buckets E a m (Q : unit -> ut_mem -> Prop) :
  is_Some (arrays m !! a) -> Q tt (set_arrays (delete a (arrays m)) m) -> hwp E (free_buckets a) m Q.
Proof. intros [l Ha] HQ. unfold hwp, free_buckets, hbind, aget. by rewrite Ha. Qed.
End malloc.
