(* ===== verification/UthashFacts.v ===== *)
(** * The operations of [Uthash]

    The representation of a table as the list of its elements in the order of their
    addition, and what each macro does to it. *)

From S2P Require Export UthashLogic.

Lemma u32_succ x : u32 (u32 x + 1) = u32 (x + 1).
Proof. unfold u32. by rewrite Zplus_mod_idemp_l. Qed.
Lemma u32_pred x : u32 (u32 x - 1) = u32 (x - 1).
Proof. unfold u32. by rewrite Zminus_mod_idemp_l. Qed.
Lemma u32_small x : (0 <= x < 2 ^ 32)%Z -> u32 x = x.
Proof. intros. unfold u32. by rewrite Z.mod_small. Qed.

Lemma upd_next_prev {A} `{Countable A} p (a b : option A) lk :
  upd_next p b (upd_prev p a lk) = upd_prev p a (upd_next p b lk).
Proof.
  apply map_eq. intros q. unfold upd_next, upd_prev. destruct (decide (q = p)) as [->|].
  - rewrite !lookup_alter_eq. by destruct (lk !! p).
  - by rewrite !lookup_alter_ne.
Qed.

Lemma pow_bound lg : (0 <= lg <= 31)%Z -> (0 < 2 ^ lg <= 2 ^ 31)%Z.
Proof. intros Hlg. split; [by apply Z.pow_pos_nonneg; lia|]. apply Z.pow_le_mono_r; lia. Qed.

Lemma HASH_TO_BKT_range v lg : (0 <= lg <= 31)%Z -> (0 <= HASH_TO_BKT v (2 ^ lg) < 2 ^ lg)%Z.
Proof.
  intros Hlg. pose proof (pow_bound lg Hlg). unfold HASH_TO_BKT. rewrite u32_small by lia.
  replace (2 ^ lg - 1)%Z with (Z.ones lg) by (rewrite Z.ones_equiv; lia).
  rewrite Z.land_ones by lia. apply Z.mod_pos_bound. lia.
Qed.

(** ** The chains of the buckets *)

(** the bucket an allocated element belongs to, of [n] *)
Definition bucket_of (n : Z) (hs : gmap ptr UT_hash_handle) (p : ptr) : option nat :=
  (fun i => Z.to_nat (HASH_TO_BKT i.2 n)) <$> (idents hs !! p).

Record chains_ok (hs : gmap ptr UT_hash_handle) (n : Z) (arr : list UT_hash_bucket) (cs : list (list ptr)) : Prop := {
  co_arr : Z.of_nat (length arr) = n;
  co_len : length cs = length arr;
  co_bkt : forall i c b, cs !! i = Some c -> arr !! i = Some b ->
    hh_head b = head c /\ bcount b = u32 (Z.of_nat (length c)) /\ dll (bkt_links hs) c /\
    forall p, p ∈ c -> bucket_of n hs p = Some i
}.

Arguments co_arr {_ _ _ _}.
Arguments co_len {_ _ _ _}.
Arguments co_bkt {_ _ _ _} _ {_ _ _}.

Section chains.
Context (hs hs' : gmap ptr UT_hash_handle) (n : Z) (arr : list UT_hash_bucket) (cs : list (list ptr)).
Implicit Types (c : list ptr) (p : ptr).

Lemma co_empty k : chains_ok hs (Z.of_nat k) (replicate k bucket_zero) (replicate k []).
Proof.
  split; [by rewrite length_replicate|by rewrite !length_replicate|].
  intros i c b [-> _]%lookup_replicate [-> _]%lookup_replicate. split_and!; [done..|apply dll_nil|].
  by intros p ?%elem_of_nil.
Qed.

Hypothesis Hco : chains_ok hs n arr cs.
Hypothesis Hid : idents hs' = idents hs.

Lemma co_bucket i : i < length arr -> exists c b, cs !! i = Some c /\ arr !! i = Some b.
Proof using Hco.
  intros Hi. destruct (lookup_lt_is_Some_2 arr i Hi) as [b Hb].
  destruct (lookup_lt_is_Some_2 cs i) as [c Hc]; [by rewrite (co_len Hco)|]. eauto.
Qed.
Lemma co_chain c i : cs !! i = Some c -> exists b, arr !! i = Some b.
Proof using Hco.
  intros Hc. apply lookup_lt_Some in Hc. rewrite (co_len Hco) in Hc.
  destruct (co_bucket i Hc) as (? & b & _ & ?). eauto.
Qed.
(** chains have no element in common *)
Lemma co_disjoint i j c d p : cs !! i = Some c -> cs !! j = Some d -> p ∈ c -> p ∈ d -> i = j.
Proof using Hco.
  intros Hi Hj Hc Hd. destruct (co_chain _ _ Hi) as [b Hb]. destruct (co_chain _ _ Hj) as [b' Hb'].
  destruct (co_bkt Hco Hi Hb) as (_ & _ & _ & H1).
  destruct (co_bkt Hco Hj Hb') as (_ & _ & _ & H2).
  specialize (H1 p Hc). specialize (H2 p Hd). congruence.
Qed.
Lemma co_dll i c : cs !! i = Some c -> dll (bkt_links hs) c.
Proof using Hco.
  intros Hi. destruct (co_chain _ _ Hi) as [b Hb]. by destruct (co_bkt Hco Hi Hb) as (_ & _ & ? & _).
Qed.

(** one chain changes, and its bucket *)
Lemma co_update i c c' b b' :
  cs !! i = Some c -> arr !! i = Some b -> dll (bkt_links hs') c' ->
  (forall p, p ∈ c' -> bucket_of n hs p = Some i) ->
  (forall p, p ∉ c -> p ∉ c' -> bkt_links hs' !! p = bkt_links hs !! p) ->
  hh_head b' = head c' -> bcount b' = u32 (Z.of_nat (length c')) ->
  chains_ok hs' n (<[i := b']> arr) (<[i := c']> cs).
Proof using Hco Hid.
  intros Hc Hb Hd Hin Hf Hh Hn.
  assert (Hbo : forall p, bucket_of n hs' p = bucket_of n hs p) by (intros p; unfold bucket_of; by rewrite Hid).
  split; rewrite ?length_insert; [apply Hco..|]. intros j cj bj Hcj Hbj.
  destruct (decide (i = j)) as [<-|Hne].
  - rewrite list_lookup_insert_eq in Hcj by (by eapply lookup_lt_Some).
    rewrite list_lookup_insert_eq in Hbj by (by eapply lookup_lt_Some).
    injection Hcj as <-. injection Hbj as <-. split_and!; [done..|]. intros p Hp. rewrite Hbo. auto.
  - rewrite list_lookup_insert_ne in Hcj by done. rewrite list_lookup_insert_ne in Hbj by done.
    destruct (co_bkt Hco Hcj Hbj) as (? & ? & ? & Hj). split_and!; [done..| |].
    + apply (dll_frame (bkt_links hs)); [|done]. intros q Hq. apply Hf.
      * intros Hqc. by eapply Hne, co_disjoint.
      * intros Hqc. apply Hne. specialize (Hin q Hqc). rewrite Hj in Hin by done. congruence.
    + intros p Hp. rewrite Hbo. auto.
Qed.

Lemma co_prepend i c b b' p :
  cs !! i = Some c -> arr !! i = Some b -> p ∉ c -> bucket_of n hs p = Some i ->
  hh_head b' = Some p -> bcount b' = u32 (bcount b + 1) ->
  bkt_links hs' = first_prev c (Some p) (upd_prev p None (upd_next p (head c) (bkt_links hs))) ->
  chains_ok hs' n (<[i := b']> arr) (<[i := p :: c]> cs).
Proof using Hco Hid.
  intros Hc Hb Hp Hbo Hh Hn Hl.
  destruct (co_bkt Hco Hc Hb) as (_ & Hcnt & Hd & Hin).
  apply (co_update i c _ b); [done..| | | |done|].
  - rewrite Hl. apply dll_prepend; [done..|].
    unfold bucket_of in Hbo. apply view_alloc. apply (view_alloc ident).
    fold (idents hs). destruct (idents hs !! p); [by eexists|done].
  - intros q [->|Hq]%elem_of_cons; auto.
  - intros q Hq [Hqp _]%not_elem_of_cons. by rewrite Hl, first_prev_notin, upd_prev_ne, upd_next_ne.
  - rewrite Hn, Hcnt, u32_succ. simpl. f_equal. lia.
Qed.

Lemma co_remove i c1 p c2 b b' :
  cs !! i = Some (c1 ++ p :: c2) -> arr !! i = Some b ->
  hh_head b' = head (c1 ++ c2) -> bcount b' = u32 (bcount b - 1) ->
  bkt_links hs' = first_prev c2 (last c1) (last_next c1 (head c2) (bkt_links hs)) ->
  chains_ok hs' n (<[i := b']> arr) (<[i := c1 ++ c2]> cs).
Proof using Hco Hid.
  intros Hc Hb Hh Hn Hl.
  destruct (co_bkt Hco Hc Hb) as (_ & Hcnt & Hd & Hin).
  apply (co_update i _ _ _ _ Hc Hb); [| | |done|].
  - rewrite Hl. by eapply dll_remove.
  - intros q Hq. apply Hin. rewrite elem_of_app, elem_of_cons. apply elem_of_app in Hq as [?|?]; auto.
  - intros q _ [Hq1 Hq2]%not_elem_of_app. by rewrite Hl, first_prev_notin, last_next_notin.
  - rewrite Hn, Hcnt, u32_pred, !length_app. simpl. f_equal. lia.
Qed.

(** the chains do not depend on anything else *)
Lemma co_frame : (forall c p, c ∈ cs -> p ∈ c -> bkt_links hs' !! p = bkt_links hs !! p /\ idents hs' !! p = idents hs !! p) ->
  chains_ok hs' n arr cs.
Proof using Hco.
  clear Hid. intros Hf. split; [apply Hco..|]. intros i c b Hc Hb.
  destruct (co_bkt Hco Hc Hb) as (? & ? & Hd & Hin).
  assert (c ∈ cs) by (by eapply list_elem_of_lookup_2). split_and!; [done..| |].
  - eapply dll_frame; [|done]. intros q Hq. by eapply Hf.
  - intros p Hp. unfold bucket_of. destruct (Hf c p) as [_ ->]; [done..|]. by apply Hin.
Qed.
End chains.

(** ** Lookup in a chain *)

(** the test of [HASH_FIND_IN_BKT] *)
Definition hmatch (keyptr : string) (keylen_in hashval : Z) (h : UT_hash_handle) : bool :=
  (hashv h =? hashval)%Z && (keylen h =? keylen_in)%Z && HASH_KEYCMP_eq (key h) keyptr keylen_in.

Definition found (P : UT_hash_handle -> bool) (hs : gmap ptr UT_hash_handle) (c : list ptr) (out : option ptr) : Prop :=
  match out with
  | Some p => p ∈ c /\ exists h, hs !! p = Some h /\ P h = true
  | None => forall p h, p ∈ c -> hs !! p = Some h -> P h = false
  end.

Lemma find_in_chain_spec k kl v c m : forall fuel a,
  dseg (bkt_links (handles m)) a c None -> length c < fuel ->
  hwp nofault (find_in_chain fuel (head c) k kl v) m (fun out m' => m' = m /\ found (hmatch k kl v) (handles m) c out).
Proof.
  induction c as [|p c IH]; intros fuel a Hd Hf; (destruct fuel as [|fuel]; [simpl in Hf; lia|]); simpl.
  { apply hwp_ret. split; [done|]. by intros p h ?%elem_of_nil. }
  destruct Hd as [Hp Hd]. assert (Hal : is_Some (handles m !! p)).
  { apply (view_alloc (fun h => (hh_prev h, hh_next h))). fold (bkt_links (handles m)). by rewrite Hp. }
  hstep. apply hwp_hget; [done|]. intros h Hh. fold (hmatch k kl v h).
  destruct (hmatch k kl v h) eqn:Hm.
  { apply hwp_ret. split; [done|]. split; [by left|]. eauto. }
  rewrite (bkt_at _ _ _ Hh) in Hp. injection Hp as _ Hn. rewrite Hn, first_or_head. simpl in Hf.
  eapply hwp_conseq; [eapply IH; [done|lia]|]. intros out m' [-> Ho]. split; [done|].
  destruct out as [q|].
  - destruct Ho as [? ?]. split; [by right|done].
  - intros q h' [->|Hq]%elem_of_cons Hh'; [congruence|eauto].
Qed.

Lemma prefix_eq s n : n = String.length s -> String.substring 0 n s = s.
Proof. intros ->. induction s as [|a s IH]; simpl; [done|]. by rewrite IH. Qed.

Definition short (k : string) : Prop := (Z.of_nat (String.length k) < 2 ^ 32)%Z.
Definition strlen (k : string) : Z := Z.of_nat (String.length k).

(** an element matches exactly when its key is the one that is looked for *)
Lemma hmatch_key k k' h :
  short k -> short k' -> ident h = (tbl h, k', u32 (strlen k'), HASH_VALUE k' (strlen k')) ->
  hmatch k (strlen k) (HASH_VALUE k (strlen k)) h = true <-> k' = k.
Proof.
  unfold short, strlen, hmatch, HASH_KEYCMP_eq. intros Hk Hk' Hi. injection Hi as -> -> ->.
  rewrite u32_small by lia. split; [|intros ->].
  - intros [[_ Hl%Z.eqb_eq]%andb_true_iff He]%andb_true_iff. apply String.eqb_eq in He.
    rewrite !prefix_eq in He by lia. done.
  - by rewrite !Z.eqb_refl, String.eqb_refl.
Qed.

(** ** Tables *)

(** the table [t] of the elements [al], of which those of [cov] are in the chains and [n] are
    counted; [T0] and [A0] are the other tables and arrays, [ads] is at least the number of
    additions so far *)
Record table_inv (T0 : gmap ptr UT_hash_table) (A0 : gmap ptr (list UT_hash_bucket))
    (ads : nat) (t a : ptr) (tb : UT_hash_table) (arr : list UT_hash_bucket) (cs : list (list ptr))
    (al : list (ptr * string)) (cov : list ptr) (n : nat) (m : ut_mem) : Prop := {
  ti_tables : tables m = <[t := tb]> T0; ti_t : T0 !! t = None;
  ti_arrays : arrays m = <[a := arr]> A0; ti_a : A0 !! a = None;
  ti_buckets : buckets tb = Some a;
  ti_lg : (0 <= log2_num_buckets tb <= 31)%Z; ti_adds : (log2_num_buckets tb <= 5 + Z.of_nat ads)%Z;
  ti_n : num_buckets tb = (2 ^ log2_num_buckets tb)%Z;
  ti_items : num_items tb = u32 (Z.of_nat n);
  ti_tail : tbl_tail tb = last al.*1;
  ti_app : dll (app_links (handles m)) al.*1;
  ti_el : forall p k, (p, k) ∈ al -> short k /\
    idents (handles m) !! p = Some (Some t, k, u32 (strlen k), HASH_VALUE k (strlen k));
  ti_chains : chains_ok (handles m) (num_buckets tb) arr cs;
  ti_cover : forall p, p ∈ cov <-> exists c, c ∈ cs /\ p ∈ c
}.
Arguments ti_tables {_ _ _ _ _ _ _ _ _ _ _ _}.
Arguments ti_t {_ _ _ _ _ _ _ _ _ _ _ _}.
Arguments ti_arrays {_ _ _ _ _ _ _ _ _ _ _ _}.
Arguments ti_a {_ _ _ _ _ _ _ _ _ _ _ _}.
Arguments ti_buckets {_ _ _ _ _ _ _ _ _ _ _ _}.
Arguments ti_lg {_ _ _ _ _ _ _ _ _ _ _ _}.
Arguments ti_adds {_ _ _ _ _ _ _ _ _ _ _ _}.
Arguments ti_n {_ _ _ _ _ _ _ _ _ _ _ _}.
Arguments ti_items {_ _ _ _ _ _ _ _ _ _ _ _}.
Arguments ti_tail {_ _ _ _ _ _ _ _ _ _ _ _}.
Arguments ti_app {_ _ _ _ _ _ _ _ _ _ _ _}.
Arguments ti_el {_ _ _ _ _ _ _ _ _ _ _ _} _ {_ _}.
Arguments ti_chains {_ _ _ _ _ _ _ _ _ _ _ _}.
Arguments ti_cover {_ _ _ _ _ _ _ _ _ _ _ _}.

(** [hd] is the head of a table with the elements [al] *)
Definition rep T0 A0 (ads : nat) (hd : option ptr) (al : list (ptr * string)) (m : ut_mem) : Prop :=
  match hd with
  | None => al = [] /\ tables m = T0 /\ arrays m = A0
  | Some _ => head al.*1 = hd /\ exists t a tb arr cs, table_inv T0 A0 ads t a tb arr cs al al.*1 (length al) m
  end.

Section inv.
Context (T0 : gmap ptr UT_hash_table) (A0 : gmap ptr (list UT_hash_bucket)) (ads : nat).
Context (t a : ptr) (tb : UT_hash_table) (arr : list UT_hash_bucket) (cs : list (list ptr)).
Context (al : list (ptr * string)) (cov : list ptr) (n : nat) (m : ut_mem).
Hypothesis HI : table_inv T0 A0 ads t a tb arr cs al cov n m.

Lemma ti_table_at : tables m !! t = Some tb.
Proof using HI. by rewrite (ti_tables HI), lookup_insert_eq. Qed.
Lemma ti_array_at : arrays m !! a = Some arr.
Proof using HI. by rewrite (ti_arrays HI), lookup_insert_eq. Qed.
Lemma ti_elem p : p ∈ al.*1 -> exists h k, handles m !! p = Some h /\ (p, k) ∈ al /\ short k /\
  ident h = (Some t, k, u32 (strlen k), HASH_VALUE k (strlen k)).
Proof using HI.
  intros ([q k] & Hq & Hp)%list_elem_of_fmap. simpl in Hq. subst q.
  destruct (ti_el HI Hp) as [Hs Hi].
  unfold idents in Hi. rewrite lookup_fmap in Hi. destruct (handles m !! p) as [h|] eqn:Hh; [|done].
  injection Hi as Hi1 Hi2 Hi3 Hi4. exists h, k. split_and!; [done..|]. unfold ident. congruence.
Qed.
(** the bucket a hash value selects, and its chain *)
Lemma ti_bucket v : exists c b, cs !! Z.to_nat (HASH_TO_BKT v (num_buckets tb)) = Some c /\
  arr !! Z.to_nat (HASH_TO_BKT v (num_buckets tb)) = Some b.
Proof using HI.
  eapply co_bucket; [apply HI|]. pose proof (co_arr (ti_chains HI)) as Hn.
  rewrite (ti_n HI) in *.
  pose proof (HASH_TO_BKT_range v _ (ti_lg HI)). lia.
Qed.
(** the chain of an element *)
Lemma ti_chain_of p i c : cs !! i = Some c -> p ∈ cov ->
  bucket_of (num_buckets tb) (handles m) p = Some i <-> p ∈ c.
Proof using HI.
  pose proof (ti_chains HI) as Hco. intros Hc Hp. split.
  - intros Hb. apply (ti_cover HI) in Hp as (d & [j Hd]%list_elem_of_lookup & Hp).
    destruct (co_chain _ _ _ _ Hco _ _ Hd) as [b' Hb'].
    destruct (co_bkt Hco Hd Hb') as (_ & _ & _ & Hj).
    rewrite (Hj p Hp) in Hb. injection Hb as ->. congruence.
  - intros Hpc. destruct (co_chain _ _ _ _ Hco _ _ Hc) as [b' Hb'].
    by apply (co_bkt Hco Hc Hb').
Qed.
End inv.
Arguments ti_table_at {_ _ _ _ _ _ _ _ _ _ _ _}.
Arguments ti_array_at {_ _ _ _ _ _ _ _ _ _ _ _}.
Arguments ti_elem {_ _ _ _ _ _ _ _ _ _ _ _} _ {_}.
Arguments ti_bucket {_ _ _ _ _ _ _ _ _ _ _ _}.
Arguments ti_chain_of {_ _ _ _ _ _ _ _ _ _ _ _} _ {_ _ _}.

(** the answer of a lookup among [al] *)
Definition lookup_key (k : string) (al : list (ptr * string)) (out : option ptr) : Prop :=
  match out with Some p => (p, k) ∈ al | None => forall p, (p, k) ∉ al end.

Lemma rep_find T0 A0 ads hd al m k :
  rep T0 A0 ads hd al m -> short k ->
  hwp nofault (HASH_FIND hd k (strlen k)) m (fun out m' => m' = m /\ lookup_key k al out).
Proof.
  intros Hr Hk. destruct hd as [hd|]; simpl in *.
  2:{ apply hwp_ret. destruct Hr as [-> _]. split; [done|]. by intros p ?%elem_of_nil. }
  destruct Hr as (Hhd & t & a & tb & arr & cs & HI).
  destruct (ti_elem HI (p := hd)) as (h & k0 & Hh & _ & _ & Hid).
  { by apply head_Some_elem_of. }
  set (v := HASH_VALUE k (strlen k)).
  destruct (ti_bucket HI v) as (c & b & Hc & Hb).
  destruct (co_bkt (ti_chains HI) Hc Hb) as (Hhh & _ & [Hnd Hd] & _).
  hstep. apply hwp_hget; [by eexists|]. intros h' Hh'. rewrite Hh in Hh'. injection Hh' as <-.
  injection Hid as Ht _ _ _. hstep. eapply hwp_deref; [done|]. hstep.
  eapply hwp_tget; [exact (ti_table_at HI)|].
  hstep. eapply hwp_deref; [apply HI|]. hstep. eapply hwp_bget; [exact (ti_array_at HI)|done|].
  unfold HASH_FIND_IN_BKT. rewrite Hhh. eapply hwp_conseq; [apply find_in_chain_spec with (a := None)|].
  - done.
  - pose proof (dseg_size _ _ _ _ Hnd Hd) as Hsz. unfold bkt_links in Hsz. rewrite map_size_fmap in Hsz.
    unfold loop_fuel. lia.
  - intros out m' [-> Ho]. split; [done|]. destruct out as [p|]; simpl in *.
    + destruct Ho as (Hp & hp & Hhp & Hm).
      destruct (ti_elem HI (p := p)) as (hp' & kp & Hhp' & Hin & Hs & Hidp).
      { apply (ti_cover HI). exists c. split; [by eapply list_elem_of_lookup_2|done]. }
      rewrite Hhp in Hhp'. injection Hhp' as <-. 
      apply (hmatch_key k kp) in Hm; [by subst kp|done|done|]. 
      injection Hidp as Ht' ? ? ?. unfold ident. congruence.
    + intros p Hp. destruct (ti_el HI Hp) as [_ Hi].
      assert (Hpf : p ∈ al.*1) by (by apply (list_elem_of_fmap_2 fst) in Hp).
      assert (Hpc : p ∈ c).
      { eapply (ti_chain_of HI); [done..|]. unfold bucket_of. by rewrite Hi. }
      unfold idents in Hi. rewrite lookup_fmap in Hi. destruct (handles m !! p) as [hp|] eqn:Hhp; [|done].
      specialize (Ho p hp Hpc Hhp). injection Hi as Hi.
      assert (Hm : hmatch k (strlen k) v hp = true); [|congruence].
      apply (hmatch_key k k hp Hk Hk); [unfold ident; congruence|done].
Qed.

(** ** What is not touched *)

(** only the handles of [l] are written *)
Definition hframe (l : list ptr) (hs hs' : gmap ptr UT_hash_handle) : Prop :=
  dom hs' = dom hs /\ forall q, q ∉ l -> hs' !! q = hs !! q.

Lemma hframe_refl l hs : hframe l hs hs.
Proof. done. Qed.
Lemma hframe_trans l hs1 hs2 hs3 : hframe l hs1 hs2 -> hframe l hs2 hs3 -> hframe l hs1 hs3.
Proof. intros [? H1] [? H2]. split; [congruence|]. intros q Hq. by rewrite H2, H1. Qed.
Lemma hframe_weaken l l' hs hs' : hframe l hs hs' -> (forall q, q ∈ l -> q ∈ l') -> hframe l' hs hs'.
Proof. intros [? H1] Hl. split; [done|]. intros q Hq. apply H1. auto. Qed.
Lemma hframe_alter l f p hs hs' : p ∈ l -> hframe l hs hs' -> hframe l hs (halter f p hs').
Proof.
  intros Hp [Hd H1]. split; [by rewrite halter_dom|]. intros q Hq.
  rewrite lookup_alter_ne by (by intros ->). auto.
Qed.
Lemma hframe_alter_opt l f o hs hs' : (forall p, o = Some p -> p ∈ l) -> hframe l hs hs' -> hframe l hs (halter_opt f o hs').
Proof. intros Ho Hh. destruct o; [by apply hframe_alter; auto|done]. Qed.
Lemma hframe_alloc l hs hs' q : hframe l hs hs' -> is_Some (hs !! q) -> is_Some (hs' !! q).
Proof. intros [Hd _] Hq. apply elem_of_dom. rewrite Hd. by apply elem_of_dom. Qed.
Lemma frame_view {V} (g : UT_hash_handle -> V) (l : list ptr) (hs hs' : gmap ptr UT_hash_handle) q :
  (forall q, q ∉ l -> hs' !! q = hs !! q) -> q ∉ l -> (g <$> hs') !! q = (g <$> hs) !! q.
Proof. intros Hf Hq. by rewrite !lookup_fmap, Hf. Qed.
Lemma hframe_bkt l hs hs' q : hframe l hs hs' -> q ∉ l -> bkt_links hs' !! q = bkt_links hs !! q.
Proof. intros [_ Hf]. by apply frame_view. Qed.
#[export] Hint Resolve hframe_alter hframe_alter_opt hframe_refl : alloc.

(** ** The expansion of a table *)

(** the elements of [moved] are in the new chains, nothing else has changed *)
Record expanding (m0 : ut_mem) (t new : ptr) (tb0 : UT_hash_table) (moved : list ptr) (m : ut_mem) : Prop := {
  ex_table : exists k, tables m = <[t := set_nonideal k tb0]> (tables m0);
  ex_chains : exists arr cs, arrays m = <[new := arr]> (arrays m0) /\
    chains_ok (handles m) (2 * num_buckets tb0) arr cs /\ forall q, q ∈ moved <-> exists c, c ∈ cs /\ q ∈ c;
  ex_app : app_links (handles m) = app_links (handles m0);
  ex_id : idents (handles m) = idents (handles m0);
  ex_frame : hframe moved (handles m0) (handles m)
}.

Lemma bucket_of_at n hs p h : hs !! p = Some h -> bucket_of n hs p = Some (Z.to_nat (HASH_TO_BKT (hashv h) n)).
Proof. intros Hh. unfold bucket_of. by rewrite (ident_at _ _ _ Hh). Qed.

Lemma cover_prepend (cov c : list ptr) (cs : list (list ptr)) (i : nat) (p : ptr) :
  cs !! i = Some c -> (forall q, q ∈ cov <-> exists c, c ∈ cs /\ q ∈ c) ->
  forall q, q ∈ p :: cov <-> exists d, d ∈ <[i := p :: c]> cs /\ q ∈ d.
Proof.
  intros Hc Hcov q. rewrite elem_of_cons, Hcov. assert (Hi : i < length cs) by (by eapply lookup_lt_Some).
  split.
  - intros [->|(d & [j Hd]%list_elem_of_lookup & Hq)].
    + exists (p :: c). split; [|by left]. apply list_elem_of_lookup. exists i. by rewrite list_lookup_insert_eq.
    + destruct (decide (i = j)) as [<-|].
      * exists (p :: c). split; [|right; congruence]. apply list_elem_of_lookup. exists i. by rewrite list_lookup_insert_eq.
      * exists d. split; [|done]. apply list_elem_of_lookup. exists j. by rewrite list_lookup_insert_ne.
  - intros (d & [j Hd]%list_elem_of_lookup & Hq). destruct (decide (i = j)) as [<-|].
    + rewrite list_lookup_insert_eq in Hd by done. injection Hd as <-.
      apply elem_of_cons in Hq as [->|Hq]; [by left|right]. exists c. split; [by eapply list_elem_of_lookup_2|done].
    + rewrite list_lookup_insert_ne in Hd by done. right. exists d. split; [by eapply list_elem_of_lookup_2|done].
Qed.

Lemma move_handle_spec m0 t new tb0 lg moved m p :
  num_buckets tb0 = (2 ^ lg)%Z -> (0 <= lg <= 30)%Z -> expanding m0 t new tb0 moved m ->
  p ∉ moved -> is_Some (handles m0 !! p) ->
  hwp nofault (move_handle t new p) m (fun _ m' => expanding m0 t new tb0 (p :: moved) m').
Proof.
  intros Hn Hlg [(k & Htb) (arr & cs & Harr & Hco & Hcov) Happ Hid Hfr] Hp Hal0.
  assert (Hal : is_Some (handles m !! p)) by (by eapply hframe_alloc).
  assert (Hn2 : (2 ^ lg * 2 = 2 ^ (lg + 1))%Z) by (rewrite Z.pow_add_r; lia).
  assert (Hu : u32 (num_buckets tb0 * 2) = (2 * num_buckets tb0)%Z).
  { rewrite Hn. pose proof (pow_bound (lg + 1) ltac:(lia)). rewrite u32_small; lia. }
  unfold move_handle. hstep. apply hwp_hget; [done|]. intros h Hh. hstep.
  eapply hwp_tget; [by rewrite Htb, lookup_insert_eq|]. cbn [num_buckets set_nonideal]. rewrite Hu.
  set (i := HASH_TO_BKT (hashv h) (2 * num_buckets tb0)).
  pose proof (bucket_of_at (2 * num_buckets tb0) _ _ _ Hh) as Hbo. fold i in Hbo.
  destruct (co_bucket _ _ _ _ Hco (Z.to_nat i)) as (c & b & Hc & Hb).
  { pose proof (co_arr Hco) as Ha. rewrite Hn in Ha.
    pose proof (HASH_TO_BKT_range (hashv h) (lg + 1) ltac:(lia)) as Hr. rewrite <- Hn2, Z.mul_comm, <- Hn in Hr.
    fold i in Hr. lia. }
  destruct (co_bkt Hco Hc Hb) as (Hhd & Hcnt & Hd & _).
  assert (Hil : Z.to_nat i < length arr) by (by eapply lookup_lt_Some).
  hstep. eapply hwp_bmod; [by rewrite Harr, lookup_insert_eq|done|]. rewrite Harr, insert_insert_eq.
  hstep. eapply hwp_bget; [apply lookup_insert_eq|by apply list_lookup_insert_eq|].
  cbn [bcount hh_head expand_mult set_bcount ideal_chain_maxlen set_nonideal].
  hstep. apply hwp_conseq with (Q := fun _ m2 => exists k' b2,
    m2 = UtMem (handles m) (<[t := set_nonideal k' tb0]> (tables m0)) (<[new := <[Z.to_nat i := b2]> arr]> (arrays m0)) /\
    hh_head b2 = head c /\ bcount b2 = u32 (bcount b + 1)).
  { apply hwp_hwhen; intros _; [|exists k, (set_bcount (u32 (bcount b + 1)) b); rewrite <- Htb; by destruct m].
    hstep. eapply hwp_tmod; [cbn; by rewrite Htb, lookup_insert_eq|]. cbn [tables set_arrays set_tables]. rewrite Htb, insert_insert_eq.
    apply hwp_hwhen; intros _; [|eexists _, (set_bcount (u32 (bcount b + 1)) b); by split_and!].
    eapply hwp_bmod; [cbn; apply lookup_insert_eq|by apply list_lookup_insert_eq|].
    cbn. rewrite insert_insert_eq, list_insert_insert_eq. eexists _, _. by split_and!. }
  intros _ m2 (k' & b2 & -> & Hh2 & Hc2). rewrite Hhd.
  assert (Hpc : p ∉ c).
  { intros Hpc. apply Hp, Hcov. exists c. split; [by eapply list_elem_of_lookup_2|done]. }
  do 2 (hstep; hstep). hstep. hstep.
  { intros q Hq%head_Some_elem_of. eauto with alloc. }
  eapply hwp_bmod; [cbn; apply lookup_insert_eq|by apply list_lookup_insert_eq|]. cbn.
  rewrite insert_insert_eq, list_insert_insert_eq.
  split; cbn [tables arrays handles set_handles set_tables set_arrays]; [by eexists| | | |].
  - eexists _, (<[Z.to_nat i := p :: c]> cs). split_and!; [done| |by apply cover_prepend].
    apply (co_prepend (handles m) _ _ arr cs Hco) with (c := c) (b := b); [by views|done..|].
    views. by rewrite upd_next_prev.
  - by views.
  - by views.
  - apply hframe_alter_opt.
    { intros q Hq%head_Some_elem_of. right. apply Hcov. exists c. split; [by eapply list_elem_of_lookup_2|done]. }
    do 2 (apply hframe_alter; [by left|]). eapply hframe_weaken; [done|]. intros. by right.
Qed.

Section move_chains.
Context (m0 : ut_mem) (t new a0 : ptr) (tb0 : UT_hash_table) (lg : Z) (arr0 : list UT_hash_bucket) (cs0 : list (list ptr)).
Hypothesis Hn : num_buckets tb0 = (2 ^ lg)%Z.
Hypothesis Hlg : (0 <= lg <= 30)%Z.

Lemma expanding_fuel moved m c a :
  expanding m0 t new tb0 moved m -> NoDup c -> dseg (bkt_links (handles m0)) a c None -> length c < loop_fuel m.
Proof using Type.
  clear Hn Hlg. intros Hex Hnd Hd. pose proof (dseg_size _ _ _ _ Hnd Hd) as Hs. unfold bkt_links in Hs. rewrite map_size_fmap in Hs.
  destruct (ex_frame _ _ _ _ _ _ Hex) as [Hdom _]. unfold loop_fuel.
  rewrite <- (size_dom (D := gset ptr) (handles m)), Hdom, size_dom. lia.
Qed.

Lemma move_chain_spec c : forall fuel moved m a,
  expanding m0 t new tb0 moved m -> dseg (bkt_links (handles m0)) a c None -> NoDup c ->
  (forall p, p ∈ c -> p ∉ moved) -> length c < fuel ->
  hwp nofault (move_chain fuel t new (head c)) m (fun _ m' =>
    exists moved', expanding m0 t new tb0 moved' m' /\ forall q, q ∈ moved' <-> q ∈ c \/ q ∈ moved).
Proof using Hn Hlg.
  induction c as [|p c IH]; intros fuel moved m a Hex Hd Hnd Hdis Hf; (destruct fuel as [|fuel]; [simpl in Hf; lia|]); simpl.
  { apply hwp_ret. exists moved. split; [done|]. intros q. rewrite elem_of_nil. tauto. }
  destruct Hd as [Hp Hd]. apply NoDup_cons in Hnd as [Hpc Hnd]. simpl in Hf.
  assert (Hpm : p ∉ moved) by (apply Hdis; by left).
  assert (Hal : is_Some (handles m0 !! p)).
  { apply (view_alloc (fun h => (hh_prev h, hh_next h))). fold (bkt_links (handles m0)). by rewrite Hp. }
  hstep. apply hwp_hget; [eapply hframe_alloc; [apply Hex|done]|]. intros h Hh.
  pose proof (hframe_bkt _ _ _ p (ex_frame _ _ _ _ _ _ Hex) Hpm) as Hb.
  rewrite (bkt_at _ _ _ Hh), Hp in Hb. injection Hb as _ Hb. rewrite Hb, first_or_head.
  hstep. eapply hwp_conseq; [by eapply move_handle_spec|]. intros [] m1 Hex1.
  eapply hwp_conseq; [eapply IH; [done..| |lia]|].
  { intros q Hq [Heq|Hqm]%elem_of_cons; [by subst|]. apply (Hdis q); [by right|done]. }
  intros _ m2 (moved' & Hex2 & Hm). exists moved'. split; [done|]. intros q. rewrite Hm, !elem_of_cons. tauto.
Qed.

Hypothesis Ha : arrays m0 !! a0 = Some arr0.
Hypothesis Hnew : a0 <> new.
Hypothesis Hbk : buckets tb0 = Some a0.
Hypothesis Hco : chains_ok (handles m0) (2 ^ lg) arr0 cs0.

Lemma move_chains_spec ks : forall moved m,
  expanding m0 t new tb0 moved m -> NoDup ks -> (forall i, i ∈ ks -> i < length arr0) ->
  (forall i c p, i ∈ ks -> cs0 !! i = Some c -> p ∈ c -> p ∉ moved) ->
  hwp nofault (move_chains t new ks) m (fun _ m' => exists moved', expanding m0 t new tb0 moved' m' /\
    forall q, q ∈ moved' <-> (exists i c, i ∈ ks /\ cs0 !! i = Some c /\ q ∈ c) \/ q ∈ moved).
Proof using Hn Hlg Ha Hnew Hbk Hco.
  induction ks as [|i ks IH]; intros moved m Hex Hnd Hlt Hdis; simpl.
  { apply hwp_ret. exists moved. split; [done|]. intros q. split; [by right|]. intros [(?&?&?%elem_of_nil&_)|?]; done. }
  apply NoDup_cons in Hnd as [Hi Hnd].
  destruct (ex_table _ _ _ _ _ _ Hex) as [k Htb].
  destruct (ex_chains _ _ _ _ _ _ Hex) as (arr & cs & Harr & _).
  destruct (co_bucket _ _ _ _ Hco i) as (c & b & Hc & Hb); [apply Hlt; by left|].
  destruct (co_bkt Hco Hc Hb) as (Hhd & _ & [Hndc Hd] & _).
  hstep. eapply hwp_tget; [by rewrite Htb, lookup_insert_eq|]. hstep. eapply hwp_deref; [exact Hbk|].
  hstep. eapply hwp_bget; [by rewrite Harr, lookup_insert_ne|by rewrite Nat2Z.id|].
  hstep. rewrite Hhd.
  eapply hwp_conseq; [apply (move_chain_spec c (loop_fuel m) _ _ _ Hex Hd Hndc); [|by eapply expanding_fuel]|].
  { intros p Hp. eapply Hdis; [by left|done..]. }
  intros _ m1 (mv1 & Hex1 & Hmv1). eapply hwp_conseq; [apply (IH mv1 m1 Hex1 Hnd)|].
  - intros j Hj. apply Hlt. by right.
  - intros j d p Hj Hd' Hp [Hpc|Hpm]%Hmv1.
    + assert (i = j) as <- by (by eapply (co_disjoint _ _ _ _ Hco)). done.
    + eapply Hdis; [right; exact Hj|done..].
  - intros _ m2 (mv2 & Hex2 & Hmv2). exists mv2. split; [done|]. intros q. rewrite Hmv2, Hmv1. split.
    + intros [(j & d & ? & ? & ?)|[?|?]]; [left|left|by right].
      * exists j, d. split_and!; [by right|done..].
      * exists i, c. split_and!; [by left|done..].
    + intros [(j & d & [->|?]%elem_of_cons & ? & ?)|?]; [|left; by exists j, d|by right; right].
      right; left. congruence.
Qed.
End move_chains.

(** what [HASH_EXPAND_BUCKETS] makes of the table *)
Definition expanded (new : ptr) (tb tb' : UT_hash_table) : Prop :=
  buckets tb' = Some new /\ log2_num_buckets tb' = (log2_num_buckets tb + 1)%Z /\
  num_buckets tb' = (2 * num_buckets tb)%Z /\ num_items tb' = num_items tb /\ tbl_tail tb' = tbl_tail tb.

(** the assignments to the table that end it *)
Lemma expand_flags m t new tb tb1 ts :
  num_buckets tb1 = num_buckets tb -> log2_num_buckets tb1 = log2_num_buckets tb ->
  num_items tb1 = num_items tb -> tbl_tail tb1 = tbl_tail tb ->
  num_buckets tb = (2 ^ log2_num_buckets tb)%Z -> (0 <= log2_num_buckets tb <= 30)%Z ->
  tables m = <[t := tb1]> ts ->
  hwp nofault (_ <-* tmod t (fun tb => set_buckets (Some new) (u32 (num_buckets tb * 2)) (u32 (log2_num_buckets tb + 1)) tb) ;;
    _ <-* tmod t (fun tb => set_ineff
          (if (Z.shiftr (num_items tb) 1 <? nonideal_items tb)%Z then u32 (ineff_expands tb + 1) else 0%Z) tb) ;;
    tb <-* tget t ;;
    hwhen (1 <? ineff_expands tb)%Z (tmod t (set_noexpand 1))) m
    (fun _ m' => exists tb', expanded new tb tb' /\ m' = UtMem (handles m) (<[t := tb']> ts) (arrays m)).
Proof.
  intros Hn Hl Hi Htl Hpow Hlg Ht.
  assert (Hu : u32 (num_buckets tb * 2) = (2 * num_buckets tb)%Z).
  { pose proof (pow_bound (log2_num_buckets tb) ltac:(lia)). pose proof (Z.pow_le_mono_r 2 (log2_num_buckets tb) 30 ltac:(lia) ltac:(lia)).
    rewrite u32_small; lia. }
  assert (Hul : u32 (log2_num_buckets tb + 1) = (log2_num_buckets tb + 1)%Z) by (apply u32_small; lia).
  hstep. eapply hwp_tmod; [by rewrite Ht, lookup_insert_eq|]. rewrite Ht, insert_insert_eq, Hn, Hl, Hu, Hul.
  hstep. eapply hwp_tmod; [apply lookup_insert_eq|]. cbn [tables set_tables]. rewrite insert_insert_eq.
  hstep. eapply hwp_tget; [apply lookup_insert_eq|].
  apply hwp_hwhen; intros _.
  - eapply hwp_tmod; [apply lookup_insert_eq|]. cbn [tables set_tables]. rewrite insert_insert_eq.
    eexists. split; [|done]. split_and!; [done..|exact Hi|exact Htl].
  - eexists. split; [|done]. split_and!; [done..|exact Hi|exact Htl].
Qed.

Section expand.
Context `{MallocLaws}.
Context (T0 : gmap ptr UT_hash_table) (A0 : gmap ptr (list UT_hash_bucket)) (ads : nat).
Context (t a : ptr) (tb : UT_hash_table) (arr : list UT_hash_bucket) (cs : list (list ptr)).
Context (al : list (ptr * string)) (cov : list ptr) (n : nat) (m : ut_mem).
Hypothesis HI : table_inv T0 A0 ads t a tb arr cs al cov n m.

Lemma expand_bound : malloc_ok m (2 * num_buckets tb * sizeof_bucket)%Z = true -> (log2_num_buckets tb <= 30)%Z.
Proof using HI H0.
  intros Hm%malloc_bound. unfold sizeof_bucket in Hm. rewrite (ti_n HI) in Hm. pose proof (ti_lg HI).
  destruct (decide (log2_num_buckets tb <= 30)%Z); [done|].
  replace (log2_num_buckets tb) with 31%Z in Hm by lia. lia.
Qed.
Lemma expand_request : (2 ^ 36 <= 2 * num_buckets tb * sizeof_bucket)%Z -> 26 <= ads.
Proof using HI.
  intros Hs. unfold sizeof_bucket in Hs. rewrite (ti_n HI) in Hs. pose proof (ti_lg HI). pose proof (ti_adds HI).
  destruct (decide (log2_num_buckets tb <= 30)%Z); [|lia].
  pose proof (Z.pow_le_mono_r 2 (log2_num_buckets tb) 30 ltac:(lia) ltac:(lia)). lia.
Qed.
Lemma table_inv_adds : table_inv T0 A0 (S ads) t a tb arr cs al cov n m.
Proof using HI. pose proof (ti_adds HI). split; try apply HI. lia. Qed.

(** at the start nothing was moved; at the end, everything *)
Lemma expanding_start new k k' :
  expanding m t new (set_ideal k tb) [] (UtMem (handles m) (<[t := set_nonideal k' (set_ideal k tb)]> (tables m))
    (<[new := replicate (Z.to_nat (2 * num_buckets tb)) bucket_zero]> (arrays m))).
Proof using HI.
  split; cbn [tables handles arrays]; [by exists k'| |done..|apply hframe_refl].
  eexists _, (replicate (Z.to_nat (2 * num_buckets tb)) []). split; [done|].
  pose proof (pow_bound _ (ti_lg HI)) as Hp. rewrite <- (ti_n HI) in Hp. split.
  - cbn [num_buckets set_ideal]. rewrite <- (Z2Nat.id (2 * num_buckets tb)) at 1 by lia. apply co_empty.
  - intros q. split; [by intros ?%elem_of_nil|]. intros (c & [-> _]%elem_of_replicate & Hq). by apply elem_of_nil in Hq.
Qed.
Lemma moved_all (moved : list ptr) :
  (forall q, q ∈ moved <-> (exists i c, i ∈ seq 0 (Z.to_nat (num_buckets tb)) /\ cs !! i = Some c /\ q ∈ c) \/ q ∈ []) ->
  forall q, q ∈ moved <-> q ∈ cov.
Proof using HI.
  intros Hmv q. rewrite Hmv, (ti_cover HI). split.
  - intros [(i & c & _ & Hc & Hq)|[]%elem_of_nil]. exists c. split; [by eapply list_elem_of_lookup_2|done].
  - intros (c & [i Hc]%list_elem_of_lookup & Hq). left. exists i, c. split_and!; [|done..].
    apply elem_of_seq. apply lookup_lt_Some in Hc. rewrite (co_len (ti_chains HI)) in Hc.
    rewrite <- (co_arr (ti_chains HI)). lia.
Qed.

Lemma expand_done new m' moved k :
  arrays m !! new = None -> (log2_num_buckets tb <= 30)%Z ->
  expanding m t new (set_ideal k tb) moved m' -> (forall q, q ∈ moved <-> q ∈ cov) ->
  forall tb', expanded new tb tb' ->
  exists arr' cs', table_inv T0 A0 (S ads) t new tb' arr' cs' al cov n
    (UtMem (handles m') (<[t := tb']> (tables m)) (delete a (arrays m'))).
Proof using HI.
  intros Hnew Hlg Hex Hmv tb' (Hb & Hl & Hn & Hit & Htl).
  assert (Hnew' := Hnew). rewrite (ti_arrays HI) in Hnew'. apply lookup_insert_None in Hnew' as [HA0 Hne].
  destruct (ex_chains _ _ _ _ _ _ Hex) as (arr' & cs' & Harr & Hco & Hcov). cbn [num_buckets set_ideal] in Hco.
  exists arr', cs'. split; cbn [tables arrays handles].
  - rewrite (ti_tables HI), insert_insert_eq. done.
  - apply HI.
  - rewrite Harr, (ti_arrays HI), delete_insert_ne, delete_insert_id by (done || apply HI). done.
  - done.
  - done.
  - pose proof (ti_lg HI). lia.
  - pose proof (ti_adds HI). lia.
  - rewrite Hn, Hl, (ti_n HI), Z.pow_add_r by (pose proof (ti_lg HI); lia). lia.
  - rewrite Hit. apply HI.
  - rewrite Htl. apply HI.
  - rewrite (ex_app _ _ _ _ _ _ Hex). apply HI.
  - intros p k' Hp. rewrite (ex_id _ _ _ _ _ _ Hex). by apply (ti_el HI).
  - by rewrite Hn.
  - intros q. rewrite <- Hmv. apply Hcov.
Qed.

Lemma expand_spec : hwp (oom ads) (HASH_EXPAND_BUCKETS t) m (fun _ m' =>
  (exists a' tb' arr' cs', table_inv T0 A0 (S ads) t a' tb' arr' cs' al cov n m') /\ hframe cov (handles m) (handles m')).
Proof using HI H0.
  unfold HASH_EXPAND_BUCKETS. hstep. eapply hwp_tget; [exact (ti_table_at HI)|].
  hstep. apply hwp_new_buckets; [apply expand_request|]. intros new Hok Hnew. pose proof (expand_bound Hok) as Hlg.
  assert (Hne : a <> new).
  { intros <-. by rewrite (ti_array_at HI) in Hnew. }
  hstep. eapply hwp_tmod; [exact (ti_table_at HI)|].
  set (tb0 := set_ideal _ tb). cbn [tables set_tables set_arrays].
  hstep. eapply hwp_tmod; [apply lookup_insert_eq|].
  cbn [tables set_tables set_arrays set_handles handles arrays]. rewrite insert_insert_eq.
  hstep. eapply hwp_conseq; [apply hwp_weaken|].
  { apply (move_chains_spec m t new a tb0 (log2_num_buckets tb) arr cs) with (moved := []).
    - apply HI.
    - pose proof (ti_lg HI). lia.
    - exact (ti_array_at HI).
    - done.
    - apply HI.
    - rewrite <- (ti_n HI). apply HI.
    - apply expanding_start.
    - apply NoDup_seq.
    - intros i [_ Hi]%elem_of_seq. rewrite <- (co_arr (ti_chains HI)) in Hi. lia.
    - intros i c p _ _ _. by intros ?%elem_of_nil. }
  intros [] m1 (moved & Hex & Hmv).
  destruct (ex_table _ _ _ _ _ _ Hex) as [k Htb1].
  destruct (ex_chains _ _ _ _ _ _ Hex) as (arr1 & cs1 & Harr1 & _).
  hstep. eapply hwp_deref; [apply HI|].
  hstep. apply hwp_free_buckets. { rewrite Harr1, lookup_insert_ne by done. by rewrite (ti_array_at HI). }
  eapply hwp_conseq; [apply hwp_weaken, (expand_flags _ t new tb (set_nonideal k tb0) (tables m)); [done..| | |done]|].
  { apply HI. }
  { pose proof (ti_lg HI). lia. }
  intros [] m' (tb' & Hexp & ->).
  pose proof (moved_all _ Hmv) as Hmc.
  split.
  - cbn [handles set_arrays]. destruct (expand_done _ _ _ _ Hnew Hlg Hex Hmc _ Hexp) as (arr' & cs' & HI'). by exists new, tb', arr', cs'.
  - eapply hframe_weaken; [apply Hex|]. intros q. apply Hmc.
Qed.

Lemma maybe_expand_spec cond p : p ∈ al.*1 ->
  hwp (oom ads) (hwhen cond (h <-* hget p ;; t <-* deref (tbl h) ;; tb <-* tget t ;; hwhen (noexpand tb =? 0)%Z (HASH_EXPAND_BUCKETS t))) m
    (fun _ m' => (exists a' tb' arr' cs', table_inv T0 A0 (S ads) t a' tb' arr' cs' al cov n m') /\ hframe cov (handles m) (handles m')).
Proof using HI H0.
  intros Hp.
  assert (Hsame : (exists a' tb' arr' cs', table_inv T0 A0 (S ads) t a' tb' arr' cs' al cov n m) /\ hframe cov (handles m) (handles m)).
  { split; [exists a, tb, arr, cs; by apply table_inv_adds|apply hframe_refl]. }
  apply hwp_hwhen; intros _; [|done].
  destruct (ti_elem HI Hp) as (h & k & Hh & _ & _ & Hid). injection Hid as Ht _ _ _.
  hstep. apply hwp_hget; [by eexists|]. intros h' Hh'. rewrite Hh in Hh'. injection Hh' as <-.
  hstep. eapply hwp_deref; [done|]. hstep. eapply hwp_tget; [exact (ti_table_at HI)|].
  apply hwp_hwhen; intros _; [apply expand_spec|done].
Qed.
End expand.

(** ** Adding an element to the chains *)

(** the handles after [p] was put in front of the chain [c] *)
Definition prepended (p : ptr) (c : list ptr) (hs : gmap ptr UT_hash_handle) :=
  halter_opt (set_hh_prev (Some p)) (head c) (halter (set_hh_prev None) p (halter (set_hh_next (head c)) p hs)).

Section add_to_table.
Context `{MallocLaws}.
Context (T0 : gmap ptr UT_hash_table) (A0 : gmap ptr (list UT_hash_bucket)) (ads : nat).
Context (t a : ptr) (tb : UT_hash_table) (arr : list UT_hash_bucket) (cs : list (list ptr)).
Context (al : list (ptr * string)) (cov : list ptr) (n : nat) (m : ut_mem).
Hypothesis HI : table_inv T0 A0 ads t a tb arr cs al cov n m.
Context (p : ptr) (k : string).
Hypothesis Hp : (p, k) ∈ al.
Hypothesis Hcov : p ∉ cov.

Lemma prepended_inv i c b b' :
  cs !! i = Some c -> arr !! i = Some b -> bucket_of (num_buckets tb) (handles m) p = Some i ->
  hh_head b' = Some p -> bcount b' = u32 (bcount b + 1) ->
  table_inv T0 A0 ads t a (set_num_items (u32 (num_items tb + 1)) tb) (<[i := b']> arr) (<[i := p :: c]> cs) al (p :: cov) (S n)
    (UtMem (prepended p c (handles m)) (<[t := set_num_items (u32 (num_items tb + 1)) tb]> (tables m))
       (<[a := <[i := b']> arr]> (arrays m))).
Proof using HI Hcov.
  intros Hc Hb Hbo Hh Hn. split; cbn [tables arrays handles]; try apply HI.
  - by rewrite (ti_tables HI), insert_insert_eq.
  - by rewrite (ti_arrays HI), insert_insert_eq.
  - cbn [num_items set_num_items]. rewrite (ti_items HI), u32_succ. f_equal. lia.
  - unfold prepended. views. apply HI.
  - intros q kq Hq. unfold prepended. views. by apply (ti_el HI).
  - assert (Hpc : p ∉ c).
    { intros Hpc. apply Hcov, (ti_cover HI). exists c. split; [by eapply list_elem_of_lookup_2|done]. }
    apply (co_prepend (handles m) _ _ arr cs (ti_chains HI)) with (c := c) (b := b); [|done..|]; unfold prepended; by views.
  - apply cover_prepend; [done|]. apply (ti_cover HI).
Qed.

Lemma add_to_table_spec hd :
  head al.*1 = Some hd ->
  hwp (oom ads) (HASH_ADD_TO_TABLE hd (HASH_VALUE k (strlen k)) p) m (fun _ m' =>
    (exists a' tb' arr' cs', table_inv T0 A0 (S ads) t a' tb' arr' cs' al (p :: cov) (S n) m') /\
    hframe (p :: cov) (handles m) (handles m')).
Proof using HI Hcov Hp H0.
  intros Hhd. set (v := HASH_VALUE k (strlen k)).
  assert (Hpf : p ∈ al.*1) by (by apply (list_elem_of_fmap_2 fst) in Hp).
  assert (Hal : is_Some (handles m !! p)) by (eapply dll_app_alloc; [apply HI|done]).
  destruct (ti_elem HI (p := hd)) as (h & k0 & Hh & _ & _ & Hid); [by apply head_Some_elem_of|].
  destruct (ti_el HI Hp) as [_ Hidp].
  destruct (ti_bucket HI v) as (c & b & Hc & Hb). set (i := Z.to_nat (HASH_TO_BKT v (num_buckets tb))) in *.
  destruct (co_bkt (ti_chains HI) Hc Hb) as (Hhh & _ & Hd & _).
  assert (Hil : i < length arr) by (by eapply lookup_lt_Some).
  assert (Hcin : forall q, head c = Some q -> q ∈ cov).
  { intros q Hq%head_Some_elem_of. apply (ti_cover HI). exists c. split; [by eapply list_elem_of_lookup_2|done]. }
  unfold HASH_ADD_TO_TABLE. hstep. apply hwp_hget; [by eexists|]. intros h' Hh'.
  rewrite Hh in Hh'. injection Hh' as <-. injection Hid as Ht _ _ _.
  hstep. eapply hwp_deref; [done|]. hstep. eapply hwp_tmod; [exact (ti_table_at HI)|].
  hstep. eapply hwp_tget; [apply lookup_insert_eq|]. hstep. eapply hwp_deref; [apply HI|].
  cbn [num_buckets set_num_items]. unfold HASH_ADD_TO_BKT.
  hstep. eapply hwp_bmod; [exact (ti_array_at HI)|exact Hb|]. fold i.
  hstep. eapply hwp_bget; [apply lookup_insert_eq|by apply list_lookup_insert_eq|].
  cbn [hh_head set_bcount bcount expand_mult]. rewrite Hhh.
  do 3 (hstep; hstep). { intros q Hq%head_Some_elem_of. eauto with alloc. }
  hstep. eapply hwp_bmod; [apply lookup_insert_eq|by apply list_lookup_insert_eq|].
  cbn [arrays tables handles set_arrays]. rewrite insert_insert_eq, list_insert_insert_eq.
  fold (prepended p c (handles m)). set (b' := set_hh_head (Some p) (set_bcount (u32 (bcount b + 1)) b)).
  assert (HI1 := prepended_inv i c b b' Hc Hb ltac:(unfold bucket_of; by rewrite Hidp) eq_refl eq_refl).
  eapply hwp_conseq; [apply (maybe_expand_spec _ _ _ _ _ _ _ _ _ _ _ _ HI1); done|].
  intros [] m' [Hex Hfr]. split; [done|]. eapply hframe_trans; [|exact Hfr].
  apply hframe_alter_opt; [intros q Hq; right; auto|]. do 2 (apply hframe_alter; [by left|]). apply hframe_refl.
Qed.
End add_to_table.

(** ** [HASH_ADD_KEYPTR] *)

Lemma table_inv_cov T0 A0 ads t a tb arr cs al cov cov' n n' m :
  table_inv T0 A0 ads t a tb arr cs al cov n m -> (forall q, q ∈ cov' <-> q ∈ cov) -> n' = n ->
  table_inv T0 A0 ads t a tb arr cs al cov' n' m.
Proof.
  intros HI Hc ->. split; try apply HI. intros q. rewrite Hc. apply (ti_cover HI).
Qed.

(** a table does not depend on the handles of other elements *)
Lemma table_inv_frame T0 A0 ads t a tb arr cs al cov n m (hs' : gmap ptr UT_hash_handle) (l : list ptr) :
  table_inv T0 A0 ads t a tb arr cs al cov n m -> (forall q, q ∉ l -> hs' !! q = handles m !! q) ->
  (forall q, q ∈ l -> q ∉ al.*1 /\ q ∉ cov) -> table_inv T0 A0 ads t a tb arr cs al cov n (set_handles hs' m).
Proof.
  intros HI Hf Hl. split; cbn [handles tables arrays set_handles]; try apply HI.
  - apply (dll_frame (app_links (handles m))); [|apply HI]. intros q Hq. apply (frame_view _ l); [done|].
    intros Hql. by destruct (Hl q Hql).
  - intros p k Hp. unfold idents. rewrite (frame_view _ l (handles m)); [by apply (ti_el HI)|done|].
    intros Hql. destruct (Hl p Hql) as [Hn _]. apply Hn. by apply (list_elem_of_fmap_2 fst) in Hp.
  - apply (co_frame (handles m)); [apply HI|]. intros c p Hc Hp.
    assert (Hpl : p ∉ l). { intros Hpl. destruct (Hl p Hpl) as [_ Hn]. apply Hn, (ti_cover HI). eauto. }
    split; by apply (frame_view _ l).
Qed.

Section add.
Context `{MallocLaws}.
Context (T0 : gmap ptr UT_hash_table) (A0 : gmap ptr (list UT_hash_bucket)) (ads : nat).
Context (p : ptr) (k : string).
Hypothesis Hk : short k.

Lemma append_spec t a tb arr cs al m hd i :
  table_inv T0 A0 ads t a tb arr cs al al.*1 (length al) m -> head al.*1 = Some hd -> p ∉ al.*1 ->
  idents (handles m) !! p = Some (i, k, u32 (strlen k), HASH_VALUE k (strlen k)) ->
  hwp nofault (h <-* hget hd ;; _ <-* hmod p (set_tbl (tbl h)) ;; _ <-* HASH_APPEND_LIST hd p ;; hret hd) m
    (fun r m' => r = hd /\ table_inv T0 A0 ads t a (set_tail (Some p) tb) arr cs (al ++ [(p, k)]) al.*1 (length al) m' /\
       hframe (p :: al.*1) (handles m) (handles m')).
Proof using Hk.
  intros HI Hhd Hp Hid.
  assert (Hal : is_Some (handles m !! p)) by (apply (view_alloc ident); fold (idents (handles m)); by rewrite Hid).
  destruct (ti_elem HI (p := hd)) as (h & k0 & Hh & _ & _ & Hidh); [by apply head_Some_elem_of|].
  injection Hidh as Ht _ _ _.
  assert (Hhp : hd <> p). { intros ->. apply Hp. by apply head_Some_elem_of. }
  destruct (last al.*1) as [tl|] eqn:Htl; [|apply last_None in Htl; by rewrite Htl in Hhd].
  assert (Htp : tl ∈ al.*1) by (by apply last_Some_elem_of).
  assert (Hta : is_Some (handles m !! tl)) by (eapply dll_app_alloc; [apply HI|done]).
  hstep. apply hwp_hget; [by eexists|]. intros h' Hh'. rewrite Hh in Hh'. injection Hh' as <-. rewrite Ht.
  unfold HASH_APPEND_LIST. hstep; hstep. hstep. hstep; hstep.
  hstep. apply hwp_hget; [cbn [handles]; eauto with alloc|]. cbn [handles]. intros h' Hh'.
  rewrite !lookup_alter_ne, Hh in Hh' by done. injection Hh' as <-.
  hstep. eapply hwp_deref; [done|]. hstep. eapply hwp_tget; [exact (ti_table_at HI)|].
  hstep. eapply hwp_deref; [by rewrite (ti_tail HI)|]. hstep; hstep. hstep; hstep.
  eapply hwp_tmod; [exact (ti_table_at HI)|]. apply hwp_ret. split; [done|].
  unfold set_tables; cbn [handles arrays tables]. split.
  2:{ do 4 (apply hframe_alter; [rewrite elem_of_cons; tauto|]). apply hframe_refl. }
  split; cbn [handles arrays tables]; try apply HI.
  - by rewrite (ti_tables HI), insert_insert_eq.
  - rewrite fmap_app. change ([(p, k)].*1) with [p]. by rewrite last_snoc.
  - rewrite fmap_app. change ([(p, k)].*1) with [p]. views. pose proof (dll_append _ _ p (ti_app HI) Hp) as Hd. unfold last_next in Hd.
    rewrite Htl in Hd. apply Hd. by apply view_alloc.
  - intros q kq [Hq|Heq%list_elem_of_singleton]%elem_of_app; views; rewrite ident_set_tbl.
    + rewrite lookup_alter_ne; [by apply (ti_el HI)|]. intros ->. by apply (list_elem_of_fmap_2 fst) in Hq.
    + injection Heq as -> ->. rewrite lookup_alter_eq, Hid. done.
  - apply (co_frame (handles m)); [apply HI|]. intros c q Hc Hq. views. rewrite ident_set_tbl.
    assert (q <> p). { intros ->. apply Hp, (ti_cover HI). eauto. }
    by rewrite lookup_alter_ne.
Qed.

Lemma make_spec m i :
  tables m = T0 -> arrays m = A0 ->
  idents (handles m) !! p = Some (i, k, u32 (strlen k), HASH_VALUE k (strlen k)) ->
  hwp (oom ads) (_ <-* hmod p (set_next None) ;; _ <-* hmod p (set_prev None) ;; _ <-* HASH_MAKE_TABLE p ;; hret p) m
    (fun r m' => r = p /\ (exists t a tb arr cs, table_inv T0 A0 ads t a tb arr cs [(p, k)] [] 0 m') /\
       hframe [p] (handles m) (handles m')).
Proof using Hk.
  intros HT HA Hid.
  assert (Hal : is_Some (handles m !! p)) by (apply (view_alloc ident); fold (idents (handles m)); by rewrite Hid).
  assert (Hin : p ∈ [p]) by (by left).
  do 2 (hstep; hstep). unfold HASH_MAKE_TABLE. hstep. hstep. apply hwp_new_table. cbn [tables set_tables handles arrays]. intros t Ht.
  hstep; hstep. do 2 (hstep; (eapply hwp_tmod; [apply lookup_insert_eq|]);
    unfold set_tables; cbn [handles arrays tables]; rewrite insert_insert_eq).
  hstep. apply hwp_new_buckets; [done|]. unfold set_arrays; cbn [handles arrays tables]. intros a _ Ha.
  do 1 (hstep; (eapply hwp_tmod; [apply lookup_insert_eq|]);
    unfold set_tables; cbn [handles arrays tables]; rewrite insert_insert_eq).
  eapply hwp_tmod; [apply lookup_insert_eq|]. apply hwp_ret.
  unfold set_tables; cbn [handles arrays tables]; rewrite insert_insert_eq. rewrite HT in *. rewrite HA in *.
  split; [done|]. split.
  2:{ do 3 (apply hframe_alter; [done|]). apply hframe_refl. }
  exists t, a. eexists _, _, (replicate (Z.to_nat HASH_INITIAL_NUM_BUCKETS) []).
  split; cbn [handles arrays tables]; try done.
  - change (5 <= 5 + Z.of_nat ads)%Z. lia.
  - split; [apply NoDup_singleton|]. split; [|done]. views.
    destruct Hal as [h Hh]. erewrite upd_prev_eq; [done|]. eapply upd_next_eq. by apply app_at.
  - intros q kq Heq%list_elem_of_singleton. injection Heq as -> ->. rewrite ident_set_tbl. views.
    rewrite lookup_alter_eq, Hid. done.
  - apply (co_empty _ 32).
  - intros q. split; [by intros ?%elem_of_nil|]. intros (c & [-> _]%elem_of_replicate & Hq). by apply elem_of_nil in Hq.
Qed.

(** the element goes to the end of the list *)
Lemma rep_add hd al m :
  rep T0 A0 ads hd al m -> p ∉ al.*1 -> is_Some (handles m !! p) ->
  hwp (oom ads) (HASH_ADD_KEYPTR hd k (strlen k) p) m (fun r m' =>
    rep T0 A0 (S ads) (Some r) (al ++ [(p, k)]) m' /\ hframe (p :: al.*1) (handles m) (handles m')).
Proof using Hk H0.
  intros Hr Hp [h0 Hh0]. unfold HASH_ADD_KEYPTR, HASH_ADD_KEYPTR_BYHASHVALUE.
  hstep. apply hwp_hmod; [by eexists|]. set (hs1 := halter _ p (handles m)).
  assert (Hf1 : hframe [p] (handles m) hs1) by (apply hframe_alter; [by left|apply hframe_refl]).
  assert (Hid : idents hs1 !! p = Some (tbl h0, k, u32 (strlen k), HASH_VALUE k (strlen k))).
  { unfold hs1. rewrite ident_set_key, lookup_alter_eq. unfold idents. by rewrite lookup_fmap, Hh0. }
  assert (Hpin : (p, k) ∈ al ++ [(p, k)]) by (apply elem_of_app; right; by left).
  assert (Hcov : forall q, q ∈ (al ++ [(p, k)]).*1 <-> q ∈ p :: al.*1).
  { intros q. rewrite fmap_app, elem_of_app, elem_of_cons. cbn [fmap list_fmap fst].
    rewrite list_elem_of_singleton. tauto. }
  assert (Hlen : length (al ++ [(p, k)]) = S (length al)) by (rewrite length_app; simpl; lia).
  assert (Hw : forall r m1 n, head (al ++ [(p, k)]).*1 = Some r -> n = length al ->
    (exists t a tb arr cs, table_inv T0 A0 ads t a tb arr cs (al ++ [(p, k)]) al.*1 n m1) ->
    hframe (p :: al.*1) hs1 (handles m1) ->
    hwp (oom ads) (_ <-* HASH_ADD_TO_TABLE r (HASH_VALUE k (strlen k)) p ;; hret r) m1 (fun r m' =>
      rep T0 A0 (S ads) (Some r) (al ++ [(p, k)]) m' /\ hframe (p :: al.*1) (handles m) (handles m'))).
  { intros r m1 n Hr1 -> (t & a & tb & arr & cs & HI) Hf.
    hstep. eapply hwp_conseq; [by eapply add_to_table_spec|]. intros [] m' [(a' & tb' & arr' & cs' & HI') Hf'].
    apply hwp_ret. split; [split; [done|]|].
    - exists t, a', tb', arr', cs'. by eapply table_inv_cov.
    - eapply hframe_trans; [|exact Hf']. eapply hframe_trans; [|exact Hf].
      eapply hframe_weaken; [exact Hf1|]. intros q ->%list_elem_of_singleton. by left. }
  hstep. destruct hd as [hd|]; simpl in Hr.
  - destruct Hr as (Hhd & t & a & tb & arr & cs & HI).
    assert (HI1 : table_inv T0 A0 ads t a tb arr cs al al.*1 (length al) (set_handles hs1 m)).
    { eapply table_inv_frame; [exact HI|apply Hf1|]. by intros q ->%list_elem_of_singleton. }
    eapply hwp_conseq; [apply hwp_weaken; by eapply append_spec|].
    intros r m1 (-> & HI2 & Hf2). apply (Hw hd m1 (length al)); [|done| |done].
    + rewrite fmap_app. by destruct al.*1.
    + eauto 6.
  - destruct Hr as (-> & HT & HA).
    eapply hwp_conseq; [by eapply make_spec|]. intros r m1 (-> & HI & Hf2). by apply (Hw p m1 0).
Qed.
End add.

(** ** [HASH_DEL] *)

Lemma match_not_none {A B C} (x : option A) (y : option B) (u v : C) :
  ~ (x = None /\ y = None) -> match x, y with None, None => u | _, _ => v end = v.
Proof. destruct x, y; tauto. Qed.

Lemma last_remove (l1 l2 : list ptr) p :
  NoDup (l1 ++ p :: l2) ->
  last (l1 ++ l2) = if bool_decide (last (l1 ++ p :: l2) = Some p) then last l1 else last (l1 ++ p :: l2).
Proof.
  intros Hn. destruct l2 as [|q l2 _] using rev_ind.
  - rewrite app_nil_r, last_snoc. by rewrite bool_decide_true.
  - rewrite app_comm_cons, !app_assoc, !last_snoc. rewrite bool_decide_false; [done|].
    intros [= ->]. apply NoDup_middle in Hn as (_ & _ & _ & Hp & _). apply Hp. apply elem_of_app. right. by left.
Qed.

(** the handles after the neighbours of an element were linked to each other *)
Definition app_unlinked (l1 l2 : list ptr) (hs : gmap ptr UT_hash_handle) :=
  halter_opt (set_prev (last l1)) (head l2) (halter_opt (set_next (head l2)) (last l1) hs).
Definition bkt_unlinked (c1 c2 : list ptr) (hs : gmap ptr UT_hash_handle) :=
  halter_opt (set_hh_prev (last c1)) (head c2) (halter_opt (set_hh_next (head c2)) (last c1) hs).

Lemma halter_opt_lookup_ne f o q hs : o <> Some q -> halter_opt f o hs !! q = hs !! q.
Proof. intros Ho. destruct o as [p|]; [|done]. apply lookup_alter_ne. congruence. Qed.

Lemma last_notin (l : list ptr) p : p ∉ l -> last l <> Some p.
Proof. by intros Hp Hl%last_Some_elem_of. Qed.
Lemma head_notin (l : list ptr) p : p ∉ l -> head l <> Some p.
Proof. by intros Hp Hl%head_Some_elem_of. Qed.

Lemma del_in_bkt_spec hs n arr cs m a bkt c1 p c2 b :
  chains_ok hs n arr cs -> handles m = hs -> arrays m !! a = Some arr ->
  cs !! Z.to_nat bkt = Some (c1 ++ p :: c2) -> arr !! Z.to_nat bkt = Some b ->
  hwp nofault (HASH_DEL_IN_BKT a bkt p) m (fun _ m' => exists b',
    m' = UtMem (bkt_unlinked c1 c2 hs) (tables m) (<[a := <[Z.to_nat bkt := b']> arr]> (arrays m)) /\
    hh_head b' = head (c1 ++ c2) /\ bcount b' = u32 (bcount b - 1)).
Proof.
  intros Hco <- Ha Hc Hb. destruct (co_bkt Hco Hc Hb) as (Hhh & _ & Hd & _).
  assert (Hil : Z.to_nat bkt < length arr) by (by eapply lookup_lt_Some).
  assert (Hpc : p ∈ c1 ++ p :: c2) by (apply elem_of_app; right; by left).
  assert (Hin : forall q, q ∈ c1 \/ q ∈ c2 -> is_Some (handles m !! q)).
  { intros q Hq. eapply dll_bkt_alloc; [exact Hd|]. rewrite elem_of_app, elem_of_cons. tauto. }
  pose proof (dll_bkt_alloc _ _ _ Hd Hpc) as Hal.
  pose proof (dll_at _ _ _ _ Hd) as Hlk.
  destruct (NoDup_middle _ _ _ (proj1 Hd)) as (_ & _ & Hp1 & Hp2 & _).
  unfold HASH_DEL_IN_BKT. hstep. eapply hwp_bmod; [done..|].
  hstep. eapply hwp_bget; [apply lookup_insert_eq|by apply list_lookup_insert_eq|].
  hstep. apply hwp_hget; [done|]. intros d Hdl. cbn [handles set_arrays] in Hdl.
  rewrite (bkt_at _ _ _ Hdl) in Hlk. injection Hlk as Hpv Hnx.
  cbn [hh_head set_bcount]. rewrite Hhh, Hpv, Hnx.
  hstep. apply hwp_conseq with (Q := fun _ m1 => exists b', m1 = set_arrays (<[a := <[Z.to_nat bkt := b']> arr]> (arrays m)) m /\
    hh_head b' = head (c1 ++ c2) /\ bcount b' = u32 (bcount b - 1)).
  { apply hwp_hwhen; intros Hcase.
    - apply bool_decide_eq_true in Hcase. eapply hwp_bmod; [apply lookup_insert_eq|by apply list_lookup_insert_eq|].
      cbn. rewrite insert_insert_eq, list_insert_insert_eq. eexists. split; [done|]. split; [|done]. cbn.
      destruct c1 as [|q c1]; [done|]. exfalso. apply Hp1. injection Hcase as ->. by left.
    - apply bool_decide_eq_false in Hcase. eexists. split; [done|]. split; [|done]. cbn. rewrite Hhh.
      destruct c1 as [|q c1]; [done|]. done. }
  intros [] m1 (b' & -> & Hh' & Hc'). hstep. hstep. { intros q Hq%last_Some_elem_of. auto. }
  hstep. apply hwp_hget; [cbn; eauto with alloc|]. cbn [handles set_arrays set_handles]. intros d' Hd'.
  rewrite halter_opt_lookup_ne, Hdl in Hd' by (by apply last_notin). injection Hd' as <-. rewrite Hnx, Hpv.
  apply hwp_hmod_opt; [intros q Hq%head_Some_elem_of; cbn; eauto with alloc|].
  exists b'. done.
Qed.

Lemma cover_remove (cov cov' c1 c2 : list ptr) (cs : list (list ptr)) (i : nat) (p : ptr) :
  cs !! i = Some (c1 ++ p :: c2) -> (forall q, q ∈ cov <-> exists c, c ∈ cs /\ q ∈ c) ->
  (forall j d, cs !! j = Some d -> p ∈ d -> i = j) -> p ∉ c1 -> p ∉ c2 ->
  (forall q, q ∈ cov' <-> q ∈ cov /\ q <> p) ->
  forall q, q ∈ cov' <-> exists d, d ∈ <[i := c1 ++ c2]> cs /\ q ∈ d.
Proof.
  intros Hc Hcov Hone H1 H2 Hcov' q. rewrite Hcov', Hcov. assert (Hi : i < length cs) by (by eapply lookup_lt_Some).
  split.
  - intros [(d & [j Hd]%list_elem_of_lookup & Hq) Hne]. destruct (decide (i = j)) as [<-|].
    + exists (c1 ++ c2). split; [apply list_elem_of_lookup; exists i; by rewrite list_lookup_insert_eq|].
      rewrite Hc in Hd. injection Hd as <-. rewrite elem_of_app, elem_of_cons in Hq. rewrite elem_of_app. tauto.
    + exists d. split; [|done]. apply list_elem_of_lookup. exists j. by rewrite list_lookup_insert_ne.
  - intros (d & [j Hd]%list_elem_of_lookup & Hq). destruct (decide (i = j)) as [<-|Hij].
    + rewrite list_lookup_insert_eq in Hd by done. injection Hd as <-. apply elem_of_app in Hq. split.
      * exists (c1 ++ p :: c2). split; [by eapply list_elem_of_lookup_2|]. rewrite elem_of_app, elem_of_cons. tauto.
      * intros ->. tauto.
    + rewrite list_lookup_insert_ne in Hd by done. split.
      * exists d. split; [by eapply list_elem_of_lookup_2|done].
      * intros ->. by apply Hij, (Hone j d).
Qed.

Section del.
Context (T0 : gmap ptr UT_hash_table) (A0 : gmap ptr (list UT_hash_bucket)) (ads : nat).
Context (t a : ptr) (tb : UT_hash_table) (arr : list UT_hash_bucket) (cs : list (list ptr)).
Context (l1 : list (ptr * string)) (p : ptr) (k : string) (l2 : list (ptr * string)) (m : ut_mem).
Notation al := (l1 ++ (p, k) :: l2).
Hypothesis HI : table_inv T0 A0 ads t a tb arr cs al al.*1 (length al) m.

Lemma al_fst : al.*1 = l1.*1 ++ p :: l2.*1.
Proof using Type. by rewrite fmap_app. Qed.

Lemma removed_inv i c1 c2 b b' tb' :
  cs !! i = Some (c1 ++ p :: c2) -> arr !! i = Some b ->
  hh_head b' = head (c1 ++ c2) -> bcount b' = u32 (bcount b - 1) ->
  tb' = set_num_items (u32 (num_items tb - 1)) (set_tail (last (l1 ++ l2).*1) tb) ->
  table_inv T0 A0 ads t a tb' (<[i := b']> arr) (<[i := c1 ++ c2]> cs) (l1 ++ l2) (l1 ++ l2).*1 (length (l1 ++ l2))
    (UtMem (bkt_unlinked c1 c2 (app_unlinked l1.*1 l2.*1 (handles m))) (<[t := tb']> (tables m))
       (<[a := <[i := b']> arr]> (arrays m))).
Proof using HI.
  intros Hc Hb Hh Hn ->. pose proof (ti_app HI) as Happ. rewrite al_fst in Happ.
  destruct (NoDup_middle _ _ _ (proj1 Happ)) as (_ & _ & Hp1 & Hp2 & _).
  destruct (NoDup_middle _ _ _ (proj1 (co_dll _ _ _ _ (ti_chains HI) _ _ Hc))) as (_ & _ & Hc1 & Hc2 & _).
  split; cbn [tables arrays handles]; try apply HI.
  - by rewrite (ti_tables HI), insert_insert_eq.
  - by rewrite (ti_arrays HI), insert_insert_eq.
  - cbn [num_items set_num_items]. rewrite (ti_items HI), u32_pred, !length_app. simpl. f_equal. lia.
  - done.
  - unfold bkt_unlinked, app_unlinked. views. rewrite fmap_app. by eapply dll_remove.
  - intros q kq Hq. unfold bkt_unlinked, app_unlinked. views. apply (ti_el HI).
    rewrite elem_of_app in *. rewrite elem_of_cons. tauto.
  - apply (co_remove (handles m) _ _ arr cs (ti_chains HI)) with (p := p) (b := b); [|done..|];
      unfold bkt_unlinked, app_unlinked; by views.
  - eapply cover_remove; [exact Hc|apply HI| |done..|].
    + intros j d Hd Hpd. eapply (co_disjoint _ _ _ _ (ti_chains HI)); [done..| |exact Hpd].
      apply elem_of_app. right. by left.
    + intros q. rewrite al_fst, fmap_app, !elem_of_app, elem_of_cons. split.
      * intros Hq. split; [tauto|]. intros ->. tauto.
      * tauto.
Qed.
End del.

Lemma unlinked_frame l1 l2 c1 c2 l hs :
  (forall q, q ∈ l1 \/ q ∈ l2 \/ q ∈ c1 \/ q ∈ c2 -> q ∈ l) ->
  hframe l hs (bkt_unlinked c1 c2 (app_unlinked l1 l2 hs)).
Proof.
  intros Hl. unfold bkt_unlinked, app_unlinked.
  do 4 (apply hframe_alter_opt; [intros q Hq; apply Hl;
    first [apply head_Some_elem_of in Hq|apply last_Some_elem_of in Hq]; tauto|]). apply hframe_refl.
Qed.

Section delete.
Context (T0 : gmap ptr UT_hash_table) (A0 : gmap ptr (list UT_hash_bucket)) (ads : nat).
Implicit Types (l : list (ptr * string)) (p : ptr) (m : ut_mem).

(** the only element: the table is freed *)
Lemma del_only hd p k m :
  rep T0 A0 ads hd [(p, k)] m -> hwp nofault (HASH_DEL hd p) m (fun r m' => r = None /\
    tables m' = T0 /\ arrays m' = A0 /\ handles m' = handles m).
Proof.
  intros Hr. destruct hd as [hd|]; [|by destruct Hr]. destruct Hr as (Hhd & t & a & tb & arr & cs & HI).
  injection Hhd as <-. destruct (ti_elem HI (p := p)) as (h & k0 & Hh & _ & _ & Hid); [by left|].
  injection Hid as Ht _ _ _. pose proof (dll_at _ [] p [] (ti_app HI)) as Hlk.
  rewrite (app_at _ _ _ Hh) in Hlk. injection Hlk as Hpv Hnx.
  unfold HASH_DEL, HASH_DELETE_HH. hstep. apply hwp_hget; [by eexists|]. intros d Hd. rewrite Hh in Hd. injection Hd as <-.
  hstep. eapply hwp_deref; [done|]. hstep. apply hwp_hget; [by eexists|]. intros d Hd. rewrite Hh in Hd. injection Hd as <-.
  hstep. eapply hwp_deref; [done|]. hstep. eapply hwp_tget; [exact (ti_table_at HI)|].
  rewrite Hpv, Hnx. hstep. eapply hwp_deref; [apply HI|].
  hstep. apply hwp_free_buckets; [by rewrite (ti_array_at HI)|].
  hstep. apply hwp_free_table; [cbn; by rewrite (ti_table_at HI)|]. apply hwp_ret. cbn.
  rewrite (ti_tables HI), (ti_arrays HI), !delete_insert_id by apply HI. done.
Qed.

Section linked.
Context (t a : ptr) (tb : UT_hash_table) (arr : list UT_hash_bucket) (cs : list (list ptr)).
Context (l1 : list (ptr * string)) (p : ptr) (k : string) (l2 : list (ptr * string)) (m : ut_mem).
Notation al := (l1 ++ (p, k) :: l2).
Hypothesis HI : table_inv T0 A0 ads t a tb arr cs al al.*1 (length al) m.

Lemma al_dll : dll (app_links (handles m)) (l1.*1 ++ p :: l2.*1).
Proof using HI. rewrite <- (al_fst l1 p k l2). apply HI. Qed.
Lemma al_handle q : q ∈ l1.*1 \/ q = p \/ q ∈ l2.*1 -> exists h, handles m !! q = Some h /\ tbl h = Some t.
Proof using HI.
  intros Hq. destruct (ti_elem HI (p := q)) as (h & kq & Hh & _ & _ & Hid).
  { rewrite al_fst, elem_of_app, elem_of_cons. done. }
  injection Hid as Ht _ _ _. by exists h.
Qed.

Lemma unlink_elmt_spec hd :
  head al.*1 = Some hd -> l1 ++ l2 <> [] ->
  hwp nofault (unlink_elmt (Some hd) t p) m (fun r m' => r = head (l1 ++ l2).*1 /\
    m' = UtMem (app_unlinked l1.*1 l2.*1 (handles m)) (<[t := set_tail (last (l1 ++ l2).*1) tb]> (tables m)) (arrays m)).
Proof using HI.
  intros Hhd Hne. pose proof al_dll as Happ. rewrite al_fst in Hhd. pose proof (dll_at _ _ _ _ Happ) as Hlk.
  destruct (NoDup_middle _ _ _ (proj1 Happ)) as (_ & _ & Hp1 & Hp2 & _).
  destruct (al_handle p) as (d & Hd & _); [tauto|]. rewrite (app_at _ _ _ Hd) in Hlk. injection Hlk as Hpv Hnx.
  assert (Hal : forall q, q ∈ l1.*1 \/ q = p \/ q ∈ l2.*1 -> is_Some (handles m !! q)).
  { intros q Hq. destruct (al_handle q Hq) as (h & ? & _). by exists h. }
  unfold unlink_elmt. hstep. apply hwp_hget; [by eexists|]. intros d' Hd'. rewrite Hd in Hd'. injection Hd' as <-.
  hstep. eapply hwp_tget; [exact (ti_table_at HI)|]. rewrite Hpv, Hnx.
  hstep. apply hwp_conseq with (Q := fun _ m1 => m1 = UtMem (handles m) (<[t := set_tail (last (l1 ++ l2).*1) tb]> (tables m)) (arrays m)).
  { pose proof (last_remove _ _ _ (proj1 Happ)) as Hlr. rewrite <- al_fst with (k := k), <- (ti_tail HI) in Hlr.
    rewrite <- fmap_app in Hlr. apply hwp_hwhen; intros Hcase; rewrite Hcase in Hlr.
    - destruct (last l1.*1) as [q|] eqn:Hq.
      + hstep. eapply hwp_deref; [done|]. eapply hwp_tmod; [exact (ti_table_at HI)|]. by rewrite Hlr.
      + apply last_None in Hlr. apply fmap_nil_inv in Hlr. done.
    - rewrite Hlr. replace (set_tail (tbl_tail tb) tb) with tb by (by destruct tb).
      rewrite insert_id by exact (ti_table_at HI). by destruct m. }
  intros [] m1 ->. hstep.
  apply hwp_conseq with (Q := fun r m1 => r = head (l1 ++ l2).*1 /\ m1 =
    UtMem (halter_opt (set_next (head l2.*1)) (last l1.*1) (handles m)) (<[t := set_tail (last (l1 ++ l2).*1) tb]> (tables m)) (arrays m)).
  { rewrite fmap_app. destruct (last l1.*1) as [q|] eqn:Hq.
    - hstep. apply hwp_hmod; [apply Hal; left; by apply last_Some_elem_of|]. apply hwp_ret. split; [|done].
      destruct l1.*1; [done|]. injection Hhd as ->. done.
    - apply last_None in Hq. rewrite Hq. apply hwp_ret. done. }
  intros r m1 [-> ->]. hstep. apply hwp_hget; [cbn; eauto with alloc|]. cbn [handles]. intros d' Hd'.
  rewrite halter_opt_lookup_ne, Hd in Hd' by (by apply last_notin). injection Hd' as <-. rewrite Hpv, Hnx.
  hstep. apply hwp_hmod_opt.
  { intros q Hq%head_Some_elem_of. cbn. apply halter_opt_alloc, Hal. tauto. }
  by apply hwp_ret.
Qed.

(** where the element is *)
Lemma elem_chain d : handles m !! p = Some d -> exists c1 c2 b,
  cs !! Z.to_nat (HASH_TO_BKT (hashv d) (num_buckets tb)) = Some (c1 ++ p :: c2) /\
  arr !! Z.to_nat (HASH_TO_BKT (hashv d) (num_buckets tb)) = Some b.
Proof using HI.
  intros Hd. assert (Hpin : p ∈ al.*1) by (rewrite al_fst, elem_of_app, elem_of_cons; tauto).
  destruct (proj1 (ti_cover HI p) Hpin) as (c & [i Hc]%list_elem_of_lookup & Hpc).
  pose proof (proj2 (ti_chain_of HI Hc Hpin) Hpc) as Hbo. rewrite (bucket_of_at _ _ _ _ Hd) in Hbo.
  injection Hbo as ->. destruct (list_elem_of_split _ _ Hpc) as (c1 & c2 & ->).
  destruct (co_chain _ _ _ _ (ti_chains HI) _ _ Hc) as [b Hb]. eauto.
Qed.

(** what unlinking the neighbours does not change *)
Lemma app_unlinked_at q h : handles m !! q = Some h ->
  exists h', app_unlinked l1.*1 l2.*1 (handles m) !! q = Some h' /\ tbl h' = tbl h /\ hashv h' = hashv h.
Proof using Type.
  intros Hq. assert (Hid : idents (app_unlinked l1.*1 l2.*1 (handles m)) !! q = idents (handles m) !! q).
  { unfold app_unlinked. by views. }
  unfold idents in Hid. rewrite !lookup_fmap, Hq in Hid.
  destruct (app_unlinked _ _ _ !! q) as [h'|]; [|done]. injection Hid as ? _ _ ?. eauto.
Qed.

Lemma del_chain_spec d r :
  handles m !! p = Some d -> head (l1 ++ l2).*1 = Some r ->
  hwp nofault (_ <-* HASH_DEL_IN_BKT a (HASH_TO_BKT (hashv d) (num_buckets tb)) p ;;
      _ <-* tmod t (fun tb => set_num_items (u32 (num_items tb - 1)) tb) ;; hret (Some r))
    (UtMem (app_unlinked l1.*1 l2.*1 (handles m)) (<[t := set_tail (last (l1 ++ l2).*1) tb]> (tables m)) (arrays m))
    (fun r m' => rep T0 A0 ads r (l1 ++ l2) m' /\ hframe al.*1 (handles m) (handles m')).
Proof using HI.
  intros Hd Hr. destruct (elem_chain d Hd) as (c1 & c2 & b & Hc & Hb).
  set (hs2 := app_unlinked l1.*1 l2.*1 (handles m)).
  assert (Hco2 : chains_ok hs2 (num_buckets tb) arr cs).
  { apply (co_frame (handles m)); [apply HI|]. intros c q _ _. unfold hs2, app_unlinked. by views. }
  hstep. eapply hwp_conseq; [by apply (del_in_bkt_spec hs2 _ _ _ _ a _ c1 p c2 b Hco2); [|exact (ti_array_at HI)|..]|].
  intros [] m2 (b' & -> & Hh' & Hc'). hstep. eapply hwp_tmod; [apply lookup_insert_eq|]. apply hwp_ret.
  unfold set_tables. cbn [tables handles arrays]. rewrite insert_insert_eq. split.
  - split; [done|]. eexists t, a, _, _, _. by eapply (removed_inv _ _ _ _ _ _ _ _ _ _ _ _ _ HI).
  - apply unlinked_frame. intros q Hq. destruct (decide (q = p)) as [->|].
    { rewrite al_fst, elem_of_app, elem_of_cons. tauto. }
    destruct Hq as [?|[?|Hq]]; [rewrite al_fst, elem_of_app, elem_of_cons; tauto..|].
    apply (ti_cover HI). eexists. split; [by eapply list_elem_of_lookup_2|].
    rewrite elem_of_app, elem_of_cons. tauto.
Qed.
End linked.

(** the list without the element *)
Lemma rep_del hd l1 p k l2 m :
  rep T0 A0 ads hd (l1 ++ (p, k) :: l2) m ->
  hwp nofault (HASH_DEL hd p) m (fun r m' => rep T0 A0 ads r (l1 ++ l2) m' /\
    hframe (l1 ++ (p, k) :: l2).*1 (handles m) (handles m')).
Proof.
  intros Hr. destruct (decide (l1 ++ l2 = [])) as [He|Hne].
  { apply app_eq_nil in He as [-> ->]. eapply hwp_conseq; [by eapply del_only|].
    intros r m' (-> & HT & HA & Hh). rewrite Hh. by split. }
  destruct hd as [hd|]; [|destruct Hr as [Hr _]; by destruct l1].
  destruct Hr as (Hhd & t & a & tb & arr & cs & HI).
  pose proof (dll_at _ _ _ _ (al_dll _ _ _ _ _ _ _ _ _ _ HI)) as Hlk.
  destruct (al_handle _ _ _ _ _ _ _ _ _ _ HI hd) as (h & Hh & Ht).
  { apply head_Some_elem_of in Hhd. by rewrite al_fst, elem_of_app, elem_of_cons in Hhd. }
  destruct (al_handle _ _ _ _ _ _ _ _ _ _ HI p) as (d & Hd & Htd); [tauto|].
  rewrite (app_at _ _ _ Hd) in Hlk. injection Hlk as Hpv Hnx.
  unfold HASH_DEL, HASH_DELETE_HH. hstep. apply hwp_hget; [by eexists|]. intros d' Hd'. rewrite Hd in Hd'. injection Hd' as <-.
  hstep. eapply hwp_deref; [done|]. hstep. apply hwp_hget; [by eexists|]. intros h' Hh'. rewrite Hh in Hh'. injection Hh' as <-.
  hstep. eapply hwp_deref; [done|]. hstep. eapply hwp_tget; [exact (ti_table_at HI)|]. rewrite Hpv, Hnx.
  rewrite match_not_none.
  2:{ rewrite last_None, head_None. intros [?%fmap_nil_inv ?%fmap_nil_inv]. subst. done. }
  hstep. eapply hwp_conseq; [by eapply unlink_elmt_spec|]. intros r m1 [-> ->].
  destruct (head (l1 ++ l2).*1) as [hd'|] eqn:Hhd'; [|by apply head_None, fmap_nil_inv in Hhd'].
  destruct (al_handle _ _ _ _ _ _ _ _ _ _ HI hd') as (h1 & Hh1 & Ht1).
  { apply head_Some_elem_of in Hhd'. rewrite fmap_app, elem_of_app in Hhd'. tauto. }
  destruct (app_unlinked_at l1 l2 _ _ _ Hh1) as (h1' & Hh1' & Ht1' & _).
  destruct (app_unlinked_at l1 l2 _ _ _ Hd) as (d' & Hd' & _ & Hv).
  hstep. eapply hwp_deref; [done|]. hstep. apply hwp_hget; [by eexists|]. cbn [handles]. intros x Hx.
  rewrite Hh1' in Hx. injection Hx as <-. hstep. eapply hwp_deref; [by rewrite Ht1', Ht1|].
  hstep. eapply hwp_tget; [apply lookup_insert_eq|].
  hstep. apply hwp_hget; [by eexists|]. cbn [handles]. intros x Hx. rewrite Hd' in Hx. injection Hx as <-.
  hstep. eapply hwp_deref; [apply HI|]. cbn [num_buckets set_tail]. rewrite Hv. by eapply del_chain_spec.
Qed.
End delete.

(** ** Iteration and counting *)

Lemma rep_frame T0 A0 ads hd al m (hs' : gmap ptr UT_hash_handle) (l : list ptr) :
  rep T0 A0 ads hd al m -> (forall q, q ∉ l -> hs' !! q = handles m !! q) -> (forall q, q ∈ l -> q ∉ al.*1) ->
  rep T0 A0 ads hd al (set_handles hs' m).
Proof.
  intros Hr Hf Hl. destruct hd as [hd|]; [|done]. destruct Hr as (Hhd & t & a & tb & arr & cs & HI).
  split; [done|]. exists t, a, tb, arr, cs. eapply table_inv_frame; [done..|]. auto.
Qed.

(** the handles of a table: allocated, each linked to the next *)
Lemma rep_at T0 A0 ads hd l1 p k l2 m :
  rep T0 A0 ads hd (l1 ++ (p, k) :: l2) m -> exists h, handles m !! p = Some h /\ next h = head l2.*1 /\ key h = k.
Proof.
  intros Hr. destruct hd as [hd|]; [|destruct Hr as [Hr _]; by destruct l1].
  destruct Hr as (_ & t & a & tb & arr & cs & HI).
  destruct (ti_el HI (p := p) (k := k)) as [_ Hi]; [apply elem_of_app; right; by left|].
  unfold idents in Hi. rewrite lookup_fmap in Hi. destruct (handles m !! p) as [h|] eqn:Hh; [|done].
  pose proof (dll_at _ _ _ _ (al_dll _ _ _ _ _ _ _ _ _ _ _ _ _ HI)) as Hlk. rewrite (app_at _ _ _ Hh) in Hlk.
  injection Hlk as _ Hn. injection Hi as _ Hkey _ _. eauto.
Qed.
Lemma rep_head T0 A0 ads hd al m : rep T0 A0 ads hd al m -> hd = head al.*1.
Proof. destruct hd; [by intros [-> _]|]. by intros [-> _]. Qed.
Lemma rep_NoDup T0 A0 ads hd al m : rep T0 A0 ads hd al m -> NoDup al.*1.
Proof.
  destruct hd; [|intros [-> _]; apply NoDup_nil_2]. intros (_ & t & a & tb & arr & cs & HI). apply (ti_app HI).
Qed.
Lemma rep_alloc T0 A0 ads hd al m p : rep T0 A0 ads hd al m -> p ∈ al.*1 -> is_Some (handles m !! p).
Proof.
  intros Hr ([q k] & Hq & (l1 & l2 & ->)%list_elem_of_split)%list_elem_of_fmap. simpl in Hq. subst q.
  destruct (rep_at _ _ _ _ _ _ _ _ _ Hr) as (h & Hh & _). by exists h.
Qed.
Lemma rep_fuel T0 A0 ads hd al m : rep T0 A0 ads hd al m -> length al < loop_fuel m.
Proof.
  intros Hr. pose proof (rep_NoDup _ _ _ _ _ _ Hr) as Hn. unfold loop_fuel.
  rewrite <- (length_fmap fst al), <- (size_list_to_set (C := gset ptr)), <- (size_dom (D := gset ptr) (handles m)) by done.
  apply Nat.lt_succ_r, subseteq_size. intros p Hp%elem_of_list_to_set. apply elem_of_dom. by eapply rep_alloc.
Qed.

Lemma rep_count T0 A0 ads hd al m :
  rep T0 A0 ads hd al m -> hwp nofault (HASH_COUNT hd) m (fun n m' => m' = m /\ n = u32 (Z.of_nat (length al))).
Proof.
  intros Hr. destruct hd as [hd|]; [|destruct Hr as [-> _]; by apply hwp_ret].
  destruct Hr as (Hhd & t & a & tb & arr & cs & HI).
  destruct (ti_elem HI (p := hd)) as (h & k & Hh & _ & _ & Hid); [by apply head_Some_elem_of|].
  injection Hid as Ht _ _ _. unfold HASH_COUNT. hstep. apply hwp_hget; [by eexists|]. intros h' Hh'.
  rewrite Hh in Hh'. injection Hh' as <-. hstep. eapply hwp_deref; [done|].
  hstep. eapply hwp_tget; [exact (ti_table_at HI)|]. apply hwp_ret. split; [done|apply HI].
Qed.

(** a loop over the elements, with an invariant on those that are left *)
Section iter.
Context {S : Type} (E : fault -> Prop) (body : ptr -> S -> HM S).
Context (I : list (ptr * string) -> S -> ut_mem -> Prop).
Hypothesis Hnext : forall p k l s m, I ((p, k) :: l) s m -> exists h, handles m !! p = Some h /\ next h = head l.*1.
Hypothesis Hbody : forall p k l s m, I ((p, k) :: l) s m -> hwp E (body p s) m (fun s' m' => I l s' m').

Lemma iter_loop_spec l : forall fuel s m, length l < fuel -> I l s m ->
  hwp E (iter_loop fuel (head l.*1) (head (List.tl l).*1) body s) m (fun s' m' => I [] s' m').
Proof using Hnext Hbody.
  induction l as [|[p k] l IH]; intros fuel s m Hf HI; (destruct fuel as [|fuel]; [simpl in Hf; lia|]); simpl in *.
  { by apply hwp_ret. }
  hstep. eapply hwp_conseq; [by eapply Hbody|]. intros s1 m1 HI1. hstep.
  destruct l as [|[q kq] l]; simpl.
  { apply hwp_ret. apply (IH fuel); [simpl; lia|done]. }
  destruct (Hnext _ _ _ _ _ HI1) as (h & Hh & Hn). hstep. apply hwp_hget; [by eexists|]. intros h' Hh'.
  rewrite Hh in Hh'. injection Hh' as <-. apply hwp_ret. rewrite Hn. apply (IH fuel); [simpl in *; lia|done].
Qed.

Lemma iter_spec hd al s m :
  hd = head al.*1 -> length al < loop_fuel m -> I al s m -> hwp E (HASH_ITER hd body s) m (fun s' m' => I [] s' m').
Proof using Hnext Hbody.
  intros -> Hf HI. unfold HASH_ITER.
  change (hwp E (tmp <-* next_of (head al.*1) ;; iter_loop (loop_fuel m) (head al.*1) tmp body s) m (fun s' m' => I [] s' m')).
  hstep. destruct al as [|[p k] al]; [exact HI|].
  change (next_of (head ((p, k) :: al).*1)) with (h <-* hget p ;; hret (next h)).
  destruct (Hnext _ _ _ _ _ HI) as (h & Hh & Hn). hstep. apply hwp_hget; [by eexists|]. intros h' Hh'.
  rewrite Hh in Hh'. injection Hh' as <-. apply hwp_ret. rewrite Hn. by apply (iter_loop_spec ((p, k) :: al)).
Qed.
End iter.


