(* ===== verification/MemberTable.v ===== *)
(** * A table of members on top of uthash

    The operations of [src/object.c] on [obj->members], and the loop that ends the life of the
    other tables, on the hash table of [Uthash]; and that they do what the lists of [Machine]
    say. *)

From S2P Require Export UthashFacts.

(** the head of the table, and the data of its elements *)
Record mtable := MTable { mt_head : option ptr; mt_data : gmap ptr val }.

Section ops.
Context `{Malloc}.

(** [di_insert_member], with the allocation of the element *)
Definition insert_member (name : string) (v : val) (s : mtable) : HM (Z * mtable) :=
  om <-* HASH_FIND (mt_head s) name (strlen name) ;;
  match om with
  | Some _ => hret ((- EEXIST)%Z, s)
  | None =>
      m <-* new_elem ;;
      hd <-* HASH_ADD_KEYPTR (mt_head s) name (strlen name) m ;;
      hret (0%Z, MTable (Some hd) (<[m := v]> (mt_data s)))
  end.
(** [di_remove_member_raw] *)
Definition remove_member (name : string) (s : mtable) : HM (option val * mtable) :=
  om <-* HASH_FIND (mt_head s) name (strlen name) ;;
  match om with
  | None => hret (None, s)
  | Some m =>
      hd <-* delete_elem (mt_head s) m ;;
      hret (mt_data s !! m, MTable hd (delete m (mt_data s)))
  end.
(** [di_lookup] *)
Definition lookup_member (name : string) (s : mtable) : HM (option val) :=
  om <-* HASH_FIND (mt_head s) name (strlen name) ;; hret (om ≫= fun m => mt_data s !! m).
(** where the walks of [di_object_next_member] start and go on: [obj->members], and the
    element after a name *)
Definition name_of (m : option ptr) : HM (option string) :=
  match m with Some m => h <-* hget m ;; hret (Some (key h)) | None => hret None end.
Definition first_name (s : mtable) : HM (option string) := name_of (mt_head s).
Definition next_name (name : string) (s : mtable) : HM (option string) :=
  om <-* HASH_FIND (mt_head s) name (strlen name) ;;
  m <-* next_of om ;; name_of m.
(** the loop over the members of [di_get_all_member_names_raw] *)
Definition member_names (s : mtable) : HM (list string) :=
  HASH_ITER (mt_head s) (fun i acc => h <-* hget i ;; hret (acc ++ [key h])) [].

Inductive member_op :=
  | OpInsert (name : string) (v : val) | OpRemove (name : string) | OpLookup (name : string)
  | OpFirst | OpNext (name : string) | OpNames | OpCount | OpClear.
Inductive member_answer :=
  | AnsInt (n : Z) | AnsVal (v : option val) | AnsName (n : option string) | AnsNames (l : list string).

Definition run_op (o : member_op) (s : mtable) : HM (member_answer * mtable) :=
  match o with
  | OpInsert name v => r <-* insert_member name v s ;; hret (AnsInt r.1, r.2)
  | OpRemove name => r <-* remove_member name s ;; hret (AnsVal r.1, r.2)
  | OpLookup name => r <-* lookup_member name s ;; hret (AnsVal r, s)
  | OpFirst => r <-* first_name s ;; hret (AnsName r, s)
  | OpNext name => r <-* next_name name s ;; hret (AnsName r, s)
  | OpNames => r <-* member_names s ;; hret (AnsNames r, s)
  | OpCount => r <-* HASH_COUNT (mt_head s) ;; hret (AnsInt r, s)
  | OpClear => hd <-* clear_table (mt_head s) ;; hret (AnsInt 0, MTable hd ∅)
  end.
Fixpoint run_ops (os : list member_op) (s : mtable) : HM (list member_answer * mtable) :=
  match os with
  | [] => hret ([], s)
  | o :: os => r <-* run_op o s ;; rs <-* run_ops os r.2 ;; hret (r.1 :: rs.1, rs.2)
  end.
End ops.

(** ** The specification: a list of members in the order of their addition *)

Definition spec_op (o : member_op) (l : list member) : member_answer * list member :=
  match o with
  | OpInsert name v =>
      match find_member name l with
      | Some _ => (AnsInt (- EEXIST), l)
      | None => (AnsInt 0, l ++ [(name, v)])
      end
  | OpRemove name => (AnsVal (find_member name l), del_member name l)
  | OpLookup name => (AnsVal (find_member name l), l)
  | OpFirst => (AnsName (first_member l), l)
  | OpNext name => (AnsName (next_member name l), l)
  | OpNames => (AnsNames l.*1, l)
  | OpCount => (AnsInt (u32 (Z.of_nat (length l))), l)
  | OpClear => (AnsInt 0, [])
  end.
Fixpoint spec_ops (os : list member_op) (l : list member) : list member_answer * list member :=
  match os with
  | [] => ([], l)
  | o :: os => let r := spec_op o l in let rs := spec_ops os r.2 in (r.1 :: rs.1, rs.2)
  end.
(** names are shorter than 4 GiB *)
Definition op_short (o : member_op) : Prop :=
  match o with OpInsert name _ | OpRemove name | OpLookup name | OpNext name => short name | _ => True end.

(** the additions among the operations *)
Definition op_adds (o : member_op) : nat := match o with OpInsert _ _ => 1 | _ => 0 end.
Fixpoint ops_adds (os : list member_op) : nat := match os with [] => 0 | o :: os => op_adds o + ops_adds os end.

(** ** The simulation *)

(** the member an element stands for *)
Definition elem_is (d : gmap ptr val) (x : ptr * string) (y : member) : Prop := d !! x.1 = Some y.2 /\ x.2 = y.1.

(** the elements [al] of the table stand for the members [l]; nothing else has changed
    since [m0] *)
Record sim (m0 : ut_mem) (ads : nat) (l : list member) (s : mtable) (al : list (ptr * string)) (m : ut_mem) : Prop := {
  sim_rep : rep (tables m0) (arrays m0) ads (mt_head s) al m;
  sim_el : Forall2 (elem_is (mt_data s)) al l;
  sim_fresh : forall q, q ∈ al.*1 -> handles m0 !! q = None;
  sim_rest : forall q, q ∉ al.*1 -> handles m !! q = handles m0 !! q;
  sim_names : NoDup l.*1
}.
Arguments sim_rep {_ _ _ _ _ _}.
Arguments sim_el {_ _ _ _ _ _}.
Arguments sim_fresh {_ _ _ _ _ _} _ {_}.
Arguments sim_rest {_ _ _ _ _ _} _ {_}.
Arguments sim_names {_ _ _ _ _ _}.

Section lists.
Context (d : gmap ptr val).
Implicit Types (al : list (ptr * string)) (l : list member).

Lemma elems_names al l : Forall2 (elem_is d) al l -> al.*2 = l.*1.
Proof.
  induction 1 as [|[p k] [n v] al l [_ Hk] _ IH]; [done|]. rewrite !fmap_cons. simpl in *. by rewrite Hk, IH.
Qed.

Lemma elems_find al l p k : Forall2 (elem_is d) al l -> NoDup l.*1 -> (p, k) ∈ al -> find_member k l = d !! p.
Proof.
  induction 1 as [|[q kq] [n v] al l [Hd Hk] Hal IH]; [by intros _ ?%elem_of_nil|]. simpl in *. subst kq.
  intros [Hn Hnd]%NoDup_cons [[= -> ->]|Hp]%elem_of_cons.
  - by rewrite String.eqb_refl, Hd.
  - destruct (String.eqb_spec n k) as [->|]; [|auto]. exfalso. apply Hn.
    change (k ∈ l.*1). rewrite <- (elems_names _ _ Hal). by apply (list_elem_of_fmap_2 snd) in Hp.
Qed.
Lemma elems_none al l k : Forall2 (elem_is d) al l -> (forall p, (p, k) ∉ al) ->
  find_member k l = None /\ next_member k l = None /\ del_member k l = l.
Proof.
  induction 1 as [|[q kq] [n v] al l [_ Hkq] Hal IH]; [done|]. intros Hk. simpl in *. subst kq.
  destruct (String.eqb_spec n k) as [->|]; [exfalso; apply (Hk q); by left|].
  destruct IH as (-> & -> & ->); [|done]. intros p Hp. apply (Hk p). by right.
Qed.

Lemma elems_split al1 p k al2 l : Forall2 (elem_is d) (al1 ++ (p, k) :: al2) l -> NoDup l.*1 ->
  Forall2 (elem_is d) (al1 ++ al2) (del_member k l) /\ NoDup (del_member k l).*1 /\
  next_member k l = head al2.*2.
Proof.
  intros (m1 & m2 & H1 & H2 & ->)%Forall2_app_inv_l. inversion H2 as [|? [n v] ? m2' [Hd Hk] H2']; subst.
  simpl in Hk. subst n. rewrite fmap_app. intros Hnd. destruct (NoDup_middle _ _ _ Hnd) as (Hn1 & Hn2 & Hk1 & _ & Hx).
  assert (Hdel : del_member k (m1 ++ (k, v) :: m2') = m1 ++ m2' /\ next_member k (m1 ++ (k, v) :: m2') = head m2'.*1).
  { clear -Hk1. induction m1 as [|[n w] m1 IH]; simpl; [rewrite String.eqb_refl; by destruct m2'|].
    apply not_elem_of_cons in Hk1 as [Hne Hk1]. simpl in Hne.
    destruct (String.eqb_spec n k); [congruence|]. destruct (IH Hk1) as [-> ->]. done. }
  destruct Hdel as [-> ->]. split_and!; [by apply Forall2_app| |].
  - rewrite fmap_app. by apply NoDup_app.
  - by rewrite (elems_names _ _ H2').
Qed.
End lists.

Lemma hwp_new_elem E m (Q : ptr -> ut_mem -> Prop) :
  (forall p, handles m !! p = None -> Q p (set_handles (<[p := handle_zero]> (handles m)) m)) -> hwp E new_elem m Q.
Proof. intros HQ. apply HQ. apply not_elem_of_dom. apply is_fresh. Qed.
Lemma hwp_free_elem E p m (Q : unit -> ut_mem -> Prop) :
  is_Some (handles m !! p) -> Q tt (set_handles (delete p (handles m)) m) -> hwp E (free_elem p) m Q.
Proof. intros [h Hh] HQ. unfold hwp, free_elem, hbind, hget. by rewrite Hh. Qed.

(** deleting and freeing an element *)
Lemma rep_del_free T0 A0 ads hd al1 p k al2 m :
  rep T0 A0 ads hd (al1 ++ (p, k) :: al2) m ->
  hwp nofault (delete_elem hd p) m (fun r m' =>
    rep T0 A0 ads r (al1 ++ al2) m' /\ handles m' !! p = None /\
    forall q, q ∉ (al1 ++ (p, k) :: al2).*1 -> handles m' !! q = handles m !! q).
Proof.
  intros Hr. assert (Hpin : p ∈ (al1 ++ (p, k) :: al2).*1) by (rewrite al_fst, elem_of_app, elem_of_cons; tauto).
  pose proof (rep_NoDup _ _ _ _ _ _ Hr) as Hnd. rewrite al_fst in Hnd.
  destruct (NoDup_middle _ _ _ Hnd) as (_ & _ & Hp1 & Hp2 & _).
  unfold delete_elem. hstep. eapply hwp_conseq; [by apply rep_del|]. intros r m1 [Hr1 Hf]. hstep. apply hwp_free_elem.
  { eapply hframe_alloc; [exact Hf|]. by eapply rep_alloc. }
  apply hwp_ret. split_and!; cbn [handles set_handles].
  - apply (rep_frame _ _ _ _ _ _ _ [p] Hr1).
    + intros q Hq%not_elem_of_cons. by rewrite lookup_delete_ne by (intros ->; tauto).
    + intros q ->%list_elem_of_singleton. rewrite fmap_app, elem_of_app. tauto.
  - apply lookup_delete_eq.
  - intros q Hq. rewrite lookup_delete_ne by (intros ->; tauto). by apply Hf.
Qed.

(** the loop that clears a table frees its elements and the table itself *)
Lemma clear_table_spec T0 A0 ads hd al m :
  rep T0 A0 ads hd al m ->
  hwp nofault (clear_table hd) m (fun r m' => r = None /\ tables m' = T0 /\ arrays m' = A0 /\
    (forall q, q ∈ al.*1 -> handles m' !! q = None) /\ (forall q, q ∉ al.*1 -> handles m' !! q = handles m !! q)).
Proof.
  intros Hr. unfold clear_table. pose proof (rep_NoDup _ _ _ _ _ _ Hr) as Hnd.
  eapply hwp_conseq; [apply (iter_spec nofault _ (fun left r m1 => rep T0 A0 ads r left m1 /\
    (exists pre, al = pre ++ left) /\ (forall q, q ∈ al.*1 -> q ∉ left.*1 -> handles m1 !! q = None) /\
    (forall q, q ∉ al.*1 -> handles m1 !! q = handles m !! q))) with (al := al)|].
  - intros p k left r m1 (Hr1 & _). destruct (rep_at _ _ _ _ [] p k left m1 Hr1) as (h & Hh & Hn & _). eauto.
  - intros p k left r m1 (Hr1 & (pre & ->) & Hgone & Hrest).
    eapply hwp_conseq; [apply (rep_del_free _ _ _ _ [] p k left m1 Hr1)|]. intros r' m2 (Hr2 & Hp & Hf).
    rewrite fmap_app in Hnd. split_and!; [done|by exists (pre ++ [(p, k)]); rewrite <- app_assoc| |].
    + intros q Hq Hql. destruct (decide (q = p)) as [->|]; [done|].
      assert (q ∉ ((p, k) :: left).*1) by (by apply not_elem_of_cons). rewrite Hf by done. by apply Hgone.
    + intros q Hq. rewrite Hf; [by apply Hrest|]. intros Hq'. apply Hq. rewrite fmap_app, elem_of_app. by right.
  - by eapply rep_head.
  - by eapply rep_fuel.
  - split_and!; [done|by exists []| |done]. intros q H1 H2. done.
  - intros r m' (Hr' & _ & Hgone & Hrest). destruct r as [r|]; [by destruct Hr'|]. destruct Hr' as (_ & HT & HA).
    split_and!; [done..| |done]. intros q Hq. apply Hgone; [done|]. by intros ?%elem_of_nil.
Qed.

(** the other tables and arrays are still there *)
Lemma rep_tables T0 A0 ads hd al m : rep T0 A0 ads hd al m ->
  (forall t tb, T0 !! t = Some tb -> tables m !! t = Some tb) /\
  (forall a bs, A0 !! a = Some bs -> arrays m !! a = Some bs).
Proof.
  intros Hr. destruct hd as [hd|]; [|by destruct Hr as (_ & -> & ->)].
  destruct Hr as (_ & t & a & tb & arr & cs & HI). pose proof (ti_t HI). pose proof (ti_a HI).
  rewrite (ti_tables HI), (ti_arrays HI).
  split; intros x y Hx; rewrite lookup_insert_ne; congruence.
Qed.

Section sim.
Context `{MallocLaws}.
Context (m0 : ut_mem) (ads : nat) (l : list member) (s : mtable) (al : list (ptr * string)) (m : ut_mem).
Hypothesis HS : sim m0 ads l s al m.

Lemma sim_adds : sim m0 (S ads) l s al m.
Proof using HS.
  split; try apply HS. pose proof (sim_rep HS) as Hr. destruct (mt_head s) as [hd|]; [|done].
  destruct Hr as (Hhd & t & a & tb & arr & cs & HI). split; [done|]. exists t, a, tb, arr, cs.
  pose proof (ti_adds HI). split; try apply HI. lia.
Qed.

(** what [HASH_FIND] finds *)
Lemma sim_find name : short name ->
  hwp nofault (HASH_FIND (mt_head s) name (strlen name)) m (fun out m' => m' = m /\
    match out with
    | Some p => exists al1 al2, al = al1 ++ (p, name) :: al2 /\ find_member name l = mt_data s !! p /\
        is_Some (mt_data s !! p)
    | None => find_member name l = None /\ next_member name l = None /\ del_member name l = l /\ name ∉ l.*1
    end).
Proof using HS.
  intros Hk. eapply hwp_conseq; [by eapply rep_find; [apply HS|]|]. intros [p|] m' [-> Ho]; (split; [done|]); simpl in Ho.
  - pose proof (elems_find _ _ _ _ _ (sim_el HS) (sim_names HS) Ho) as Hf.
    destruct (list_elem_of_split _ _ Ho) as (al1 & al2 & Hal). exists al1, al2. split_and!; [done..|].
    pose proof (sim_el HS) as He. rewrite Hal in He. apply Forall2_app_inv_l in He as (? & ? & _ & He & _).
    inversion He as [|? ? ? ? [Hd _]]; subst. simpl in Hd. by rewrite Hd.
  - destruct (elems_none _ _ _ _ (sim_el HS) Ho) as (? & ? & ?). split_and!; [done..|]. rewrite <- (elems_names _ _ _ (sim_el HS)).
    intros ([p k] & Hpk & Hp)%list_elem_of_fmap. simpl in Hpk. subst k. by eapply Ho.
Qed.

Lemma elem_is_update d d' (al' : list (ptr * string)) l' :
  (forall p, p ∈ al'.*1 -> d' !! p = d !! p) -> Forall2 (elem_is d) al' l' -> Forall2 (elem_is d') al' l'.
Proof using Type.
  intros Hd Hf. revert Hd. induction Hf as [|[p k] [n v] al' l' [H1 H2] _ IH]; intros Hd; constructor.
  - split; [|done]. simpl in *. rewrite Hd; [done|by left].
  - apply IH. intros q Hq. apply Hd. by right.
Qed.

Lemma sim_insert name v : short name ->
  hwp (oom ads) (insert_member name v s) m (fun r m' => AnsInt r.1 = (spec_op (OpInsert name v) l).1 /\
    exists al', sim m0 (S ads) (spec_op (OpInsert name v) l).2 r.2 al' m').
Proof using HS H0.
  intros Hk. unfold insert_member. hstep. eapply hwp_conseq; [apply hwp_weaken; by apply sim_find|].
  intros [p|] m' [-> Ho]; cbn [spec_op].
  { destruct Ho as (_ & _ & _ & -> & [v' ->]). apply hwp_ret. split; [done|]. exists al. apply sim_adds. }
  destruct Ho as (-> & _ & _ & Hnm). cbn [fst snd]. hstep. apply hwp_new_elem. intros p Hp.
  assert (Hpa : p ∉ al.*1). { intros Hin. destruct (rep_alloc _ _ _ _ _ _ _ (sim_rep HS) Hin) as [h Hh]. congruence. }
  assert (Hr : rep (tables m0) (arrays m0) ads (mt_head s) al (set_handles (<[p := handle_zero]> (handles m)) m)).
  { apply (rep_frame _ _ _ _ _ _ _ [p] (sim_rep HS)).
    - intros q Hq%not_elem_of_cons. rewrite lookup_insert_ne by (intros ->; tauto). done.
    - by intros q ->%list_elem_of_singleton. }
  hstep. eapply hwp_conseq; [apply (rep_add _ _ _ p name Hk _ _ _ Hr Hpa); cbn; by rewrite lookup_insert_eq|].
  intros hd m2 [Hr2 [_ Hf2]]. apply hwp_ret. split; [done|]. exists (al ++ [(p, name)]).
  cbn [handles set_handles] in Hf2. split; cbn [mt_head mt_data snd].
  - done.
  - apply Forall2_app; [|repeat constructor; simpl; by rewrite lookup_insert_eq].
    eapply elem_is_update; [|apply HS]. intros q Hq. rewrite lookup_insert_ne by congruence. done.
  - intros q. rewrite fmap_app, elem_of_app. intros [Hq|Hq]; [by apply (sim_fresh HS)|].
    apply list_elem_of_singleton in Hq as ->. simpl. by rewrite <- (sim_rest HS Hpa).
  - intros q. rewrite fmap_app, not_elem_of_app. intros [Hq Hqp].
    assert (q <> p) by (intros ->; apply Hqp; by left).
    rewrite Hf2, lookup_insert_ne by (rewrite ?not_elem_of_cons; congruence || done). by apply (sim_rest HS).
  - rewrite fmap_app. apply NoDup_app. split_and!; [apply HS| |apply NoDup_singleton].
    intros n Hn Hin. apply list_elem_of_singleton in Hin as ->. done.
Qed.

Lemma sim_remove name : short name ->
  hwp nofault (remove_member name s) m (fun r m' => AnsVal r.1 = (spec_op (OpRemove name) l).1 /\
    exists al', sim m0 ads (spec_op (OpRemove name) l).2 r.2 al' m').
Proof using HS.
  intros Hk. unfold remove_member. hstep. eapply hwp_conseq; [by apply sim_find|].
  intros [p|] m' [-> Ho]; cbn [spec_op fst snd].
  2:{ destruct Ho as (Hf & _ & Hd & _). apply hwp_ret. cbn. rewrite Hf, Hd. split; [done|]. by exists al. }
  destruct Ho as (al1 & al2 & -> & Hf & _).
  pose proof (rep_NoDup _ _ _ _ _ _ (sim_rep HS)) as Hnd. rewrite al_fst in Hnd.
  destruct (NoDup_middle _ _ _ Hnd) as (_ & _ & Hp1 & Hp2 & _).
  destruct (elems_split _ _ _ _ _ _ (sim_el HS) (sim_names HS)) as (He & Hn & _).
  assert (Hsub : forall q, q ∉ (al1 ++ al2).*1 -> q <> p -> q ∉ (al1 ++ (p, name) :: al2).*1).
  { intros q. rewrite al_fst, fmap_app, !not_elem_of_app, not_elem_of_cons. tauto. }
  hstep. eapply hwp_conseq; [apply (rep_del_free _ _ _ _ _ _ _ _ _ (sim_rep HS))|].
  intros hd m1 (Hr1 & Hgone & Hrest). apply hwp_ret. cbn. rewrite Hf. split; [done|]. exists (al1 ++ al2).
  split; cbn [mt_head mt_data]; [done| | | |done].
  - eapply elem_is_update; [|exact He]. intros q. rewrite fmap_app, elem_of_app. intros Hq.
    rewrite lookup_delete_ne by (intros ->; tauto). done.
  - intros q. rewrite fmap_app, elem_of_app. intros Hq. apply (sim_fresh HS).
    rewrite al_fst, elem_of_app, elem_of_cons. tauto.
  - intros q Hq. destruct (decide (q = p)) as [->|Hne].
    + rewrite Hgone. symmetry. apply (sim_fresh HS). rewrite al_fst, elem_of_app, elem_of_cons. tauto.
    + rewrite Hrest by auto. apply (sim_rest HS). auto.
Qed.

Lemma sim_lookup name : short name ->
  hwp nofault (lookup_member name s) m (fun r m' => m' = m /\ r = find_member name l).
Proof using HS.
  intros Hk. unfold lookup_member. hstep. eapply hwp_conseq; [by apply sim_find|].
  intros [p|] m' [-> Ho]; apply hwp_ret; (split; [done|]).
  - destruct Ho as (al1 & al2 & _ & -> & _). done.
  - destruct Ho as [-> _]. done.
Qed.

Lemma sim_name_at al1 p k al2 : al = al1 ++ (p, k) :: al2 ->
  hwp nofault (name_of (Some p)) m (fun r m' => m' = m /\ r = Some k).
Proof using HS.
  intros Hal. pose proof (sim_rep HS) as Hr. rewrite Hal in Hr.
  destruct (rep_at _ _ _ _ _ _ _ _ _ Hr) as (h & Hh & _ & <-). simpl. hstep. apply hwp_hget; [by eexists|].
  intros h' Hh'. rewrite Hh in Hh'. injection Hh' as <-. by apply hwp_ret.
Qed.

Lemma sim_first : hwp nofault (first_name s) m (fun r m' => m' = m /\ r = first_member l).
Proof using HS.
  unfold first_name. rewrite (rep_head _ _ _ _ _ _ (sim_rep HS)). pose proof (elems_names _ _ _ (sim_el HS)) as Hn.
  assert (Hf : first_member l = head l.*1) by (unfold first_member; by destruct l). rewrite Hf, <- Hn.
  pose proof (fun p k al2 => sim_name_at [] p k al2) as Hat.
  destruct al as [|[p k] al']; [by apply hwp_ret|]. by apply (Hat p k al').
Qed.

Lemma sim_next name : short name ->
  hwp nofault (next_name name s) m (fun r m' => m' = m /\ r = next_member name l).
Proof using HS.
  intros Hk. unfold next_name. hstep. eapply hwp_conseq; [by apply sim_find|].
  intros [p|] m' [-> Ho].
  2:{ destruct Ho as (_ & -> & _). hstep. apply hwp_ret. by apply hwp_ret. }
  destruct Ho as (al1 & al2 & Hal & _). pose proof (sim_rep HS) as Hr. pose proof (sim_el HS) as He. rewrite Hal in Hr, He.
  destruct (elems_split _ _ _ _ _ _ He (sim_names HS)) as (_ & _ & ->).
  destruct (rep_at _ _ _ _ _ _ _ _ _ Hr) as (h & Hh & Hn & _).
  hstep. simpl. hstep. apply hwp_hget; [by eexists|]. intros h' Hh'. rewrite Hh in Hh'. injection Hh' as <-.
  apply hwp_ret. rewrite Hn. destruct al2 as [|[q kq] al2]; [by apply hwp_ret|].
  apply (sim_name_at (al1 ++ [(p, name)]) q kq al2). by rewrite <- app_assoc.
Qed.

Lemma sim_member_names : hwp nofault (member_names s) m (fun r m' => m' = m /\ r = l.*1).
Proof using HS.
  unfold member_names. pose proof (sim_rep HS) as Hr. rewrite <- (elems_names _ _ _ (sim_el HS)).
  eapply hwp_conseq; [apply (iter_spec nofault _ (fun left acc m1 => m1 = m /\ exists pre, al = pre ++ left /\ acc = pre.*2)) with (al := al)|].
  - intros p k left acc m1 (-> & pre & Hal & _). rewrite Hal in Hr.
    destruct (rep_at _ _ _ _ _ _ _ _ _ Hr) as (h & Hh & Hn & _). eauto.
  - intros p k left acc m1 (-> & pre & Hal & ->). rewrite Hal in Hr.
    destruct (rep_at _ _ _ _ _ _ _ _ _ Hr) as (h & Hh & _ & Hkey). hstep. apply hwp_hget; [by eexists|].
    intros h' Hh'. rewrite Hh in Hh'. injection Hh' as <-. apply hwp_ret. split; [done|].
    exists (pre ++ [(p, k)]). rewrite <- app_assoc, fmap_app. split; [done|]. by rewrite Hkey.
  - by eapply rep_head.
  - by eapply rep_fuel.
  - split; [done|]. by exists [].
  - intros acc m' (-> & pre & Hal & ->). rewrite app_nil_r in Hal. by subst pre.
Qed.

Lemma sim_clear :
  hwp nofault (clear_table (mt_head s)) m (fun r m' => sim m0 ads [] (MTable r ∅) [] m').
Proof using HS.
  eapply hwp_conseq; [apply (clear_table_spec _ _ _ _ _ _ (sim_rep HS))|].
  intros r m' (-> & HT & HA & Hgone & Hrest). split; [done|constructor| | |apply NoDup_nil_2].
  - by intros q ?%elem_of_nil.
  - intros q _. destruct (decide (q ∈ al.*1)).
    + rewrite Hgone by done. symmetry. by apply (sim_fresh HS).
    + rewrite Hrest by done. by apply (sim_rest HS).
Qed.

Lemma sim_op o : op_short o ->
  hwp (oom ads) (run_op o s) m (fun r m' => r.1 = (spec_op o l).1 /\ exists al', sim m0 (op_adds o + ads) (spec_op o l).2 r.2 al' m').
Proof using HS H0.
  pose proof (elems_names _ _ _ (sim_el HS)) as Hn.
  destruct o as [name v|name|name| |name| | |]; intros Hs; unfold run_op; hstep.
  - eapply hwp_conseq; [by apply sim_insert|]. intros r m' [Hr Hsim]. by apply hwp_ret.
  - eapply hwp_conseq; [apply hwp_weaken; by apply sim_remove|]. intros r m' [Hr Hsim]. by apply hwp_ret.
  - eapply hwp_conseq; [apply hwp_weaken; by apply sim_lookup|]. intros r m' [-> ->]. apply hwp_ret. eauto.
  - eapply hwp_conseq; [apply hwp_weaken, sim_first|]. intros r m' [-> ->]. apply hwp_ret. eauto.
  - eapply hwp_conseq; [apply hwp_weaken; by apply sim_next|]. intros r m' [-> ->]. apply hwp_ret. eauto.
  - eapply hwp_conseq; [apply hwp_weaken, sim_member_names|]. intros r m' [-> ->]. apply hwp_ret. eauto.
  - eapply hwp_conseq; [apply hwp_weaken; eapply rep_count, HS|]. intros r m' [-> ->]. apply hwp_ret.
    split; [|by exists al]. cbn. by rewrite (Forall2_length _ _ _ (sim_el HS)).
  - eapply hwp_conseq; [apply hwp_weaken, sim_clear|]. intros r m' Hsim. apply hwp_ret. split; [done|]. by exists [].
Qed.
End sim.

Lemma sim_ops `{MallocLaws} m0 os : forall ads l s al m, sim m0 ads l s al m -> Forall op_short os ->
  hwp (oom (ops_adds os + ads)) (run_ops os s) m (fun r m' => r.1 = (spec_ops os l).1 /\
    exists al', sim m0 (ops_adds os + ads) (spec_ops os l).2 r.2 al' m').
Proof.
  induction os as [|o os IH]; intros ads l s al m HS Hos; simpl.
  { apply hwp_ret. split; [done|]. by exists al. }
  apply Forall_cons in Hos as [Ho Hos]. hstep. eapply hwp_mono; [by eapply sim_op| |].
  { intros f. apply oom_mono. lia. }
  intros r m1 (Hr & al1 & HS1). hstep. eapply hwp_mono; [by eapply IH| |].
  { intros f. apply oom_mono. lia. }
  intros rs m2 (Hrs & al2 & HS2). apply hwp_ret. cbn. rewrite Hr, Hrs. split; [done|]. exists al2.
  by replace (op_adds o + ops_adds os + ads) with (ops_adds os + (op_adds o + ads)) by lia.
Qed.

Lemma sim_init m : sim m 0 [] (MTable None ∅) [] m.
Proof. split; [done|constructor| |done|apply NoDup_nil_2]. by intros q ?%elem_of_nil. Qed.

(** A hash table of [uthash.h] that is used the way [object.c] uses [obj->members]
    behaves as the list of members in the order of their addition that the rest of the
    development takes it for: on every sequence of additions, removals, lookups, steps
    of a walk, enumerations, counts and clearing loops, in a memory that holds anything else,
    it gives the answers of the list, without an access to memory that is not allocated. The
    program ends only for want of memory: when a request of less than 64 GiB is refused, or
    after at least 26 additions. What was in the memory before is unchanged, and when the
    list is empty again, nothing the table used is left allocated. C12. *)
Theorem uthash_refines_members `{MallocLaws} os m :
  Forall op_short os ->
  (run_ops os (MTable None ∅) m = inl (Exited (-1)) /\
    ((exists m' sz, (sz < 2 ^ 36)%Z /\ malloc_ok m' sz = false) \/ 26 <= ops_adds os)) \/
  exists s' m', run_ops os (MTable None ∅) m = inr (((spec_ops os []).1, s'), m') /\
    (forall q h, handles m !! q = Some h -> handles m' !! q = Some h) /\
    (forall t tb, tables m !! t = Some tb -> tables m' !! t = Some tb) /\
    (forall a bs, arrays m !! a = Some bs -> arrays m' !! a = Some bs) /\
    ((spec_ops os []).2 = [] -> mt_head s' = None /\ m' = m).
Proof.
  intros Hos. pose proof (sim_ops m os _ _ _ _ _ (sim_init m) Hos) as Hw. unfold hwp in Hw.
  destruct (run_ops os _ m) as [f|[[rs s'] m']].
  { left. destruct Hw as [-> Hw]. split; [done|]. by rewrite Nat.add_0_r in Hw. }
  right. cbn [fst snd] in Hw. destruct Hw as (-> & al & HS). exists s', m'. split_and!; [done|..].
  - intros q h Hq. rewrite (sim_rest HS); [done|]. intros Hin%(sim_fresh HS). congruence.
  - apply (rep_tables _ _ _ _ _ _ (sim_rep HS)).
  - apply (rep_tables _ _ _ _ _ _ (sim_rep HS)).
  - intros Hnil. pose proof (sim_el HS) as He. rewrite Hnil in He. apply Forall2_nil_inv_r in He as ->.
    pose proof (sim_rep HS) as Hr. destruct (mt_head s') as [hd|]; [by destruct Hr|]. destruct Hr as (_ & HT & HA).
    split; [done|]. destruct m as [hs ts bs], m' as [hs' ts' bs']. simpl in *. subst. f_equal.
    apply map_eq. intros q. apply (sim_rest HS). by intros ?%elem_of_nil.
Qed.

(** ** A concrete run

    170 members, which makes the table expand, walked over, and removed again. *)

#[local] Instance test_malloc : Malloc := fun _ sz => (sz <? 2 ^ 36)%Z.
#[local] Instance test_malloc_laws : MallocLaws.
Proof. intros m sz Hm. by apply Z.ltb_lt. Qed.

Definition test_names : list string := map (fun n => "member" +:+ pretty n) (seq 0 170).
Definition test_ops : list member_op :=
  map (fun n => OpInsert n (VString (Some n))) test_names ++
  [OpInsert "member7" VNil; OpLookup "member7"; OpLookup "member170"; OpFirst; OpNext "member7"; OpCount; OpRemove "member8";
   OpNext "member7"; OpNames; OpRemove "member8"] ++ map OpRemove test_names.

Lemma test_ops_short : Forall op_short test_ops.
Proof.
  apply Forall_forall. intros o Ho.
  assert (Hb : forallb (fun o => match o with
    | OpInsert n _ | OpRemove n | OpLookup n | OpNext n => (Z.of_nat (String.length n) <? 2 ^ 32)%Z | _ => true end) test_ops = true)
    by (vm_compute; done).
  rewrite forallb_forall in Hb. specialize (Hb o). apply list_elem_of_In in Ho. specialize (Hb Ho).
  destruct o; try done; by apply Z.ltb_lt in Hb.
Qed.

Lemma uthash_refines_members_witness :
  Forall op_short test_ops /\ exists s', mt_head s' = None /\
    run_ops test_ops (MTable None ∅) (UtMem ∅ ∅ ∅) = inr (((spec_ops test_ops []).1, s'), UtMem ∅ ∅ ∅).
Proof.
  split; [exact test_ops_short|].
  destruct (uthash_refines_members test_ops (UtMem ∅ ∅ ∅) test_ops_short) as [[Hex _]|(s' & m' & Hrun & _ & _ & _ & Hnil)].
  - exfalso. vm_compute in Hex. discriminate.
  - destruct Hnil as [Hs ->]; [vm_compute; reflexivity|]. exists s'. split; [exact Hs|exact Hrun].
Defined.
