(* ===== verification/Siblings.v ===== *)
(** * The lists of unreferred and isolated objects as linked nodes

    [unreferred_siblings] of an object is linked into [unreferred_objects], or during a
    collection into [isolated_roots], or to itself. [Machine] and [Object] keep the two
    lists as lists; here they are rings of nodes in the memory of [Rings], and the operations
    of [object.c] on the nodes do what the model does to the lists. *)

From S2P Require Export Rings RefCount GC Demo.

(** the elements of a ring are allocated *)
Lemma ring_length m h l : ring m h l -> length l <= size m.
Proof.
  intros Hr. pose proof Hr as [Hnd _]. apply NoDup_cons in Hnd as [_ Hnd].
  rewrite <- (size_list_to_set (C := gset loc) l) by done. rewrite <- (size_dom (D := gset loc) m).
  apply subseteq_size. intros x Hx%elem_of_list_to_set. apply elem_of_dom. eapply ring_alloc; [done|by right].
Qed.

(** ** The operations of [object.c] on the nodes *)

Section siblings.
(** the addresses of [unreferred_objects] and [isolated_roots], and what new memory holds *)
Context (U R : loc) (junk : list_head).

(** [unreferred_objects.next == NULL]: the variable is zero until it is initialised, which
    is that it has no node *)
Definition init_unreferred m : option nodes :=
  match m !! U with
  | Some _ => Some m
  | None => INIT_LIST_HEAD U (<[U := junk]> m)
  end.

(** the end of [di_unref_object], for an object that keeps references and a mark of 0 *)
Definition link_unreferred (o : loc) m : option nodes :=
  e ← list_empty o m;
  if (e : bool) then m ← init_unreferred m; list_add o U m else Some m.

Inductive sop :=
  | NewObject (o : loc)            (* [di_init_object] *)
  | FreeObject (o : loc)
  | Unreferred (o : loc)           (* [link_unreferred] *)
  | Unlink (o : loc)               (* [list_del_init] *)
  | IsUnlinked (o : loc)           (* [list_empty] of the node *)
  | StartRound                     (* [INIT_LIST_HEAD (&isolated_roots)] *)
  | Isolate (o : loc)
  | NoUnreferred                   (* [list_empty] of the heads *)
  | NoIsolated
  | FirstUnreferred                (* [list_first_entry] *)
  | FirstIsolated
  | Isolated                       (* the objects [list_for_each_entry] visits *)
  | Sweep (keep : loc -> bool).    (* the loop that removes the revived objects *)

Inductive answer := Done | Yes (b : bool) | Node (o : loc) | Nodes (l : list loc).

Definition visit_body (o : loc) (l : list loc) m : option (list loc * nodes) := Some (l ++ [o], m).
Definition sweep_body (keep : loc -> bool) (o : loc) (s : unit) m : option (unit * nodes) :=
  if keep o then Some (s, m) else m ← Rings.list_del_init o m; Some (s, m).

Definition link_op (op : sop) m : option (answer * nodes) :=
  match op with
  | NewObject o =>
      match m !! o with
      | None => m ← INIT_LIST_HEAD o (<[o := junk]> m); Some (Done, m)
      | Some _ => None
      end
  | FreeObject o => _ ← m !! o; Some (Done, delete o m)
  | Unreferred o => m ← link_unreferred o m; Some (Done, m)
  | Unlink o => m ← Rings.list_del_init o m; Some (Done, m)
  | IsUnlinked o => e ← list_empty o m; Some (Yes e, m)
  | StartRound => m ← INIT_LIST_HEAD R m; Some (Done, m)
  | Isolate o => m ← list_add o R m; Some (Done, m)
  | NoUnreferred => e ← list_empty U m; Some (Yes e, m)
  | NoIsolated => e ← list_empty R m; Some (Yes e, m)
  | FirstUnreferred => o ← list_first_entry U m; Some (Node o, m)
  | FirstIsolated => o ← list_first_entry R m; Some (Node o, m)
  | Isolated => '(l, m) ← list_for_each_entry visit_body (S (size m)) R [] m; Some (Nodes l, m)
  | Sweep keep => '(_, m) ← list_for_each_entry_safe (sweep_body keep) (S (size m)) R tt m; Some (Done, m)
  end.

Fixpoint link_ops (ops : list sop) m : option (list answer * nodes) :=
  match ops with
  | [] => Some ([], m)
  | op :: ops => '(a, m) ← link_op op m; '(l, m) ← link_ops ops m; Some (a :: l, m)
  end.

(** ** The same operations in the model *)

Definition model_op (op : sop) : M answer :=
  match op with
  | NewObject o => modify (fun w => set_heap (<[o := di_init_object PObject]> (heap w)) w) ;; ret Done
  | FreeObject o => free_obj o ;; ret Done
  | Unreferred o =>
      unlinked <- list_empty_node o ;;
      (if unlinked then modify (fun w => set_unreferred (Some (o :: default [] (unreferred w))) w) else ret tt) ;;
      ret Done
  | Unlink o => Object.list_del_init o ;; ret Done
  | IsUnlinked o => e <- list_empty_node o ;; ret (Yes e)
  | StartRound => modify (set_isolated []) ;; ret Done
  | Isolate o => modify (fun w => set_isolated (o :: isolated w) w) ;; ret Done
  | NoUnreferred => l <- gets unreferred ;; ret (Yes (bool_decide (l = Some [])))
  | NoIsolated => l <- gets isolated ;; ret (Yes (bool_decide (l = [])))
  | FirstUnreferred => l <- gets unreferred ;; ret (Node (default U (head (default [] l))))
  | FirstIsolated => l <- gets isolated ;; ret (Node (default R (head l)))
  | Isolated => l <- gets isolated ;; ret (Nodes l)
  | Sweep keep =>
      l <- gets isolated ;;
      mapM_ (fun i => if keep i then ret tt else Object.list_del_init i) l ;; ret Done
  end.

(** the objects that have nodes: the static [dead_weakly_referenced_object] is never counted
    or linked, its node stays zero *)
Definition objects (w : world) : gmap oid object := delete dead_weak_ref (heap w).

(** when the program does them *)
Definition allowed (op : sop) (w : world) : Prop :=
  match op with
  | NewObject o => objects w !! o = None /\ o <> U /\ o <> R /\ o <> dead_weak_ref
  | FreeObject o | Isolate o => is_Some (objects w !! o) /\ o ∉ on_lists w
  | Unreferred o | Unlink o | IsUnlinked o => is_Some (objects w !! o)
  | StartRound => isolated w = []
  | NoUnreferred | FirstUnreferred => is_Some (unreferred w)
  | NoIsolated | FirstIsolated | Isolated | Sweep _ => True
  end.

Fixpoint model_ops (ops : list sop) (w : world) (l : list answer) (w' : world) : Prop :=
  match ops with
  | [] => l = [] /\ w' = w
  | op :: ops => allowed op w /\
      exists a l1 w1, model_op op w = Ret a w1 /\ l = a :: l1 /\ model_ops ops w1 l1 w'
  end.

(** ** The nodes stand for the lists *)

Record stands (S : gmap loc (list loc)) (w : world) : Prop := {
  st_unreferred : S !! U = unreferred w;
  st_isolated : S !! R = Some (isolated w);
  st_node : forall o, o <> U -> o <> R ->
    S !! o = if decide (is_Some (objects w !! o) /\ o ∉ on_lists w) then Some [] else None
}.

Record siblings m (w : world) : Prop := {
  sib_lists : exists S, rings m S /\ stands S w;
  sib_known : forall o, o ∈ on_lists w -> is_Some (objects w !! o);
  sib_heads : objects w !! U = None /\ objects w !! R = None;
  sib_memory : forall o, o <> U -> o <> R -> is_Some (m !! o) -> is_Some (objects w !! o);
  sib_uninitialised : unreferred w = None -> m !! U = None
}.

(** ** Each operation *)

Hypothesis HUR : U <> R.

Lemma remove_notin o l : o ∉ l -> list_remove_oid o l = l.
Proof.
  unfold list_remove_oid. induction l as [|x l IH]; [done|]. intros [Hne Hl]%not_elem_of_cons. rewrite filter_cons.
  rewrite decide_True by congruence. by rewrite IH.
Qed.
Lemma remove_split o l1 l2 : o ∉ l1 -> o ∉ l2 -> list_remove_oid o (l1 ++ o :: l2) = l1 ++ l2.
Proof.
  intros H1 H2. unfold list_remove_oid. rewrite filter_app, filter_cons, decide_False by tauto.
  pose proof (remove_notin o l1 H1) as E1. pose proof (remove_notin o l2 H2) as E2. unfold list_remove_oid in E1, E2.
  by rewrite E1, E2.
Qed.

Lemma elem_not_alone m h l o : ring m h l -> o ∈ l -> list_empty o m = Some false.
Proof.
  intros Hr Ho. apply list_elem_of_split in Ho as (l1 & l2 & ->). destruct (ring_next_at _ _ _ _ _ Hr) as [Hne Hn].
  unfold list_empty. rewrite Hn. cbn [mbind option_bind]. f_equal. apply bool_decide_eq_false. intros Heq.
  destruct Hr as [Hnd _]. rewrite ring_perm in Hnd. apply NoDup_cons in Hnd as [Hin _]. apply Hin.
  destruct l2 as [|y l2]; simpl in Heq; subst; [left|]. right. apply elem_of_app. right. left.
Qed.

Lemma known_not_head m w o : siblings m w -> is_Some (objects w !! o) -> o <> U /\ o <> R.
Proof. intros Hs [ob Ho]. destruct (sib_heads _ _ Hs) as [H1 H2]. split; intros ->; congruence. Qed.

Lemma list_empty_node_eq o w : list_empty_node o w = Ret (bool_decide (o ∉ on_lists w)) w.
Proof.
  unfold list_empty_node, gets. f_equal. rewrite <- !bool_decide_not, <- bool_decide_and. apply bool_decide_ext.
  unfold on_lists. rewrite elem_of_app. tauto.
Qed.

Lemma node_empty m w o : siblings m w -> is_Some (objects w !! o) -> list_empty o m = Some (bool_decide (o ∉ on_lists w)).
Proof.
  intros Hs Ho. destruct (known_not_head _ _ _ Hs Ho) as [H1 H2]. destruct (sib_lists _ _ Hs) as (S & HS & Hst).
  destruct (decide (o ∉ on_lists w)) as [Hn|Hn].
  - rewrite bool_decide_eq_true_2 by done. rewrite (rings_empty m S o []); [done|done|].
    rewrite (st_node _ _ Hst) by done. by rewrite decide_True.
  - rewrite bool_decide_eq_false_2 by done. apply dec_stable in Hn. unfold on_lists in Hn.
    apply elem_of_app in Hn as [Hn|Hn].
    + destruct (unreferred w) as [l|] eqn:Hu; [|by apply not_elem_of_nil in Hn].
      eapply elem_not_alone; [eapply (rg_ring _ _ HS U l); rewrite <- Hu; apply Hst|done].
    + eapply elem_not_alone; [eapply (rg_ring _ _ HS R); apply Hst|done].
Qed.

Lemma siblings_intro m m' w w' S : siblings m w -> dom m' = dom m -> objects w' = objects w -> rings m' S -> stands S w' ->
  (forall o, o ∈ on_lists w' -> is_Some (objects w !! o)) -> (unreferred w' = None -> unreferred w = None) -> siblings m' w'.
Proof.
  intros Hs Hd Hh HS Hst Hk Hu. split.
  - by exists S.
  - by rewrite Hh.
  - rewrite Hh. apply Hs.
  - intros o H1 H2 Ho. rewrite Hh. apply (sib_memory _ _ Hs o H1 H2). by rewrite <- elem_of_dom, <- Hd, elem_of_dom.
  - intros Hn. specialize (Hu Hn). pose proof (sib_uninitialised _ _ Hs Hu) as Hm.
    apply not_elem_of_dom. rewrite Hd. by apply not_elem_of_dom.
Qed.

(** the world after [list_del_init] *)
Definition unlinked (o : loc) (w : world) : world :=
  set_unreferred (list_remove_oid o <$> unreferred w) (set_isolated (list_remove_oid o (isolated w)) w).

Lemma in_unreferred m w o S : siblings m w -> rings m S -> stands S w -> o ∈ default [] (unreferred w) ->
  exists l1 l2, unreferred w = Some (l1 ++ o :: l2) /\ o ∉ l1 /\ o ∉ l2 /\ o ∉ isolated w.
Proof using HUR.
  intros Hs HS Hst Ho. destruct (unreferred w) as [l|] eqn:Hu; [|by apply not_elem_of_nil in Ho].
  change (default [] (Some l)) with l in Ho.
  assert (HU : S !! U = Some l) by (rewrite <- Hu; apply Hst). pose proof Ho as Hin.
  apply list_elem_of_split in Ho as (l1 & l2 & ->). exists l1, l2. split; [done|].
  pose proof (rg_ring _ _ HS _ _ HU) as [Hnd _]. rewrite ring_perm in Hnd. apply NoDup_cons in Hnd as [Hn _].
  rewrite elem_of_cons, elem_of_app in Hn. split_and!; [tauto|tauto|]. intros Hi.
  apply (rings_apart m S U R _ (isolated w) o HS HU (st_isolated _ _ Hst) HUR); by right.
Qed.

Lemma in_isolated m w o S : siblings m w -> rings m S -> stands S w -> o ∈ isolated w ->
  exists l1 l2, isolated w = l1 ++ o :: l2 /\ o ∉ l1 /\ o ∉ l2 /\ o ∉ default [] (unreferred w).
Proof using HUR.
  intros Hs HS Hst Ho. pose proof (st_isolated _ _ Hst) as HR. pose proof Ho as Hin.
  apply list_elem_of_split in Ho as (l1 & l2 & Hl). exists l1, l2. split; [done|].
  pose proof (rg_ring _ _ HS _ _ HR) as [Hnd _]. rewrite Hl, ring_perm in Hnd. apply NoDup_cons in Hnd as [Hn _].
  rewrite elem_of_cons, elem_of_app in Hn. split_and!; [tauto|tauto|]. intros Hi.
  destruct (unreferred w) as [l|] eqn:Hu; [|by apply not_elem_of_nil in Hi]. change (default [] (Some l)) with l in Hi.
  apply (rings_apart m S R U _ l o HS HR ltac:(rewrite <- Hu; apply Hst) (not_eq_sym HUR)); by right.
Qed.

Lemma on_lists_unlinked o w x : x ∈ on_lists (unlinked o w) <-> x ∈ on_lists w /\ x <> o.
Proof.
  unfold on_lists, unlinked, list_remove_oid. cbn [unreferred isolated set_unreferred set_isolated].
  destruct (unreferred w); simpl; rewrite ?elem_of_app, !list_elem_of_filter; tauto.
Qed.

(** the lists without [o], which is alone now *)
Lemma stands_unlinked S w o h l : stands S w -> is_Some (objects w !! o) -> o <> U -> o <> R -> h = U \/ h = R ->
  <[h := l]> S !! U = unreferred (unlinked o w) -> <[h := l]> S !! R = Some (isolated (unlinked o w)) ->
  stands (<[o := []]> (<[h := l]> S)) (unlinked o w).
Proof using HUR.
  intros Hst Ho H1 H2 Hh HU HR. split.
  - by rewrite lookup_insert_ne.
  - by rewrite lookup_insert_ne.
  - intros x Hx1 Hx2. change (objects (unlinked o w)) with (objects w).
    destruct (decide (x = o)) as [->|Hne].
    + rewrite lookup_insert_eq, decide_True; [done|]. split; [done|]. rewrite on_lists_unlinked. tauto.
    + rewrite lookup_insert_ne, lookup_insert_ne by (congruence || (destruct Hh; congruence)).
      rewrite (st_node _ _ Hst) by done. apply decide_ext. rewrite on_lists_unlinked. tauto.
Qed.

Lemma sim_unlink m w o : siblings m w -> is_Some (objects w !! o) ->
  exists m', Rings.list_del_init o m = Some m' /\ siblings m' (unlinked o w).
Proof using HUR.
  intros Hs Ho. destruct (known_not_head _ _ _ Hs Ho) as [H1 H2]. destruct (sib_lists _ _ Hs) as (S & HS & Hst).
  assert (Hk : forall x, x ∈ on_lists (unlinked o w) -> is_Some (objects w !! x)).
  { intros x [Hx _]%on_lists_unlinked. by apply (sib_known _ _ Hs). }
  assert (Hnone : unreferred (unlinked o w) = None -> unreferred w = None).
  { unfold unlinked. cbn. by destruct (unreferred w). }
  destruct (decide (o ∈ on_lists w)) as [Hin|Hin].
  - unfold on_lists in Hin. apply elem_of_app in Hin as [Hin|Hin].
    + destruct (in_unreferred _ _ _ _ Hs HS Hst Hin) as (l1 & l2 & Hu & Hn1 & Hn2 & Hni).
      destruct (rings_del_init m S U l1 o l2 HS) as (m' & Hrun & HS'); [rewrite (st_unreferred _ _ Hst); done|].
      exists m'. split; [done|]. eapply siblings_intro; [done|by eapply list_del_init_dom|done|exact HS'| |done|done].
      apply stands_unlinked; [done|done|done|done|by left| |].
      * rewrite lookup_insert_eq. cbn [unreferred set_unreferred unlinked]. rewrite Hu. simpl. f_equal. symmetry. by apply remove_split.
      * rewrite lookup_insert_ne, (st_isolated _ _ Hst) by done. f_equal. symmetry. by apply remove_notin.
    + destruct (in_isolated _ _ _ _ Hs HS Hst Hin) as (l1 & l2 & Hl & Hn1 & Hn2 & Hnu).
      destruct (rings_del_init m S R l1 o l2 HS) as (m' & Hrun & HS'); [rewrite (st_isolated _ _ Hst); by rewrite Hl|].
      exists m'. split; [done|]. eapply siblings_intro; [done|by eapply list_del_init_dom|done|exact HS'| |done|done].
      apply stands_unlinked; [done|done|done|done|by right| |].
      * rewrite lookup_insert_ne by done. rewrite (st_unreferred _ _ Hst). cbn.
        destruct (unreferred w) as [l|]; [|done]. simpl in *. f_equal. symmetry. by apply remove_notin.
      * rewrite lookup_insert_eq. f_equal. symmetry. cbn [isolated set_isolated set_unreferred unlinked]. rewrite Hl. by apply remove_split.
  - destruct (rings_del_init_alone m S o HS) as (m' & Hrun & HS').
    { rewrite (st_node _ _ Hst) by done. by rewrite decide_True. }
    exists m'. split; [done|]. eapply siblings_intro; [done|by eapply list_del_init_dom|done|done| |done|done].
    assert (Hw : unlinked o w = w).
    { unfold on_lists in Hin. rewrite elem_of_app in Hin. unfold unlinked. rewrite (remove_notin o (isolated w)) by tauto.
      assert (Hu : list_remove_oid o <$> unreferred w = unreferred w).
      { destruct (unreferred w) as [l|]; [|done]. simpl in *. f_equal. apply remove_notin. tauto. }
      rewrite Hu. by destruct w. }
    by rewrite Hw.
Qed.

(** the head of the unreferred objects is initialised on first use *)
Lemma sim_first_use m w : siblings m w -> exists m', init_unreferred m = Some m' /\
  siblings m' (set_unreferred (Some (default [] (unreferred w))) w).
Proof using HUR.
  intros Hs. destruct (sib_lists _ _ Hs) as (S & HS & Hst). unfold init_unreferred.
  destruct (unreferred w) as [l|] eqn:Hu.
  - pose proof (st_unreferred _ _ Hst) as HU. rewrite Hu in HU.
    assert (Ha : is_Some (m !! U)) by (eapply rings_alloc; [done|done|left]).
    destruct Ha as [nd ->]. exists m. split; [done|]. simpl. rewrite <- Hu. by destruct w.
  - pose proof (sib_uninitialised _ _ Hs Hu) as Hm. rewrite Hm.
    destruct (rings_init (<[U := junk]> m) S U) as (m' & Hrun & HS').
    + by apply rings_alloc_node.
    + rewrite lookup_insert_eq. by eexists.
    + intros h l Hh Hne Hin. destruct (rings_alloc m S h l U HS Hh ltac:(by right)). congruence.
    + exists m'. split; [done|]. pose proof (INIT_LIST_HEAD_dom _ _ _ Hrun) as Hd. split.
      * exists (<[U := []]> S). split; [done|]. split.
        -- by rewrite lookup_insert_eq.
        -- rewrite lookup_insert_ne by done. apply Hst.
        -- intros o H1 H2. rewrite lookup_insert_ne, (st_node _ _ Hst) by done. apply decide_ext.
           unfold on_lists. by rewrite Hu.
      * intros o Ho. apply (sib_known _ _ Hs). unfold on_lists in *. by rewrite Hu.
      * apply Hs.
      * intros o H1 H2 Ho. apply (sib_memory _ _ Hs o H1 H2). apply elem_of_dom in Ho. rewrite Hd in Ho.
        apply elem_of_dom in Ho. by rewrite lookup_insert_ne in Ho by done.
      * done.
Qed.

(** a node that is alone is linked into one of the lists *)
Lemma stands_added S w o h l w' : stands S w -> o <> U -> o <> R -> h = U \/ h = R -> objects w' = objects w ->
  (forall x, x ∈ on_lists w' <-> x = o \/ x ∈ on_lists w) ->
  <[h := l]> S !! U = unreferred w' -> <[h := l]> S !! R = Some (isolated w') -> stands (<[h := l]> (delete o S)) w'.
Proof.
  intros Hst H1 H2 Hh Hheap Hon HU HR.
  assert (Hl : forall x, x <> o -> <[h := l]> (delete o S) !! x = <[h := l]> S !! x).
  { intros x Hx. destruct (decide (x = h)) as [->|Hxh]; [by rewrite !lookup_insert_eq|].
    by rewrite !lookup_insert_ne, lookup_delete_ne by done. }
  split.
  - by rewrite Hl.
  - by rewrite Hl.
  - intros x Hx1 Hx2. rewrite Hheap. destruct (decide (x = o)) as [->|Hne].
    + rewrite lookup_insert_ne, lookup_delete_eq by (destruct Hh; congruence). rewrite decide_False; [done|].
      intros [_ Hno]. apply Hno, Hon. by left.
    + rewrite Hl, lookup_insert_ne, (st_node _ _ Hst) by (done || destruct Hh; congruence). apply decide_ext.
      rewrite Hon. tauto.
Qed.

Lemma node_alone S m w o : siblings m w -> stands S w -> is_Some (objects w !! o) -> o ∉ on_lists w -> S !! o = Some [].
Proof.
  intros Hs Hst Ho Hn. destruct (known_not_head _ _ _ Hs Ho). rewrite (st_node _ _ Hst) by done. by rewrite decide_True.
Qed.

Lemma sim_push m w o l : siblings m w -> unreferred w = Some l -> is_Some (objects w !! o) -> o ∉ on_lists w ->
  exists m', list_add o U m = Some m' /\ siblings m' (set_unreferred (Some (o :: l)) w).
Proof using HUR.
  intros Hs Hu Ho Hn. destruct (sib_lists _ _ Hs) as (S & HS & Hst). destruct (known_not_head _ _ _ Hs Ho) as [H1 H2].
  pose proof (st_unreferred _ _ Hst) as HU. rewrite Hu in HU.
  destruct (rings_add m S U l o HS (node_alone _ _ _ _ Hs Hst Ho Hn) HU H1) as (m' & Hrun & HS').
  exists m'. split; [done|].
  assert (Hon : forall x, x ∈ on_lists (set_unreferred (Some (o :: l)) w) <-> x = o \/ x ∈ on_lists w).
  { intros x. unfold on_lists. rewrite Hu. cbn [unreferred isolated set_unreferred default from_option id].
    rewrite !elem_of_app. rewrite elem_of_cons. tauto. }
  eapply siblings_intro; [done|by eapply list_add_dom|done|exact HS'| | |done].
  - apply (stands_added S w); [done|done|done|by left|done|done| |].
    + by rewrite lookup_insert_eq.
    + rewrite lookup_insert_ne by done. apply Hst.
  - intros x [->|Hx]%Hon; [done|]. by apply (sib_known _ _ Hs).
Qed.

Lemma sim_isolate m w o : siblings m w -> is_Some (objects w !! o) -> o ∉ on_lists w ->
  exists m', list_add o R m = Some m' /\ siblings m' (set_isolated (o :: isolated w) w).
Proof using HUR.
  intros Hs Ho Hn. destruct (sib_lists _ _ Hs) as (S & HS & Hst). destruct (known_not_head _ _ _ Hs Ho) as [H1 H2].
  destruct (rings_add m S R (isolated w) o HS (node_alone _ _ _ _ Hs Hst Ho Hn) (st_isolated _ _ Hst) H2)
    as (m' & Hrun & HS').
  exists m'. split; [done|].
  assert (Hon : forall x, x ∈ on_lists (set_isolated (o :: isolated w) w) <-> x = o \/ x ∈ on_lists w).
  { intros x. unfold on_lists. cbn [unreferred isolated set_isolated]. rewrite !elem_of_app, elem_of_cons. tauto. }
  eapply siblings_intro; [done|by eapply list_add_dom|done|exact HS'| | |done].
  - apply (stands_added S w); [done|done|done|by right|done|done| |].
    + rewrite lookup_insert_ne by done. apply Hst.
    + by rewrite lookup_insert_eq.
  - intros x [->|Hx]%Hon; [done|]. by apply (sib_known _ _ Hs).
Qed.

Lemma objects_new o ob w : o <> dead_weak_ref -> objects (set_heap (<[o := ob]> (heap w)) w) = <[o := ob]> (objects w).
Proof. intros Hne. unfold objects. cbn [heap set_heap]. by rewrite delete_insert_ne. Qed.
Lemma objects_free o w : objects (set_heap (delete o (heap w)) w) = delete o (objects w).
Proof. unfold objects. cbn [heap set_heap]. apply delete_delete. Qed.

Lemma sim_new m w o : siblings m w -> objects w !! o = None -> o <> U -> o <> R -> o <> dead_weak_ref ->
  exists m', m !! o = None /\ INIT_LIST_HEAD o (<[o := junk]> m) = Some m' /\
    siblings m' (set_heap (<[o := di_init_object PObject]> (heap w)) w).
Proof.
  intros Hs Ho H1 H2 H3. destruct (sib_lists _ _ Hs) as (S & HS & Hst).
  assert (Hm : m !! o = None).
  { destruct (m !! o) as [nd|] eqn:Hm; [|done]. destruct (sib_memory _ _ Hs o H1 H2); [by eexists|congruence]. }
  destruct (rings_init (<[o := junk]> m) S o) as (m' & Hrun & HS').
  - by apply rings_alloc_node.
  - rewrite lookup_insert_eq. by eexists.
  - intros h l Hh Hne Hin. destruct (rings_alloc m S h l o HS Hh ltac:(by right)). congruence.
  - exists m'. split_and!; [done|done|]. pose proof (INIT_LIST_HEAD_dom _ _ _ Hrun) as Hd.
    assert (Hon : o ∉ on_lists w) by (intros Hin; destruct (sib_known _ _ Hs o Hin); congruence). split.
    + exists (<[o := []]> S). split; [done|]. split.
      * rewrite lookup_insert_ne by done. apply Hst.
      * rewrite lookup_insert_ne by done. apply Hst.
      * intros x Hx1 Hx2. rewrite objects_new by done. change (on_lists (set_heap _ w)) with (on_lists w).
        destruct (decide (x = o)) as [->|Hne].
        -- rewrite !lookup_insert_eq. rewrite decide_True; [done|]. split; [by eexists|done].
        -- rewrite !lookup_insert_ne by done. by apply Hst.
    + intros x Hx. rewrite objects_new by done. apply is_Some_insert. by apply (sib_known _ _ Hs).
    + rewrite objects_new by done. rewrite !lookup_insert_ne by done. apply Hs.
    + intros x Hx1 Hx2 Hx. rewrite objects_new by done. destruct (decide (x = o)) as [->|Hne]; [rewrite lookup_insert_eq; by eexists|].
      rewrite lookup_insert_ne by done. apply (sib_memory _ _ Hs x Hx1 Hx2). apply elem_of_dom in Hx. rewrite Hd in Hx.
      apply elem_of_dom in Hx. by rewrite lookup_insert_ne in Hx by done.
    + intros Hu. pose proof (sib_uninitialised _ _ Hs Hu) as Hn. apply not_elem_of_dom. rewrite Hd.
      apply not_elem_of_dom. by rewrite lookup_insert_ne.
Qed.

Lemma sim_free m w o : siblings m w -> is_Some (objects w !! o) -> o ∉ on_lists w ->
  is_Some (m !! o) /\ siblings (delete o m) (set_heap (delete o (heap w)) w).
Proof.
  intros Hs Ho Hn. destruct (sib_lists _ _ Hs) as (S & HS & Hst). destruct (known_not_head _ _ _ Hs Ho) as [H1 H2].
  pose proof (node_alone _ _ _ _ Hs Hst Ho Hn) as Hal. split; [eapply rings_alloc; [done|done|left]|]. split.
  - exists (delete o S). split; [by apply rings_free_node|]. split.
    + rewrite lookup_delete_ne by done. apply Hst.
    + rewrite lookup_delete_ne by done. apply Hst.
    + intros x Hx1 Hx2. rewrite objects_free. change (on_lists (set_heap _ w)) with (on_lists w).
      destruct (decide (x = o)) as [->|Hne].
      * rewrite !lookup_delete_eq. rewrite decide_False; [done|]. by intros [[? ?] _].
      * rewrite !lookup_delete_ne by done. by apply Hst.
  - intros x Hx. rewrite objects_free. change (on_lists (set_heap _ w)) with (on_lists w) in Hx.
    rewrite lookup_delete_ne by (by intros ->). by apply (sib_known _ _ Hs).
  - rewrite objects_free. rewrite !lookup_delete_ne by done. apply Hs.
  - intros x Hx1 Hx2 Hx. rewrite objects_free. destruct (decide (x = o)) as [->|Hne]; [rewrite lookup_delete_eq in Hx; by destruct Hx|].
    apply lookup_delete_is_Some in Hx as [_ Hx]. rewrite lookup_delete_ne by done. by apply (sib_memory _ _ Hs x Hx1 Hx2).
  - intros Hu. rewrite lookup_delete_ne by done. by apply (sib_uninitialised _ _ Hs).
Qed.

Lemma sim_round m w : siblings m w -> isolated w = [] ->
  exists m', INIT_LIST_HEAD R m = Some m' /\ siblings m' (set_isolated [] w).
Proof.
  intros Hs Hi. destruct (sib_lists _ _ Hs) as (S & HS & Hst). pose proof (st_isolated _ _ Hst) as HR. rewrite Hi in HR.
  destruct (rings_init m S R HS) as (m' & Hrun & HS').
  - eapply rings_alloc; [done|done|left].
  - intros h l Hh Hne Hin. eapply (rings_apart m S R h [] l R HS HR Hh); [congruence|left|by right].
  - rewrite insert_id in HS' by done. exists m'. split; [done|].
    assert (Hw : set_isolated [] w = w) by (rewrite <- Hi; by destruct w). rewrite Hw.
    eapply siblings_intro; [done|by eapply INIT_LIST_HEAD_dom|done|done|done|apply Hs|done].
Qed.

(** ** The loops over the isolated objects *)

Lemma visit_nodes l : forall s m, visit_all visit_body l s m = Some (s ++ l, m).
Proof.
  induction l as [|x l IH]; intros s m; simpl; [by rewrite app_nil_r|]. by rewrite IH, <- app_assoc.
Qed.

Lemma sim_visit m w : siblings m w ->
  list_for_each_entry visit_body (S (size m)) R [] m = Some (isolated w, m).
Proof using HUR.
  intros Hs. destruct (sib_lists _ _ Hs) as (S & HS & Hst). pose proof (rg_ring _ _ HS _ _ (st_isolated _ _ Hst)) as Hr.
  rewrite (for_each_run _ R (isolated w)); [apply (visit_nodes _ [])| |pose proof (ring_length _ _ _ Hr); lia|done].
  intros x s m1 s1 m2 _ Hr1 [= <- <-]. done.
Qed.

Lemma sweep_ring keep a x b s m s1 m1 : ring m R (a ++ x :: b) -> sweep_body keep x s m = Some (s1, m1) ->
  ring m1 R (a ++ x :: b) \/ ring m1 R (a ++ b).
Proof.
  intros Hr. unfold sweep_body. destruct (keep x); [intros [= <- <-]; by left|]. intros H. right.
  assert (HS : rings m {[ R := a ++ x :: b ]}).
  { split; [by intros h l [<- <-]%lookup_singleton_Some|].
    by intros h h' l l' y [<- <-]%lookup_singleton_Some [<- <-]%lookup_singleton_Some. }
  destruct (rings_del_init m _ R a x b HS (lookup_singleton_eq _ _)) as (m2 & Hrun & HS2).
  rewrite Hrun in H. simpl in H. injection H as <- <-. apply (rg_ring _ _ HS2).
  rewrite lookup_insert_ne, lookup_insert_eq; [done|]. by apply (ring_next_at _ _ _ _ _ Hr).
Qed.

Lemma sweep_step keep o m : sweep_body keep o tt m = if keep o then Some (tt, m) else m ← Rings.list_del_init o m; Some (tt, m).
Proof. done. Qed.

Lemma sim_sweep keep l : forall m w, siblings m w -> (forall x, x ∈ l -> is_Some (objects w !! x)) ->
  exists m' w', visit_all (sweep_body keep) l tt m = Some (tt, m') /\
    mapM_ (fun i => if keep i then ret tt else Object.list_del_init i) l w = Ret tt w' /\ siblings m' w'.
Proof using HUR.
  induction l as [|x l IH]; intros m w Hs Hl; [by exists m, w|]. cbn [visit_all mapM_].
  unfold bind. destruct (keep x) eqn:Hk.
  - destruct (IH m w Hs) as (m' & w' & H1 & H2 & H3); [intros y Hy; apply Hl; by right|].
    exists m', w'. by rewrite (sweep_step keep x m), Hk.
  - destruct (sim_unlink m w x Hs (Hl x ltac:(left))) as (m1 & Hrun & Hs1).
    destruct (IH m1 (unlinked x w) Hs1) as (m' & w' & H1 & H2 & H3); [intros y Hy; apply Hl; by right|].
    exists m', w'. by rewrite (sweep_step keep x m), Hk, Hrun.
Qed.

Lemma sim_sweep_loop keep m w : siblings m w -> exists m' w',
  list_for_each_entry_safe (sweep_body keep) (S (size m)) R tt m = Some (tt, m') /\
  mapM_ (fun i => if keep i then ret tt else Object.list_del_init i) (isolated w) w = Ret tt w' /\ siblings m' w'.
Proof using HUR.
  intros Hs. destruct (sib_lists _ _ Hs) as (S & HS & Hst). pose proof (rg_ring _ _ HS _ _ (st_isolated _ _ Hst)) as Hr.
  destruct (sim_sweep keep (isolated w) m w Hs) as (m' & w' & H1 & H2 & H3).
  { intros x Hx. apply (sib_known _ _ Hs). apply elem_of_app. by right. }
  exists m', w'. split_and!; [|done|done].
  rewrite (for_each_safe_run _ R (isolated w)); [done| |pose proof (ring_length _ _ _ Hr); lia|done].
  intros a x b s m1 s1 m2 _. apply sweep_ring.
Qed.
(** ** The refinement *)

Lemma first_entry m S h l : rings m S -> S !! h = Some l -> list_first_entry h m = Some (default h (head l)).
Proof. intros HS Hh. apply ring_first. by apply (rg_ring _ _ HS). Qed.

Lemma sim_unreferred m w o : siblings m w -> is_Some (objects w !! o) -> exists m' w',
  link_op (Unreferred o) m = Some (Done, m') /\ model_op (Unreferred o) w = Ret Done w' /\ siblings m' w'.
Proof using HUR.
  intros Hs Ho. cbn [link_op model_op]. unfold link_unreferred. rewrite (node_empty m w o Hs Ho). unfold bind at 1. rewrite list_empty_node_eq.
  cbn [mbind option_bind]. destruct (bool_decide (o ∉ on_lists w)) eqn:Hn; [|by exists m, w].
  apply bool_decide_eq_true in Hn. destruct (sim_first_use m w Hs) as (m1 & Hrun & Hs1).
  destruct (sim_push m1 _ o (default [] (unreferred w)) Hs1 eq_refl Ho) as (m2 & Hrun2 & Hs2).
  { intros Hin. apply Hn. unfold on_lists in *. cbn [unreferred isolated set_unreferred] in Hin. done. }
  exists m2. eexists. rewrite Hrun. cbn [mbind option_bind]. rewrite Hrun2. split_and!; [done|done|exact Hs2].
Qed.

Lemma sim_link_op op m w : siblings m w -> allowed op w -> exists a m' w',
  link_op op m = Some (a, m') /\ model_op op w = Ret a w' /\ siblings m' w'.
Proof using HUR.
  intros Hs Ha. destruct (sib_lists _ _ Hs) as (S & HS & Hst). pose proof (st_isolated _ _ Hst) as HR.
  destruct op as [o|o|o|o|o| |o| | | | | |keep]; cbn [allowed] in Ha.
  - destruct Ha as (H1 & H2 & H3 & H4). destruct (sim_new m w o Hs H1 H2 H3 H4) as (m' & Hm & Hrun & Hs').
    eexists Done, m', _. cbn [link_op]. rewrite Hm, Hrun. by split_and!.
  - destruct Ha as [H1 H2]. destruct (sim_free m w o Hs H1 H2) as [[nd Hnd] Hs'].
    eexists Done, (delete o m), _. cbn [link_op]. rewrite Hnd. by split_and!.
  - exists Done. by apply sim_unreferred.
  - destruct (sim_unlink m w o Hs Ha) as (m' & Hrun & Hs').
    eexists Done, m', _. cbn [link_op]. rewrite Hrun. by split_and!.
  - eexists (Yes (bool_decide (o ∉ on_lists w))), m, w. cbn [link_op model_op]. rewrite (node_empty m w o Hs Ha). unfold bind.
    by rewrite list_empty_node_eq.
  - destruct (sim_round m w Hs Ha) as (m' & Hrun & Hs'). eexists Done, m', _. cbn [link_op]. rewrite Hrun. by split_and!.
  - destruct Ha as [H1 H2]. destruct (sim_isolate m w o Hs H1 H2) as (m' & Hrun & Hs').
    eexists Done, m', _. cbn [link_op]. rewrite Hrun. by split_and!.
  - destruct Ha as [l Hl]. eexists _, m, w. cbn [link_op].
    rewrite (rings_empty m S U l HS) by (rewrite (st_unreferred _ _ Hst); done). split_and!; [done| |done].
    cbn [model_op]. unfold bind, gets, ret. rewrite Hl. f_equal. f_equal. apply bool_decide_ext. split; [by intros [= ->]|by intros ->].
  - eexists _, m, w. cbn [link_op]. by rewrite (rings_empty m S R _ HS HR).
  - destruct Ha as [l Hl]. eexists _, m, w. cbn [link_op].
    rewrite (first_entry m S U l HS) by (rewrite (st_unreferred _ _ Hst); done). split_and!; [done| |done].
    cbn [model_op]. unfold bind, gets, ret. by rewrite Hl.
  - eexists _, m, w. cbn [link_op]. by rewrite (first_entry m S R _ HS HR).
  - eexists _, m, w. cbn [link_op]. by rewrite (sim_visit m w Hs).
  - destruct (sim_sweep_loop keep m w Hs) as (m' & w' & H1 & H2 & H3).
    eexists Done, m', w'. cbn [link_op model_op]. rewrite H1. unfold bind, gets. by rewrite H2.
Qed.
End siblings.

(** Through any sequence of operations [object.c] does on the nodes of
    [unreferred_siblings] and the two heads -- a new object's node, an object that becomes
    unreferred, one that is revived or destroyed, the rounds of the collector with their two
    loops -- the functions of [list.h] never touch memory that is not allocated, their loops
    end, every answer ([list_empty], [list_first_entry], the objects visited) is the answer
    of the model's two lists, and the nodes stand for the lists again. C13. *)
Theorem siblings_refine (U R : loc) (junk : list_head) ops : forall m w l w', U <> R ->
  siblings U R m w -> model_ops U R ops w l w' ->
  exists m', link_ops U R junk ops m = Some (l, m') /\ siblings U R m' w'.
Proof.
  induction ops as [|op ops IH]; intros m w l w' HUR Hs; cbn [model_ops link_ops].
  - intros [-> ->]. by exists m.
  - intros [Ha (a & l1 & w1 & Hrun & -> & Hrest)].
    destruct (sim_link_op U R junk HUR op m w Hs Ha) as (a' & m1 & w1' & Hlink & Hrun' & Hs1).
    rewrite Hrun in Hrun'. injection Hrun' as <- <-.
    destruct (IH m1 w1 l1 w' HUR Hs1 Hrest) as (m' & Hl & Hs'). exists m'. rewrite Hlink. cbn [mbind option_bind]. by rewrite Hl.
Qed.

(** the start of the program -- no objects, and the head of a round on the stack -- and the
    operations of a few objects' lives *)
Definition stack_head : nodes := {[ 101 := ListHead 101 101 ]}%positive.
Definition no_objects : world := set_unreferred None (store []).
Definition round_ops : list sop := [
  NewObject 2; NewObject 3; NewObject 4; Unreferred 2; Unreferred 3; IsUnlinked 2; Unreferred 4; Unreferred 2;
  Unlink 3; FreeObject 3; StartRound; NoUnreferred; FirstUnreferred; Unlink 4; Isolate 4; FirstUnreferred; Unlink 2;
  Isolate 2; NoUnreferred; Isolated; Sweep (Pos.eqb 4); FirstIsolated; Unlink 4; NoIsolated]%positive.
Definition round_answers : list answer := [
  Done; Done; Done; Done; Done; Yes false; Done; Done;
  Done; Done; Done; Yes false; Node 4; Done; Done; Node 2; Done;
  Done; Yes true; Nodes [2; 4]; Done; Node 4; Done; Yes true]%positive.

Lemma siblings_start : siblings 100 101 stack_head no_objects.
Proof.
  split; [|by intros o []%not_elem_of_nil|done| |done].
  - exists {[ 101%positive := [] ]}. split; split.
    + intros h l [<- <-]%lookup_singleton_Some. split; [apply NoDup_singleton|]. by repeat constructor.
    + by intros h h' l l' y [<- <-]%lookup_singleton_Some [<- <-]%lookup_singleton_Some.
    + by rewrite lookup_singleton_ne.
    + by rewrite lookup_singleton_eq.
    + intros o _ Ho. rewrite lookup_singleton_ne by done. rewrite decide_False; [done|]. intros [[ob Hob] _].
      by change (objects no_objects) with (∅ : gmap oid object) in Hob.
  - intros o _ Ho [nd Hnd]. unfold stack_head in Hnd. by apply lookup_singleton_Some in Hnd as [<- _].
Qed.

Ltac do_op := split; [apply (bool_decide_unpack _); vm_compute; exact I|eexists _, _, _; split; [vm_compute; reflexivity|split; [reflexivity|]]].

Lemma round_runs : exists w', model_ops 100 101 round_ops no_objects round_answers w'.
Proof. eexists. unfold round_ops. repeat (cbn [model_ops]; do_op). by split. Qed.

Lemma siblings_refine_witness : exists w' m', model_ops 100 101 round_ops no_objects round_answers w' /\
  link_ops 100 101 (ListHead 7 7) round_ops stack_head = Some (round_answers, m') /\ siblings 100 101 m' w'.
Proof.
  destruct round_runs as [w' Hw].
  destruct (siblings_refine 100 101 (ListHead 7 7) round_ops stack_head no_objects round_answers w') as (m' & H1 & H2);
    [done|apply siblings_start|exact Hw|].
  exists w', m'. by split_and!.
Defined.

(** the model's second loop of a round is the [Sweep] of the objects whose mark is 2 *)
Definition marked_2 (w : world) (i : loc) : bool :=
  match heap w !! i with Some ob => (mark ob =? 2)%Z | None => false end.

Lemma drop_revived_is_sweep U R w w' : drop_revived_roots w = Ret tt w' ->
  model_op U R (Sweep (marked_2 w)) w = Ret Done w'.
Proof.
  unfold drop_revived_roots, model_op. unfold bind at 1, gets. unfold bind at 3, gets.
  assert (Hgo : forall l w1, heap w1 = heap w ->
    mapM_ (fun i => ob <- get_obj i ;; assert ((mark ob =? 0) || (mark ob =? 2))%Z ;;
      if (mark ob =? 2)%Z then ret tt else Object.list_del_init i) l w1 = Ret tt w' ->
    mapM_ (fun i => if marked_2 w i then ret tt else Object.list_del_init i) l w1 = Ret tt w').
  { induction l as [|i l IH]; intros w1 Hw; [done|]. cbn [mapM_]. unfold bind, get_obj. rewrite Hw. unfold marked_2 at 1.
    destruct (heap w !! i) as [ob|]; [|done]. unfold assert. destruct (_ || _); [|done]. unfold ret at 1.
    destruct (mark ob =? 2)%Z; [by apply IH|]. apply IH. done. }
  intros H. unfold bind. by rewrite (Hgo _ w eq_refl H).
Qed.
