(* ===== verification/KeyPress.v ===== *)
(** * Key events reach the bindings that match

    The handler of key events against what the bindings of the extension promise: which of
    them emit, how often and in which order, and whether the event is kept from the other
    clients. *)

From S2P Require Export XKey Lookup Demo.

(** how often a binding emits for a key: once per entry of its keycodes *)
Definition occurrences (kc : Z) (l : list Z) : nat := length (filter (fun k => k = kc) l).
Definition hits (kc mod_ : Z) (b : binding) : nat :=
  if (kb_modifiers b =? mod_)%Z then occurrences kc (default [] (kb_keycodes b)) else 0.
(** a binding for the modifiers whose keys were not found *)
Definition keyless (mod_ : Z) (b : binding) : Prop := kb_modifiers b = mod_ /\ kb_keycodes b = None.
Definition emissions (entries : oid -> list extcall) (kc mod_ : Z) (l : list (oid * binding)) : list extcall :=
  concat ((fun p => concat (replicate (hits kc mod_ (snd p)) (entries (fst p)))) <$> l).
Definition intercepts (kc mod_ : Z) (l : list (oid * binding)) : bool :=
  existsb (fun p => (0 <? hits kc mod_ (snd p))%nat && kb_intercept (snd p)) l.

Lemma occurrences_cons k kc l : occurrences kc (k :: l) = (if (k =? kc)%Z then 1 else 0) + occurrences kc l.
Proof. unfold occurrences. rewrite filter_cons. destruct (Z.eqb_spec k kc); [by rewrite decide_True|by rewrite decide_False]. Qed.
Lemma occurrences_drop kc l i k : l !! i = Some k ->
  occurrences kc (drop i l) = (if (k =? kc)%Z then 1 else 0) + occurrences kc (drop (S i) l).
Proof. intros Hk. by rewrite (drop_S _ _ _ Hk), occurrences_cons. Qed.

Lemma bind_stuck_run {A B} (m : M A) (k : A -> M B) w f : m w = Stuck f -> bind m k w = Stuck f.
Proof. unfold bind. by intros ->. Qed.

Section press.
Context {E : Env} {F : Ffi} {Y : System} {K : Xkb} {X : Xcb}.
Context (k dc : oid) (c : Z) (l : list (oid * binding)) (event : string).
(** [Q]: what the handlers of the signals keep; [entries]: what they leave in the trace *)
Context (Q : world -> Prop) (entries : oid -> list extcall).

Definition held_count (held : option oid) (kb : oid) : Z := if decide (held = Some kb) then 1 else 0.
(** a binding object, to which the extension has a reference, and the handler of the event
    one more if it is at this binding *)
Record kb_ready (held : option oid) (kb : oid) (b : binding) (ob : object) : Prop := {
  kr_extra : extra ob = PKeybinding (kb_keysym b) (kb_keycodes b) (kb_modifiers b) (kb_intercept b);
  kr_alive : destroyed ob = false;
  kr_mark : mark ob = 0%Z \/ mark ob = 2%Z \/ mark ob = 3%Z;
  kr_count : (1 + held_count held kb <= ref_count ob < 2 ^ 64 - 1 + held_count held kb)%Z
}.
Record stage (held : option oid) (w : world) : Prop := {
  st_key : exists ob e ks, heap w !! k = Some ob /\ extra ob = PXorgExt e /\
    ext_fields e = KeyFields ks (Z.of_nat (length l)) /\
    forall i kb b, l !! i = Some (kb, b) -> find_member (keybinding_key (Z.of_nat i)) (members ob) = Some (VObject kb);
  st_kb : forall kb b, (kb, b) ∈ l -> exists ob, heap w !! kb = Some ob /\ kb_ready held kb b ob;
  st_dc : exists ob s n x a, heap w !! dc = Some ob /\ extra ob = PXorgConnection (Some c) s n x a;
  st_handlers : Q w
}.

Hypothesis Hcount : forall w kb b ob n, (kb, b) ∈ l -> heap w !! kb = Some ob -> Q w ->
  Q (set_heap (<[kb := set_ref_count n ob]> (heap w)) w).
Hypothesis Hunreferred : forall w kb b, (kb, b) ∈ l -> list_empty_node kb w = Ret true w -> Q w ->
  Q (set_unreferred (Some (kb :: default [] (unreferred w))) w).
Hypothesis Hemit : forall w kb b, (kb, b) ∈ l -> stage (Some kb) w ->
  exists r w', di_emitn kb (Some event) [] w = Ret r w' /\ stage (Some kb) w' /\ trace w' = rev (entries kb) ++ trace w.

(** ** Taking and dropping a reference to a binding *)

Lemma stage_set_count held held' kb b ob n w : stage held w -> (kb, b) ∈ l -> heap w !! kb = Some ob ->
  (1 + held_count held' kb <= n < 2 ^ 64 - 1 + held_count held' kb)%Z ->
  (forall x, x <> kb -> held_count held' x = held_count held x) ->
  stage held' (set_heap (<[kb := set_ref_count n ob]> (heap w)) w).
Proof using Hcount.
  intros [(obk & e & ks & Hk & He & Hf & Hm) Hkb (obd & s & m & x & a & Hd & Hx) HQ] Hin Ho Hn Hheld.
  destruct (Hkb kb b Hin) as (ob' & Ho' & Hr). simplify_eq. constructor; simpl.
  - assert (k <> kb) by (intros ->; rewrite Hk in Ho; simplify_eq; destruct Hr; congruence).
    rewrite lookup_insert_ne by done. by exists obk, e, ks.
  - intros kb' b' Hin'. destruct (Hkb kb' b' Hin') as (ob' & Ho' & Hr'). destruct (decide (kb' = kb)) as [->|Hne].
    + simplify_eq. rewrite lookup_insert_eq. eexists. split; [done|]. by destruct Hr'; constructor.
    + rewrite lookup_insert_ne by done. exists ob'. split; [done|]. destruct Hr'; constructor; try done. by rewrite Hheld.
  - assert (dc <> kb) by (intros ->; rewrite Hd in Ho; simplify_eq; destruct Hr; congruence).
    rewrite lookup_insert_ne by done. by exists obd, s, m, x, a.
  - by eapply Hcount.
Qed.

Lemma held_none kb : held_count None kb = 0%Z.
Proof. unfold held_count. by rewrite decide_False. Qed.
Lemma held_self kb : held_count (Some kb) kb = 1%Z.
Proof. unfold held_count. by rewrite decide_True. Qed.
Lemma held_other kb x : x <> kb -> held_count (Some kb) x = 0%Z.
Proof. intros H. unfold held_count. rewrite decide_False; [done|congruence]. Qed.

Lemma stage_take i kb b w : l !! i = Some (kb, b) -> stage None w ->
  exists w1, di_getxt k (Some (keybinding_key (Z.of_nat i))) DI_TYPE_OBJECT false w = Ret (inr (VObject kb), None) w1 /\
    stage (Some kb) w1 /\ trace w1 = trace w.
Proof using Hcount.
  intros Hi Hs. assert (Hin : (kb, b) ∈ l) by (apply list_elem_of_lookup; by exists i).
  destruct (st_kb _ _ Hs kb b Hin) as (ob & Ho & Hr). destruct (st_key _ _ Hs) as (obk & e & ks & Hk & _ & _ & Hm).
  pose proof (kr_count _ _ _ _ Hr) as Hc. rewrite held_none in Hc.
  eexists. split; [|split]; [eapply (di_getxt_eq k _ _ obk (VObject kb)); eauto; try done| |done].
  - split; [|by intros x Hx%not_elem_of_nil]. intros x Hx%list_elem_of_singleton. subst x. exists ob.
    cbn [strong_refs]. rewrite cnt_cons_eq. change (cnt kb []) with 0%Z. split; [done|]. lia.
  - simpl strong_refs. simpl weak_refs.
    rewrite <- (add_refs_one (set_ref_count (ref_count ob + 1)%Z) [kb] [] (heap w) kb ob Ho).
    + eapply (stage_set_count None); try done; [rewrite held_self; simpl; lia|].
      intros x Hx. by rewrite held_none, held_other.
    + rewrite cnt_cons_eq. simpl. destruct ob; unfold set_weak_ref_count, set_ref_count; simpl. f_equal; lia.
    + intros x Hx. by rewrite cnt_cons_ne.
Qed.

Lemma stage_unreferred held kb b w : (kb, b) ∈ l -> list_empty_node kb w = Ret true w -> stage held w ->
  stage held (set_unreferred (Some (kb :: default [] (unreferred w))) w).
Proof using Hunreferred. intros Hin He [H1 H2 H3 H4]. constructor; [exact H1|exact H2|exact H3|by eapply Hunreferred]. Qed.

Lemma stage_drop kb b w : (kb, b) ∈ l -> 0 < env_fuel -> stage (Some kb) w ->
  exists w1, di_unref_object kb w = Ret tt w1 /\ stage None w1 /\ trace w1 = trace w.
Proof using Hcount Hunreferred.
  intros Hin Hfuel Hs. destruct (st_kb _ _ Hs kb b Hin) as (ob & Ho & [He Ha Hm Hc]). rewrite held_self in Hc.
  assert (Hs1 : stage None (set_heap (<[kb := set_ref_count (ref_count ob - 1)%Z ob]> (heap w)) w)).
  { eapply (stage_set_count (Some kb)); try done; [by rewrite held_none; lia|]. intros x Hx. by rewrite held_none, held_other. }
  set (w1 := set_heap _ w) in Hs1. unfold di_unref_object. destruct env_fuel as [|n]; [lia|]. cbn [unref_object_fuel].
  rewrite (bind_get_obj _ ob) by done. rewrite (proj2 (Z.ltb_lt _ _)), bind_assert_true, Ha, bind_assert_true by lia.
  erewrite (bind_ret_run (upd_obj _ _)); [|unfold upd_obj; rewrite (bind_get_obj _ ob) by done; reflexivity].
  rewrite u64_small by lia. fold w1. rewrite (bind_get_obj _ (set_ref_count (ref_count ob - 1)%Z ob)) by apply lookup_insert_eq.
  assert ((mark ob =? 0) || (mark ob =? 2) || (mark ob =? 3) = true)%Z as Hmk by (destruct Hm as [->|[->| ->]]; done).
  simpl mark. rewrite Hmk, bind_assert_true. cbn [ref_count set_ref_count].
  rewrite (proj2 (Z.eqb_neq (ref_count ob - 1) 0)) by lia.
  assert (exists e, list_empty_node kb w1 = Ret e w1) as [e Hn] by (by eexists).
  rewrite (bind_ret_run _ _ _ _ _ Hn). destruct (e && (mark ob =? 0)%Z) eqn:Heq; [|by exists w1].
  apply andb_prop in Heq as [-> _]. eexists. split; [reflexivity|]. split; [|done]. by eapply stage_unreferred.
Qed.

(** ** The loops *)

Lemma get_kb_run kb b w held : (kb, b) ∈ l -> stage held w -> get_kb kb w = Ret b w.
Proof.
  intros Hin Hs. destruct (st_kb _ _ Hs kb b Hin) as (ob & Ho & Hr). unfold get_kb.
  rewrite (bind_get_obj _ ob) by done. rewrite (kr_extra _ _ _ _ Hr). by destruct b.
Qed.

Lemma match_keycodes_run kb b ks kc : (kb, b) ∈ l -> kb_keycodes b = Some ks ->
  forall fuel i intercept w, length ks - i < fuel -> stage (Some kb) w ->
  exists w', match_keycodes fuel kb kc event i intercept w =
      Ret (intercept || ((0 <? occurrences kc (drop i ks))%nat && kb_intercept b)) w' /\
    stage (Some kb) w' /\
    trace w' = rev (concat (replicate (occurrences kc (drop i ks)) (entries kb))) ++ trace w.
Proof using Hemit.
  intros Hin Hks. induction fuel as [|fuel IH]; intros i ic w Hf Hs; [lia|]. cbn [match_keycodes].
  rewrite (bind_ret_run _ _ _ _ _ (get_kb_run _ _ _ _ Hin Hs)), Hks.
  destruct (ks !! i) as [x|] eqn:Hi.
  - pose proof (lookup_lt_Some _ _ _ Hi). rewrite (occurrences_drop kc ks i x Hi).
    destruct (x =? kc)%Z.
    + destruct (Hemit w kb b Hin Hs) as (r & w1 & Hr & Hs1 & Ht1). rewrite (bind_ret_run _ _ _ _ _ Hr).
      destruct (IH (S i) (ic || kb_intercept b) w1) as (w' & Hw & Hs' & Ht'); [lia|done|].
      exists w'. split_and!; [|done|].
      * rewrite Hw. f_equal. destruct ic, (kb_intercept b); simpl; rewrite ?andb_true_r, ?andb_false_r; done.
      * rewrite Ht', Ht1. simpl. by rewrite rev_app_distr, app_assoc.
    + destruct (IH (S i) ic w) as (w' & Hw & Hs' & Ht'); [lia|done|]. by exists w'.
  - apply lookup_ge_None in Hi. rewrite drop_ge by done. exists w. split_and!; [|done|done].
    simpl. by rewrite orb_false_r.
Qed.

Definition fits (b : binding) : Prop := length (default [] (kb_keycodes b)) < env_fuel.

(** one binding, with the reference taken and dropped *)
Lemma with_binding_run i kb b kc mod_ intercept w : l !! i = Some (kb, b) -> fits b -> stage None w ->
  let run := with_binding k (Z.of_nat i) (fun kb => b <- get_kb kb ;;
    if negb (kb_modifiers b =? mod_)%Z then ret intercept else match_keycodes env_fuel kb kc event 0 intercept) w in
  (keyless mod_ b -> run = Stuck NullDereference) /\
  (~ keyless mod_ b -> exists w', run = Ret (intercept || ((0 <? hits kc mod_ b)%nat && kb_intercept b)) w' /\
    stage None w' /\ trace w' = rev (concat (replicate (hits kc mod_ b) (entries kb))) ++ trace w).
Proof using Hcount Hunreferred Hemit.
  intros Hi Hfit Hs run. unfold fits in Hfit. assert (Hin : (kb, b) ∈ l) by (apply list_elem_of_lookup; by exists i).
  destruct (stage_take i kb b w Hi Hs) as (w1 & Hg & Hs1 & Ht1). unfold run, with_binding.
  rewrite (bind_ret_run _ _ _ _ _ Hg). unfold scoped. rewrite (bind_ret_run _ _ _ _ _ (get_kb_run _ _ _ _ Hin Hs1)).
  assert (Hdone : forall r w2, stage (Some kb) w2 -> exists w3, bind (di_unref_object kb) (fun _ => ret (A := bool) r) w2 = Ret r w3 /\
    stage None w3 /\ trace w3 = trace w2).
  { intros r w2 Hs2. destruct (stage_drop kb b w2 Hin ltac:(lia) Hs2) as (w3 & Hu & Hs3 & Ht3). exists w3.
    by rewrite (bind_ret_run _ _ _ _ _ Hu). }
  unfold keyless, hits. destruct (Z.eqb_spec (kb_modifiers b) mod_) as [Hm|Hm]; cbn [negb]; split.
  - intros [_ Hk]. destruct env_fuel; [lia|]. cbn [match_keycodes].
    by rewrite (bind_ret_run _ _ _ _ _ (get_kb_run _ _ _ _ Hin Hs1)), Hk.
  - intros Hno. destruct (kb_keycodes b) as [ks|] eqn:Hk; [|tauto]. simpl default in *.
    destruct (match_keycodes_run kb b ks kc Hin Hk env_fuel 0 intercept w1 ltac:(lia) Hs1) as (w2 & -> & Hs2 & Ht2).
    destruct (Hdone (intercept || ((0 <? occurrences kc (drop 0 ks))%nat && kb_intercept b)) w2 Hs2) as (w3 & -> & Hs3 & Ht3).
    exists w3. rewrite Ht3, Ht2, Ht1. done.
  - tauto.
  - intros _. unfold ret at 1. destruct (Hdone intercept w1 Hs1) as (w3 & -> & Hs3 & Ht3). exists w3.
    rewrite Ht3, Ht1. simpl. by rewrite orb_false_r.
Qed.

Lemma match_bindings_step fuel kc mod_ i intercept w : stage None w ->
  match_bindings (S fuel) k kc mod_ event (Z.of_nat i) intercept w =
  if (i <? length l)%nat then
    bind (with_binding k (Z.of_nat i) (fun kb => b <- get_kb kb ;;
      if negb (kb_modifiers b =? mod_)%Z then ret intercept else match_keycodes env_fuel kb kc event 0 intercept))
      (fun intercept => match_bindings fuel k kc mod_ event (Z.of_nat (S i)) intercept) w
  else Ret intercept w.
Proof.
  intros Hs. destruct (st_key _ _ Hs) as (obk & e & ks & Hk & He & Hf & _). cbn [match_bindings].
  assert (Hg : get_key k w = Ret (e, (ks, Z.of_nat (length l))) w).
  { unfold get_key, get_ext, bind, get_obj. rewrite Hk. unfold ret at 1. rewrite He. unfold ret at 1. by rewrite Hf. }
  rewrite (bind_ret_run _ _ _ _ _ Hg). rewrite Nat2Z.inj_succ.
  destruct (Nat.ltb_spec i (length l)); [by rewrite (proj2 (Z.ltb_lt _ _)) by lia|by rewrite (proj2 (Z.ltb_ge _ _)) by lia].
Qed.

Lemma match_bindings_run kc mod_ : Forall (fun p => fits (snd p)) l ->
  forall fuel i intercept w, length l - i < fuel -> stage None w ->
  (Exists (fun p => keyless mod_ (snd p)) (drop i l) ->
     match_bindings fuel k kc mod_ event (Z.of_nat i) intercept w = Stuck NullDereference) /\
  (Forall (fun p => ~ keyless mod_ (snd p)) (drop i l) ->
     exists w', match_bindings fuel k kc mod_ event (Z.of_nat i) intercept w =
         Ret (intercept || intercepts kc mod_ (drop i l)) w' /\
       stage None w' /\ trace w' = rev (emissions entries kc mod_ (drop i l)) ++ trace w).
Proof using Hcount Hunreferred Hemit.
  intros Hfit. induction fuel as [|fuel IH]; intros i ic w Hf Hs; [lia|].
  rewrite match_bindings_step by done. destruct (Nat.ltb_spec i (length l)) as [Hi|Hi].
  - destruct (lookup_lt_is_Some_2 _ _ Hi) as [[kb b] Hib]. rewrite (drop_S _ _ _ Hib).
    pose proof (proj1 (Forall_lookup _ _) Hfit _ _ Hib) as Hb. simpl in Hb.
    destruct (with_binding_run i kb b kc mod_ ic w Hib Hb Hs) as [Hbad Hgood].
    split.
    + intros Hex. destruct (decide (kb_modifiers b = mod_ /\ kb_keycodes b = None)) as [Hk|Hk].
      { by rewrite (bind_stuck_run _ _ _ _ (Hbad Hk)). }
      apply Exists_cons in Hex as [Hex|Hex]; [by destruct Hk|]. destruct (Hgood Hk) as (w1 & Hr & Hs1 & Ht1).
      rewrite (bind_ret_run _ _ _ _ _ Hr). apply IH; [lia|done|done].
    + intros [Hk Hall]%Forall_cons. destruct (Hgood Hk) as (w1 & Hr & Hs1 & Ht1).
      rewrite (bind_ret_run _ _ _ _ _ Hr).
      destruct (proj2 (IH (S i) (ic || ((0 <? hits kc mod_ b)%nat && kb_intercept b)) w1 ltac:(lia) Hs1) Hall) as (w2 & -> & Hs2 & Ht2).
      exists w2. split_and!; [|done|].
      * unfold intercepts. simpl existsb. by rewrite orb_assoc.
      * rewrite Ht2, Ht1. unfold emissions. rewrite fmap_cons. simpl concat. by rewrite rev_app_distr, app_assoc.
  - rewrite drop_ge by done. split; [by intros Hex%Exists_nil|]. intros _. exists w. split_and!; [|done|done].
    simpl. by rewrite orb_false_r.
Qed.

(** A press or a release of a key. Every binding with exactly these modifiers emits the
    signal once for each of its keycodes that is the one of the event, in the order in which
    the bindings were made, whatever the handlers do as long as they leave the bindings
    alone; afterwards the server is told, once, to keep the event from other clients if a
    binding that matched intercepts, and to replay it otherwise. But a binding with these
    modifiers whose keys were not found ends the program, whichever key it was. C30. *)
Theorem handle_press_correct kc mod_ w : Forall (fun p => fits (snd p)) l -> length l < env_fuel -> stage None w ->
  (Forall (fun p => ~ keyless mod_ (snd p)) l ->
     exists w1, stage None w1 /\ trace w1 = rev (emissions entries kc mod_ l) ++ trace w /\
       handle_press k dc kc mod_ event w =
         Ret tt (add_trace (ExtCall "xcb_flush" [VNint c])
                  (add_trace (ExtCall "xcb_allow_events"
                     [VNint c; VNint (if intercepts kc mod_ l then XCB_ALLOW_SYNC_KEYBOARD else XCB_ALLOW_REPLAY_KEYBOARD); VNint 0]) w1))) /\
  (Exists (fun p => keyless mod_ (snd p)) l -> handle_press k dc kc mod_ event w = Stuck NullDereference).
Proof using Hcount Hunreferred Hemit.
  intros Hfit Hlen Hs.
  destruct (match_bindings_run kc mod_ Hfit env_fuel 0 false w ltac:(lia) Hs) as [Hbad Hgood]. rewrite drop_0 in Hbad, Hgood.
  unfold handle_press. split.
  - intros Hall. destruct (Hgood Hall) as (w1 & Hr & Hs1 & Ht1). exists w1. split_and!; [done|done|].
    rewrite (bind_ret_run _ _ _ _ _ Hr). destruct (st_dc _ _ Hs1) as (obd & s & m & x & a & Hd & Hx).
    assert (Hc : xcb_of dc w1 = Ret c w1) by (unfold xcb_of, get_xc, bind, get_obj; by rewrite Hd, Hx).
    by rewrite (bind_ret_run _ _ _ _ _ Hc).
  - intros Hex. by rewrite (bind_stuck_run _ _ _ _ (Hbad Hex)).
Qed.
End press.

(** ** Two bindings of control and the same key, one of them with a handler *)

(** an environment in which every call is seen in the trace *)
Definition recording_env : Env := {|
  env_fuel := 40;
  env_call := fun f _ _ => call_ext f [] ;; ret (inr VNil);
  env_dtor := fun _ _ => ret tt;
  env_log := fun _ _ => ret tt
|}.
Definition press_bindings : list (oid * binding) :=
  [(4%positive, Binding 97 (Some [38; 24]) 4 true); (5%positive, Binding 98 (Some [38; 40; 38]) 4 false)]%Z.
(** [n1], [n2]: the references to the bindings *)
Definition press_heap (n1 n2 : Z) : gmap oid object :=
  heap (store
    [(2%positive, with_extra (PXorgExt (XorgExt "key" 1 0 None (KeyFields 11 2)))
                    (plain [(keybinding_key 0, VObject 4); (keybinding_key 1, VObject 5)] 1 1));
     (3%positive, with_extra (PXorgConnection (Some 7%Z) 0 0 None []) (plain [] 1 1));
     (4%positive, with_extra (PKeybinding 97 (Some [38; 24]%Z) 4 true) (plain [(signal_member_of (Some "pressed"), VObject 6)] n1 1));
     (5%positive, with_extra (PKeybinding 98 (Some [38; 40; 38]%Z) 4 false)
                    (plain [(signal_member_of (Some "pressed"), VObject 6)] n2 1));
     (6%positive, with_extra (PSignal 1) (plain [(handler_member_name 7, VObject 7)] 2 1));
     (7%positive, set_call (Some "handler") (plain [] 1 1))]).
Definition press_world (n1 n2 : Z) (tr : list extcall) : world :=
  World (press_heap n1 n2) 20 (Some [4; 5; 6; 7]%positive) [] None None DI_LOG_WARN 0 false tr.

Lemma press_emit n1 n2 tr kb b : (kb, b) ∈ press_bindings ->
  @di_emitn recording_env null_ffi kb (Some "pressed") [] (press_world n1 n2 tr) =
  Ret 0%Z (press_world n1 n2 (ExtCall "handler" [] :: tr)).
Proof.
  intros Hin. repeat (apply elem_of_cons in Hin as [[= -> ->]|Hin]; [vm_compute; reflexivity|]). by apply not_elem_of_nil in Hin.
Qed.

Definition press_ok (w : world) : Prop := exists n1 n2 tr, w = press_world n1 n2 tr.

Lemma press_count w kb b ob n : (kb, b) ∈ press_bindings -> heap w !! kb = Some ob -> press_ok w ->
  press_ok (set_heap (<[kb := set_ref_count n ob]> (heap w)) w).
Proof.
  intros Hin Ho (n1 & n2 & tr & ->). repeat (apply elem_of_cons in Hin as [[= -> ->]|Hin]); [| |by apply not_elem_of_nil in Hin];
    vm_compute in Ho; injection Ho as <-; [exists n, n2, tr|exists n1, n, tr]; vm_compute; reflexivity.
Qed.
Lemma press_unreferred w kb b : (kb, b) ∈ press_bindings -> list_empty_node kb w = Ret true w -> press_ok w ->
  press_ok (set_unreferred (Some (kb :: default [] (unreferred w))) w).
Proof.
  intros Hin He (n1 & n2 & tr & ->). repeat (apply elem_of_cons in Hin as [[= -> ->]|Hin]); [| |by apply not_elem_of_nil in Hin];
    by vm_compute in He.
Qed.
Lemma press_stage held n1 n2 tr : (1 + held_count held 4 <= n1 < 2 ^ 64 - 1 + held_count held 4)%Z ->
  (1 + held_count held 5 <= n2 < 2 ^ 64 - 1 + held_count held 5)%Z ->
  stage 2 3 7 press_bindings press_ok held (press_world n1 n2 tr).
Proof.
  intros H1 H2. constructor.
  - eexists _, _, _. split_and!; [vm_compute; reflexivity..|]. intros [|[|i]] kb b Hi; by simplify_eq/=.
  - intros kb b Hin. repeat (apply elem_of_cons in Hin as [[= -> ->]|Hin]); [| |by apply not_elem_of_nil in Hin];
      (eexists; split; [vm_compute; reflexivity|]; constructor; [done|done|by left|done]).
  - eexists _, _, _, _, _. split; [vm_compute; reflexivity|done].
  - by exists n1, n2, tr.
Qed.
Lemma press_emits w kb b : (kb, b) ∈ press_bindings -> stage 2 3 7 press_bindings press_ok (Some kb) w ->
  exists r w', @di_emitn recording_env null_ffi kb (Some "pressed") [] w = Ret r w' /\
    stage 2 3 7 press_bindings press_ok (Some kb) w' /\ trace w' = rev [ExtCall "handler" []] ++ trace w.
Proof.
  intros Hin Hs. destruct (st_handlers _ _ _ _ _ _ _ Hs) as (n1 & n2 & tr & ->).
  exists 0%Z, (press_world n1 n2 (ExtCall "handler" [] :: tr)). split; [by eapply press_emit|]. split; [|done].
  apply press_stage.
  - destruct (st_kb _ _ _ _ _ _ _ Hs 4%positive (Binding 97 (Some [38; 24]) 4 true)%Z) as (ob & Ho & Hr); [by left|].
    vm_compute in Ho. injection Ho as <-. exact (kr_count _ _ _ _ Hr).
  - destruct (st_kb _ _ _ _ _ _ _ Hs 5%positive (Binding 98 (Some [38; 40; 38]) 4 false)%Z) as (ob & Ho & Hr); [by right; left|].
    vm_compute in Ho. injection Ho as <-. exact (kr_count _ _ _ _ Hr).
Qed.

Lemma handle_press_correct_witness :
  exists w1, @handle_press recording_env null_ffi 2 3 38 4 "pressed" (press_world 1 1 []) =
      Ret tt (add_trace (ExtCall "xcb_flush" [VNint 7])
        (add_trace (ExtCall "xcb_allow_events" [VNint 7; VNint XCB_ALLOW_SYNC_KEYBOARD; VNint 0]) w1)) /\
    trace w1 = replicate 3 (ExtCall "handler" []).
Proof.
  destruct (@handle_press_correct recording_env null_ffi 2 3 7 press_bindings "pressed" press_ok
    (fun _ => [ExtCall "handler" []]) press_count press_unreferred press_emits 38 4 (press_world 1 1 [])) as [Hgood _].
  - repeat constructor; vm_compute; lia.
  - vm_compute. lia.
  - apply press_stage; vm_compute; split; congruence.
  - destruct Hgood as (w1 & _ & Ht & Hr).
    + repeat constructor; by intros [_ ?].
    + exists w1. split; [exact Hr|]. rewrite Ht. reflexivity.
Defined.
